(* ===== verification/_CoqProject ===== *)
-Q . S2P
Prelude.v
Errors.v
Config.v
RateLimiter.v
RoleEvents.v
Effects.v
Api.v
Crd.v
Memory.v
DeepCopy.v
Patch.v
Client.v
Interface.v
Strconv.v
Version.v
Fake.v
ApiClient.v
Marker.v
MarkerCache.v
MarkerSpec.v
Collector.v
Reference.v
Desired.v
Convergence.v
BindingStore.v
ServerInvariant.v
Creation.v
State.v
Conflict.v
FieldDiffs.v
KubeExample.v
Provider.v
Bindings.v
Application.v
Credentials.v
Membership.v
Reconcile.v
Startup.v
Status.v
MatchSpec.v
Access.v
Adoption.v
Panics.v
Calls.v
CallBounds.v
StartupSpec.v
Orders.v
ResolveSpec.v
NoPanic.v
FakeLogic.v
Lookup.v
ProviderOnServer.v
EndToEnd.v
Safety.v
SpecRace.v
Release.v
