(* ===== verification/Prelude.v ===== *)
(** * Verification of authentik-operator

    authentik-operator is a Kubernetes operator: a resource [AuthentikApplication] describes an Application of the
    identity provider authentik, its Provider and the Bindings that grant access to it, and the operator makes the
    objects in authentik match the resource. This development models the operator's Go code in Rocq and proves what
    makes it correct. The definitions keep the names of the source.

    ** The program

    A reconcile ([internal/controller]) reads a resource, makes sure that no other resource manages the same slug,
    resolves the references of the spec ([internal/reference]), and then observes, adopts, creates or repairs the
    Application, the Provider, its Outpost and the Bindings through the API of authentik ([internal/authentik]).
    What an object should be is computed as a PATCH request whose unset fields are not managed; comparing it with
    the observed object gives the request that is sent. The objects that the operator manages carry a marker: a
    permission of a role of the operator on the object ([internal/ownership]), cached by the reconciler. A deleted
    resource releases its objects before its finalizer is removed.

    ** How code is modelled

    - The calls to authentik, the Kubernetes API, the event recorder and the clock are the constructors of the
      signature [Interface.call], one per method of the Go interface. A Go method is a finite program over these
      calls that threads the memory it mutates and ends with a value, an error or a run-time panic ([Effects.M]).
      Mutations made before an error stay. Loops over slices are folds, so every method terminates by construction;
      the loop over the pages of a list API takes fuel ([Client.listAll]), and one unit per page and one more are
      proved to be enough; the endless loop of the collector runs for any number of ticks
      ([MarkerCache.collector_Start]); the goroutine that feeds the work queue is a step relation ([RoleEvents]).
    - The services answer as an environment says: in any way whatever ([Interface.any_env]), as the in-memory authentik
      does ([MarkerSpec.fake_env]), or under a named condition ([NoPanic.spec_kept], [Release.role_is_gone]).
    - The memory of a reconcile is [State.reconcileState]: the resource, the copy that the status patch starts from,
      the resolved references and the marker cache. A pointer is an [option], a nil slice that is told apart from an
      empty one is an [option] of a list, a map that may be nil an [option] of a finite map.
    - Errors are values with their chain ([Errors.error]); [errors.As] and [errors.Is] search it as Go does.
      Conversions to int32 wrap ([int32_wrap]).
    - Code of other projects is a parameter: the helpers of the Kubernetes libraries with the laws of their
      documentation ([State.KubeLib], [State.KubeLibLaws]), the JSON encoding of the models of client-go
      ([FieldDiffs.ModelJSON]), [json.Unmarshal] and [json.Marshal] on error bodies ([Errors]), the requests of
      client-go and the server behind them ([Client], [ApiClient.RestServer]), its configuration and the packages
      net/url, crypto/x509 and os ([Config.ClientGo], [Config.Libraries]), the deep copies of the types of metav1
      ([DeepCopy.MetaV1]), the limiters of the work queue
      ([RateLimiter.Workqueue]) and the build information ([Version]). Every class of laws has an instance, that of the
      Kubernetes libraries in [KubeExample].

    ** The files

    - [Errors]: [internal/authentik/errors.go], [internal/reference/error.go]. Error values, redaction of bodies.
    - [Effects]: programs over calls, the monad of methods, weakest preconditions. No code of the operator.
    - [Api], [Crd]: the models of client-go, and [api/v1alpha1/authentikapplication_types.go] with its validation.
    - [DeepCopy]: [api/v1alpha1/zz_generated.deepcopy.go], on the memory of cells with addresses of [Memory].
    - [Patch]: [internal/authentik/patch.go]. [Desired]: [internal/controller/desired.go].
    - [Client], [ApiClient]: [internal/authentik/apiclient.go] and [metrics.go]: the request wrapper, the pagination,
      and the methods over the requests of client-go. [Config]: [config.go] and [client.go].
    - [Version], with [Strconv] for the conversions it uses: [version.go].
    - [Interface]: [internal/authentik/interface.go]. [Fake]: [internal/authentik/fake/fake.go], the authentik that
      the theorems about effects on the server refer to.
    - [Marker]: [internal/ownership/marker.go]. [MarkerCache]: [internal/controller/markers.go] and [gc.go], whose
      goroutine is [RoleEvents].
    - [Reference]: [internal/reference/resolver.go].
    - [State], [Conflict], [FieldDiffs], [Provider], [Bindings], [Application], [Reconcile]: [internal/controller],
      with [adoption.go] in [FieldDiffs] and [Application], [outpost.go] in [Provider], [credentials.go] in
      [Application] and [deletion.go] in [Provider] and [Reconcile].
    - [RateLimiter]: [internal/retry/ratelimiter.go]. [Startup]: [cmd/main.go] and [SetupWithManager].
    - [Calls], [Panics], [ResolveSpec]: the program logics of the theorems about a whole reconcile: which calls are
      made in which order, the absence of panics, the completeness of a resolution. [CallBounds] has the calls of
      each method. [FakeLogic] is the logic of what a method achieves on the server, [Lookup] what the references of a
      spec name there.

    ** What the theorems show

    - The whole ([EndToEnd], with [ProviderOnServer] for the Provider): a successful reconcile leaves the Application, its
      Provider, the Outpost and the access as the spec says, for the objects that the references of the spec name.
    - Repair ([Convergence], [BindingStore]): the PATCH computed for a drifted Application, Provider or Binding is
      accepted by the server, reaches the desired state at once, so that the next comparison finds nothing to do,
      and leaves unmanaged fields alone. A Proxy Provider in mode proxy is the exception, which is proved too.
    - Creation ([Creation]): what the operator creates is read back as desired, and every request for a validated
      spec is complete and well typed. The orders of new Bindings are bounded, and wrap beyond int32 ([Orders]).
    - Effect on the server: access is what the rules say after the Bindings were reconciled, and what they do not say,
      such as whether a Binding is enabled, is kept ([Access]), an existing Application is taken over only when that is
      allowed ([Adoption]), a Provider joins its new Outpost before it leaves the old one ([Membership]), exported
      credentials are resolved again, and for equal keys the client secret is sent as the client ID ([Credentials]).
    - Ordering and safety ([Safety], [Release]): against services that answer anything, an outcome that reports a
      decision means that no Application, Provider, Binding or Outpost was written, and a refusal that nothing was
      marked; deletions come last; the finalizer comes before any write to authentik; a release touches recorded
      objects only, and an Application only while it is the recorded one.
    - Ownership ([MarkerSpec], [Collector]): the marker methods implement a set of objects per role, the cache is
      sound for it, the collection removes exactly the markers of missing objects, at every tick of the collector. A
      remembered role that is gone blocks a deletion ([Release]).
    - Decisions: one winner per slug, whose change is observed ([Conflict]), maximal matching of Bindings
      ([MatchSpec]), exact adoption diffs ([FieldDiffs]), complete resolutions ([ResolveSpec]), the reported status
      ([Status]).
    - Copies ([DeepCopy]): a deep copy holds the same value in new memory, and writes to the one leave the other alone.
      The other files treat a resource as a value, and a copy as the value itself.
    - Panics ([NoPanic], [SpecRace]): a reconcile of a valid resource never panics if the answer of a status patch keeps
      the spec; one that records an Application while the spec gains a Provider always does.
    - The client: in front of a REST server that behaves like the in-memory authentik, every method of the API client
      refines the method of the in-memory one ([ApiClient]), whose states satisfy an invariant ([ServerInvariant]).
      Pagination ([Client]), redaction ([Errors]), versions ([Version]), the configuration of TLS ([Config]).
    - The process: the start takes its steps in order and survives the failures of authentik ([StartupSpec]), the
      delays of retries are bounded ([RateLimiter]), the goroutine that feeds the work queue ends ([RoleEvents]).

    ** Not modelled

    The parsing of the command line, the scheme registration and the logger of [cmd/main.go]; latencies, the timeouts
    of the contacts at the start, and the contents of logs beyond their messages; the mutexes of the marker and of the
    fake, whose critical sections are atomic steps; the copies that the fake makes of values, which are immutable
    here. The timestamps of conditions and the metadata that the operator never
    reads are left out of the records. Interleavings of several reconciles are not modelled: the operator runs one
    at a time. *)
From Stdlib Require Export ZArith Lia Ascii.
From stdpp Require Export base numbers gmap sets strings pretty option list.

#[export] Set Warnings "-register-all,-clear-no-such-hyp".

(** ** Scopes and hint databases of the development *)

Declare Scope go_scope.
Delimit Scope go_scope with go.
Open Scope Z_scope.

(** Lemmas that simplify the pure helpers below, for [autorewrite]. *)
Create Rewrite HintDb go_rw.

(** Lemmas that close routine goals, for [eauto]. *)
Create HintDb go discriminated.

(** ** Tactics *)

(** Split conjunctions, existentials and equations of constructors in the context. *)
Ltac inv_all :=
  repeat match goal with
  | H : _ /\ _ |- _ => destruct H
  | H : exists _, _ |- _ => destruct H
  | H : Some _ = Some _ |- _ => injection H as H
  | H : (_, _) = (_, _) |- _ => injection H as H
  | H : Some _ = None |- _ => discriminate H
  | H : None = Some _ |- _ => discriminate H
  end; subst.

(** Destruct the scrutinee of some match or [if] of the goal. *)
Ltac break_goal :=
  match goal with
  | |- context [match ?x with _ => _ end] =>
      lazymatch x with
      | context [match _ with _ => _ end] => fail
      | _ => let E := fresh "E" in destruct x eqn:E
      end
  end.

(** ** Go pointers, slices and integers *)

(** [*T]: nil is [None]. [cmp.Or] on pointers (and [firstNonNil]) is the first non-nil argument. *)
Definition or_else {A} (x y : option A) : option A :=
  match x with Some _ => x | None => y end.

(** Wrap an integer to the int32 range, as the Go conversion [int32(x)] and int32 arithmetic do. *)
Definition int32_wrap (z : Z) : Z := (z + 2 ^ 31) mod 2 ^ 32 - 2 ^ 31.

Definition max_int32 : Z := 2 ^ 31 - 1.

Definition is_int32 (z : Z) : Prop := - 2 ^ 31 <= z <= max_int32.

Lemma int32_wrap_range z : is_int32 (int32_wrap z).
Proof.
  unfold is_int32, int32_wrap, max_int32.
  pose proof (Z.mod_pos_bound (z + 2 ^ 31) (2 ^ 32)). lia.
Qed.

Lemma int32_wrap_id z : is_int32 z -> int32_wrap z = z.
Proof.
  unfold is_int32, int32_wrap, max_int32. intros.
  rewrite Z.mod_small; lia.
Qed.

(** [cmp.Compare] as an integer, on an ordered type given by its three-way comparison. *)
Definition cmp_int (c : comparison) : Z :=
  match c with Lt => -1 | Eq => 0 | Gt => 1 end.

(** [cmp.Or] on integers: the first non-zero argument. *)
Definition cmp_or (x y : Z) : Z := if decide (x = 0) then y else x.

(** ** Go strings (byte strings) *)

Definition quote_char : ascii := Ascii.ascii_of_nat 34.
Definition backslash_char : ascii := Ascii.ascii_of_nat 92.

(** [strings.Join]. *)
Fixpoint strings_join (sep : string) (parts : list string) : string :=
  match parts with
  | [] => ""
  | [p] => p
  | p :: rest => p +:+ sep +:+ strings_join sep rest
  end.

(** [strings.Cut] on a one-byte separator: the parts before and after its first occurrence. *)
Fixpoint strings_cut (sep : ascii) (s : string) : string * string * bool :=
  match s with
  | EmptyString => ("", "", false)
  | String c rest =>
      if decide (c = sep) then ("", rest, true)
      else let '(before, after, found) := strings_cut sep rest in (String c before, after, found)
  end.

(** [strings.Split] on a one-byte separator. *)
Fixpoint strings_split (sep : ascii) (s : string) : list string :=
  match s with
  | EmptyString => [""]
  | String c rest =>
      if decide (c = sep) then "" :: strings_split sep rest
      else match strings_split sep rest with
           | [] => [String c ""]
           | p :: ps => String c p :: ps
           end
  end.

(** [strings.HasPrefix] and [strings.Contains]. *)
Definition strings_has_prefix (s prefix : string) : bool := String.prefix prefix s.

Fixpoint strings_contains (s sub : string) : bool :=
  strings_has_prefix s sub ||
  match s with
  | EmptyString => false
  | String _ rest => strings_contains rest sub
  end.

(** [strings.Replace(s, old, new, 1)] on a one-byte [old]. *)
Fixpoint strings_replace1 (s : string) (old : ascii) (new : string) : string :=
  match s with
  | EmptyString => ""
  | String c rest => if decide (c = old) then new +:+ rest else String c (strings_replace1 rest old new)
  end.

(** [strings.TrimPrefix] on a one-byte prefix. *)
Definition strings_trim_prefix1 (s : string) (c : ascii) : string :=
  match s with
  | String c' rest => if decide (c' = c) then rest else s
  | EmptyString => s
  end.

Definition hex_digit (n : nat) : ascii :=
  Ascii.ascii_of_nat (if (n <? 10)%nat then 48 + n else 87 + n).

(** The escape of one byte by [strconv.Quote]. Bytes of multi-byte characters are kept: the strings of the
    program are valid UTF-8 made of printable characters. *)
Definition quote_byte (c : ascii) : string :=
  let n := Ascii.nat_of_ascii c in
  if (n =? 34)%nat then String backslash_char (String quote_char "")
  else if (n =? 92)%nat then String backslash_char (String backslash_char "")
  else if (n =? 7)%nat then "\a" else if (n =? 8)%nat then "\b" else if (n =? 12)%nat then "\f"
  else if (n =? 10)%nat then "\n" else if (n =? 13)%nat then "\r" else if (n =? 9)%nat then "\t"
  else if (n =? 11)%nat then "\v"
  else if (n <? 32)%nat || (n =? 127)%nat
       then "\x" +:+ String (hex_digit (n / 16)) (String (hex_digit (n mod 16)) "")
       else String c "".

Fixpoint quote_body (s : string) : string :=
  match s with
  | EmptyString => ""
  | String c rest => quote_byte c +:+ quote_body rest
  end.

(** The verb [%q] of [fmt] on a string. *)
Definition fmt_q (s : string) : string :=
  String quote_char "" +:+ quote_body s +:+ String quote_char "".

(** The verb [%d], [strconv.Itoa] and [fmt.Sprint] on an integer. *)
Definition fmt_d (z : Z) : string := pretty z.

(** ** Lists *)

Definition bool_of {P : Prop} `{Decision P} : bool := bool_decide P.

Lemma existsb_elem_of {A} (f : A -> bool) (l : list A) :
  existsb f l = true <-> exists x, x ∈ l /\ f x = true.
Proof.
  rewrite existsb_exists. by setoid_rewrite list_elem_of_In.
Qed.

Lemma forallb_elem_of {A} (f : A -> bool) (l : list A) :
  forallb f l = true <-> forall x, x ∈ l -> f x = true.
Proof.
  rewrite forallb_forall. by setoid_rewrite list_elem_of_In.
Qed.

(** ** Append and length of strings *)

Lemma string_app_length (s t : string) :
  String.length (s +:+ t) = (String.length s + String.length t)%nat.
Proof. induction s as [|c s IH]; [done|]. change (S (String.length (s +:+ t)) = S (String.length s) + String.length t)%nat. lia. Qed.

Lemma string_app_assoc (s t u : string) : s +:+ (t +:+ u) = (s +:+ t) +:+ u.
Proof. induction s as [|c s IH]; [done|]. change (String c (s +:+ (t +:+ u)) = String c ((s +:+ t) +:+ u)). by rewrite IH. Qed.

Lemma strings_cut_app (sep : ascii) (s t : string) :
  (strings_cut sep s).2 = false ->
  strings_cut sep (s +:+ String sep t) = (s, t, true).
Proof.
  induction s as [|c s IH]; simpl; intros Hs.
  - by rewrite decide_True.
  - destruct (decide (c = sep)) as [->|Hne]; [done|].
    destruct (strings_cut sep s) as [[b a] f] eqn:E; simpl in *; subst.
    change ((s +:+ String sep t)%string) with (String.append s (String sep t)) in IH.
    by rewrite IH.
Qed.

Lemma strings_cut_join (sep : ascii) (s before after : string) :
  strings_cut sep s = (before, after, true) -> s = before +:+ String sep after.
Proof.
  revert before after. induction s as [|c s IH]; simpl; intros before after H; [done|].
  destruct (decide (c = sep)) as [->|Hne]; [by simplify_eq|].
  destruct (strings_cut sep s) as [[b a] f] eqn:E; simplify_eq.
  by rewrite (IH _ _ eq_refl).
Qed.

(** The part before the first separator does not contain it. *)
Lemma strings_cut_before (sep : ascii) (s before after : string) :
  strings_cut sep s = (before, after, true) -> (strings_cut sep before).2 = false.
Proof.
  revert before after. induction s as [|c s IH]; simpl; intros before after H; [done|].
  destruct (decide (c = sep)) as [->|Hne]; [by simplify_eq|].
  destruct (strings_cut sep s) as [[b a] f] eqn:E; simplify_eq. simpl. rewrite decide_False by done.
  specialize (IH b after eq_refl). by destruct (strings_cut sep b) as [[? ?] ?].
Qed.
