(* ===== verification/Errors.v ===== *)
(** * Errors of the operator

    Go error values as one inductive type: the errors of the authentik client
    ([internal/authentik/errors.go]), the unresolved references of [internal/reference/error.go], the
    [stopError] of [internal/controller/authentikapplication_controller.go], and what [fmt.Errorf] with [%w] and
    [errors.Join] build from them, with [errors.Is] and [errors.As] following the chain.
    The redaction of confidential values in API error bodies is modelled on decoded JSON. *)
From S2P Require Import Prelude.

(** ** Error values *)

(** [ErrNotFound] is matched through [APIError.Is]; no code returns the sentinel itself. *)
Inductive client_error : Type :=
  | APIError (Operation : string) (StatusCode : Z) (Body : string)
  | CallFailed (Operation : string) (message : string).

(** Errors of the Kubernetes API: [apierrors.IsNotFound] and the message. *)
Record kube_error : Type := KubeError {
  kube_not_found : bool;
  kube_message : string;
}.

(** [reference.Failure]. *)
Record Failure : Type := mkFailure {
  Failure_Path : string;
  Failure_Target : string;
  Failure_Matches : Z;
}.

Inductive error : Type :=
  | ClientError (e : client_error)
  | KubeAPIError (e : kube_error)
  | ReferenceError (Failures : list Failure)
  | StopError (reason message : string)
  | ErrorString (message : string)
  | Wrapped (prefix : string) (err : error)
  | Joined (errs : list error).

(** [(value, error)] results: the value is used only when the error is nil. *)
Inductive result (A : Type) : Type :=
  | Ok (a : A)
  | Err (e : error).
Arguments Ok {A} a.
Arguments Err {A} e.

Definition StatusBadRequest : Z := 400.
Definition StatusNotFound : Z := 404.
Definition StatusInternalServerError : Z := 500.

(** ** internal/reference/error.go *)

Definition ReasonReferenceNotFound : string := "ReferenceNotFound".
Definition ReasonAmbiguousReference : string := "AmbiguousReference".

Definition Failure_Ambiguous (f : Failure) : bool := bool_decide (f.(Failure_Matches) > 1).

Definition Failure_String (f : Failure) : string :=
  if Failure_Ambiguous f
  then f.(Failure_Path) +:+ ": " +:+ f.(Failure_Target) +:+ " matches " +:+ fmt_d f.(Failure_Matches) +:+ " objects"
  else f.(Failure_Path) +:+ ": " +:+ f.(Failure_Target) +:+ " not found".

Definition ReferenceError_Error (failures : list Failure) : string :=
  "unresolved references: " +:+ strings_join "; " (Failure_String <$> failures).

(** [Error.Reason]: the first failure that is not ambiguous decides. *)
Fixpoint ReferenceError_Reason (failures : list Failure) : string :=
  match failures with
  | [] => ReasonAmbiguousReference
  | failure :: rest =>
      if negb (Failure_Ambiguous failure) then ReasonReferenceNotFound else ReferenceError_Reason rest
  end.

(** ** internal/authentik/errors.go: matching errors *)

Definition client_error_Error (e : client_error) : string :=
  match e with
  | APIError op code body => "authentik API " +:+ op +:+ " returned " +:+ fmt_d code +:+ ": " +:+ body
  | CallFailed op message => "authentik API " +:+ op +:+ " failed: " +:+ message
  end.

(** The [Error] method. *)
Fixpoint error_Error (e : error) : string :=
  match e with
  | ClientError e => client_error_Error e
  | KubeAPIError e => e.(kube_message)
  | ReferenceError failures => ReferenceError_Error failures
  | StopError _ message => message
  | ErrorString message => message
  | Wrapped prefix err => prefix +:+ ": " +:+ error_Error err
  | Joined errs => strings_join (String (Ascii.ascii_of_nat 10) "") (map error_Error errs)
  end.

(** [APIError.Is] with target [ErrNotFound]. *)
Definition APIError_Is_NotFound (e : client_error) : bool :=
  match e with
  | APIError _ code _ => bool_decide (code = StatusNotFound)
  | CallFailed _ _ => false
  end.

(** [errors.As]: the first error of the chain, depth first, that the target accepts. *)
Fixpoint errors_as {A} (target : error -> option A) (e : error) : option A :=
  match target e with
  | Some a => Some a
  | None =>
      match e with
      | Wrapped _ err => errors_as target err
      | Joined errs => fold_right (fun err acc => or_else (errors_as target err) acc) None errs
      | _ => None
      end
  end.

Definition as_api_error (e : error) : option client_error :=
  match e with ClientError (APIError op code body) => Some (APIError op code body) | _ => None end.

Definition as_stop_error (e : error) : option (string * string) :=
  match e with StopError reason message => Some (reason, message) | _ => None end.

Definition as_reference_error (e : error) : option (list Failure) :=
  match e with ReferenceError failures => Some failures | _ => None end.

Definition as_not_found (e : error) : option unit :=
  match e with ClientError e => if APIError_Is_NotFound e then Some () else None | _ => None end.

(** [errors.Is(err, authentik.ErrNotFound)]. *)
Definition is_not_found (e : error) : bool :=
  match errors_as as_not_found e with Some _ => true | None => false end.

(** [apierrors.IsNotFound], which follows the chain with [errors.As]. *)
Definition kube_is_not_found (e : error) : bool :=
  match errors_as (fun e => match e with KubeAPIError k => Some k | _ => None end) e with
  | Some k => k.(kube_not_found)
  | None => false
  end.

(** [errors.Join] on the non-nil errors of its arguments; nil when there is none. *)
Definition errors_Join (errs : list (option error)) : option error :=
  match omap id errs with
  | [] => None
  | es => Some (Joined es)
  end.

(** ** internal/authentik/errors.go: error bodies *)

Definition maxErrorBodyLength : nat := 4096.
Definition Redacted : string := "(redacted)".
Definition ConfidentialFields : list string := ["client_secret"; "password"; "token"].

(** JSON values as [json.Unmarshal] decodes them into [any]; numbers are kept as their text. *)
Inductive json : Type :=
  | JNull
  | JBool (b : bool)
  | JNumber (text : string)
  | JString (s : string)
  | JArray (items : list json)
  | JObject (fields : list (string * json)).

Definition is_json_string (v : json) : bool :=
  match v with JString _ => true | _ => false end.

(** The function mutates a freshly decoded value; here it returns the new value. *)
Fixpoint redactValue (value : json) : json :=
  match value with
  | JObject fields =>
      JObject (map (fun '(key, child) =>
                 if is_json_string child && bool_decide (key ∈ ConfidentialFields)
                 then (key, JString Redacted)
                 else (key, redactValue child)) fields)
  | JArray items => JArray (map redactValue items)
  | _ => value
  end.

Section bodies.
(** [json.Unmarshal] and [json.Marshal] on [any]; [None] is their error. *)
Context (json_Unmarshal : string -> option json) (json_Marshal : json -> option string).

Definition redactBody (body : string) : string :=
  match json_Unmarshal body with
  | None => body
  | Some value =>
      match json_Marshal (redactValue value) with
      | None => body
      | Some out => out
      end
  end.

(** [openAPIErr] is the body kept by client-go in the error, [respBody] the body of the response. *)
Definition errorBody (respBody openAPIErr : option string) : string :=
  let body := match openAPIErr with
              | Some b => b
              | None => match respBody with
                        | Some b => String.substring 0 maxErrorBodyLength b
                        | None => ""
                        end
              end in
  let redacted := redactBody body in
  if bool_decide (maxErrorBodyLength < String.length redacted)%nat
  then String.substring 0 maxErrorBodyLength redacted else redacted.

(** An HTTP response: its status code and body. [err] is the error of client-go, with the body it keeps. *)
Record http_response : Type := mkResponse {
  resp_StatusCode : Z;
  resp_Body : option string;
}.

Record openapi_error : Type := mkOpenAPIError {
  oae_Body : option string;
  oae_message : string;
}.

Definition wrapError (operation : string) (resp : option http_response) (err : option openapi_error) : option client_error :=
  match resp with
  | Some r =>
      if bool_decide (r.(resp_StatusCode) < 200 \/ r.(resp_StatusCode) > 299) then
        Some (APIError operation r.(resp_StatusCode)
                (errorBody r.(resp_Body) (match err with Some e => e.(oae_Body) | None => None end)))
      else match err with
           | Some e => Some (CallFailed operation e.(oae_message))
           | None => None
           end
  | None =>
      match err with
      | Some e => Some (CallFailed operation e.(oae_message))
      | None => None
      end
  end.
End bodies.

(** ** Lemmas *)

(** Induction on JSON values, with the hypothesis for every item and field. *)
Lemma json_ind' (P : json -> Prop) :
  P JNull -> (forall b, P (JBool b)) -> (forall t, P (JNumber t)) -> (forall s, P (JString s)) ->
  (forall items, Forall P items -> P (JArray items)) ->
  (forall fields, Forall (fun kv => P kv.2) fields -> P (JObject fields)) ->
  forall v, P v.
Proof.
  intros Hn Hb Hnum Hs Ha Ho. fix IH 1. intros [| | | |items|fields].
  - apply Hn.
  - apply Hb.
  - apply Hnum.
  - apply Hs.
  - apply Ha. induction items; constructor; auto.
  - apply Ho. induction fields as [|[k c] fields IHf]; constructor; [apply IH|apply IHf].
Qed.

(** [reflect.DeepEqual] on decoded values; an object lists its fields in the order of their keys. *)
Fixpoint json_eqb (x y : json) : bool :=
  match x, y with
  | JNull, JNull => true
  | JBool b, JBool b' => eqb b b'
  | JNumber t, JNumber t' | JString t, JString t' => bool_decide (t = t')
  | JArray items, JArray items' =>
      (fix go items items' :=
         match items, items' with
         | [], [] => true
         | v :: items, v' :: items' => json_eqb v v' && go items items'
         | _, _ => false
         end) items items'
  | JObject fields, JObject fields' =>
      (fix go fields fields' :=
         match fields, fields' with
         | [], [] => true
         | (k, v) :: fields, (k', v') :: fields' => bool_decide (k = k') && json_eqb v v' && go fields fields'
         | _, _ => false
         end) fields fields'
  | _, _ => false
  end.

Lemma json_eqb_spec x y : json_eqb x y = true <-> x = y.
Proof.
  revert y. induction x as [|b|t|s|items IH|fields IH] using json_ind'; intros [|b'|t'|s'|items'|fields'];
    simpl; rewrite ?eqb_true_iff, ?bool_decide_eq_true; try (split; congruence).
  - transitivity (items = items'); [|split; congruence].
    revert items'. induction IH as [|v items Hv _ IHi]; intros [|v' items']; try done.
    rewrite andb_true_iff, Hv, IHi. split; [by intros [-> ->]|by intros [= -> ->]].
  - transitivity (fields = fields'); [|split; congruence].
    revert fields'. induction IH as [|[k v] fields Hv _ IHf]; intros [|[k' v'] fields']; try done.
    rewrite !andb_true_iff, bool_decide_eq_true, Hv, IHf. simpl.
    split; [by intros [[-> ->] ->]|by intros [= -> -> ->]].
Qed.

#[export] Instance json_eq_dec : EqDecision json.
Proof. intros x y. destruct (json_eqb x y) eqn:E; [left|right]; rewrite <- json_eqb_spec; congruence. Defined.

(** No confidential field of the value, at any depth, holds a string other than the replacement. *)
Inductive redacted_json : json -> Prop :=
  | redacted_null : redacted_json JNull
  | redacted_bool b : redacted_json (JBool b)
  | redacted_number t : redacted_json (JNumber t)
  | redacted_string s : redacted_json (JString s)
  | redacted_array items : Forall redacted_json items -> redacted_json (JArray items)
  | redacted_object fields :
      Forall (fun kv => redacted_json kv.2) fields ->
      (forall key s, (key, JString s) ∈ fields -> key ∈ ConfidentialFields -> s = Redacted) ->
      redacted_json (JObject fields).

(** ** Places in a JSON value *)

(** What a value is apart from its children: the keys of an object, the length of an array, or a scalar. *)
Inductive json_node : Type :=
  | NodeScalar (v : json)
  | NodeArray (length : nat)
  | NodeObject (keys : list string).

Definition node_of (v : json) : json_node :=
  match v with
  | JArray items => NodeArray (length items)
  | JObject fields => NodeObject fields.*1
  | _ => NodeScalar v
  end.

(** The node at a path, which counts the items of arrays and the fields of objects, with the key that the node has
    when it is a field of an object; [key] is that of the value itself. *)
Fixpoint locate (path : list nat) (key : option string) (v : json) : option (option string * json_node) :=
  match path, v with
  | [], _ => Some (key, node_of v)
  | i :: path, JArray items => item ← items !! i; locate path None item
  | i :: path, JObject fields => field ← fields !! i; locate path (Some field.1) field.2
  | _ :: _, _ => None
  end.

(** A string in a field that is confidential. *)
Definition confidential (place : option string * json_node) : bool :=
  match place with
  | (Some key, NodeScalar (JString _)) => bool_decide (key ∈ ConfidentialFields)
  | _ => false
  end.

(** What is found at a place after the redaction. *)
Definition redact_place (place : option string * json_node) : option string * json_node :=
  if confidential place then (place.1, NodeScalar (JString Redacted)) else place.

Lemma as_reference_error_stop e r m : e = StopError r m -> as_reference_error e = None.
Proof. by intros ->. Qed.

Lemma is_not_found_api op code body :
  is_not_found (ClientError (APIError op code body)) = bool_decide (code = StatusNotFound).
Proof. unfold is_not_found. simpl. by case_bool_decide. Qed.

#[export] Hint Rewrite is_not_found_api : go_rw.

(** ** Redaction *)

Lemma redactValue_redacted v : redacted_json (redactValue v).
Proof.
  induction v as [| | | |items IH|fields IH] using json_ind'; simpl; try constructor.
  - by apply Forall_fmap.
  - apply Forall_fmap. eapply Forall_impl; [exact IH|]. intros [k c] Hc. simpl in *.
    destruct (is_json_string c && _); [constructor|done].
  - intros key s ([k c] & Heq & _)%list_elem_of_fmap Hkey.
    destruct (is_json_string c && bool_decide (k ∈ ConfidentialFields)) eqn:E; simplify_eq/=; [done|].
    destruct c; simplify_eq/=. by rewrite bool_decide_eq_true_2 in E.
Qed.

Lemma redactValue_id v : redacted_json v -> redactValue v = v.
Proof.
  induction v as [| | | |items IH|fields IH] using json_ind'; simpl; try done; inversion 1 as [| | | |? Hi|? Hf Hs]; subst.
  - f_equal. clear H. induction Hi as [|v items Hv Hi IHi]; [done|]. apply Forall_cons in IH as [IHv IH]. simpl. f_equal; auto.
  - f_equal. assert (Hall : forall kv, kv ∈ fields -> (let '(key, child) := kv in
      if is_json_string child && bool_decide (key ∈ ConfidentialFields) then (key, JString Redacted)
      else (key, redactValue child)) = kv).
    { intros [k c] Hin. rewrite Forall_forall in IH, Hf. destruct (is_json_string c && _) eqn:E.
      - apply andb_true_iff in E as [Ec Ek%bool_decide_eq_true]. destruct c; simplify_eq/=. by rewrite <- (Hs _ _ Hin Ek).
      - f_equal. by apply (IH _ Hin), (Hf _ Hin). }
    rewrite <- (list_fmap_id fields) at 2. apply list_fmap_ext. intros i kv Hi. apply Hall. by eapply list_elem_of_lookup_2.
Qed.

Lemma node_of_redactValue v : node_of (redactValue v) = node_of v.
Proof.
  destruct v as [| | | |items|fields]; try done; simpl.
  - by rewrite length_map.
  - f_equal. induction fields as [|[k c] fields IH]; [done|]. simpl. f_equal; [|exact IH].
    by destruct (is_json_string c && _).
Qed.

Lemma redact_place_no_string key v : is_json_string v = false -> redact_place (key, node_of v) = (key, node_of v).
Proof. by destruct v, key. Qed.

(** The places below a value: its own key does not matter to them. *)
Lemma locate_redactValue v path key :
  path <> [] -> locate path key (redactValue v) = redact_place <$> locate path key v.
Proof.
  revert path key. induction v as [| | | |items IH|fields IH] using json_ind'; intros [|i path] key Hp; try done; simpl.
  - rewrite list_lookup_fmap. destruct (items !! i) as [v|] eqn:Hi; simpl; [|done].
    rewrite Forall_lookup in IH. specialize (IH _ _ Hi). destruct path as [|j path]; [|by apply IH].
    simpl. by rewrite node_of_redactValue.
  - rewrite list_lookup_fmap. destruct (fields !! i) as [[k c]|] eqn:Hi; simpl; [|done].
    rewrite Forall_lookup in IH. specialize (IH _ _ Hi). simpl in IH.
    destruct (is_json_string c) eqn:Ec; simpl.
    + destruct c; try done. case_bool_decide as Hk; destruct path as [|j path]; try done; simpl;
        unfold redact_place, confidential; by rewrite ?(bool_decide_true _ Hk), ?(bool_decide_false _ Hk).
    + destruct path as [|j path]; [|by apply IH]. simpl. by rewrite node_of_redactValue, redact_place_no_string.
Qed.

(** C32: Redaction replaces every confidential string and nothing else. Whatever a value holds at a place, at any
    depth of objects and arrays, [redactValue] holds there too, with the same keys and lengths, except that a string
    in a field [client_secret], [password] or [token] becomes the replacement; no place is added or lost. In
    particular no such field holds another string afterwards, a value changes exactly when one does, and redacting
    twice is redacting once. *)
Theorem redactValue_exact v :
  (forall path, locate path None (redactValue v) = redact_place <$> locate path None v) /\
  redacted_json (redactValue v) /\ (redactValue v = v <-> redacted_json v) /\ redactValue (redactValue v) = redactValue v.
Proof.
  split_and!; [|apply redactValue_redacted| |apply redactValue_id, redactValue_redacted].
  - intros [|i path]; [simpl; by rewrite node_of_redactValue|by apply locate_redactValue].
  - split; [intros <-; apply redactValue_redacted|apply redactValue_id].
Qed.
