(* ===== verification/Config.v ===== *)
(** * The configuration of the authentik client

    [internal/authentik/config.go] and [client.go]: the validation of the settings, the HTTP client with its TLS
    settings, and the client of client-go with its server and its header. The file system, the certificate pools and
    the URLs of Go's standard library are read through [Libraries]; the configuration of client-go is [ClientGo]. *)
From S2P Require Import Prelude Errors.

(** ** The settings *)

Record Config : Type := mkConfig {
  Config_URL : string;
  Config_Token : string;
  Config_CAFile : string;
  Config_Insecure : bool;
}.

Definition Config_Validate (c : Config) : option error :=
  errors_Join [
    if decide (c.(Config_URL) = "") then Some (ErrorString "the authentik URL is required (AUTHENTIK_URL)") else None;
    if decide (c.(Config_Token) = "") then Some (ErrorString "the authentik API token is required (AUTHENTIK_TOKEN)")
    else None;
    if bool_decide (c.(Config_CAFile) <> "") && c.(Config_Insecure)
    then Some (ErrorString "--authentik-ca-file and --authentik-insecure cannot be used together") else None].

(** A [time.Duration] in nanoseconds. *)
Definition Millisecond : Z := 10 ^ 6.
Definition Second : Z := 1000 * Millisecond.
Definition Minute : Z := 60 * Second.

Definition requestTimeout : Z := 30 * Second.

(** ** HTTP and TLS *)

(** What the program uses of the standard library. A certificate pool is a list of certificates; [pem_certificates]
    are the certificates that [AppendCertsFromPEM] parses from a file, an error is its message. *)
Class Libraries : Type := {
  Certificate : Type;
  URL : Type;
  default_transport : bool;                                (** [http.DefaultTransport] is an [*http.Transport] *)
  os_ReadFile : string -> string + string;
  x509_SystemCertPool : list Certificate + string;
  pem_certificates : string -> list Certificate;
  url_Parse : string -> URL + string;
  url_Scheme : URL -> string;
  url_Host : URL -> string;
  url_JoinPath : URL -> list string -> string;             (** [JoinPath], then [String] *)
}.

Definition VersionTLS12 : Z := 771.

(** [tls.Config]: the fields that the program sets. A nil [RootCAs] means the certificates of the host. *)
Record tls_Config `{L : Libraries} : Type := mkTLSConfig {
  tls_MinVersion : Z;
  tls_RootCAs : option (list Certificate);
  tls_InsecureSkipVerify : bool;
}.
Arguments mkTLSConfig {L}.

Record http_Client `{L : Libraries} : Type := mkHTTPClient {
  http_TLSClientConfig : tls_Config;
  http_Timeout : Z;
}.
Arguments mkHTTPClient {L}.

Section http.
Context `{Libraries}.

Definition AppendCertsFromPEM (pool : list Certificate) (pem : string) : list Certificate * bool :=
  (pool ++ pem_certificates pem, negb (bool_decide (length (pem_certificates pem) = 0%nat))).

Definition NewHTTPClient (cfg : Config) : result http_Client :=
  if negb default_transport then Err (ErrorString "http.DefaultTransport is not an *http.Transport")
  else
    let pool : result (option (list Certificate)) :=
      if decide (cfg.(Config_CAFile) = "") then Ok None
      else
        match os_ReadFile cfg.(Config_CAFile) with
        | inr err => Err (Wrapped "failed to read the authentik CA file" (ErrorString err))
        | inl pem =>
            let pool := match x509_SystemCertPool with inl pool => pool | inr _ => [] end in
            match AppendCertsFromPEM pool pem with
            | (_, false) =>
                Err (ErrorString ("no PEM certificates found in the authentik CA file " +:+ fmt_q cfg.(Config_CAFile)))
            | (pool, true) => Ok (Some pool)
            end
        end in
    match pool with
    | Err e => Err e
    | Ok roots => Ok (mkHTTPClient (mkTLSConfig VersionTLS12 roots cfg.(Config_Insecure)) requestTimeout)
    end.
End http.

(** ** The client of client-go *)

(** [api.Configuration], as far as the program sets it. The HTTP client is a pointer. *)
Class ClientGo `{L : Libraries} : Type := {
  Configuration : Type;
  NewConfiguration : Configuration;
  set_Servers : list string -> Configuration -> Configuration;
  AddDefaultHeader : string -> string -> Configuration -> Configuration;
  set_HTTPClient : option http_Client -> Configuration -> Configuration;
  get_Servers : Configuration -> list string;
  get_DefaultHeader : Configuration -> gmap string string;
  get_HTTPClient : Configuration -> option http_Client;
}.

(** The fields of a configuration are independent of each other. *)
Class ClientGoLaws `{G : ClientGo} : Prop := {
  get_set_Servers v c : get_Servers (set_Servers v c) = v;
  get_set_HTTPClient v c : get_HTTPClient (set_HTTPClient v c) = v;
  get_add_header k v c : get_DefaultHeader (AddDefaultHeader k v c) = <[k := v]> (get_DefaultHeader c);
  servers_add_header k v c : get_Servers (AddDefaultHeader k v c) = get_Servers c;
  servers_set_http v c : get_Servers (set_HTTPClient v c) = get_Servers c;
  headers_set_http v c : get_DefaultHeader (set_HTTPClient v c) = get_DefaultHeader c;
}.

Section client.
Context `{G : ClientGo}.

(** The client of client-go is its configuration. *)
Definition NewAPIClient (baseURL token : string) (httpClient : option http_Client) : result Configuration :=
  match url_Parse baseURL with
  | inr err => Err (Wrapped "failed to parse authentik URL" (ErrorString err))
  | inl u =>
      if decide ((url_Scheme u <> "http" /\ url_Scheme u <> "https") \/ url_Host u = "") then
        Err (ErrorString ("authentik URL must be an absolute http or https URL: " +:+ fmt_q baseURL))
      else
        let cfg := NewConfiguration in
        let cfg := set_Servers [url_JoinPath u ["api"; "v3"]] cfg in
        let cfg := AddDefaultHeader "Authorization" ("Bearer " +:+ token) cfg in
        Ok (set_HTTPClient httpClient cfg)
  end.

Definition NewClient (cfg : Config) : result Configuration :=
  match Config_Validate cfg with
  | Some err => Err err
  | None =>
      match NewHTTPClient cfg with
      | Err err => Err err
      | Ok httpClient => NewAPIClient cfg.(Config_URL) cfg.(Config_Token) (Some httpClient)
      end
  end.
End client.

(** ** What a client is configured with *)

Section correctness.
Context `{Laws : ClientGoLaws}.

(** The settings are consistent. *)
Definition settings_ok (cfg : Config) : Prop :=
  cfg.(Config_URL) <> "" /\ cfg.(Config_Token) <> "" /\ (cfg.(Config_Insecure) = true -> cfg.(Config_CAFile) = "").

Lemma Validate_ok cfg : Config_Validate cfg = None <-> settings_ok cfg.
Proof.
  unfold Config_Validate, settings_ok. destruct cfg as [url token ca insecure]; simpl.
  destruct (decide (url = "")), (decide (token = "")), (bool_decide_reflect (ca <> "")), insecure; simpl;
    unfold errors_Join; simpl; (split; [|tauto || naive_solver]); intros Hv; try discriminate Hv.
  all: split_and!; [done|done|]; intros Hi; try discriminate Hi; by apply dec_stable.
Qed.

(** The roots that a client trusts: those of the host, or with a CA file also its certificates. *)
Definition roots_ok (cfg : Config) (roots : option (list Certificate)) : Prop :=
  if decide (cfg.(Config_CAFile) = "") then roots = None
  else exists pem, os_ReadFile cfg.(Config_CAFile) = inl pem /\ pem_certificates pem <> [] /\
         roots = Some ((match x509_SystemCertPool with inl pool => pool | inr _ => [] end) ++ pem_certificates pem).

Lemma NewHTTPClient_ok cfg client :
  NewHTTPClient cfg = Ok client <->
  default_transport = true /\ exists roots, roots_ok cfg roots /\
    client = mkHTTPClient (mkTLSConfig VersionTLS12 roots cfg.(Config_Insecure)) requestTimeout.
Proof.
  unfold NewHTTPClient, roots_ok, AppendCertsFromPEM. destruct default_transport; simpl; [|naive_solver].
  case_decide; [naive_solver|]. destruct (os_ReadFile _) as [pem|err]; [|naive_solver].
  destruct (pem_certificates pem) as [|cert certs] eqn:Hp; simpl; [naive_solver|].
  split; [intros [= <-]; split; [done|]; eexists; split; [|done]; exists pem; by rewrite Hp|].
  intros (_ & roots & (pem' & [= <-] & _ & ->) & ->). by rewrite Hp.
Qed.

Lemma NewAPIClient_ok baseURL token client result :
  NewAPIClient baseURL token client = Ok result ->
  exists u, url_Parse baseURL = inl u /\ url_Scheme u ∈ ["http"; "https"] /\ url_Host u <> "" /\
    get_Servers result = [url_JoinPath u ["api"; "v3"]] /\
    get_DefaultHeader result !! "Authorization" = Some ("Bearer " +:+ token) /\ get_HTTPClient result = client.
Proof.
  unfold NewAPIClient. destruct (url_Parse baseURL) as [u|err]; [|done]. case_decide as Hu; [done|]. intros [= <-].
  exists u. rewrite servers_set_http, servers_add_header, get_set_Servers, headers_set_http, get_add_header,
    get_set_HTTPClient, lookup_insert_eq. split_and!; try done; [|naive_solver].
  destruct (decide (url_Scheme u = "http")) as [->|]; [by left|].
  destruct (decide (url_Scheme u = "https")) as [->|]; [by right; left|]. naive_solver.
Qed.

(** C38: A client is configured as the settings say, and securely. [NewClient] succeeds only with consistent
    settings. The client then sends the token to the server of the configured URL, which is an absolute http or https
    URL; it speaks TLS 1.2 or newer and no request takes longer than the timeout; it skips the verification of
    certificates only when that was asked for, and never when a CA file was given; and it trusts the certificates of
    the CA file, of which there is at least one, in addition to those of the host. *)
Theorem NewClient_configuration cfg client :
  NewClient cfg = Ok client ->
  settings_ok cfg /\
  (exists u, url_Parse cfg.(Config_URL) = inl u /\ url_Scheme u ∈ ["http"; "https"] /\ url_Host u <> "" /\
     get_Servers client = [url_JoinPath u ["api"; "v3"]]) /\
  get_DefaultHeader client !! "Authorization" = Some ("Bearer " +:+ cfg.(Config_Token)) /\
  exists http, get_HTTPClient client = Some http /\ http.(http_Timeout) = 30 * Second /\
    http.(http_TLSClientConfig).(tls_MinVersion) = VersionTLS12 /\
    roots_ok cfg http.(http_TLSClientConfig).(tls_RootCAs) /\
    (http.(http_TLSClientConfig).(tls_InsecureSkipVerify) = true <-> cfg.(Config_Insecure) = true) /\
    (http.(http_TLSClientConfig).(tls_InsecureSkipVerify) = true -> http.(http_TLSClientConfig).(tls_RootCAs) = None).
Proof.
  unfold NewClient. destruct (Config_Validate cfg) eqn:Hv; [done|]. apply Validate_ok in Hv.
  destruct (NewHTTPClient cfg) as [http|err] eqn:Hh; [|done]. apply NewHTTPClient_ok in Hh as (_ & roots & Hr & ->).
  intros (u & Hu & Hs & Hhost & Hserver & Htoken & Hhttp)%NewAPIClient_ok.
  split; [done|]. split; [eauto 6|]. split; [done|]. eexists. split; [done|]. simpl. split_and!; try done.
  intros Hi. destruct Hv as (_ & _ & Hca). unfold roots_ok in Hr. by rewrite decide_True in Hr by auto.
Qed.
End correctness.

(** ** Instances

    A host with one certificate, a CA file with another one, and URLs that are their scheme and host. *)
Definition example_files : Libraries := {|
  Certificate := string;
  URL := string * string;
  default_transport := true;
  os_ReadFile file := if decide (file = "/ca.pem") then inl "PEM" else inr "no such file";
  x509_SystemCertPool := inl ["host"];
  pem_certificates pem := if decide (pem = "PEM") then ["internal"] else [];
  url_Parse url := let '(scheme, rest, found) := strings_cut ":"%char url in
                   if (found : bool) then inl (scheme, String.substring 2 (String.length rest) rest)
                   else inl ("", url);
  url_Scheme := fst;
  url_Host := snd;
  url_JoinPath u parts := u.1 +:+ "://" +:+ u.2 +:+ "/" +:+ strings_join "/" parts;
|}.

Definition record_ClientGo (L : Libraries) : ClientGo := {|
  Configuration := list string * gmap string string * option http_Client;
  NewConfiguration := ([], ∅, None);
  set_Servers v c := (v, c.1.2, c.2);
  AddDefaultHeader k v c := (c.1.1, <[k := v]> c.1.2, c.2);
  set_HTTPClient v c := (c.1.1, c.1.2, v);
  get_Servers c := c.1.1;
  get_DefaultHeader c := c.1.2;
  get_HTTPClient c := c.2;
|}.

Lemma record_ClientGoLaws (L : Libraries) : ClientGoLaws (G := record_ClientGo L).
Proof. by split. Qed.

Definition example_config : Config := mkConfig "https://auth.example.com" "secret" "/ca.pem" false.

Definition example_client : result Configuration := NewClient (G := record_ClientGo example_files) example_config.

Definition is_ok {A} (r : result A) : bool := match r with Ok _ => true | Err _ => false end.

(** A client with a CA file. *)
Lemma NewClient_configuration_witness :
  is_ok example_client = true /\
  forall client, example_client = Ok client ->
    exists http, get_HTTPClient client = Some http /\ http.(http_Timeout) = 30 * Second /\
      roots_ok example_config http.(http_TLSClientConfig).(tls_RootCAs).
Proof.
  split; [vm_compute; reflexivity|]. intros client Hc.
  destruct (NewClient_configuration (G := record_ClientGo example_files) (Laws := record_ClientGoLaws _)
    example_config client Hc) as (_ & _ & _ & http & Hh & Ht & _ & Hr & _).
  exists http. split; [exact Hh|]. split; [exact Ht|exact Hr].
Defined.
