(* ===== verification/RateLimiter.v ===== *)
(** * The retry rate limiter

    [internal/retry/ratelimiter.go]: the limiter of failed reconciles. The limiters of client-go are the parameters
    of [Workqueue], with the laws of their documentation, which are stated on what a limiter shows: the delay of an
    item after a history of failures and successes. *)
From S2P Require Import Prelude Config.

(** ** Rate limiters *)

(** [workqueue.TypedRateLimiter]: [When] may change the state of the limiter. Delays are in nanoseconds. *)
Record TypedRateLimiter (T : Type) : Type := mkRateLimiter {
  rl_state : Type;
  rl_initial : rl_state;
  rl_When : T -> rl_state -> rl_state * Z;
  rl_Forget : T -> rl_state -> rl_state;
  rl_NumRequeues : T -> rl_state -> Z;
}.
Arguments mkRateLimiter {T}.
Arguments rl_state {T}.
Arguments rl_initial {T}.
Arguments rl_When {T}.
Arguments rl_Forget {T}.
Arguments rl_NumRequeues {T}.

(** What happens to an item: a reconcile failed, which asks for a delay, or succeeded, which forgets the item. *)
Inductive outcome (T : Type) : Type :=
  | Failed (item : T)
  | Succeeded (item : T).
Arguments Failed {T}.
Arguments Succeeded {T}.

Section observations.
Context {T : Type}.

Definition observe (l : TypedRateLimiter T) (s : l.(rl_state)) (o : outcome T) : l.(rl_state) :=
  match o with
  | Failed item => (l.(rl_When) item s).1
  | Succeeded item => l.(rl_Forget) item s
  end.

Definition state_after (l : TypedRateLimiter T) (history : list (outcome T)) : l.(rl_state) :=
  fold_left (observe l) history l.(rl_initial).

(** The delay of a failure of [item] after the history. *)
Definition delay_after (l : TypedRateLimiter T) (history : list (outcome T)) (item : T) : Z :=
  (l.(rl_When) item (state_after l history)).2.

(** The failures of the item since its last success. *)
Definition failures `{EqDecision T} (history : list (outcome T)) (item : T) : nat :=
  fold_left (fun n o => match o with
                        | Failed i => if decide (i = item) then S n else n
                        | Succeeded i => if decide (i = item) then O else n
                        end) history O.
End observations.

(** ** The limiters of client-go *)

Class Workqueue (T : Type) : Type := {
  NewTypedItemExponentialFailureRateLimiter : Z -> Z -> TypedRateLimiter T;
  TypedBucketRateLimiter : Z -> Z -> TypedRateLimiter T;              (** [rate.NewLimiter] with its limit and burst *)
  NewTypedMaxOfRateLimiter : list (TypedRateLimiter T) -> TypedRateLimiter T;
}.

Class WorkqueueLaws (T : Type) `{EqDecision T} `{Workqueue T} : Prop := {
  exponential_delay base max history item :
    delay_after (NewTypedItemExponentialFailureRateLimiter base max) history item =
      Z.min (base * 2 ^ Z.of_nat (failures history item)) max;
  bucket_delay limit burst history item : 0 <= delay_after (TypedBucketRateLimiter limit burst) history item;
  max_of_delay limiters history item :
    delay_after (NewTypedMaxOfRateLimiter limiters) history item =
      fold_right (fun l acc => Z.max (delay_after l history item) acc) 0 limiters;
}.

(** ** The limiter of the operator *)

Definition baseDelay : Z := 5 * Millisecond.
Definition overallQPS : Z := 10.
Definition overallBurst : Z := 100.

(** [cappedRateLimiter]: the other methods are those of the embedded limiter. *)
Definition cappedRateLimiter {T} (l : TypedRateLimiter T) (maxDelay : Z) : TypedRateLimiter T :=
  mkRateLimiter l.(rl_state) l.(rl_initial)
    (fun item s => let '(s, delay) := l.(rl_When) item s in (s, Z.min delay maxDelay))
    l.(rl_Forget) l.(rl_NumRequeues).

Definition NewRateLimiter {T} `{Workqueue T} (maxDelay : Z) : TypedRateLimiter T :=
  cappedRateLimiter
    (NewTypedMaxOfRateLimiter
       [NewTypedItemExponentialFailureRateLimiter baseDelay maxDelay; TypedBucketRateLimiter overallQPS overallBurst])
    maxDelay.

(** ** Bounds of the delays *)

(** Capping does not change the states of a limiter. *)
Lemma capped_state {T} (l : TypedRateLimiter T) maxDelay history :
  state_after (cappedRateLimiter l maxDelay) history = state_after l history.
Proof.
  unfold state_after. simpl. generalize (rl_initial l). induction history as [|o history IH]; intros s; simpl; [done|].
  rewrite <- IH. f_equal. destruct o; simpl; [|done]. by destruct (rl_When l item s).
Qed.

Lemma capped_delay {T} (l : TypedRateLimiter T) maxDelay history item :
  delay_after (cappedRateLimiter l maxDelay) history item = Z.min (delay_after l history item) maxDelay.
Proof.
  unfold delay_after. rewrite capped_state. simpl. by destruct (rl_When l item (state_after l history)).
Qed.

(** C39: Whatever failed and succeeded before, the delay of a retry is at most the resync interval, so that a
    resource that fails is retried at least as often as a healthy one is resynced, and it is at least the
    exponential backoff of the item, cut at the same bound: a resource that keeps failing is not retried faster. The
    overall bucket can only lengthen a delay within these bounds. *)
Theorem retry_delays_bounded {T} `{WorkqueueLaws T} (maxDelay : Z) history (item : T) :
  0 < maxDelay ->
  let backoff := Z.min (baseDelay * 2 ^ Z.of_nat (failures history item)) maxDelay in
  let bucket := delay_after (TypedBucketRateLimiter overallQPS overallBurst) history item in
  let delay := delay_after (NewRateLimiter maxDelay) history item in
  0 < delay <= maxDelay /\ backoff <= delay /\ (bucket <= backoff -> delay = backoff).
Proof.
  intros Hmax backoff bucket delay. unfold delay, NewRateLimiter. rewrite capped_delay, max_of_delay. simpl.
  rewrite exponential_delay. fold backoff bucket.
  pose proof (bucket_delay overallQPS overallBurst history item) as Hb. fold bucket in Hb.
  assert (0 < backoff) by (unfold backoff, baseDelay, Millisecond; lia).
  assert (backoff <= maxDelay) by (unfold backoff; lia). lia.
Qed.

(** ** Limiters

    An exponential limiter that counts the failures of each item, a bucket that is never empty, and the maximum of a
    list of limiters. *)
Definition counting_limiter (base max : Z) : TypedRateLimiter string :=
  mkRateLimiter (gmap string nat) ∅
    (fun item s => (<[item := S (default O (s !! item))]> s,
                    Z.min (base * 2 ^ Z.of_nat (default O (s !! item))) max))
    (fun item s => delete item s)
    (fun item s => Z.of_nat (default O (s !! item))).

Definition idle_limiter : TypedRateLimiter string :=
  mkRateLimiter () tt (fun _ s => (s, 0)) (fun _ s => s) (fun _ _ => 0).

Definition max_limiter (l1 l2 : TypedRateLimiter string) : TypedRateLimiter string :=
  mkRateLimiter (l1.(rl_state) * l2.(rl_state)) (l1.(rl_initial), l2.(rl_initial))
    (fun item '(s1, s2) =>
       let '(s1, d1) := l1.(rl_When) item s1 in let '(s2, d2) := l2.(rl_When) item s2 in ((s1, s2), Z.max d1 d2))
    (fun item '(s1, s2) => (l1.(rl_Forget) item s1, l2.(rl_Forget) item s2))
    (fun item '(s1, s2) => Z.max (l1.(rl_NumRequeues) item s1) (l2.(rl_NumRequeues) item s2)).

#[export] Instance example_workqueue : Workqueue string := {
  NewTypedItemExponentialFailureRateLimiter := counting_limiter;
  TypedBucketRateLimiter _ _ := idle_limiter;
  NewTypedMaxOfRateLimiter := foldr max_limiter idle_limiter;
}.

Lemma counting_state base max history item :
  default O (state_after (counting_limiter base max) history !! item) = failures history item.
Proof.
  unfold state_after, failures. simpl.
  assert (forall (s : gmap string nat) n, default O (s !! item) = n ->
    default O (fold_left (observe (counting_limiter base max)) history s !! item) =
    fold_left (fun n o => match o with
                          | Failed i => if decide (i = item) then S n else n
                          | Succeeded i => if decide (i = item) then O else n
                          end) history n) as H; [|by apply H].
  induction history as [|o history IH]; intros s n Hs; [done|]. apply IH.
  destruct o as [i|i]; simpl; case_decide as Hi; subst.
  - by rewrite lookup_insert_eq.
  - by rewrite lookup_insert_ne by done.
  - by rewrite lookup_delete_eq.
  - by rewrite lookup_delete_ne by done.
Qed.

Lemma max_state l1 l2 history :
  state_after (max_limiter l1 l2) history = (state_after l1 history, state_after l2 history).
Proof.
  unfold state_after. simpl. generalize (rl_initial l1), (rl_initial l2).
  induction history as [|o history IH]; intros s1 s2; [done|]. simpl. rewrite <- IH. f_equal.
  destruct o; simpl; [|done]. by destruct (rl_When l1 item s1), (rl_When l2 item s2).
Qed.

#[export] Instance example_workqueue_laws : WorkqueueLaws string.
Proof.
  split.
  - intros base max history item. rewrite <- (counting_state base max). done.
  - done.
  - intros limiters history item. induction limiters as [|l limiters IH]; [done|]. simpl. rewrite <- IH.
    unfold delay_after. rewrite max_state. simpl.
    by destruct (rl_When l _ _), (rl_When (foldr max_limiter idle_limiter limiters) _ _).
Qed.

(** The third failure in a row waits for 20 ms. *)
Lemma retry_delays_bounded_witness :
  let history := [Failed "app"; Succeeded "app"; Failed "app"; Failed "app"] in
  0 < 10 * Minute /\ delay_after (NewRateLimiter (10 * Minute)) history "app" = 20 * Millisecond.
Proof.
  intros history. split; [reflexivity|].
  destruct (retry_delays_bounded (10 * Minute) history "app") as (_ & _ & Hd); [reflexivity|].
  apply Hd. vm_compute. congruence.
Defined.
