(* ===== verification/RoleEvents.v ===== *)
(** * The goroutine that feeds the work queue

    [sendRoleEvents] and [managerLifetime] of [internal/controller/gc.go]. After the ownership role was recreated a
    goroutine sends one event per resource to the channel [roleEvents], which the controller reads; the channel
    [managerStopped] is closed when the manager stops. The goroutines and the controller run concurrently: a state
    machine, whose steps are the communications on the channels. *)
From stdpp Require Import relations.
From S2P Require Import Prelude.

Section machine.
Context {event : Type}.

(** The goroutine of [sendRoleEvents]: at its loop with the events that are left, or returned. *)
Inductive sender : Type :=
  | Sending (rest : list event)
  | Returned.

(** [managerLifetime.Start]: waiting for the context, about to close the channel, returned. *)
Inductive lifetime : Type :=
  | Waiting
  | Closing
  | Closed.

(** [sys_reading] says that the controller still reads the channel, [sys_queue] is what it received. *)
Record system : Type := mkSystem {
  sys_ctx_done : bool;
  sys_lifetime : lifetime;
  sys_managerStopped : bool;
  sys_reading : bool;
  sys_queue : list event;
  sys_sender : sender;
}.

Definition start (events : list event) : system := mkSystem false Waiting false true [] (Sending events).

(** A step of the program, or of the controller, which receives events until the context of the manager is done. *)
Inductive step : system -> system -> Prop :=
  (* managerLifetime.Start *)
  | step_wait reading queue s stopped :
      step (mkSystem true Waiting stopped reading queue s) (mkSystem true Closing stopped reading queue s)
  | step_close done reading queue s stopped :
      step (mkSystem done Closing stopped reading queue s) (mkSystem done Closed true reading queue s)
  (* sendRoleEvents: the two cases of the select, and the end of the loop *)
  | step_send done life stopped queue e rest :
      step (mkSystem done life stopped true queue (Sending (e :: rest)))
           (mkSystem done life stopped true (queue ++ [e]) (Sending rest))
  | step_abandon done life reading queue e rest :
      step (mkSystem done life true reading queue (Sending (e :: rest))) (mkSystem done life true reading queue Returned)
  | step_return done life stopped reading queue :
      step (mkSystem done life stopped reading queue (Sending [])) (mkSystem done life stopped reading queue Returned).

(** The manager stops: its context is done, and the controller stops reading at some time after that. *)
Inductive stop : system -> system -> Prop :=
  | stop_cancel life stopped reading queue s :
      stop (mkSystem false life stopped reading queue s) (mkSystem true life stopped reading queue s)
  | stop_reading life stopped queue s :
      stop (mkSystem true life stopped true queue s) (mkSystem true life stopped false queue s).

Definition transition (s s' : system) : Prop := step s s' \/ stop s s'.

(** The events that were not sent. *)
Definition pending (s : system) : list event :=
  match s.(sys_sender) with Sending rest => rest | Returned => [] end.

(** The channel is closed by the lifetime alone, which waits for the context; the controller reads until then; and
    nothing is lost, duplicated or reordered while the manager runs. *)
Record system_ok (events : list event) (s : system) : Prop := {
  ok_stopped : s.(sys_managerStopped) = true <-> s.(sys_lifetime) = Closed;
  ok_lifetime : s.(sys_lifetime) <> Waiting -> s.(sys_ctx_done) = true;
  ok_reading : s.(sys_reading) = false -> s.(sys_ctx_done) = true;
  ok_queue : exists lost, events = s.(sys_queue) ++ pending s ++ lost /\ (lost = [] \/ s.(sys_ctx_done) = true);
}.

Lemma start_ok events : system_ok events (start events).
Proof. split; simpl; try done. exists []. rewrite app_nil_r. auto. Qed.

Lemma transition_ok events s s' : system_ok events s -> transition s s' -> system_ok events s'.
Proof.
  intros [Hs Hl Hr (lost & -> & Hlost)] [Hstep|Hstop]; [destruct Hstep|destruct Hstop]; split;
    unfold pending in *; simpl in *; try done; try (by intuition discriminate); try (by exists lost; eauto).
  - exists lost. by rewrite <- !app_assoc.
  - exists (e :: rest ++ lost). split; [done|]. right. apply Hl. by rewrite (proj1 Hs).
Qed.

Lemma reachable_ok events s : rtc transition (start events) s -> system_ok events s.
Proof.
  intros H. remember (start events) as s0 eqn:E. assert (system_ok events s0) as H0 by (subst; apply start_ok).
  clear E. induction H as [|s1 s2 s3 H12 _ IH]; [done|]. by apply IH, (transition_ok _ s1).
Qed.

(** Every step makes progress. *)
Definition work (s : system) : nat :=
  (if s.(sys_ctx_done) then 0 else 1) + (match s.(sys_lifetime) with Waiting => 2 | Closing => 1 | Closed => 0 end) +
  (if s.(sys_reading) then 1 else 0) + (match s.(sys_sender) with Sending rest => S (length rest) | Returned => 0 end).

Lemma transition_work s s' : transition s s' -> (work s' < work s)%nat.
Proof. intros [[]|[]]; unfold work; simpl; repeat case_match; lia. Qed.

Lemma steps_work n s s' : nsteps transition n s s' -> (n + work s' <= work s)%nat.
Proof. induction 1 as [s|n s1 s2 s3 H12 _ IH]; [lia|]. apply transition_work in H12. lia. Qed.

(** A goroutine that has not returned is not blocked for good. *)
Lemma sender_not_blocked events s :
  system_ok events s -> s.(sys_sender) <> Returned -> exists s', step s s'.
Proof.
  intros [Hs Hl Hr _] Hsender. destruct s as [ctx life stopped reading queue [[|e rest]|]]; simpl in *; [|..|done].
  - eexists. apply step_return.
  - destruct reading; [eexists; apply step_send|]. rewrite (Hr eq_refl).
    destruct life; [eexists; apply step_wait|eexists; apply step_close|].
    rewrite (proj2 Hs eq_refl). eexists. apply step_abandon.
Qed.

(** C40: The goroutine of [sendRoleEvents] never leaks, and loses events only when the manager stops. Every run of
    the goroutines has at most five steps more than there are events; as long as the goroutine has not returned, the
    program or the controller can make a step; the controller receives the events in their order, each at most once;
    and when the goroutine has returned while the manager runs, it has received all of them. *)
Theorem sendRoleEvents_terminates events n s :
  nsteps transition n (start events) s ->
  (n <= length events + 5)%nat /\
  (s.(sys_sender) <> Returned -> exists s', step s s') /\
  s.(sys_queue) `prefix_of` events /\
  (s.(sys_sender) = Returned -> s.(sys_ctx_done) = false -> s.(sys_queue) = events).
Proof.
  intros Hn. pose proof (steps_work _ _ _ Hn) as Hw.
  assert (system_ok events s) as Hok by (by eapply reachable_ok, rtc_nsteps_2).
  split; [change (work (start events)) with (4 + S (length events))%nat in Hw; lia|].
  split; [by apply (sender_not_blocked events)|]. destruct Hok as [_ _ _ (lost & -> & Hlost)]. split.
  - eexists. done.
  - intros Hr Hd. rewrite Hd in Hlost. destruct Hlost as [->|]; [|done]. unfold pending. by rewrite Hr, !app_nil_r.
Qed.
End machine.

(** The manager stops after the first of two events was received: the second one is abandoned. *)
Lemma sendRoleEvents_terminates_witness :
  let stopped := mkSystem true Closed true false ["a"] Returned in
  nsteps transition 6 (start ["a"; "b"]) stopped /\ stopped.(sys_queue) `prefix_of` ["a"; "b"].
Proof.
  intros stopped.
  assert (nsteps transition 6 (start ["a"; "b"]) stopped) as H.
  { eapply nsteps_l; [left; apply step_send|]. eapply nsteps_l; [right; apply stop_cancel|].
    eapply nsteps_l; [right; apply stop_reading|]. eapply nsteps_l; [left; apply step_wait|].
    eapply nsteps_l; [left; apply step_close|]. eapply nsteps_l; [left; apply step_abandon|]. apply nsteps_O. }
  split; [exact H|]. apply (sendRoleEvents_terminates _ _ _ H).
Defined.
