(* ===== verification/Effects.v ===== *)
(** * Effects

    The operator is a sequence of calls to two external services, the authentik API and the Kubernetes API,
    interleaved with updates of its own memory. A Go method is modelled as a finite program over a signature of
    calls ([prog]) that threads the memory it mutates and returns a result or an error ([M]). The meaning of a
    program is given against an environment that answers the calls: any environment at all ([any_env]) for the
    properties that have to hold whatever the services do, or the handler of a concrete service ([run]). *)
From S2P Require Import Prelude Errors.

(** ** Programs over a signature of calls *)

Section prog.
Context {C : Type -> Type}.

(** [Crash] is a Go run-time panic, such as the dereference of a nil pointer. *)
Inductive prog (A : Type) : Type :=
  | Ret (a : A)
  | Call (R : Type) (c : C R) (k : R -> prog A)
  | Crash.
#[global] Arguments Ret {A} a.
#[global] Arguments Call {A R} c k.
#[global] Arguments Crash {A}.

Fixpoint pbind {A B} (p : prog A) (f : A -> prog B) : prog B :=
  match p with
  | Ret a => f a
  | Call c k => Call c (fun r => pbind (k r) f)
  | Crash => Crash
  end.

(** ** Weakest preconditions

    [env_step c w r w'] says that in the world [w] the call [c] may be answered with [r], leaving the world [w'];
    [env_ok c w] is what a program has to guarantee when it makes the call; [env_crash] says whether a panic is
    accepted, as it is in the properties of the calls made before one. *)
Section wp.
Context {W : Type}.

Record environment : Type := mkEnv {
  env_ok : forall R, C R -> W -> Prop;
  env_step : forall R, C R -> W -> R -> W -> Prop;
  env_crash : Prop;
}.

Fixpoint wp {A} (E : environment) (p : prog A) (w : W) (Q : A -> W -> Prop) : Prop :=
  match p with
  | Ret a => Q a w
  | Call c k => E.(env_ok) _ c w /\ forall r w', E.(env_step) _ c w r w' -> wp E (k r) w' Q
  | Crash => E.(env_crash)
  end.

Lemma wp_mono {A} E (p : prog A) w (Q Q' : A -> W -> Prop) :
  (forall a w, Q a w -> Q' a w) -> wp E p w Q -> wp E p w Q'.
Proof.
  intros HQ. revert w. induction p as [a|R c k IH|]; simpl; intros w H.
  - by apply HQ.
  - destruct H as [Hok H]. split; [done|]. intros r w' Hs. by apply IH, H.
  - done.
Qed.

Lemma wp_bind {A B} E (p : prog A) (f : A -> prog B) w Q :
  wp E (pbind p f) w Q <-> wp E p w (fun a w' => wp E (f a) w' Q).
Proof.
  revert w. induction p as [a|R c k IH|]; simpl; intros w; [done| |done].
  split; intros [Hok H]; (split; [done|]); intros r w' Hs; by apply IH, H.
Qed.

Lemma wp_and {A} E (p : prog A) w (Q1 Q2 : A -> W -> Prop) :
  wp E p w Q1 -> wp E p w Q2 -> wp E p w (fun a w' => Q1 a w' /\ Q2 a w').
Proof.
  revert w. induction p as [a|R c k IH|]; simpl; intros w H1 H2; [done| |done].
  destruct H1 as [Hok H1], H2 as [_ H2]. split; [done|]. intros r w' Hs. by apply IH; [apply H1|apply H2].
Qed.
End wp.

(** ** Running a program against a handler *)
Section run.
Context {W : Type} (handle : forall R, C R -> W -> W * R).

(** [None] is a panic. *)
Fixpoint run {A} (p : prog A) (w : W) : option (A * W) :=
  match p with
  | Ret a => Some (a, w)
  | Call c k => let '(w', r) := handle _ c w in run (k r) w'
  | Crash => None
  end.

Lemma run_bind {A B} (p : prog A) (f : A -> prog B) w :
  run (pbind p f) w = match run p w with Some (a, w') => run (f a) w' | None => None end.
Proof.
  revert w. induction p as [a|R c k IH|]; simpl; intros w; [done| |done].
  destruct (handle R c w) as [w' r]. apply IH.
Qed.

(** The environment that answers exactly as the handler does. *)
Definition handler_env : environment (W := W) :=
  mkEnv (fun _ _ _ => True) (fun R c w r w' => handle R c w = (w', r)) False.

Lemma wp_run {A} (p : prog A) w Q :
  wp handler_env p w Q <-> exists a w', run p w = Some (a, w') /\ Q a w'.
Proof.
  revert w. induction p as [a|R c k IH|]; simpl; intros w.
  - split; [eauto|]. by intros (? & ? & [= <- <-] & ?).
  - destruct (handle R c w) as [w' r] eqn:E. split.
    + intros [_ H]. by apply IH, H.
    + intros H. split; [done|]. intros r' w'' [= <- <-]. by apply IH.
  - split; [done|]. by intros (? & ? & ? & ?).
Qed.
End run.

(** ** Environments that log the calls

    The world is the list of the calls made so far with their answers; [answers c r] restricts the answers. *)
Section logs.

Record logged : Type := mkLogged {
  log_type : Type;
  log_call : C log_type;
  log_answer : log_type;
}.

Definition log_env (answers : forall R, C R -> R -> Prop) (crash : Prop) : environment (W := list logged) :=
  mkEnv (fun _ _ _ => True) (fun R c w r w' => answers R c r /\ w' = w ++ [mkLogged R c r]) crash.
End logs.
End prog.
Arguments prog : clear implicits.
Arguments Crash {C A}.
Arguments environment : clear implicits.
Arguments logged : clear implicits.
Arguments mkLogged {C log_type} log_call log_answer.

(** ** The monad of Go methods

    [M C S A] is a method that may call [C], mutates a memory of type [S] and returns [A] or an error. A mutation
    made before an error is returned stays in the memory, as in Go. *)
Definition M (C : Type -> Type) (S A : Type) : Type := S -> prog C (S * result A).

Section monad.
Context {C : Type -> Type} {S : Type}.

Definition mret {A} (a : A) : M C S A := fun s => Ret (s, Ok a).

Definition mfail {A} (e : error) : M C S A := fun s => Ret (s, Err e).

Definition mcrash {A} : M C S A := fun _ => Crash.

Definition mbind {A B} (m : M C S A) (f : A -> M C S B) : M C S B :=
  fun s => pbind (m s) (fun '(s', r) => match r with Ok a => f a s' | Err e => Ret (s', Err e) end).

(** [r, err := m()]: the error becomes a value that the caller inspects. *)
Definition mtry {A} (m : M C S A) : M C S (result A) :=
  fun s => pbind (m s) (fun '(s', r) => Ret (s', Ok r)).

(** [return v, err] of a [(v, err)] pair. *)
Definition mdone {A} (r : result A) : M C S A := fun s => Ret (s, r).

(** [fmt.Errorf("prefix: %w", err)] around the error of a method. *)
Definition mwrap {A} (prefix : string) (m : M C S A) : M C S A :=
  mbind (mtry m) (fun r => match r with Ok a => mret a | Err e => mfail (Wrapped prefix e) end).

Definition mget : M C S S := fun s => Ret (s, Ok s).

Definition mmodify (f : S -> S) : M C S () := fun s => Ret (f s, Ok ()).

(** A call whose answer has no error. *)
Definition mcall {A} (c : C A) : M C S A := fun s => Call c (fun r => Ret (s, Ok r)).

(** A dereference: a nil pointer panics. *)
Definition mderef {A} (p : option A) : M C S A :=
  match p with Some a => mret a | None => mcrash end.

(** A call whose answer is a value or an error of the service. *)
Definition minvoke {A E} (inject : E -> error) (c : C (A + E)%type) : M C S A :=
  fun s => Call c (fun r => Ret (s, match r with inl a => Ok a | inr e => Err (inject e) end)).

Fixpoint mfor {A} (xs : list A) (body : A -> M C S ()) : M C S () :=
  match xs with
  | [] => mret ()
  | x :: rest => mbind (body x) (fun _ => mfor rest body)
  end.

(** A loop that threads an accumulator. *)
Fixpoint mfold {A B} (xs : list A) (acc : B) (body : B -> A -> M C S B) : M C S B :=
  match xs with
  | [] => mret acc
  | x :: rest => mbind (body acc x) (fun acc' => mfold rest acc' body)
  end.
End monad.

(** Run a method on a part of the memory. *)
Definition mzoom {C S T A} (get : S -> T) (put : T -> S -> S) (m : M C T A) : M C S A :=
  fun s => pbind (m (get s)) (fun '(t, r) => Ret (put t s, r)).

Notation "'let*' x ':=' m 'in' k" := (mbind m (fun x => k))
  (at level 10, x pattern, m at level 100, k at level 200) : go_scope.
Notation "m ';;' k" := (mbind m (fun _ => k))
  (at level 100, k at level 200, right associativity) : go_scope.
Open Scope go_scope.

(** ** Weakest preconditions of methods *)

Section mwp.
Context {C : Type -> Type} {W : Type}.

Definition mwp {S A} (E : environment C W) (m : M C S A) (s : S) (w : W) (Q : S -> result A -> W -> Prop) : Prop :=
  wp E (m s) w (fun '(s', r) w' => Q s' r w').

Context {S : Type} (E : environment C W).
Implicit Types (s : S) (w : W).

Lemma mwp_mono {A} (m : M C S A) s w (Q Q' : S -> result A -> W -> Prop) :
  mwp E m s w Q -> (forall s r w, Q s r w -> Q' s r w) -> mwp E m s w Q'.
Proof. intros H HQ. eapply wp_mono, H. intros [s' r] w'. apply HQ. Qed.

Lemma mwp_and {A} (m : M C S A) s w (Q Q' : S -> result A -> W -> Prop) :
  mwp E m s w Q -> mwp E m s w Q' -> mwp E m s w (fun s r w => Q s r w /\ Q' s r w).
Proof.
  intros H1 H2. eapply wp_mono; [|apply (wp_and _ _ _ _ _ H1 H2)]. by intros [? ?] ?.
Qed.

Lemma mwp_ret {A} (a : A) s w (Q : S -> result A -> W -> Prop) : Q s (Ok a) w -> mwp E (mret a) s w Q.
Proof. done. Qed.

Lemma mwp_fail {A} e s w (Q : S -> result A -> W -> Prop) : Q s (Err e) w -> mwp E (mfail e) s w Q.
Proof. done. Qed.

Lemma mwp_done {A} (r : result A) s w (Q : S -> result A -> W -> Prop) : Q s r w -> mwp E (mdone r) s w Q.
Proof. done. Qed.

Lemma mwp_get s w Q : Q s (Ok s) w -> mwp E mget s w Q.
Proof. done. Qed.

Lemma mwp_modify f s w Q : Q (f s) (Ok ()) w -> mwp E (mmodify f) s w Q.
Proof. done. Qed.

Lemma mwp_deref {A} (p : option A) s w Q :
  (exists a, p = Some a /\ Q s (Ok a) w) -> mwp E (mderef p) s w Q.
Proof. by intros (a & -> & ?). Qed.

(** A panic is accepted or excluded. *)
Lemma mwp_deref_crash {A} (p : option A) s w Q :
  (forall a, p = Some a -> Q s (Ok a) w) -> (p = None -> env_crash E) -> mwp E (mderef p) s w Q.
Proof. destruct p; intros H1 H2; [by apply H1|by apply H2]. Qed.

Lemma mwp_bind {A B} (m : M C S A) (f : A -> M C S B) s w Q :
  mwp E m s w (fun s' r w' => match r with Ok a => mwp E (f a) s' w' Q | Err e => Q s' (Err e) w' end) ->
  mwp E (mbind m f) s w Q.
Proof.
  intros H. apply wp_bind. eapply wp_mono, H. by intros [s' [a|e]] w'.
Qed.

Lemma mwp_try {A} (m : M C S A) s w Q :
  mwp E m s w (fun s' r w' => Q s' (Ok r) w') -> mwp E (mtry m) s w Q.
Proof. intros H. apply wp_bind. eapply wp_mono, H. by intros [s' r] w'. Qed.

Lemma mwp_call {A} (c : C A) s w Q :
  env_ok E _ c w -> (forall r w', env_step E _ c w r w' -> Q s (Ok r) w') -> mwp E (mcall c) s w Q.
Proof. done. Qed.

Lemma mwp_invoke {A Er} (inj : Er -> error) (c : C (A + Er)%type) s w Q :
  env_ok E _ c w ->
  (forall r w', env_step E _ c w r w' -> Q s (match r with inl a => Ok a | inr e => Err (inj e) end) w') ->
  mwp E (minvoke inj c) s w Q.
Proof. done. Qed.

(** The rule of the loops: an invariant over the memory and the world. *)
Lemma mwp_for {A} (xs : list A) (body : A -> M C S ()) (I : S -> W -> Prop) (F : S -> error -> W -> Prop) s w :
  I s w ->
  (forall x s w, x ∈ xs -> I s w ->
     mwp E (body x) s w (fun s r w => match r with Ok _ => I s w | Err e => F s e w end)) ->
  mwp E (mfor xs body) s w (fun s r w => match r with Ok _ => I s w | Err e => F s e w end).
Proof.
  revert s w. induction xs as [|x xs IH]; intros s w HI Hb; simpl; [done|].
  apply mwp_bind. eapply mwp_mono; [apply Hb; [by left|done]|].
  intros s' [[]|e] w'; [|done]. intros HI'. apply IH; [done|]. intros. by apply Hb; [right|].
Qed.

(** The same with the elements that were visited. *)
Lemma mwp_for_seen {A} (xs : list A) (body : A -> M C S ()) (I : list A -> S -> W -> Prop) (F : S -> error -> W -> Prop)
    s w :
  I [] s w ->
  (forall seen x rest s w, xs = seen ++ x :: rest -> I seen s w ->
     mwp E (body x) s w (fun s r w => match r with Ok _ => I (seen ++ [x]) s w | Err e => F s e w end)) ->
  mwp E (mfor xs body) s w (fun s r w => match r with Ok _ => I xs s w | Err e => F s e w end).
Proof.
  intros HI Hb.
  assert (forall seen todo, xs = seen ++ todo -> forall s w, I seen s w ->
    mwp E (mfor todo body) s w (fun s r w => match r with Ok _ => I xs s w | Err e => F s e w end)) as H.
  { intros seen todo. revert seen. induction todo as [|x todo IH]; intros seen Heq s' w' HI'; simpl.
    - rewrite app_nil_r in Heq. by subst.
    - apply mwp_bind. eapply mwp_mono; [by eapply Hb|].
      intros s'' [[]|e] w''; [|done]. intros HI''. apply (IH (seen ++ [x])); [|done]. by rewrite <- app_assoc. }
  by apply (H []).
Qed.

(** The rule of the accumulating loops: the invariant also knows which elements were visited. *)
Lemma mwp_fold {A B} (xs : list A) (acc : B) (body : B -> A -> M C S B)
    (I : list A -> B -> S -> W -> Prop) (F : S -> error -> W -> Prop) s w :
  I [] acc s w ->
  (forall seen x rest acc s w, xs = seen ++ x :: rest -> I seen acc s w ->
     mwp E (body acc x) s w (fun s r w => match r with Ok acc' => I (seen ++ [x]) acc' s w | Err e => F s e w end)) ->
  mwp E (mfold xs acc body) s w (fun s r w => match r with Ok acc' => I xs acc' s w | Err e => F s e w end).
Proof.
  intros HI Hb. revert acc s w HI.
  assert (forall seen todo, xs = seen ++ todo -> forall acc s w, I seen acc s w ->
    mwp E (mfold todo acc body) s w
      (fun s r w => match r with Ok acc' => I xs acc' s w | Err e => F s e w end)) as H.
  { intros seen todo. revert seen. induction todo as [|x todo IH]; intros seen Heq acc s w HI; simpl.
    - rewrite app_nil_r in Heq. by subst.
    - apply mwp_bind. eapply mwp_mono; [by eapply Hb|].
      intros s' [acc'|e] w'; [|done]. intros HI'. apply (IH (seen ++ [x])); [|done].
      by rewrite <- app_assoc. }
  intros acc s w. by apply (H []).
Qed.
End mwp.

Lemma mwp_zoom {C W S T A} (E : environment C W) (get : S -> T) (put : T -> S -> S) (m : M C T A) s w Q :
  mwp E m (get s) w (fun t r w' => Q (put t s) r w') -> mwp E (mzoom get put m) s w Q.
Proof. intros H. apply wp_bind. eapply wp_mono, H. by intros [t r] w'. Qed.

(** Run a method against a handler. *)
Definition mrun {C W S A} (handle : forall R, C R -> W -> W * R) (m : M C S A) (s : S) (w : W)
    : option (S * result A * W) :=
  run handle (m s) w.

Lemma mwp_mrun {C W S A} (handle : forall R, C R -> W -> W * R) (m : M C S A) s w Q :
  mwp (handler_env handle) m s w Q <->
  exists s' r w', mrun handle m s w = Some (s', r, w') /\ Q s' r w'.
Proof.
  unfold mwp, mrun. rewrite wp_run. split.
  - intros ([s' r] & w' & ? & ?). eauto.
  - intros (s' & r & w' & ? & ?). by exists (s', r), w'.
Qed.

Lemma mrun_bind {C W S A B} (handle : forall R, C R -> W -> W * R) (m : M C S A) (f : A -> M C S B) s w :
  mrun handle (mbind m f) s w =
  match mrun handle m s w with
  | Some (s', Ok a, w') => mrun handle (f a) s' w'
  | Some (s', Err e, w') => Some (s', Err e, w')
  | None => None
  end.
Proof.
  unfold mrun, mbind. rewrite run_bind. by destruct (run handle (m s) w) as [[[s' [a|e]] w']|].
Qed.

Lemma mrun_try {C W S A} (handle : forall R, C R -> W -> W * R) (m : M C S A) s (w : W) :
  mrun handle (mtry m) s w = match mrun handle m s w with Some (s', r, w') => Some (s', Ok r, w') | None => None end.
Proof. unfold mrun, mtry. rewrite run_bind. by destruct (run handle (m s) w) as [[[s' r] w']|]. Qed.

(** One step of symbolic execution of a method. *)
Ltac mwp_step :=
  lazymatch goal with
  | |- mwp _ (mbind _ _) _ _ _ => apply mwp_bind
  | |- mwp _ (mtry _) _ _ _ => apply mwp_try
  | |- mwp _ (mret _) _ _ _ => apply mwp_ret
  | |- mwp _ (mfail _) _ _ _ => apply mwp_fail
  | |- mwp _ (mdone _) _ _ _ => apply mwp_done
  | |- mwp _ mget _ _ _ => apply mwp_get
  | |- mwp _ (mmodify _) _ _ _ => apply mwp_modify
  | |- mwp _ (mcall _) _ _ _ => apply mwp_call; [try done|intros ? ? ?]
  | |- mwp _ (minvoke _ _) _ _ _ => apply mwp_invoke; [try done|intros ? ? ?]
  | |- mwp _ (mzoom _ _ _) _ _ _ => apply mwp_zoom
  end.
