(* ===== verification/Api.v ===== *)
(** * The models of client-go

    The request and response types of [goauthentik.io/api/v3] as far as the operator reads or writes their fields.
    A pointer field is an [option]. A slice of a PATCH request is an [option (list _)], because a nil slice is
    omitted from the request and an empty one is not; a slice of a response is a [list]. The enumerations of the
    API are strings, with the constants that the operator uses. *)
From S2P Require Import Prelude.

(** [NullableString] and [NullableInt32]: unset, or set to a value or to null. *)
Inductive Nullable (A : Type) : Type :=
  | Unset
  | SetTo (value : option A).
Arguments Unset {A}.
Arguments SetTo {A} value.

Definition Nullable_IsSet {A} (n : Nullable A) : bool :=
  match n with Unset => false | SetTo _ => true end.

Definition Nullable_Get {A} (n : Nullable A) : option A :=
  match n with Unset => None | SetTo v => v end.

#[export] Instance Nullable_eq_dec `{EqDecision A} : EqDecision (Nullable A).
Proof. solve_decision. Defined.

(** ** Enumerations *)

Definition POLICYENGINEMODE_ANY : string := "any".
Definition POLICYENGINEMODE_ALL : string := "all".
Definition CLIENTTYPEENUM_CONFIDENTIAL : string := "confidential".
Definition CLIENTTYPEENUM_PUBLIC : string := "public".
Definition GRANTTYPEENUM_AUTHORIZATION_CODE : string := "authorization_code".
Definition GRANTTYPEENUM_IMPLICIT : string := "implicit".
Definition GRANTTYPEENUM_HYBRID : string := "hybrid".
Definition GRANTTYPEENUM_REFRESH_TOKEN : string := "refresh_token".
Definition GRANTTYPEENUM_CLIENT_CREDENTIALS : string := "client_credentials".
Definition GRANTTYPEENUM_PASSWORD : string := "password".
Definition GRANTTYPEENUM_DEVICE_CODE : string := "urn:ietf:params:oauth:grant-type:device_code".
Definition GRANTTYPEENUM_TOKEN_EXCHANGE : string := "urn:ietf:params:oauth:grant-type:token-exchange".
Definition SUBMODEENUM_HASHED_USER_ID : string := "hashed_user_id".
Definition SUBMODEENUM_USER_ID : string := "user_id".
Definition SUBMODEENUM_USER_UUID : string := "user_uuid".
Definition SUBMODEENUM_USER_USERNAME : string := "user_username".
Definition SUBMODEENUM_USER_EMAIL : string := "user_email".
Definition SUBMODEENUM_USER_UPN : string := "user_upn".
Definition ISSUERMODEENUM_GLOBAL : string := "global".
Definition ISSUERMODEENUM_PER_PROVIDER : string := "per_provider".
Definition LOGOUTMETHODENUM_BACKCHANNEL : string := "backchannel".
Definition LOGOUTMETHODENUM_FRONTCHANNEL : string := "frontchannel".
Definition MATCHINGMODEENUM_STRICT : string := "strict".
Definition MATCHINGMODEENUM_REGEX : string := "regex".
Definition REDIRECTURITYPEENUM_AUTHORIZATION : string := "authorization".
Definition REDIRECTURITYPEENUM_LOGOUT : string := "logout".
Definition PROXYMODE_PROXY : string := "proxy".
Definition PROXYMODE_FORWARD_SINGLE : string := "forward_single".
Definition PROXYMODE_FORWARD_DOMAIN : string := "forward_domain".
Definition MODELENUM_AUTHENTIK_CORE_APPLICATION : string := "authentik_core.application".
Definition MODELENUM_AUTHENTIK_PROVIDERS_PROXY_PROXYPROVIDER : string := "authentik_providers_proxy.proxyprovider".
Definition MODELENUM_AUTHENTIK_PROVIDERS_OAUTH2_OAUTH2PROVIDER : string := "authentik_providers_oauth2.oauth2provider".
Definition MODELENUM_AUTHENTIK_POLICIES_POLICYBINDING : string := "authentik_policies.policybinding".

(** ** Applications *)

Record Application : Type := mkApplication {
  Application_Pk : string;
  Application_PbmUuid : string;
  Application_Name : string;
  Application_Slug : string;
  Application_Provider : Nullable Z;
  Application_OpenInNewTab : option bool;
  Application_MetaLaunchUrl : option string;
  Application_MetaIcon : option string;
  Application_MetaDescription : option string;
  Application_MetaPublisher : option string;
  Application_PolicyEngineMode : option string;
  Application_Group : option string;
  Application_MetaHide : option bool;
}.

Record ApplicationRequest : Type := mkApplicationRequest {
  ApplicationRequest_Name : string;
  ApplicationRequest_Slug : string;
  ApplicationRequest_Provider : Nullable Z;
  ApplicationRequest_OpenInNewTab : option bool;
  ApplicationRequest_MetaLaunchUrl : option string;
  ApplicationRequest_MetaIcon : option string;
  ApplicationRequest_MetaDescription : option string;
  ApplicationRequest_MetaPublisher : option string;
  ApplicationRequest_PolicyEngineMode : option string;
  ApplicationRequest_Group : option string;
  ApplicationRequest_MetaHide : option bool;
}.

Record PatchedApplicationRequest : Type := mkPatchedApplicationRequest {
  PatchedApplication_Name : option string;
  PatchedApplication_Slug : option string;
  PatchedApplication_Provider : Nullable Z;
  PatchedApplication_OpenInNewTab : option bool;
  PatchedApplication_MetaLaunchUrl : option string;
  PatchedApplication_MetaIcon : option string;
  PatchedApplication_MetaDescription : option string;
  PatchedApplication_MetaPublisher : option string;
  PatchedApplication_PolicyEngineMode : option string;
  PatchedApplication_Group : option string;
  PatchedApplication_MetaHide : option bool;
}.

(** ** Proxy Providers *)

Record ProxyProvider : Type := mkProxyProvider {
  ProxyProvider_Pk : Z;
  ProxyProvider_Name : string;
  ProxyProvider_AuthenticationFlow : Nullable string;
  ProxyProvider_AuthorizationFlow : string;
  ProxyProvider_InvalidationFlow : string;
  ProxyProvider_PropertyMappings : list string;
  ProxyProvider_AssignedApplicationSlug : Nullable string;
  ProxyProvider_InternalHost : option string;
  ProxyProvider_ExternalHost : string;
  ProxyProvider_InternalHostSslValidation : option bool;
  ProxyProvider_Certificate : Nullable string;
  ProxyProvider_SkipPathRegex : option string;
  ProxyProvider_BasicAuthEnabled : option bool;
  ProxyProvider_BasicAuthPasswordAttribute : option string;
  ProxyProvider_BasicAuthUserAttribute : option string;
  ProxyProvider_Mode : option string;
  ProxyProvider_InterceptHeaderAuth : option bool;
  ProxyProvider_CookieDomain : option string;
  ProxyProvider_AccessTokenValidity : option string;
  ProxyProvider_RefreshTokenValidity : option string;
}.

Record ProxyProviderRequest : Type := mkProxyProviderRequest {
  ProxyProviderRequest_Name : string;
  ProxyProviderRequest_AuthenticationFlow : Nullable string;
  ProxyProviderRequest_AuthorizationFlow : string;
  ProxyProviderRequest_InvalidationFlow : string;
  ProxyProviderRequest_InternalHost : option string;
  ProxyProviderRequest_ExternalHost : string;
  ProxyProviderRequest_InternalHostSslValidation : option bool;
  ProxyProviderRequest_Certificate : Nullable string;
  ProxyProviderRequest_SkipPathRegex : option string;
  ProxyProviderRequest_BasicAuthEnabled : option bool;
  ProxyProviderRequest_BasicAuthPasswordAttribute : option string;
  ProxyProviderRequest_BasicAuthUserAttribute : option string;
  ProxyProviderRequest_Mode : option string;
  ProxyProviderRequest_InterceptHeaderAuth : option bool;
  ProxyProviderRequest_CookieDomain : option string;
  ProxyProviderRequest_AccessTokenValidity : option string;
  ProxyProviderRequest_RefreshTokenValidity : option string;
}.

Record PatchedProxyProviderRequest : Type := mkPatchedProxyProviderRequest {
  PatchedProxy_Name : option string;
  PatchedProxy_AuthenticationFlow : Nullable string;
  PatchedProxy_AuthorizationFlow : option string;
  PatchedProxy_InvalidationFlow : option string;
  PatchedProxy_PropertyMappings : option (list string);
  PatchedProxy_InternalHost : option string;
  PatchedProxy_ExternalHost : option string;
  PatchedProxy_InternalHostSslValidation : option bool;
  PatchedProxy_Certificate : Nullable string;
  PatchedProxy_SkipPathRegex : option string;
  PatchedProxy_BasicAuthEnabled : option bool;
  PatchedProxy_BasicAuthPasswordAttribute : option string;
  PatchedProxy_BasicAuthUserAttribute : option string;
  PatchedProxy_Mode : option string;
  PatchedProxy_InterceptHeaderAuth : option bool;
  PatchedProxy_CookieDomain : option string;
  PatchedProxy_AccessTokenValidity : option string;
  PatchedProxy_RefreshTokenValidity : option string;
}.

(** ** OAuth2 Providers *)

Record RedirectURI : Type := mkRedirectURI {
  RedirectURI_MatchingMode : string;
  RedirectURI_Url : string;
  RedirectURI_RedirectUriType : option string;
}.

(** [RedirectURIRequest] has the same fields as [RedirectURI]. *)
Record RedirectURIRequest : Type := mkRedirectURIRequest {
  RedirectURIRequest_MatchingMode : string;
  RedirectURIRequest_Url : string;
  RedirectURIRequest_RedirectUriType : option string;
}.

Record OAuth2Provider : Type := mkOAuth2Provider {
  OAuth2Provider_Pk : Z;
  OAuth2Provider_Name : string;
  OAuth2Provider_AuthenticationFlow : Nullable string;
  OAuth2Provider_AuthorizationFlow : string;
  OAuth2Provider_InvalidationFlow : string;
  OAuth2Provider_PropertyMappings : list string;
  OAuth2Provider_AssignedApplicationSlug : Nullable string;
  OAuth2Provider_ClientType : option string;
  OAuth2Provider_GrantTypes : list string;
  OAuth2Provider_ClientId : option string;
  OAuth2Provider_ClientSecret : option string;
  OAuth2Provider_AccessCodeValidity : option string;
  OAuth2Provider_AccessTokenValidity : option string;
  OAuth2Provider_RefreshTokenValidity : option string;
  OAuth2Provider_RefreshTokenThreshold : option string;
  OAuth2Provider_IncludeClaimsInIdToken : option bool;
  OAuth2Provider_SigningKey : Nullable string;
  OAuth2Provider_EncryptionKey : Nullable string;
  OAuth2Provider_RedirectUris : list RedirectURI;
  OAuth2Provider_LogoutUri : option string;
  OAuth2Provider_LogoutMethod : option string;
  OAuth2Provider_SubMode : option string;
  OAuth2Provider_IssuerMode : option string;
}.

Record OAuth2ProviderRequest : Type := mkOAuth2ProviderRequest {
  OAuth2ProviderRequest_Name : string;
  OAuth2ProviderRequest_AuthenticationFlow : Nullable string;
  OAuth2ProviderRequest_AuthorizationFlow : string;
  OAuth2ProviderRequest_InvalidationFlow : string;
  OAuth2ProviderRequest_PropertyMappings : option (list string);
  OAuth2ProviderRequest_ClientType : option string;
  OAuth2ProviderRequest_GrantTypes : option (list string);
  OAuth2ProviderRequest_ClientId : option string;
  OAuth2ProviderRequest_ClientSecret : option string;
  OAuth2ProviderRequest_AccessCodeValidity : option string;
  OAuth2ProviderRequest_AccessTokenValidity : option string;
  OAuth2ProviderRequest_RefreshTokenValidity : option string;
  OAuth2ProviderRequest_RefreshTokenThreshold : option string;
  OAuth2ProviderRequest_IncludeClaimsInIdToken : option bool;
  OAuth2ProviderRequest_SigningKey : Nullable string;
  OAuth2ProviderRequest_EncryptionKey : Nullable string;
  OAuth2ProviderRequest_RedirectUris : option (list RedirectURIRequest);
  OAuth2ProviderRequest_LogoutUri : option string;
  OAuth2ProviderRequest_LogoutMethod : option string;
  OAuth2ProviderRequest_SubMode : option string;
  OAuth2ProviderRequest_IssuerMode : option string;
}.

Record PatchedOAuth2ProviderRequest : Type := mkPatchedOAuth2ProviderRequest {
  PatchedOAuth2_Name : option string;
  PatchedOAuth2_AuthenticationFlow : Nullable string;
  PatchedOAuth2_AuthorizationFlow : option string;
  PatchedOAuth2_InvalidationFlow : option string;
  PatchedOAuth2_PropertyMappings : option (list string);
  PatchedOAuth2_ClientType : option string;
  PatchedOAuth2_GrantTypes : option (list string);
  PatchedOAuth2_ClientId : option string;
  PatchedOAuth2_ClientSecret : option string;
  PatchedOAuth2_AccessCodeValidity : option string;
  PatchedOAuth2_AccessTokenValidity : option string;
  PatchedOAuth2_RefreshTokenValidity : option string;
  PatchedOAuth2_RefreshTokenThreshold : option string;
  PatchedOAuth2_IncludeClaimsInIdToken : option bool;
  PatchedOAuth2_SigningKey : Nullable string;
  PatchedOAuth2_EncryptionKey : Nullable string;
  PatchedOAuth2_RedirectUris : option (list RedirectURIRequest);
  PatchedOAuth2_LogoutUri : option string;
  PatchedOAuth2_LogoutMethod : option string;
  PatchedOAuth2_SubMode : option string;
  PatchedOAuth2_IssuerMode : option string;
}.

(** ** PolicyBindings *)

Record PolicyBinding : Type := mkPolicyBinding {
  PolicyBinding_Pk : string;
  PolicyBinding_Policy : Nullable string;
  PolicyBinding_Group : Nullable string;
  PolicyBinding_User : Nullable Z;
  PolicyBinding_Target : string;
  PolicyBinding_Negate : option bool;
  PolicyBinding_Enabled : option bool;
  PolicyBinding_Order : Z;
  PolicyBinding_Timeout : option Z;
  PolicyBinding_FailureResult : option bool;
}.

Record PolicyBindingRequest : Type := mkPolicyBindingRequest {
  PolicyBindingRequest_Policy : Nullable string;
  PolicyBindingRequest_Group : Nullable string;
  PolicyBindingRequest_User : Nullable Z;
  PolicyBindingRequest_Target : string;
  PolicyBindingRequest_Negate : option bool;
  PolicyBindingRequest_Enabled : option bool;
  PolicyBindingRequest_Order : Z;
  PolicyBindingRequest_Timeout : option Z;
  PolicyBindingRequest_FailureResult : option bool;
}.

Record PatchedPolicyBindingRequest : Type := mkPatchedPolicyBindingRequest {
  PatchedBinding_Policy : Nullable string;
  PatchedBinding_Group : Nullable string;
  PatchedBinding_User : Nullable Z;
  PatchedBinding_Target : option string;
  PatchedBinding_Negate : option bool;
  PatchedBinding_Enabled : option bool;
  PatchedBinding_Order : option Z;
  PatchedBinding_Timeout : option Z;
  PatchedBinding_FailureResult : option bool;
}.

(** ** Outposts, roles and the referenced objects *)

Record Outpost : Type := mkOutpost {
  Outpost_Pk : string;
  Outpost_Name : string;
  Outpost_Providers : list Z;
}.

Record Role : Type := mkRole {
  Role_Pk : string;
  Role_Name : string;
}.

(** [RoleObjectPermission] and [ExtraRoleObjectPermission], which agree on the fields that are read. *)
Record RoleObjectPermission : Type := mkRoleObjectPermission {
  Permission_Id : Z;
  Permission_Codename : string;
  Permission_Model : string;
  Permission_AppLabel : string;
  Permission_ObjectPk : string;
}.

Record RoleAssignedObjectPermission : Type := mkRoleAssignedObjectPermission {
  Assigned_RolePk : string;
  Assigned_Name : string;
  Assigned_ObjectPermissions : list RoleObjectPermission;
}.

Record Group : Type := mkGroup { Group_Pk : string; Group_Name : string }.
Record User : Type := mkUser { User_Pk : Z; User_Username : string }.
Record Policy : Type := mkPolicy { Policy_Pk : string; Policy_Name : string }.
Record Flow : Type := mkFlow { Flow_Pk : string; Flow_Slug : string }.
Record CertificateKeyPair : Type := mkCertificateKeyPair { KeyPair_Pk : string; KeyPair_Name : string }.
Record ScopeMapping : Type := mkScopeMapping {
  ScopeMapping_Pk : string;
  ScopeMapping_Name : string;
  ScopeMapping_ScopeName : string;
  ScopeMapping_Managed : Nullable string;
}.

(** [api.Version]: the version in use. *)
Record Version : Type := mkVersion {
  Version_VersionCurrent : string;
  Version_VersionLatest : string;
  Version_VersionLatestValid : bool;
}.
