(* ===== verification/Crd.v ===== *)
(** * The AuthentikApplication resource

    [api/v1alpha1/authentikapplication_types.go]: the spec, the status and the constants, and the validation rules
    that the kubebuilder markers put into the CRD schema, as boolean predicates. The enumerations are strings with
    their constants, as in Go. A slice whose nil value means "not managed" is an [option (list _)]; the other slices
    are lists. *)
From S2P Require Import Prelude.

(** ** Constants *)

Definition DeletionPolicyRetain : string := "Retain".
Definition DeletionPolicyDelete : string := "Delete".

Definition AdoptionPolicyNever : string := "Never".
Definition AdoptionPolicyIfMatch : string := "IfMatch".
Definition AdoptionPolicyForce : string := "Force".

Definition ClientTypeConfidential : string := "Confidential".
Definition ClientTypePublic : string := "Public".

Definition GrantTypeAuthorizationCode : string := "AuthorizationCode".
Definition GrantTypeImplicit : string := "Implicit".
Definition GrantTypeHybrid : string := "Hybrid".
Definition GrantTypeRefreshToken : string := "RefreshToken".
Definition GrantTypeClientCredentials : string := "ClientCredentials".
Definition GrantTypePassword : string := "Password".
Definition GrantTypeDeviceCode : string := "DeviceCode".
Definition GrantTypeTokenExchange : string := "TokenExchange".

Definition SubjectModeHashedUserID : string := "HashedUserID".
Definition SubjectModeUserID : string := "UserID".
Definition SubjectModeUserUUID : string := "UserUUID".
Definition SubjectModeUserUsername : string := "UserUsername".
Definition SubjectModeUserEmail : string := "UserEmail".
Definition SubjectModeUserUPN : string := "UserUPN".

Definition IssuerModeGlobal : string := "Global".
Definition IssuerModePerProvider : string := "PerProvider".

Definition LogoutMethodBackChannel : string := "BackChannel".
Definition LogoutMethodFrontChannel : string := "FrontChannel".

Definition MatchingModeStrict : string := "Strict".
Definition MatchingModeRegex : string := "Regex".

Definition RedirectURITypeAuthorization : string := "Authorization".
Definition RedirectURITypePostLogout : string := "PostLogout".

Definition AccessModeAny : string := "Any".
Definition AccessModeAll : string := "All".

Definition ConditionTypeReady : string := "Ready".
Definition ConditionTypeUnmanagedBindings : string := "UnmanagedBindings".

Definition ReasonReconciled : string := "Reconciled".
Definition ReasonConflict : string := "Conflict".
Definition ReasonUnmanaged : string := "Unmanaged".
Definition ReasonAdoptionDiff : string := "AdoptionDiff".
Definition ReasonProviderTypeMismatch : string := "ProviderTypeMismatch".
Definition ReasonUnmanagedBindings : string := "UnmanagedBindings".
Definition ReasonAPIError : string := "APIError".

(** ** References *)

Record NamedReference : Type := mkNamedReference {
  NamedReference_Name : option string;
  NamedReference_UUID : option string;
}.

Record FlowReference : Type := mkFlowReference {
  FlowReference_Slug : option string;
  FlowReference_UUID : option string;
}.

Record UserReference : Type := mkUserReference {
  UserReference_Username : option string;
  UserReference_PK : option Z;
}.

Record ScopeMappingReference : Type := mkScopeMappingReference {
  ScopeMappingReference_ScopeName : option string;
  ScopeMappingReference_UUID : option string;
}.

(** ** Providers *)

Record ProxyModeSpec : Type := mkProxyModeSpec {
  ProxyMode_ExternalHost : string;
  ProxyMode_InternalHost : string;
  ProxyMode_InternalHostSSLValidation : option bool;
}.

Record ForwardAuthSingleSpec : Type := mkForwardAuthSingleSpec {
  ForwardAuthSingle_ExternalHost : string;
}.

Record ForwardAuthDomainSpec : Type := mkForwardAuthDomainSpec {
  ForwardAuthDomain_AuthenticationURL : string;
  ForwardAuthDomain_CookieDomain : string;
}.

Record BasicAuthSpec : Type := mkBasicAuthSpec {
  BasicAuth_UserAttribute : string;
  BasicAuth_PasswordAttribute : string;
}.

Record ProxyProviderSpec : Type := mkProxyProviderSpec {
  Proxy_Proxy : option ProxyModeSpec;
  Proxy_ForwardAuthSingle : option ForwardAuthSingleSpec;
  Proxy_ForwardAuthDomain : option ForwardAuthDomainSpec;
  Proxy_UnauthenticatedPaths : option (list string);
  Proxy_BasicAuth : option BasicAuthSpec;
  Proxy_InterceptHeaderAuth : option bool;
  Proxy_AccessTokenValidity : option string;
  Proxy_RefreshTokenValidity : option string;
  Proxy_Certificate : option NamedReference;
  Proxy_Outpost : option NamedReference;
}.

Record RedirectURISpec : Type := mkRedirectURISpec {
  RedirectURISpec_URL : string;
  RedirectURISpec_MatchingMode : option string;
  RedirectURISpec_Type : option string;
}.

Record OAuth2CredentialsSecretReference : Type := mkSecretReference {
  SecretRef_Name : string;
  SecretRef_ClientIDKey : option string;
  SecretRef_ClientSecretKey : option string;
}.

Record OAuth2CredentialsSpec : Type := mkOAuth2CredentialsSpec {
  CredentialsSpec_ClientID : option string;
  CredentialsSpec_SecretRef : OAuth2CredentialsSecretReference;
}.

Record OAuth2ProviderSpec : Type := mkOAuth2ProviderSpec {
  OAuth2_ClientType : option string;
  OAuth2_RedirectURIs : option (list RedirectURISpec);
  OAuth2_Scopes : option (list ScopeMappingReference);
  OAuth2_SigningKey : option NamedReference;
  OAuth2_EncryptionKey : option NamedReference;
  OAuth2_GrantTypes : option (list string);
  OAuth2_SubjectMode : option string;
  OAuth2_IssuerMode : option string;
  OAuth2_IncludeClaimsInIDToken : option bool;
  OAuth2_AccessCodeValidity : option string;
  OAuth2_AccessTokenValidity : option string;
  OAuth2_RefreshTokenValidity : option string;
  OAuth2_RefreshTokenThreshold : option string;
  OAuth2_LogoutURI : option string;
  OAuth2_LogoutMethod : option string;
  OAuth2_Credentials : option OAuth2CredentialsSpec;
}.

Record ProviderFlows : Type := mkProviderFlows {
  Flows_Authorization : FlowReference;
  Flows_Invalidation : FlowReference;
  Flows_Authentication : option FlowReference;
}.

Record ProviderSpec : Type := mkProviderSpec {
  Provider_Name : option string;
  Provider_Flows : ProviderFlows;
  Provider_Proxy : option ProxyProviderSpec;
  Provider_OAuth2 : option OAuth2ProviderSpec;
}.

(** ** Access *)

Record AccessRule : Type := mkAccessRule {
  AccessRule_Group : option NamedReference;
  AccessRule_User : option UserReference;
  AccessRule_Policy : option NamedReference;
  AccessRule_Negate : option bool;
}.

Record AccessSpec : Type := mkAccessSpec {
  Access_Mode : option string;
  Access_Rules : list AccessRule;
  Access_Public : option bool;
  Access_Prune : option bool;
}.

(** ** The resource *)

Record AuthentikApplicationSpec : Type := mkSpec {
  Spec_Slug : string;
  Spec_Name : string;
  Spec_LaunchURL : option string;
  Spec_Icon : option string;
  Spec_Description : option string;
  Spec_Publisher : option string;
  Spec_Group : option string;
  Spec_OpenInNewTab : option bool;
  Spec_HideFromApplicationDashboard : option bool;
  Spec_DeletionPolicy : option string;
  Spec_Adopt : option string;
  Spec_Provider : option ProviderSpec;
  Spec_Access : AccessSpec;
}.

Record FieldDiff : Type := mkFieldDiff {
  FieldDiff_Field : string;
  FieldDiff_Desired : string;
  FieldDiff_Actual : string;
}.

Record UnmanagedBinding : Type := mkUnmanagedBinding {
  UnmanagedBinding_UUID : string;
  UnmanagedBinding_Target : string;
}.

(** [metav1.Condition] without the transition time, which the operator never reads. *)
Record Condition : Type := mkCondition {
  Condition_Type : string;
  Condition_Status : bool;
  Condition_Reason : string;
  Condition_Message : string;
  Condition_ObservedGeneration : Z;
}.

Record AuthentikApplicationStatus : Type := mkStatus {
  Status_ObservedGeneration : Z;
  Status_ApplicationSlug : string;
  Status_ApplicationPK : string;
  Status_ProviderPK : option Z;
  Status_OutpostUUID : string;
  Status_BindingUUIDs : list string;
  Status_LastAppliedHash : string;
  Status_AdoptionDiff : list FieldDiff;
  Status_UnmanagedBindings : list UnmanagedBinding;
  Status_Conditions : list Condition;
}.

(** The metadata that the operator reads. Times are instants; a zero [DeletionTimestamp] is [None]. *)
Record AuthentikApplication : Type := mkResource {
  App_Namespace : string;
  App_Name : string;
  App_UID : string;
  App_Generation : Z;
  App_CreationTimestamp : Z;
  App_DeletionTimestamp : option Z;
  App_Finalizers : list string;
  App_Spec : AuthentikApplicationSpec;
  App_Status : AuthentikApplicationStatus;
}.

#[export] Instance FieldDiff_eq_dec : EqDecision FieldDiff.
Proof. solve_decision. Defined.
#[export] Instance UnmanagedBinding_eq_dec : EqDecision UnmanagedBinding.
Proof. solve_decision. Defined.
#[export] Instance Condition_eq_dec : EqDecision Condition.
Proof. solve_decision. Defined.
#[export] Instance AuthentikApplicationStatus_eq_dec : EqDecision AuthentikApplicationStatus.
Proof. solve_decision. Defined.

(** The zero status of a new resource. *)
Definition empty_status : AuthentikApplicationStatus := mkStatus 0 "" "" None "" [] "" [] [] [].

(** ** Field updates *)

Definition set_status (f : AuthentikApplicationStatus -> AuthentikApplicationStatus) (a : AuthentikApplication)
    : AuthentikApplication :=
  mkResource a.(App_Namespace) a.(App_Name) a.(App_UID) a.(App_Generation) a.(App_CreationTimestamp)
    a.(App_DeletionTimestamp) a.(App_Finalizers) a.(App_Spec) (f a.(App_Status)).

Definition set_finalizers (fs : list string) (a : AuthentikApplication) : AuthentikApplication :=
  mkResource a.(App_Namespace) a.(App_Name) a.(App_UID) a.(App_Generation) a.(App_CreationTimestamp)
    a.(App_DeletionTimestamp) fs a.(App_Spec) a.(App_Status).

Definition with_observed_generation v st :=
  mkStatus v st.(Status_ApplicationSlug) st.(Status_ApplicationPK) st.(Status_ProviderPK) st.(Status_OutpostUUID)
    st.(Status_BindingUUIDs) st.(Status_LastAppliedHash) st.(Status_AdoptionDiff) st.(Status_UnmanagedBindings)
    st.(Status_Conditions).
Definition with_application slug pk st :=
  mkStatus st.(Status_ObservedGeneration) slug pk st.(Status_ProviderPK) st.(Status_OutpostUUID)
    st.(Status_BindingUUIDs) st.(Status_LastAppliedHash) st.(Status_AdoptionDiff) st.(Status_UnmanagedBindings)
    st.(Status_Conditions).
Definition with_provider_pk v st :=
  mkStatus st.(Status_ObservedGeneration) st.(Status_ApplicationSlug) st.(Status_ApplicationPK) v
    st.(Status_OutpostUUID) st.(Status_BindingUUIDs) st.(Status_LastAppliedHash) st.(Status_AdoptionDiff)
    st.(Status_UnmanagedBindings) st.(Status_Conditions).
Definition with_outpost_uuid v st :=
  mkStatus st.(Status_ObservedGeneration) st.(Status_ApplicationSlug) st.(Status_ApplicationPK)
    st.(Status_ProviderPK) v st.(Status_BindingUUIDs) st.(Status_LastAppliedHash) st.(Status_AdoptionDiff)
    st.(Status_UnmanagedBindings) st.(Status_Conditions).
Definition with_binding_uuids v st :=
  mkStatus st.(Status_ObservedGeneration) st.(Status_ApplicationSlug) st.(Status_ApplicationPK)
    st.(Status_ProviderPK) st.(Status_OutpostUUID) v st.(Status_LastAppliedHash) st.(Status_AdoptionDiff)
    st.(Status_UnmanagedBindings) st.(Status_Conditions).
Definition with_last_applied_hash v st :=
  mkStatus st.(Status_ObservedGeneration) st.(Status_ApplicationSlug) st.(Status_ApplicationPK)
    st.(Status_ProviderPK) st.(Status_OutpostUUID) st.(Status_BindingUUIDs) v st.(Status_AdoptionDiff)
    st.(Status_UnmanagedBindings) st.(Status_Conditions).
Definition with_adoption_diff v st :=
  mkStatus st.(Status_ObservedGeneration) st.(Status_ApplicationSlug) st.(Status_ApplicationPK)
    st.(Status_ProviderPK) st.(Status_OutpostUUID) st.(Status_BindingUUIDs) st.(Status_LastAppliedHash) v
    st.(Status_UnmanagedBindings) st.(Status_Conditions).
Definition with_unmanaged_bindings v st :=
  mkStatus st.(Status_ObservedGeneration) st.(Status_ApplicationSlug) st.(Status_ApplicationPK)
    st.(Status_ProviderPK) st.(Status_OutpostUUID) st.(Status_BindingUUIDs) st.(Status_LastAppliedHash)
    st.(Status_AdoptionDiff) v st.(Status_Conditions).
Definition with_conditions v st :=
  mkStatus st.(Status_ObservedGeneration) st.(Status_ApplicationSlug) st.(Status_ApplicationPK)
    st.(Status_ProviderPK) st.(Status_OutpostUUID) st.(Status_BindingUUIDs) st.(Status_LastAppliedHash)
    st.(Status_AdoptionDiff) st.(Status_UnmanagedBindings) v.

(** ** Validation rules of the CRD *)

(** [has(x)] of CEL. *)
Definition has {A} (p : option A) : bool := match p with Some _ => true | None => false end.

Definition count_true (bs : list bool) : nat := length (filter (fun b => b = true) bs).

Definition optional {A} (valid : A -> bool) (p : option A) : bool :=
  match p with None => true | Some a => valid a end.

Definition min_length_1 (s : string) : bool := bool_decide (s <> "").

(** The length that [MaxLength] bounds: the characters of a text in UTF-8, whose continuation bytes start with the bits
    10. The API server only stores texts that are valid UTF-8. *)
Fixpoint characters (s : string) : nat :=
  match s with
  | "" => 0
  | String c s => (if bool_decide (128 <= Ascii.nat_of_ascii c < 192)%nat then 0 else 1) + characters s
  end.

Definition max_length (n : nat) (s : string) : bool := bool_decide (characters s <= n)%nat.

Definition enum (values : list string) (s : string) : bool := bool_decide (s ∈ values).

Definition slug_char (c : ascii) : bool :=
  let n := Ascii.nat_of_ascii c in
  ((97 <=? n) && (n <=? 122) || (65 <=? n) && (n <=? 90) || (48 <=? n) && (n <=? 57)
   || (n =? 45) || (n =? 95))%nat.

Fixpoint all_chars (p : ascii -> bool) (s : string) : bool :=
  match s with EmptyString => true | String c rest => p c && all_chars p rest end.

(** [Pattern=`^[-a-zA-Z0-9_]+$`] and [MinLength=1]. *)
Definition valid_slug (s : string) : bool := min_length_1 s && all_chars slug_char s.

Definition valid_named (r : NamedReference) : bool :=
  xorb (has r.(NamedReference_Name)) (has r.(NamedReference_UUID)) && optional min_length_1 r.(NamedReference_Name).

Definition valid_flow (r : FlowReference) : bool :=
  xorb (has r.(FlowReference_Slug)) (has r.(FlowReference_UUID)) && optional min_length_1 r.(FlowReference_Slug).

Definition valid_user (r : UserReference) : bool :=
  xorb (has r.(UserReference_Username)) (has r.(UserReference_PK)) &&
  optional min_length_1 r.(UserReference_Username) && optional (fun pk => bool_decide (1 <= pk)) r.(UserReference_PK).

Definition valid_scope (r : ScopeMappingReference) : bool :=
  xorb (has r.(ScopeMappingReference_ScopeName)) (has r.(ScopeMappingReference_UUID)) &&
  optional min_length_1 r.(ScopeMappingReference_ScopeName).

Definition valid_rule (r : AccessRule) : bool :=
  bool_decide (count_true [has r.(AccessRule_Group); has r.(AccessRule_User); has r.(AccessRule_Policy)] = 1%nat) &&
  optional valid_named r.(AccessRule_Group) && optional valid_user r.(AccessRule_User) &&
  optional valid_named r.(AccessRule_Policy).

Definition valid_access (a : AccessSpec) : bool :=
  let nonempty := match a.(Access_Rules) with [] => false | _ => true end in
  let public := match a.(Access_Public) with Some b => b | None => false end in
  (nonempty || public) && negb (nonempty && public) &&
  optional (enum [AccessModeAny; AccessModeAll]) a.(Access_Mode) && forallb valid_rule a.(Access_Rules).

Definition valid_proxy (p : ProxyProviderSpec) : bool :=
  bool_decide (count_true [has p.(Proxy_Proxy); has p.(Proxy_ForwardAuthSingle); has p.(Proxy_ForwardAuthDomain)]
               = 1%nat) &&
  optional (fun m => min_length_1 m.(ProxyMode_ExternalHost) && min_length_1 m.(ProxyMode_InternalHost)) p.(Proxy_Proxy) &&
  optional (fun m => min_length_1 m.(ForwardAuthSingle_ExternalHost)) p.(Proxy_ForwardAuthSingle) &&
  optional (fun m => min_length_1 m.(ForwardAuthDomain_AuthenticationURL)
                     && min_length_1 m.(ForwardAuthDomain_CookieDomain)) p.(Proxy_ForwardAuthDomain) &&
  optional (fun b => min_length_1 b.(BasicAuth_UserAttribute) && min_length_1 b.(BasicAuth_PasswordAttribute))
    p.(Proxy_BasicAuth) &&
  optional valid_named p.(Proxy_Certificate) && optional valid_named p.(Proxy_Outpost).

Definition valid_redirect_uri (u : RedirectURISpec) : bool :=
  min_length_1 u.(RedirectURISpec_URL) &&
  optional (enum [MatchingModeStrict; MatchingModeRegex]) u.(RedirectURISpec_MatchingMode) &&
  optional (enum [RedirectURITypeAuthorization; RedirectURITypePostLogout]) u.(RedirectURISpec_Type).

Definition all_grant_types : list string :=
  [GrantTypeAuthorizationCode; GrantTypeImplicit; GrantTypeHybrid; GrantTypeRefreshToken;
   GrantTypeClientCredentials; GrantTypePassword; GrantTypeDeviceCode; GrantTypeTokenExchange].

Definition all_subject_modes : list string :=
  [SubjectModeHashedUserID; SubjectModeUserID; SubjectModeUserUUID; SubjectModeUserUsername; SubjectModeUserEmail;
   SubjectModeUserUPN].

Definition valid_credentials (c : OAuth2CredentialsSpec) : bool :=
  let ref := c.(CredentialsSpec_SecretRef) in
  negb (has c.(CredentialsSpec_ClientID) && has ref.(SecretRef_ClientIDKey)) &&
  optional (fun s => min_length_1 s && max_length 255 s) c.(CredentialsSpec_ClientID) &&
  min_length_1 ref.(SecretRef_Name) && max_length 253 ref.(SecretRef_Name) &&
  optional min_length_1 ref.(SecretRef_ClientIDKey) && optional min_length_1 ref.(SecretRef_ClientSecretKey).

Definition valid_oauth2 (o : OAuth2ProviderSpec) : bool :=
  optional (enum [ClientTypeConfidential; ClientTypePublic]) o.(OAuth2_ClientType) &&
  optional (forallb valid_redirect_uri) o.(OAuth2_RedirectURIs) &&
  optional (forallb valid_scope) o.(OAuth2_Scopes) &&
  optional valid_named o.(OAuth2_SigningKey) && optional valid_named o.(OAuth2_EncryptionKey) &&
  optional (fun gs => forallb (enum all_grant_types) gs && bool_decide (NoDup gs)) o.(OAuth2_GrantTypes) &&
  optional (enum all_subject_modes) o.(OAuth2_SubjectMode) &&
  optional (enum [IssuerModeGlobal; IssuerModePerProvider]) o.(OAuth2_IssuerMode) &&
  optional (enum [LogoutMethodBackChannel; LogoutMethodFrontChannel]) o.(OAuth2_LogoutMethod) &&
  optional valid_credentials o.(OAuth2_Credentials).

Definition valid_provider (p : ProviderSpec) : bool :=
  xorb (has p.(Provider_Proxy)) (has p.(Provider_OAuth2)) &&
  optional min_length_1 p.(Provider_Name) &&
  valid_flow p.(Provider_Flows).(Flows_Authorization) && valid_flow p.(Provider_Flows).(Flows_Invalidation) &&
  optional valid_flow p.(Provider_Flows).(Flows_Authentication) &&
  optional valid_proxy p.(Provider_Proxy) && optional valid_oauth2 p.(Provider_OAuth2).

(** The rules that do not refer to the previous spec. *)
Definition valid_spec (s : AuthentikApplicationSpec) : bool :=
  valid_slug s.(Spec_Slug) && min_length_1 s.(Spec_Name) &&
  optional (enum [DeletionPolicyRetain; DeletionPolicyDelete]) s.(Spec_DeletionPolicy) &&
  optional (enum [AdoptionPolicyNever; AdoptionPolicyIfMatch; AdoptionPolicyForce]) s.(Spec_Adopt) &&
  optional valid_provider s.(Spec_Provider) && valid_access s.(Spec_Access).

(** The transition rules: [self] replaces [oldSelf]. *)
Definition valid_update (oldSelf self : AuthentikApplicationSpec) : bool :=
  bool_decide (self.(Spec_Slug) = oldSelf.(Spec_Slug)) &&
  (negb (has oldSelf.(Spec_Provider)) || has self.(Spec_Provider)) &&
  match oldSelf.(Spec_Provider), self.(Spec_Provider) with
  | Some p, Some p' => bool_decide (has p'.(Provider_Proxy) = has p.(Provider_Proxy))
  | _, _ => true
  end.
