(* ===== verification/Memory.v ===== *)
(** * The memory of the Go program

    Deep copies are about sharing, so the methods that make them run on a memory with addresses. It is flat: a scalar,
    a pointer or a slice header takes one cell, a struct takes the cells of its fields in order, and a pointer may
    point into a struct or an array. Memory is never freed. A [go_type] describes the layout of a Go type, the value
    that is stored at an address, and the cells that this value reaches through pointers. No code of the operator. *)
From S2P Require Import Prelude.

#[local] Open Scope nat_scope.

(** ** Cells and programs *)

Abbreviation loc := nat (only parsing).

(** A slice header is the address of its array and its length. The capacity is not used by copies. *)
Inductive cell : Type :=
  | CString (s : string)
  | CBool (b : bool)
  | CInt (z : Z)
  | CPtr (p : option loc)
  | CSlice (s : option (loc * nat)).

Record heap : Type := mkHeap {
  heap_cells : gmap loc cell;
  heap_next : nat;
}.

(** A program reads and writes memory; [None] is a memory fault, such as the dereference of nil. *)
Definition mem (A : Type) : Type := heap -> option (A * heap).

#[export] Instance mem_ret : MRet mem := fun A a h => Some (a, h).
#[export] Instance mem_bind : MBind mem := fun A B f m h => match m h with Some (a, h') => f a h' | None => None end.

Definition fault {A} : mem A := fun _ => None.

Definition read (l : loc) : mem cell := fun h => c ← h.(heap_cells) !! l; Some (c, h).

Definition write (l : loc) (c : cell) : mem () := fun h =>
  if decide (is_Some (h.(heap_cells) !! l)) then Some ((), mkHeap (<[l := c]> h.(heap_cells)) h.(heap_next)) else None.

Fixpoint store_cells (l : loc) (cs : list cell) (m : gmap loc cell) : gmap loc cell :=
  match cs with
  | [] => m
  | c :: cs => <[l := c]> (store_cells (S l) cs m)
  end.

(** [new] and [make]: fresh cells with the given contents. *)
Definition alloc (cs : list cell) : mem loc := fun h =>
  Some (h.(heap_next), mkHeap (store_cells h.(heap_next) cs h.(heap_cells)) (length cs + h.(heap_next))).

Definition read_pointer (l : loc) : mem (option loc) :=
  c ← read l; match c with CPtr p => mret p | _ => fault end.

Definition read_slice (l : loc) : mem (option (loc * nat)) :=
  c ← read l; match c with CSlice s => mret s | _ => fault end.

(** [*out = *in] of a type with [n] cells, and the built-in [copy] of arrays with [n] cells. *)
Fixpoint shallow_copy (n : nat) (in_ out : loc) : mem () :=
  match n with
  | O => mret ()
  | S n => c ← read in_; write out c ;; shallow_copy n (S in_) (S out)
  end.

(** The loop [for i := range *in] with the addresses of the elements, which have [size] cells, of both arrays. *)
Fixpoint for_elements (n size : nat) (body : loc -> loc -> mem ()) (in_ out : loc) : mem () :=
  match n with
  | O => mret ()
  | S n => body in_ out ;; for_elements n size body (size + in_) (size + out)
  end.

(** ** Types *)

Record go_type (A : Type) : Type := mkGoType {
  ty_zero : list cell;
  ty_load : heap -> loc -> option A;
  ty_reach : heap -> loc -> gset loc;
}.
Arguments mkGoType {A} _ _ _.
Arguments ty_zero {A} _.
Arguments ty_load {A} _ _ _.
Arguments ty_reach {A} _ _ _.

Definition ty_size {A} (T : go_type A) : nat := length (ty_zero T).

Definition scalar_type {A} (zero : cell) (get : cell -> option A) : go_type A :=
  mkGoType [zero] (fun h l => c ← h.(heap_cells) !! l; get c) (fun _ l => {[l]}).

Definition string_type : go_type string := scalar_type (CString "") (fun c => match c with CString s => Some s | _ => None end).
Definition bool_type : go_type bool := scalar_type (CBool false) (fun c => match c with CBool b => Some b | _ => None end).
Definition int64_type : go_type Z := scalar_type (CInt 0) (fun c => match c with CInt z => Some z | _ => None end).

(** A type without cells. *)
Definition unit_type : go_type () := mkGoType [] (fun _ _ => Some ()) (fun _ _ => ∅).

(** Two fields. *)
Definition pair_type {A B} (TA : go_type A) (TB : go_type B) : go_type (A * B) :=
  mkGoType (ty_zero TA ++ ty_zero TB)
    (fun h l => a ← ty_load TA h l; b ← ty_load TB h (ty_size TA + l); Some (a, b))
    (fun h l => ty_reach TA h l ∪ ty_reach TB h (ty_size TA + l)).

(** A struct, made of its fields. *)
Definition struct_type {A B} (make : A -> B) (T : go_type A) : go_type B :=
  mkGoType (ty_zero T) (fun h l => make <$> ty_load T h l) (ty_reach T).

(** [*T] *)
Definition pointer_type {A} (T : go_type A) : go_type (option A) :=
  mkGoType [CPtr None]
    (fun h l => match h.(heap_cells) !! l with
                | Some (CPtr None) => Some None
                | Some (CPtr (Some p)) => Some <$> ty_load T h p
                | _ => None
                end)
    (fun h l => {[l]} ∪ match h.(heap_cells) !! l with Some (CPtr (Some p)) => ty_reach T h p | _ => ∅ end).

(** [[n]T] *)
Fixpoint array_type {A} (T : go_type A) (n : nat) : go_type (list A) :=
  match n with
  | O => struct_type (fun _ => []) unit_type
  | S n => struct_type (fun '(a, l) => a :: l) (pair_type T (array_type T n))
  end.

(** [[]T], where nil is [None]. *)
Definition slice_type {A} (T : go_type A) : go_type (option (list A)) :=
  mkGoType [CSlice None]
    (fun h l => match h.(heap_cells) !! l with
                | Some (CSlice None) => Some None
                | Some (CSlice (Some (p, n))) => Some <$> ty_load (array_type T n) h p
                | _ => None
                end)
    (fun h l => {[l]} ∪ match h.(heap_cells) !! l with
                        | Some (CSlice (Some (p, n))) => ty_reach (array_type T n) h p
                        | _ => ∅
                        end).

(** [[]T], where nil is not told apart from an empty slice. *)
Definition list_type {A} (T : go_type A) : go_type (list A) := struct_type (default []) (slice_type T).

(** ** The statements of a deep copy *)

(** [if in.F != nil { in, out := &in.F, &out.F; *out = new(T); ... }], where [into] copies what [in] points to. *)
Definition copy_pointer {A} (T : go_type A) (into : loc -> loc -> mem ()) (in_ out : loc) : mem () :=
  p ← read_pointer in_;
  match p with
  | None => mret ()
  | Some p => q ← alloc (ty_zero T); write out (CPtr (Some q)) ;; into p q
  end.

(** [if in.F != nil { in, out := &in.F, &out.F; *out = make(...); ... }], where [into n] copies the
    elements. *)
Definition copy_slice {A} (T : go_type A) (into : nat -> loc -> loc -> mem ()) (in_ out : loc) : mem () :=
  s ← read_slice in_;
  match s with
  | None => mret ()
  | Some (p, n) => q ← alloc (ty_zero (array_type T n)); write out (CSlice (Some (q, n))) ;; into n p q
  end.

(** [**out = **in] *)
Definition copy_value {A} (T : go_type A) : loc -> loc -> mem () := copy_pointer T (shallow_copy (ty_size T)).

(** The same for a slice, with the built-in [copy]. *)
Definition copy_values {A} (T : go_type A) : loc -> loc -> mem () := copy_slice T (fun n => shallow_copy (ty_size (array_type T n))).

(** The loop that calls [DeepCopyInto] on every element. *)
Definition copy_elements {A} (T : go_type A) (into : loc -> loc -> mem ()) : loc -> loc -> mem () :=
  copy_slice T (fun n => for_elements n (ty_size T) into).

(** The method [DeepCopy] of a type with [DeepCopyInto]. *)
Definition deep_copy {A} (T : go_type A) (into : loc -> loc -> mem ()) (in_ : option loc) : mem (option loc) :=
  match in_ with
  | None => mret None
  | Some in_ => out ← alloc (ty_zero T); into in_ out ;; mret (Some out)
  end.

(** ** Heaps *)

(** The cells are those below [heap_next]. *)
Definition heap_ok (h : heap) : Prop := forall x, is_Some (h.(heap_cells) !! x) <-> x < h.(heap_next).

(** The cells of an object. *)
Definition region (l : loc) (n : nat) : gset loc := set_seq l n.

Lemma elem_of_region l n x : x ∈ region l n <-> l <= x < n + l.
Proof. unfold region. rewrite elem_of_set_seq. lia. Qed.

(** A step of a program that writes to the cells [w] and allocates. *)
Record evolves (w : gset loc) (h h' : heap) : Prop := {
  evolves_ok : heap_ok h';
  evolves_next : h.(heap_next) <= h'.(heap_next);
  evolves_kept x : x < h.(heap_next) -> x ∉ w -> h'.(heap_cells) !! x = h.(heap_cells) !! x;
}.

Lemma evolves_refl w h : heap_ok h -> evolves w h h.
Proof. by split. Qed.

(** The second step writes to known cells and to those that the first one allocated. *)
Lemma evolves_trans w w1 w2 h h1 h2 :
  evolves w1 h h1 -> evolves w2 h1 h2 -> w1 ⊆ w -> (forall x, x ∈ w2 -> x ∈ w \/ h.(heap_next) <= x) -> evolves w h h2.
Proof.
  intros [_ Hn1 Hk1] [Hok Hn2 Hk2] Hw1 Hw2. split; [done|lia|]. intros x Hx Hw.
  rewrite Hk2; [apply Hk1; [done|set_solver]|lia|]. intros Hin. destruct (Hw2 x Hin); [done|lia].
Qed.

Lemma evolves_weaken w w' h h' : w ⊆ w' -> evolves w h h' -> evolves w' h h'.
Proof. intros Hw [Hok Hn Hk]. split; [done|done|]. intros x Hx Hx'. apply Hk; [done|set_solver]. Qed.

Lemma write_spec h l c :
  heap_ok h -> l < h.(heap_next) -> exists h', write l c h = Some ((), h') /\ evolves {[l]} h h' /\
    h'.(heap_cells) !! l = Some c /\ h'.(heap_next) = h.(heap_next).
Proof.
  intros Hok Hl. unfold write. rewrite decide_True by by apply Hok. eexists. split; [done|]. simpl.
  split_and!; [|by rewrite lookup_insert_eq|done]. split; simpl; [|done|].
  - intros x. simpl. rewrite lookup_insert_is_Some. rewrite (Hok x).
    destruct (decide (l = x)) as [->|]; [tauto|]. naive_solver.
  - intros x _ Hx. rewrite lookup_insert_ne; [done|set_solver].
Qed.

Lemma store_cells_lookup l cs m x :
  store_cells l cs m !! x = if decide (l <= x < length cs + l) then cs !! (x - l) else m !! x.
Proof.
  revert l. induction cs as [|c cs IH]; intros l; simpl; [case_decide; [lia|done]|].
  destruct (decide (x = l)) as [->|Hne].
  - rewrite lookup_insert_eq, decide_True by lia. by replace (l - l) with 0 by lia.
  - rewrite lookup_insert_ne, IH by done. repeat case_decide; try lia; [|done].
    replace (x - l) with (S (x - S l)) by lia. done.
Qed.

Lemma alloc_spec h cs :
  heap_ok h -> exists h', alloc cs h = Some (h.(heap_next), h') /\ evolves ∅ h h' /\
    h'.(heap_next) = length cs + h.(heap_next).
Proof.
  intros Hok. eexists. split; [done|]. split; [|done]. split; simpl.
  - intros x. simpl. rewrite store_cells_lookup. case_decide as Hx.
    + rewrite lookup_lt_is_Some. lia.
    + rewrite (Hok x). lia.
  - lia.
  - intros x Hx _. rewrite store_cells_lookup. by rewrite decide_False by lia.
Qed.

(** A memory with the given cells. *)
Definition initial_heap (cs : list cell) : heap := mkHeap (store_cells 0 cs ∅) (length cs).

Lemma initial_heap_ok cs : heap_ok (initial_heap cs).
Proof.
  intros x. simpl. rewrite store_cells_lookup. case_decide as Hx.
  - rewrite lookup_lt_is_Some. lia.
  - rewrite lookup_empty. split; [by intros []|lia].
Qed.

(** ** Laws of types

    A stored value depends on the cells that it reaches; these are allocated and include its own. *)
Class Lawful {A} (T : go_type A) : Prop := {
  lawful_frame h h' l v :
    ty_load T h l = Some v -> (forall x, x ∈ ty_reach T h l -> h'.(heap_cells) !! x = h.(heap_cells) !! x) ->
    ty_load T h' l = Some v /\ ty_reach T h' l = ty_reach T h l;
  lawful_alloc h l v x :
    ty_load T h l = Some v -> x ∈ ty_reach T h l -> is_Some (h.(heap_cells) !! x);
  lawful_region h l v : ty_load T h l = Some v -> region l (ty_size T) ⊆ ty_reach T h l;
}.

(** A type without pointers: equal cells store equal values. *)
Class Flat {A} (T : go_type A) : Prop := {
  flat_load h h' l l' : (forall k, k < ty_size T -> h'.(heap_cells) !! (k + l') = h.(heap_cells) !! (k + l)) ->
    ty_load T h' l' = ty_load T h l;
  flat_reach h l : ty_reach T h l = region l (ty_size T);
}.

#[export] Instance scalar_lawful {A} zero (get : cell -> option A) : Lawful (scalar_type zero get).
Proof.
  split; simpl.
  - intros h h' l v Hl Hx. by rewrite Hx by set_solver.
  - intros h l v x Hl ->%elem_of_singleton. by destruct (heap_cells h !! l).
  - intros h l v _ x. rewrite elem_of_region, elem_of_singleton. unfold ty_size. simpl. lia.
Qed.

#[export] Instance scalar_flat {A} zero (get : cell -> option A) : Flat (scalar_type zero get).
Proof.
  split; simpl.
  - intros h h' l l' Hk. assert (H0 := Hk 0). simpl in H0. rewrite H0; [done|]. unfold ty_size. simpl. lia.
  - intros h l. apply leibniz_equiv. intros x. rewrite elem_of_region, elem_of_singleton. unfold ty_size. simpl. lia.
Qed.

#[export] Instance unit_lawful : Lawful unit_type.
Proof. split; simpl; [done|set_solver|]. intros h l v _ x. rewrite elem_of_region. unfold ty_size. simpl. lia. Qed.

#[export] Instance unit_flat : Flat unit_type.
Proof.
  split; simpl; [done|]. intros h l. apply leibniz_equiv. intros x. rewrite elem_of_region. unfold ty_size. simpl.
  split; [set_solver|lia].
Qed.

Lemma pair_size {A B} (TA : go_type A) (TB : go_type B) : ty_size (pair_type TA TB) = ty_size TA + ty_size TB.
Proof. unfold ty_size. simpl. by rewrite length_app. Qed.

Lemma pair_load {A B} (TA : go_type A) (TB : go_type B) h l v :
  ty_load (pair_type TA TB) h l = Some v <-> ty_load TA h l = Some v.1 /\ ty_load TB h (ty_size TA + l) = Some v.2.
Proof.
  simpl. destruct v as [a b]. destruct (ty_load TA h l) as [a'|]; simpl; [|naive_solver].
  destruct (ty_load TB h (ty_size TA + l)); simpl; naive_solver.
Qed.

#[export] Instance pair_lawful {A B} (TA : go_type A) (TB : go_type B) :
  Lawful TA -> Lawful TB -> Lawful (pair_type TA TB).
Proof.
  intros LA LB. split.
  - intros h h' l v [Ha Hb]%pair_load Hx. simpl in Hx.
    destruct (lawful_frame h h' l _ Ha) as [Ha' Ra]; [set_solver|].
    destruct (lawful_frame h h' _ _ Hb) as [Hb' Rb]; [set_solver|].
    split; [by apply pair_load|]. simpl. by rewrite Ra, Rb.
  - intros h l v x [Ha Hb]%pair_load. simpl. intros [Hx|Hx]%elem_of_union; [exact (lawful_alloc _ _ _ _ Ha Hx)|exact (lawful_alloc _ _ _ _ Hb Hx)].
  - intros h l v [Ha Hb]%pair_load x. rewrite elem_of_region, pair_size. intros Hx. simpl. apply elem_of_union.
    destruct (decide (x < ty_size TA + l)).
    + left. apply (lawful_region _ _ _ Ha), elem_of_region. lia.
    + right. apply (lawful_region _ _ _ Hb), elem_of_region. lia.
Qed.

#[export] Instance pair_flat {A B} (TA : go_type A) (TB : go_type B) : Flat TA -> Flat TB -> Flat (pair_type TA TB).
Proof.
  intros FA FB. split.
  - intros h h' l l' Hk. rewrite pair_size in Hk. simpl. rewrite (flat_load h h' l l') by (intros; apply Hk; lia).
    rewrite (flat_load h h' (ty_size TA + l) (ty_size TA + l')); [done|]. intros k Hlt.
    replace (k + (ty_size TA + l')) with (k + ty_size TA + l') by lia.
    replace (k + (ty_size TA + l)) with (k + ty_size TA + l) by lia. apply Hk. lia.
  - intros h l. simpl. rewrite !flat_reach, pair_size. apply leibniz_equiv. intros x.
    rewrite elem_of_union, !elem_of_region. lia.
Qed.

#[export] Instance struct_lawful {A B} (make : A -> B) (T : go_type A) : Lawful T -> Lawful (struct_type make T).
Proof.
  intros L. split; simpl.
  - intros h h' l v (a & Ha & ->)%fmap_Some Hx. destruct (lawful_frame h h' l _ Ha) as [Ha' Ra]; [done|].
    split; [by rewrite Ha'|done].
  - intros h l v x (a & Ha & _)%fmap_Some. by apply lawful_alloc with a.
  - intros h l v (a & Ha & _)%fmap_Some. by apply lawful_region with a.
Qed.

#[export] Instance struct_flat {A B} (make : A -> B) (T : go_type A) : Flat T -> Flat (struct_type make T).
Proof.
  intros F. split; [|exact (flat_reach (T := T))]. intros h h' l l' Hk. simpl. f_equal. by apply flat_load.
Qed.

#[export] Instance array_lawful {A} (T : go_type A) n : Lawful T -> Lawful (array_type T n).
Proof. intros L. induction n; simpl; apply _. Qed.

#[export] Instance array_flat {A} (T : go_type A) n : Flat T -> Flat (array_type T n).
Proof. intros F. induction n; simpl; apply _. Qed.

Lemma singleton_region l : {[l]} = region l 1.
Proof. apply leibniz_equiv. intros x. rewrite elem_of_region, elem_of_singleton. lia. Qed.

#[export] Instance pointer_lawful {A} (T : go_type A) : Lawful T -> Lawful (pointer_type T).
Proof.
  intros L. split; simpl.
  - intros h h' l v Hv Hx. rewrite Hx by set_solver. destruct (heap_cells h !! l) as [[| | |[p|]|]|]; try done.
    apply fmap_Some in Hv as (a & Ha & ->). destruct (lawful_frame h h' p _ Ha) as [Ha' Ra]; [set_solver|].
    by rewrite Ha', Ra.
  - intros h l v x Hv. destruct (heap_cells h !! l) as [[| | |[p|]|]|] eqn:El; try done;
      intros [->%elem_of_singleton|Hx]%elem_of_union; try by rewrite El.
    + apply fmap_Some in Hv as (a & Ha & _). by apply (lawful_alloc _ _ _ _ Ha).
    + set_solver.
  - intros h l v _. rewrite singleton_region. unfold ty_size. simpl. set_solver.
Qed.

#[export] Instance slice_lawful {A} (T : go_type A) : Lawful T -> Lawful (slice_type T).
Proof.
  intros L. split; simpl.
  - intros h h' l v Hv Hx. rewrite Hx by set_solver. destruct (heap_cells h !! l) as [[| | | |[[p n]|]]|]; try done.
    apply fmap_Some in Hv as (a & Ha & ->). destruct (lawful_frame h h' p _ Ha) as [Ha' Ra]; [set_solver|].
    by rewrite Ha', Ra.
  - intros h l v x Hv. destruct (heap_cells h !! l) as [[| | | |[[p n]|]]|] eqn:El; try done;
      intros [->%elem_of_singleton|Hx]%elem_of_union; try by rewrite El.
    + apply fmap_Some in Hv as (a & Ha & _). by apply (lawful_alloc _ _ _ _ Ha).
    + set_solver.
  - intros h l v _. rewrite singleton_region. unfold ty_size. simpl. set_solver.
Qed.

(** ** Deep copies *)

(** The program copied [v] to the cells at [out]: only these changed, and the copy reaches only them and new cells. *)
Record copied {A} (T : go_type A) (out : loc) (v : A) (h h' : heap) : Prop := {
  copied_evolves : evolves (region out (ty_size T)) h h';
  copied_load : ty_load T h' out = Some v;
  copied_reach x : x ∈ ty_reach T h' out -> x ∈ region out (ty_size T) \/ h.(heap_next) <= x;
}.

(** A value at [in_] and room for a copy at [out]. *)
Record copyable {A} (T : go_type A) (in_ out : loc) (v : A) (h : heap) : Prop := {
  copyable_heap : heap_ok h;
  copyable_load : ty_load T h in_ = Some v;
  copyable_room : ty_size T + out <= h.(heap_next);
  copyable_apart : forall x, x ∈ ty_reach T h in_ -> x ∉ region out (ty_size T);
}.

(** The cells at [out] are those at [in_]. *)
Definition shallow (n : nat) (in_ out : loc) (h : heap) : Prop :=
  forall k, k < n -> h.(heap_cells) !! (k + out) = h.(heap_cells) !! (k + in_).

(** The statements [m] make the copy, perhaps of the shallow copy that is already at [out]. *)
Definition copies {A} (assigned : bool) (T : go_type A) (m : mem ()) (in_ out : loc) : Prop :=
  forall h v, copyable T in_ out v h -> (assigned = true -> shallow (ty_size T) in_ out h) ->
    exists h', m h = Some ((), h') /\ copied T out v h h'.

Abbreviation deep_copies := (copies false).
Abbreviation deepens := (copies true).

Lemma deep_copies_deepens {A} (T : go_type A) m in_ out : deep_copies T m in_ out -> deepens T m in_ out.
Proof. intros Hm h v Hc _. by apply Hm. Qed.

Section copies.
Context {A : Type} (T : go_type A) `{!Lawful T}.

Lemma reach_allocated h l v x : heap_ok h -> ty_load T h l = Some v -> x ∈ ty_reach T h l -> x < h.(heap_next).
Proof. intros Hok Hl Hx. apply Hok. by eapply lawful_alloc. Qed.

(** What a step does not write keeps its value. *)
Lemma evolves_frame w h h' l v :
  heap_ok h -> evolves w h h' -> ty_load T h l = Some v -> (forall x, x ∈ ty_reach T h l -> x ∉ w) ->
  ty_load T h' l = Some v /\ ty_reach T h' l = ty_reach T h l.
Proof.
  intros Hok He Hl Hw. apply lawful_frame; [done|]. intros x Hx.
  apply (evolves_kept _ _ _ He); [by eapply reach_allocated|by apply Hw].
Qed.

Lemma copyable_after w h h' in_ out v :
  copyable T in_ out v h -> evolves w h h' -> (forall x, x ∈ ty_reach T h in_ -> x ∉ w) -> copyable T in_ out v h'.
Proof.
  intros [Hok Hl Hr Ha] He Hw. destruct (evolves_frame w h h' in_ v) as [Hl' Hr']; [done..|].
  split; [apply He|done|destruct He; lia|by rewrite Hr'].
Qed.

(** A copy is a shallow copy of a type without pointers. *)
Lemma deepens_flat in_ out : Flat T -> deepens T (mret ()) in_ out.
Proof.
  intros F h v [Hok Hl Hr Ha] Hs. exists h. split; [done|]. split; [by apply evolves_refl| |].
  - rewrite (flat_load h h in_ out); [done|by apply Hs].
  - intros x. rewrite flat_reach. by left.
Qed.

(** [*out = *in] *)
Lemma shallow_copy_spec n h in_ out :
  heap_ok h -> (forall x, x ∈ region in_ n -> x < h.(heap_next)) -> n + out <= h.(heap_next) ->
  (forall x, x ∈ region in_ n -> x ∉ region out n) ->
  exists h', shallow_copy n in_ out h = Some ((), h') /\ evolves (region out n) h h' /\ h'.(heap_next) = h.(heap_next) /\
    forall k, k < n -> h'.(heap_cells) !! (k + out) = h.(heap_cells) !! (k + in_).
Proof.
  revert h in_ out. induction n as [|n IH]; intros h in_ out Hok Hi Ho Ha; simpl.
  { exists h. split_and!; [done|by apply evolves_refl|done|lia]. }
  assert (Hin : in_ < h.(heap_next)) by (apply Hi, elem_of_region; lia).
  unfold mbind, mem_bind, read. destruct (proj2 (Hok in_) Hin) as [c Hc]. rewrite Hc. simpl.
  destruct (write_spec h out c) as (h1 & Hw & He1 & Hc1 & Hn1); [done|lia|]. rewrite Hw.
  destruct (IH h1 (S in_) (S out)) as (h2 & H2 & He2 & Hn2 & Hk2); [apply He1| |lia| |].
  { intros x Hx. rewrite Hn1. apply Hi. rewrite elem_of_region in *. lia. }
  { intros x Hx Hx'. apply (Ha x); rewrite elem_of_region in *; lia. }
  rewrite H2. exists h2. split; [done|]. split; [|split; [congruence|]].
  - eapply evolves_trans; [exact He1|exact He2|rewrite singleton_region|].
    + intros x. rewrite !elem_of_region. lia.
    + intros x. rewrite !elem_of_region. lia.
  - intros [|k] Hk; simpl.
    + rewrite (evolves_kept _ _ _ He2); [by rewrite Hc1|lia|]. rewrite elem_of_region. lia.
    + rewrite <- !Nat.add_succ_r, Hk2 by lia. apply (evolves_kept _ _ _ He1); [apply Hi, elem_of_region; lia|].
      rewrite elem_of_singleton. intros Heq. apply (Ha out); [rewrite <- Heq|]; rewrite elem_of_region; lia.
Qed.

(** [DeepCopyInto]: an assignment of the struct, and a deep copy of what it points to. *)
Lemma deep_copies_assign m in_ out :
  deepens T m in_ out -> deep_copies T (shallow_copy (ty_size T) in_ out ;; m) in_ out.
Proof.
  intros Hm h v Hc _. pose proof Hc as [Hok Hl Hr Ha].
  assert (Hreg : forall x, x ∈ region in_ (ty_size T) -> x ∈ ty_reach T h in_) by by apply (lawful_region _ _ _ Hl).
  destruct (shallow_copy_spec (ty_size T) h in_ out) as (h1 & E1 & He1 & Hn1 & Hk1); [done| |done|auto|].
  { intros x Hx. by apply (reach_allocated h in_ v); auto. }
  assert (Hc1 : copyable T in_ out v h1) by by eapply copyable_after.
  destruct (Hm h1 v Hc1) as (h2 & E2 & [He2 Hl2 Hr2]).
  { intros _ k Hk. rewrite Hk1 by done. symmetry. apply (evolves_kept _ _ _ He1).
    - apply (reach_allocated h in_ v); [done|done|]. apply Hreg, elem_of_region. lia.
    - apply Ha, Hreg, elem_of_region. lia. }
  exists h2. unfold mbind, mem_bind. rewrite E1. split; [done|]. split; [|done|].
  - eapply evolves_trans; [exact He1|exact He2|done|auto].
  - intros x Hx%Hr2. by rewrite <- Hn1.
Qed.

(** What [m] copied is still there after a step that writes neither to it nor to cells that existed before [m]. *)
Lemma copied_after m_out v w h h1 h2 :
  copied T m_out v h h1 -> ty_size T + m_out <= h.(heap_next) -> evolves w h1 h2 ->
  (forall x, x ∈ region m_out (ty_size T) -> x ∉ w) -> (forall x, x ∈ w -> x < h.(heap_next)) ->
  ty_load T h2 m_out = Some v /\ ty_reach T h2 m_out = ty_reach T h1 m_out.
Proof.
  intros [He Hl Hr] Hroom He2 Hw Hold. apply (evolves_frame w h1); [apply He|done|done|].
  intros x [Hx|Hx]%Hr Hin; [by apply (Hw x)|apply Hold in Hin; lia].
Qed.
End copies.

(** ** The statements of a struct, field by field *)

Lemma copies_struct {A B} assigned (make : A -> B) (T : go_type A) m in_ out :
  copies assigned T m in_ out -> copies assigned (struct_type make T) m in_ out.
Proof.
  intros Hm h v [Hok Hl Hr Ha] Hs. simpl in Hl. apply fmap_Some in Hl as (a & Hl & ->).
  destruct (Hm h a) as (h' & E & [He Hl' Hr']); [by split|done|].
  exists h'. split; [done|]. split; [done|simpl; by rewrite Hl'|done].
Qed.

Section fields.
Context {A B : Type} (TA : go_type A) (TB : go_type B) `{!Lawful TA, !Lawful TB}.

Lemma copyable_first in_ out a b h : copyable (pair_type TA TB) in_ out (a, b) h -> copyable TA in_ out a h.
Proof.
  intros [Hok [Hl _]%pair_load Hr Ha]. rewrite pair_size in Hr. split; [done|done|lia|].
  intros x Hx Hin. apply (Ha x); [simpl; set_solver|]. rewrite elem_of_region, pair_size in *. lia.
Qed.

Lemma copyable_second in_ out a b h :
  copyable (pair_type TA TB) in_ out (a, b) h -> copyable TB (ty_size TA + in_) (ty_size TA + out) b h.
Proof.
  intros [Hok [_ Hl]%pair_load Hr Ha]. rewrite pair_size in Hr. split; [done|done|lia|].
  intros x Hx Hin. apply (Ha x); [simpl; set_solver|]. rewrite elem_of_region, pair_size in *. lia.
Qed.

Lemma copies_pair assigned m m' in_ out :
  copies assigned TA m in_ out -> copies assigned TB m' (ty_size TA + in_) (ty_size TA + out) ->
  copies assigned (pair_type TA TB) (m ;; m') in_ out.
Proof.
  intros Hm Hm' h [a b] Hc Hs. unfold shallow in Hs. rewrite pair_size in Hs. pose proof Hc as [Hok Hl Hr Ha].
  rewrite pair_size in Hr. pose proof (lawful_region _ _ _ Hl) as Hreg.
  destruct (Hm h a) as (h1 & E1 & C1); [by eapply copyable_first|intros ? k Hk; apply Hs; [done|lia]|].
  pose proof (copied_evolves _ _ _ _ _ C1) as He1.
  assert (Hw : forall x, x ∈ ty_reach (pair_type TA TB) h in_ -> x ∉ region out (ty_size TA)).
  { intros x Hx Hin. apply (Ha x); [done|]. rewrite elem_of_region, pair_size in *. lia. }
  assert (Hc1 : copyable (pair_type TA TB) in_ out (a, b) h1) by (eapply copyable_after; [apply _|done..]).
  destruct (Hm' h1 b) as (h2 & E2 & C2); [by eapply copyable_second| |].
  { intros Has k Hk. specialize (Hs Has). rewrite (evolves_kept _ _ _ He1); [|lia|rewrite elem_of_region; lia].
    replace (k + (ty_size TA + out)) with (k + ty_size TA + out) by lia. rewrite Hs by lia. symmetry.
    replace (k + (ty_size TA + in_)) with (k + ty_size TA + in_) by lia.
    assert (Hx : k + ty_size TA + in_ ∈ ty_reach (pair_type TA TB) h in_).
    { apply Hreg, elem_of_region. rewrite pair_size. lia. }
    apply (evolves_kept _ _ _ He1); [by eapply (reach_allocated (pair_type TA TB))|by apply Hw]. }
  pose proof (copied_evolves _ _ _ _ _ C2) as He2.
  destruct (copied_after TA out a (region (ty_size TA + out) (ty_size TB)) h h1 h2) as [Hl2 Hr2]; [done|lia|done| | |].
  { intros x. rewrite !elem_of_region. lia. }
  { intros x. rewrite elem_of_region. lia. }
  exists h2. unfold mbind, mem_bind. rewrite E1. split; [done|]. split.
  - rewrite pair_size. eapply evolves_trans; [exact He1|exact He2| |]; intros x; rewrite !elem_of_region; lia.
  - apply pair_load. split; [done|apply C2].
  - intros x. simpl. rewrite Hr2, pair_size, elem_of_union, elem_of_region. destruct He1, He2.
    intros [[Hx|Hx]%(copied_reach _ _ _ _ _ C1)|[Hx|Hx]%(copied_reach _ _ _ _ _ C2)]; rewrite ?elem_of_region in Hx; lia.
Qed.

(** A field without pointers has no statement. *)
Lemma deepens_skip m in_ out :
  Flat TA -> deepens TB m (ty_size TA + in_) (ty_size TA + out) -> deepens (pair_type TA TB) m in_ out.
Proof.
  intros F Hm. assert (H : deepens (pair_type TA TB) (mret () ;; m) in_ out); [|exact H].
  apply copies_pair; [by apply deepens_flat|done].
Qed.

Lemma deepens_last m in_ out : Flat TB -> deepens TA m in_ out -> deepens (pair_type TA TB) m in_ out.
Proof.
  intros F Hm. assert (H : deepens (pair_type TA TB) (m ;; mret ()) in_ out).
  { apply copies_pair; [done|]. by apply deepens_flat. }
  intros h v Hc Hs. destruct (H h v Hc Hs) as (h' & E & C). exists h'. split; [|done].
  unfold mbind, mem_bind in E. destruct (m h) as [[[] h1]|]; [|done]. by injection E as ->.
Qed.
End fields.

(** ** Pointers and slices *)

Section references.
Context {A : Type} (T : go_type A) `{!Lawful T}.

(** Room for the copy of [v] is allocated and its address stored at [out]. *)
Lemma new_copy (c : loc -> cell) into p out v h :
  heap_ok h -> out < h.(heap_next) -> ty_load T h p = Some v -> out ∉ ty_reach T h p ->
  (forall q, deep_copies T (into p q) p q) ->
  exists q h', (q ← alloc (ty_zero T); write out (c q) ;; into p q) h = Some ((), h') /\ evolves {[out]} h h' /\
    h'.(heap_cells) !! out = Some (c q) /\ ty_load T h' q = Some v /\ forall x, x ∈ ty_reach T h' q -> h.(heap_next) <= x.
Proof.
  intros Hok Hout Hl Ha Hinto. set (q := h.(heap_next)).
  destruct (alloc_spec h (ty_zero T)) as (h1 & E1 & He1 & Hn1); [done|].
  destruct (write_spec h1 out (c q)) as (h2 & E2 & He2 & Hc2 & Hn2); [apply He1|lia|].
  assert (He : evolves {[out]} h h2) by (eapply evolves_trans; [exact He1|exact He2|set_solver|set_solver]).
  destruct (evolves_frame T {[out]} h h2 p v) as [Hl2 Hr2]; [done|done|done|set_solver|].
  destruct (Hinto q h2 v) as (h3 & E3 & [He3 Hl3 Hr3]); [|done|].
  { split; [apply He|done|unfold q, ty_size; lia|]. intros x. rewrite Hr2, elem_of_region. intros Hx.
    pose proof (reach_allocated T h p v x Hok Hl Hx). unfold q. lia. }
  exists q, h3. split_and!.
  - unfold mbind, mem_bind. rewrite E1. fold q. by rewrite E2.
  - eapply evolves_trans; [exact He|exact He3|done|]. intros x. rewrite elem_of_region. unfold q. lia.
  - rewrite (evolves_kept _ _ _ He3); [done|lia|]. rewrite elem_of_region. unfold q. lia.
  - done.
  - intros x [Hx|Hx]%Hr3; [rewrite elem_of_region in Hx; unfold q in Hx; lia|lia].
Qed.

Lemma deepens_pointer into in_ out :
  (forall p q, deep_copies T (into p q) p q) -> deepens (pointer_type T) (copy_pointer T into in_ out) in_ out.
Proof.
  intros Hinto h v [Hok Hl Hr Ha] Hs. specialize (Hs eq_refl 0 (Nat.lt_0_succ _)). simpl in Hl, Hs, Ha.
  unfold copy_pointer, read_pointer, read, mbind, mem_bind.
  destruct (heap_cells h !! in_) as [[| | |[p|]|]|] eqn:Ein; try done; simpl.
  - apply fmap_Some in Hl as (a & Hl & ->). pose proof (new_copy (fun q => CPtr (Some q)) into p out a h) as Hnew.
    destruct Hnew as (q & h' & E & He & Hc & Hl' & Hr'); [done|unfold ty_size in Hr; simpl in Hr; lia|done| |done|].
    { intros Hx. apply (Ha out); [set_solver|]. apply elem_of_region. unfold ty_size. simpl. lia. }
    exists h'. split; [exact E|]. split.
    + unfold ty_size. simpl. by rewrite <- singleton_region.
    + simpl. by rewrite Hc, Hl'.
    + intros x. simpl. rewrite Hc. unfold ty_size. simpl. rewrite <- singleton_region. set_solver.
  - simplify_eq. exists h. split; [done|]. split; [by apply evolves_refl|simpl; by rewrite Hs|].
    intros x. simpl. rewrite Hs. unfold ty_size. simpl. rewrite <- singleton_region. set_solver.
Qed.
End references.

Section elements.
Context {A : Type} (T : go_type A) `{!Lawful T}.

Lemma deepens_slice into in_ out :
  (forall n p q, deep_copies (array_type T n) (into n p q) p q) ->
  deepens (slice_type T) (copy_slice T into in_ out) in_ out.
Proof.
  intros Hinto h v [Hok Hl Hr Ha] Hs. specialize (Hs eq_refl 0 (Nat.lt_0_succ _)). simpl in Hl, Hs, Ha.
  unfold copy_slice, read_slice, read, mbind, mem_bind.
  destruct (heap_cells h !! in_) as [[| | | |[[p n]|]]|] eqn:Ein; try done; simpl.
  - apply fmap_Some in Hl as (a & Hl & ->).
    pose proof (new_copy (array_type T n) (fun q => CSlice (Some (q, n))) (into n) p out a h) as Hnew.
    destruct Hnew as (q & h' & E & He & Hc & Hl' & Hr'); [done|unfold ty_size in Hr; simpl in Hr; lia|done| |done|].
    { intros Hx. apply (Ha out); [set_solver|]. apply elem_of_region. unfold ty_size. simpl. lia. }
    exists h'. split; [exact E|]. split.
    + unfold ty_size. simpl. by rewrite <- singleton_region.
    + simpl. by rewrite Hc, Hl'.
    + intros x. simpl. rewrite Hc. unfold ty_size. simpl. rewrite <- singleton_region. set_solver.
  - simplify_eq. exists h. split; [done|]. split; [by apply evolves_refl|simpl; by rewrite Hs|].
    intros x. simpl. rewrite Hs. unfold ty_size. simpl. rewrite <- singleton_region. set_solver.
Qed.

(** The loop over the elements. *)
Lemma deep_copies_elements into n p q :
  (forall p q, deep_copies T (into p q) p q) ->
  deep_copies (array_type T n) (for_elements n (ty_size T) into p q) p q.
Proof.
  intros Hinto. revert p q. induction n as [|n IH]; intros p q; simpl; apply copies_struct.
  - intros h v [Hok Hl Hr Ha] _. exists h. split; [done|]. split; [by apply evolves_refl|done|]. simpl. set_solver.
  - apply copies_pair; [apply _|apply _|done|done].
Qed.

(** The built-in [copy], for elements without pointers. *)
Lemma deep_copies_flat p q : Flat T -> deep_copies T (shallow_copy (ty_size T) p q) p q.
Proof.
  intros F h v Hc Hs. destruct (deep_copies_assign T (mret ()) p q) with h v as (h' & E & C);
    [by apply deepens_flat|done|done|].
  exists h'. split; [|done]. unfold mbind, mem_bind in E. destruct (shallow_copy _ _ _ h) as [[[] h1]|]; [|done]. by injection E as ->.
Qed.
End elements.

(** The statements by which fields are copied. *)
Section statements.
Context {A : Type} (T : go_type A) `{!Lawful T}.

Lemma deepens_value in_ out : Flat T -> deepens (pointer_type T) (copy_value T in_ out) in_ out.
Proof. intros F. apply deepens_pointer; [done|]. intros p q. by apply deep_copies_flat. Qed.

Lemma deepens_slice_values in_ out : Flat T -> deepens (slice_type T) (copy_values T in_ out) in_ out.
Proof. intros F. apply deepens_slice; [done|]. intros n p q. apply deep_copies_flat; apply _. Qed.

Lemma deepens_values in_ out : Flat T -> deepens (list_type T) (copy_values T in_ out) in_ out.
Proof. intros F. by apply copies_struct, deepens_slice_values. Qed.

Lemma deepens_elements into in_ out :
  (forall p q, deep_copies T (into p q) p q) -> deepens (slice_type T) (copy_elements T into in_ out) in_ out.
Proof. intros Hinto. apply deepens_slice; [done|]. intros n p q. by apply deep_copies_elements. Qed.
End statements.

(** ** [DeepCopy]

    A copy that shares no memory: it stores the same value, and whatever is written later to memory that the original
    reaches, or to the copy, does not change the other one. *)
Definition writes_only (cells : gset loc) (h h' : heap) : Prop :=
  forall x, x < h.(heap_next) -> x ∉ cells -> h'.(heap_cells) !! x = h.(heap_cells) !! x.

Definition separates {A} (T : go_type A) (copy : option loc -> mem (option loc)) : Prop :=
  (forall h, copy None h = Some (None, h)) /\
  forall h in_ v, heap_ok h -> ty_load T h in_ = Some v ->
    exists out h', copy (Some in_) h = Some (Some out, h') /\ heap_ok h' /\
      (forall x, x < h.(heap_next) -> h'.(heap_cells) !! x = h.(heap_cells) !! x) /\
      ty_load T h' in_ = Some v /\ ty_load T h' out = Some v /\
      (forall h'', writes_only (ty_reach T h' in_) h' h'' -> ty_load T h'' out = Some v) /\
      (forall h'', writes_only (ty_reach T h' out) h' h'' -> ty_load T h'' in_ = Some v).

Lemma deep_copy_separates {A} (T : go_type A) `{!Lawful T} into :
  (forall p q, deep_copies T (into p q) p q) -> separates T (deep_copy T into).
Proof.
  intros Hinto. split; [done|]. intros h in_ v Hok Hl. set (out := h.(heap_next)).
  destruct (alloc_spec h (ty_zero T)) as (h1 & E1 & He1 & Hn1); [done|].
  destruct (evolves_frame T ∅ h h1 in_ v) as [Hl1 Hr1]; [done..|set_solver|].
  pose proof (fun x => reach_allocated T h in_ v x Hok Hl) as Hold.
  destruct (Hinto in_ out h1 v) as (h2 & E2 & [He2 Hl2 Hr2]); [|done|].
  { split; [apply He1|done|unfold out, ty_size; lia|]. intros x. rewrite Hr1, elem_of_region. intros Hx%Hold. unfold out. lia. }
  assert (Hnew : forall x, x ∈ ty_reach T h2 out -> h.(heap_next) <= x).
  { intros x [Hx|Hx]%Hr2; [rewrite elem_of_region in Hx; unfold out in Hx; lia|lia]. }
  destruct (evolves_frame T (region out (ty_size T)) h1 h2 in_ v) as [Hin Hrin]; [apply He1|done|done| |].
  { intros x. rewrite Hr1, elem_of_region. intros Hx%Hold. unfold out. lia. }
  exists out, h2. split_and!; [|apply He2| |done|done| |].
  - unfold deep_copy, mbind, mem_bind. rewrite E1. fold out. by rewrite E2.
  - intros x Hx. rewrite (evolves_kept _ _ _ He2), (evolves_kept _ _ _ He1); [done|done|set_solver|lia|].
    rewrite elem_of_region. unfold out. lia.
  - intros h3 Hw. apply (lawful_frame h2); [done|]. intros x Hx. apply Hw; [by apply (reach_allocated T h2 out v); [apply He2|..]|].
    rewrite Hrin, Hr1. intros Hx'%Hold. apply Hnew in Hx. lia.
  - intros h3 Hw. apply (lawful_frame h2); [done|]. intros x Hx. apply Hw; [by apply (reach_allocated T h2 in_ v); [apply He2|..]|].
    rewrite Hrin, Hr1 in Hx. intros Hx'%Hnew. apply Hold in Hx. lia.
Qed.
