(* ===== verification/DeepCopy.v ===== *)
(** * Deep copies of the resource

    [api/v1alpha1/zz_generated.deepcopy.go]: the methods [DeepCopyInto] and [DeepCopy] of every type of the resource, on
    the memory of [Memory]. The operator takes such a copy before it changes a resource, and sends the difference from
    the copy as a patch; the other files treat the copy as a value, which the theorem of this file justifies. *)
From S2P Require Import Prelude Crd Memory.

#[local] Open Scope nat_scope.

(** ** Types and [DeepCopyInto]

    Fields are in the order of the source. A statement for the field at the offset [n] works on its addresses. *)
Definition at_field (n : nat) (copy : loc -> loc -> mem ()) (in_ out : loc) : mem () := copy (n + in_) (n + out).

Definition NamedReference_type : go_type NamedReference :=
  struct_type (fun '(a, b) => mkNamedReference a b) $
    pair_type (pointer_type string_type) $ pointer_type string_type.

Definition NamedReference_DeepCopyInto (in_ out : loc) : mem () :=
  shallow_copy (ty_size NamedReference_type) in_ out ;;
  at_field 0 (copy_value string_type) in_ out ;;
  at_field 1 (copy_value string_type) in_ out.

Definition NamedReference_DeepCopy : option loc -> mem (option loc) := deep_copy NamedReference_type NamedReference_DeepCopyInto.

Definition FlowReference_type : go_type FlowReference :=
  struct_type (fun '(a, b) => mkFlowReference a b) $
    pair_type (pointer_type string_type) $ pointer_type string_type.

Definition FlowReference_DeepCopyInto (in_ out : loc) : mem () :=
  shallow_copy (ty_size FlowReference_type) in_ out ;;
  at_field 0 (copy_value string_type) in_ out ;;
  at_field 1 (copy_value string_type) in_ out.

Definition FlowReference_DeepCopy : option loc -> mem (option loc) := deep_copy FlowReference_type FlowReference_DeepCopyInto.

Definition UserReference_type : go_type UserReference :=
  struct_type (fun '(a, b) => mkUserReference a b) $
    pair_type (pointer_type string_type) $ pointer_type int64_type.

Definition UserReference_DeepCopyInto (in_ out : loc) : mem () :=
  shallow_copy (ty_size UserReference_type) in_ out ;;
  at_field 0 (copy_value string_type) in_ out ;;
  at_field 1 (copy_value int64_type) in_ out.

Definition UserReference_DeepCopy : option loc -> mem (option loc) := deep_copy UserReference_type UserReference_DeepCopyInto.

Definition ScopeMappingReference_type : go_type ScopeMappingReference :=
  struct_type (fun '(a, b) => mkScopeMappingReference a b) $
    pair_type (pointer_type string_type) $ pointer_type string_type.

Definition ScopeMappingReference_DeepCopyInto (in_ out : loc) : mem () :=
  shallow_copy (ty_size ScopeMappingReference_type) in_ out ;;
  at_field 0 (copy_value string_type) in_ out ;;
  at_field 1 (copy_value string_type) in_ out.

Definition ScopeMappingReference_DeepCopy : option loc -> mem (option loc) := deep_copy ScopeMappingReference_type ScopeMappingReference_DeepCopyInto.

Definition ProxyModeSpec_type : go_type ProxyModeSpec :=
  struct_type (fun '(a, (b, c)) => mkProxyModeSpec a b c) $
    pair_type string_type $ pair_type string_type $ pointer_type bool_type.

Definition ProxyModeSpec_DeepCopyInto (in_ out : loc) : mem () :=
  shallow_copy (ty_size ProxyModeSpec_type) in_ out ;;
  at_field 2 (copy_value bool_type) in_ out.

Definition ProxyModeSpec_DeepCopy : option loc -> mem (option loc) := deep_copy ProxyModeSpec_type ProxyModeSpec_DeepCopyInto.

Definition ForwardAuthSingleSpec_type : go_type ForwardAuthSingleSpec := struct_type mkForwardAuthSingleSpec string_type.

Definition ForwardAuthSingleSpec_DeepCopyInto (in_ out : loc) : mem () :=
  shallow_copy (ty_size ForwardAuthSingleSpec_type) in_ out.

Definition ForwardAuthSingleSpec_DeepCopy : option loc -> mem (option loc) := deep_copy ForwardAuthSingleSpec_type ForwardAuthSingleSpec_DeepCopyInto.

Definition ForwardAuthDomainSpec_type : go_type ForwardAuthDomainSpec :=
  struct_type (fun '(a, b) => mkForwardAuthDomainSpec a b) $
    pair_type string_type $ string_type.

Definition ForwardAuthDomainSpec_DeepCopyInto (in_ out : loc) : mem () :=
  shallow_copy (ty_size ForwardAuthDomainSpec_type) in_ out.

Definition ForwardAuthDomainSpec_DeepCopy : option loc -> mem (option loc) := deep_copy ForwardAuthDomainSpec_type ForwardAuthDomainSpec_DeepCopyInto.

Definition BasicAuthSpec_type : go_type BasicAuthSpec :=
  struct_type (fun '(a, b) => mkBasicAuthSpec a b) $
    pair_type string_type $ string_type.

Definition BasicAuthSpec_DeepCopyInto (in_ out : loc) : mem () :=
  shallow_copy (ty_size BasicAuthSpec_type) in_ out.

Definition BasicAuthSpec_DeepCopy : option loc -> mem (option loc) := deep_copy BasicAuthSpec_type BasicAuthSpec_DeepCopyInto.

Definition ProxyProviderSpec_type : go_type ProxyProviderSpec :=
  struct_type (fun '(a, (b, (c, (d, (e, (f, (g, (h, (i, j))))))))) => mkProxyProviderSpec a b c d e f g h i j) $
    pair_type (pointer_type ProxyModeSpec_type) $ pair_type (pointer_type ForwardAuthSingleSpec_type) $
    pair_type (pointer_type ForwardAuthDomainSpec_type) $ pair_type (slice_type string_type) $
    pair_type (pointer_type BasicAuthSpec_type) $ pair_type (pointer_type bool_type) $
    pair_type (pointer_type string_type) $ pair_type (pointer_type string_type) $
    pair_type (pointer_type NamedReference_type) $ pointer_type NamedReference_type.

Definition ProxyProviderSpec_DeepCopyInto (in_ out : loc) : mem () :=
  shallow_copy (ty_size ProxyProviderSpec_type) in_ out ;;
  at_field 0 (copy_pointer ProxyModeSpec_type ProxyModeSpec_DeepCopyInto) in_ out ;;
  at_field 1 (copy_value ForwardAuthSingleSpec_type) in_ out ;;
  at_field 2 (copy_value ForwardAuthDomainSpec_type) in_ out ;;
  at_field 3 (copy_values string_type) in_ out ;;
  at_field 4 (copy_value BasicAuthSpec_type) in_ out ;;
  at_field 5 (copy_value bool_type) in_ out ;;
  at_field 6 (copy_value string_type) in_ out ;;
  at_field 7 (copy_value string_type) in_ out ;;
  at_field 8 (copy_pointer NamedReference_type NamedReference_DeepCopyInto) in_ out ;;
  at_field 9 (copy_pointer NamedReference_type NamedReference_DeepCopyInto) in_ out.

Definition ProxyProviderSpec_DeepCopy : option loc -> mem (option loc) := deep_copy ProxyProviderSpec_type ProxyProviderSpec_DeepCopyInto.

Definition RedirectURI_type : go_type RedirectURISpec :=
  struct_type (fun '(a, (b, c)) => mkRedirectURISpec a b c) $
    pair_type string_type $ pair_type (pointer_type string_type) $ pointer_type string_type.

Definition RedirectURI_DeepCopyInto (in_ out : loc) : mem () :=
  shallow_copy (ty_size RedirectURI_type) in_ out ;;
  at_field 1 (copy_value string_type) in_ out ;;
  at_field 2 (copy_value string_type) in_ out.

Definition RedirectURI_DeepCopy : option loc -> mem (option loc) := deep_copy RedirectURI_type RedirectURI_DeepCopyInto.

Definition OAuth2CredentialsSecretReference_type : go_type OAuth2CredentialsSecretReference :=
  struct_type (fun '(a, (b, c)) => mkSecretReference a b c) $
    pair_type string_type $ pair_type (pointer_type string_type) $ pointer_type string_type.

Definition OAuth2CredentialsSecretReference_DeepCopyInto (in_ out : loc) : mem () :=
  shallow_copy (ty_size OAuth2CredentialsSecretReference_type) in_ out ;;
  at_field 1 (copy_value string_type) in_ out ;;
  at_field 2 (copy_value string_type) in_ out.

Definition OAuth2CredentialsSecretReference_DeepCopy : option loc -> mem (option loc) := deep_copy OAuth2CredentialsSecretReference_type OAuth2CredentialsSecretReference_DeepCopyInto.

Definition OAuth2CredentialsSpec_type : go_type OAuth2CredentialsSpec :=
  struct_type (fun '(a, b) => mkOAuth2CredentialsSpec a b) $
    pair_type (pointer_type string_type) $ OAuth2CredentialsSecretReference_type.

Definition OAuth2CredentialsSpec_DeepCopyInto (in_ out : loc) : mem () :=
  shallow_copy (ty_size OAuth2CredentialsSpec_type) in_ out ;;
  at_field 0 (copy_value string_type) in_ out ;;
  at_field 1 OAuth2CredentialsSecretReference_DeepCopyInto in_ out.

Definition OAuth2CredentialsSpec_DeepCopy : option loc -> mem (option loc) := deep_copy OAuth2CredentialsSpec_type OAuth2CredentialsSpec_DeepCopyInto.

Definition OAuth2ProviderSpec_type : go_type OAuth2ProviderSpec :=
  struct_type (fun '(a, (b, (c, (d, (e, (f, (g, (h, (i, (j, (k, (l, (m, (n, (o, p))))))))))))))) => mkOAuth2ProviderSpec a b c d e f g h i j k l m n o p) $
    pair_type (pointer_type string_type) $ pair_type (slice_type RedirectURI_type) $
    pair_type (slice_type ScopeMappingReference_type) $ pair_type (pointer_type NamedReference_type) $
    pair_type (pointer_type NamedReference_type) $ pair_type (slice_type string_type) $
    pair_type (pointer_type string_type) $ pair_type (pointer_type string_type) $
    pair_type (pointer_type bool_type) $ pair_type (pointer_type string_type) $
    pair_type (pointer_type string_type) $ pair_type (pointer_type string_type) $
    pair_type (pointer_type string_type) $ pair_type (pointer_type string_type) $
    pair_type (pointer_type string_type) $ pointer_type OAuth2CredentialsSpec_type.

Definition OAuth2ProviderSpec_DeepCopyInto (in_ out : loc) : mem () :=
  shallow_copy (ty_size OAuth2ProviderSpec_type) in_ out ;;
  at_field 0 (copy_value string_type) in_ out ;;
  at_field 1 (copy_elements RedirectURI_type RedirectURI_DeepCopyInto) in_ out ;;
  at_field 2 (copy_elements ScopeMappingReference_type ScopeMappingReference_DeepCopyInto) in_ out ;;
  at_field 3 (copy_pointer NamedReference_type NamedReference_DeepCopyInto) in_ out ;;
  at_field 4 (copy_pointer NamedReference_type NamedReference_DeepCopyInto) in_ out ;;
  at_field 5 (copy_values string_type) in_ out ;;
  at_field 6 (copy_value string_type) in_ out ;;
  at_field 7 (copy_value string_type) in_ out ;;
  at_field 8 (copy_value bool_type) in_ out ;;
  at_field 9 (copy_value string_type) in_ out ;;
  at_field 10 (copy_value string_type) in_ out ;;
  at_field 11 (copy_value string_type) in_ out ;;
  at_field 12 (copy_value string_type) in_ out ;;
  at_field 13 (copy_value string_type) in_ out ;;
  at_field 14 (copy_value string_type) in_ out ;;
  at_field 15 (copy_pointer OAuth2CredentialsSpec_type OAuth2CredentialsSpec_DeepCopyInto) in_ out.

Definition OAuth2ProviderSpec_DeepCopy : option loc -> mem (option loc) := deep_copy OAuth2ProviderSpec_type OAuth2ProviderSpec_DeepCopyInto.

Definition ProviderFlows_type : go_type ProviderFlows :=
  struct_type (fun '(a, (b, c)) => mkProviderFlows a b c) $
    pair_type FlowReference_type $ pair_type FlowReference_type $ pointer_type FlowReference_type.

Definition ProviderFlows_DeepCopyInto (in_ out : loc) : mem () :=
  shallow_copy (ty_size ProviderFlows_type) in_ out ;;
  at_field 0 FlowReference_DeepCopyInto in_ out ;;
  at_field 2 FlowReference_DeepCopyInto in_ out ;;
  at_field 4 (copy_pointer FlowReference_type FlowReference_DeepCopyInto) in_ out.

Definition ProviderFlows_DeepCopy : option loc -> mem (option loc) := deep_copy ProviderFlows_type ProviderFlows_DeepCopyInto.

Definition ProviderSpec_type : go_type ProviderSpec :=
  struct_type (fun '(a, (b, (c, d))) => mkProviderSpec a b c d) $
    pair_type (pointer_type string_type) $ pair_type ProviderFlows_type $
    pair_type (pointer_type ProxyProviderSpec_type) $ pointer_type OAuth2ProviderSpec_type.

Definition ProviderSpec_DeepCopyInto (in_ out : loc) : mem () :=
  shallow_copy (ty_size ProviderSpec_type) in_ out ;;
  at_field 0 (copy_value string_type) in_ out ;;
  at_field 1 ProviderFlows_DeepCopyInto in_ out ;;
  at_field 6 (copy_pointer ProxyProviderSpec_type ProxyProviderSpec_DeepCopyInto) in_ out ;;
  at_field 7 (copy_pointer OAuth2ProviderSpec_type OAuth2ProviderSpec_DeepCopyInto) in_ out.

Definition ProviderSpec_DeepCopy : option loc -> mem (option loc) := deep_copy ProviderSpec_type ProviderSpec_DeepCopyInto.

Definition AccessRule_type : go_type AccessRule :=
  struct_type (fun '(a, (b, (c, d))) => mkAccessRule a b c d) $
    pair_type (pointer_type NamedReference_type) $ pair_type (pointer_type UserReference_type) $
    pair_type (pointer_type NamedReference_type) $ pointer_type bool_type.

Definition AccessRule_DeepCopyInto (in_ out : loc) : mem () :=
  shallow_copy (ty_size AccessRule_type) in_ out ;;
  at_field 0 (copy_pointer NamedReference_type NamedReference_DeepCopyInto) in_ out ;;
  at_field 1 (copy_pointer UserReference_type UserReference_DeepCopyInto) in_ out ;;
  at_field 2 (copy_pointer NamedReference_type NamedReference_DeepCopyInto) in_ out ;;
  at_field 3 (copy_value bool_type) in_ out.

Definition AccessRule_DeepCopy : option loc -> mem (option loc) := deep_copy AccessRule_type AccessRule_DeepCopyInto.

Definition AccessSpec_type : go_type AccessSpec :=
  struct_type (fun '(a, (b, (c, d))) => mkAccessSpec a b c d) $
    pair_type (pointer_type string_type) $ pair_type (list_type AccessRule_type) $
    pair_type (pointer_type bool_type) $ pointer_type bool_type.

Definition AccessSpec_DeepCopyInto (in_ out : loc) : mem () :=
  shallow_copy (ty_size AccessSpec_type) in_ out ;;
  at_field 0 (copy_value string_type) in_ out ;;
  at_field 1 (copy_elements AccessRule_type AccessRule_DeepCopyInto) in_ out ;;
  at_field 2 (copy_value bool_type) in_ out ;;
  at_field 3 (copy_value bool_type) in_ out.

Definition AccessSpec_DeepCopy : option loc -> mem (option loc) := deep_copy AccessSpec_type AccessSpec_DeepCopyInto.

Definition AuthentikApplicationSpec_type : go_type AuthentikApplicationSpec :=
  struct_type (fun '(a, (b, (c, (d, (e, (f, (g, (h, (i, (j, (k, (l, m)))))))))))) => mkSpec a b c d e f g h i j k l m) $
    pair_type string_type $ pair_type string_type $ pair_type (pointer_type string_type) $
    pair_type (pointer_type string_type) $ pair_type (pointer_type string_type) $
    pair_type (pointer_type string_type) $ pair_type (pointer_type string_type) $
    pair_type (pointer_type bool_type) $ pair_type (pointer_type bool_type) $
    pair_type (pointer_type string_type) $ pair_type (pointer_type string_type) $
    pair_type (pointer_type ProviderSpec_type) $ AccessSpec_type.

Definition AuthentikApplicationSpec_DeepCopyInto (in_ out : loc) : mem () :=
  shallow_copy (ty_size AuthentikApplicationSpec_type) in_ out ;;
  at_field 2 (copy_value string_type) in_ out ;;
  at_field 3 (copy_value string_type) in_ out ;;
  at_field 4 (copy_value string_type) in_ out ;;
  at_field 5 (copy_value string_type) in_ out ;;
  at_field 6 (copy_value string_type) in_ out ;;
  at_field 7 (copy_value bool_type) in_ out ;;
  at_field 8 (copy_value bool_type) in_ out ;;
  at_field 9 (copy_value string_type) in_ out ;;
  at_field 10 (copy_value string_type) in_ out ;;
  at_field 11 (copy_pointer ProviderSpec_type ProviderSpec_DeepCopyInto) in_ out ;;
  at_field 12 AccessSpec_DeepCopyInto in_ out.

Definition AuthentikApplicationSpec_DeepCopy : option loc -> mem (option loc) := deep_copy AuthentikApplicationSpec_type AuthentikApplicationSpec_DeepCopyInto.

Definition FieldDiff_type : go_type FieldDiff :=
  struct_type (fun '(a, (b, c)) => mkFieldDiff a b c) $
    pair_type string_type $ pair_type string_type $ string_type.

Definition FieldDiff_DeepCopyInto (in_ out : loc) : mem () :=
  shallow_copy (ty_size FieldDiff_type) in_ out.

Definition FieldDiff_DeepCopy : option loc -> mem (option loc) := deep_copy FieldDiff_type FieldDiff_DeepCopyInto.

Definition UnmanagedBinding_type : go_type UnmanagedBinding :=
  struct_type (fun '(a, b) => mkUnmanagedBinding a b) $
    pair_type string_type $ string_type.

Definition UnmanagedBinding_DeepCopyInto (in_ out : loc) : mem () :=
  shallow_copy (ty_size UnmanagedBinding_type) in_ out.

Definition UnmanagedBinding_DeepCopy : option loc -> mem (option loc) := deep_copy UnmanagedBinding_type UnmanagedBinding_DeepCopyInto.

(** ** Every [DeepCopyInto] makes a deep copy *)

(** The fields of a struct in order: those without a statement have no pointers. *)
Ltac copy_fields :=
  lazymatch goal with
  | |- copies _ (pair_type _ _) _ _ _ =>
      first [apply deepens_skip; [apply _|apply _|apply _|copy_fields]
            |apply copies_pair; [apply _|apply _|copy_field|copy_fields]]
  | |- _ => copy_field
  end
with copy_field :=
  unfold at_field; simpl Nat.add;
  first [apply deepens_value; apply _
        |apply deepens_values; apply _
        |apply deepens_slice_values; apply _
        |apply deepens_pointer; [apply _|eauto with copies]
        |apply deepens_elements; [apply _|eauto with copies]
        |apply copies_struct, deepens_elements; [apply _|eauto with copies]
        |apply deep_copies_deepens; eauto with copies].

Ltac copy_struct := apply deep_copies_assign; [apply _|]; apply copies_struct; copy_fields.

Create HintDb copies discriminated.

#[export] Instance NamedReference_lawful : Lawful NamedReference_type.
Proof. unfold NamedReference_type. apply _. Qed.

Lemma NamedReference_copies in_ out : deep_copies NamedReference_type (NamedReference_DeepCopyInto in_ out) in_ out.
Proof. copy_struct. Qed.

#[export] Hint Resolve NamedReference_copies : copies.

#[export] Instance FlowReference_lawful : Lawful FlowReference_type.
Proof. unfold FlowReference_type. apply _. Qed.

Lemma FlowReference_copies in_ out : deep_copies FlowReference_type (FlowReference_DeepCopyInto in_ out) in_ out.
Proof. copy_struct. Qed.

#[export] Hint Resolve FlowReference_copies : copies.

#[export] Instance UserReference_lawful : Lawful UserReference_type.
Proof. unfold UserReference_type. apply _. Qed.

Lemma UserReference_copies in_ out : deep_copies UserReference_type (UserReference_DeepCopyInto in_ out) in_ out.
Proof. copy_struct. Qed.

#[export] Hint Resolve UserReference_copies : copies.

#[export] Instance ScopeMappingReference_lawful : Lawful ScopeMappingReference_type.
Proof. unfold ScopeMappingReference_type. apply _. Qed.

Lemma ScopeMappingReference_copies in_ out : deep_copies ScopeMappingReference_type (ScopeMappingReference_DeepCopyInto in_ out) in_ out.
Proof. copy_struct. Qed.

#[export] Hint Resolve ScopeMappingReference_copies : copies.

#[export] Instance ProxyModeSpec_lawful : Lawful ProxyModeSpec_type.
Proof. unfold ProxyModeSpec_type. apply _. Qed.

Lemma ProxyModeSpec_copies in_ out : deep_copies ProxyModeSpec_type (ProxyModeSpec_DeepCopyInto in_ out) in_ out.
Proof. copy_struct. Qed.

#[export] Hint Resolve ProxyModeSpec_copies : copies.

#[export] Instance ForwardAuthSingleSpec_lawful : Lawful ForwardAuthSingleSpec_type.
Proof. unfold ForwardAuthSingleSpec_type. apply _. Qed.

#[export] Instance ForwardAuthSingleSpec_flat : Flat ForwardAuthSingleSpec_type.
Proof. unfold ForwardAuthSingleSpec_type. apply _. Qed.

Lemma ForwardAuthSingleSpec_copies in_ out : deep_copies ForwardAuthSingleSpec_type (ForwardAuthSingleSpec_DeepCopyInto in_ out) in_ out.
Proof. apply deep_copies_flat; apply _. Qed.

#[export] Hint Resolve ForwardAuthSingleSpec_copies : copies.

#[export] Instance ForwardAuthDomainSpec_lawful : Lawful ForwardAuthDomainSpec_type.
Proof. unfold ForwardAuthDomainSpec_type. apply _. Qed.

#[export] Instance ForwardAuthDomainSpec_flat : Flat ForwardAuthDomainSpec_type.
Proof. unfold ForwardAuthDomainSpec_type. apply _. Qed.

Lemma ForwardAuthDomainSpec_copies in_ out : deep_copies ForwardAuthDomainSpec_type (ForwardAuthDomainSpec_DeepCopyInto in_ out) in_ out.
Proof. apply deep_copies_flat; apply _. Qed.

#[export] Hint Resolve ForwardAuthDomainSpec_copies : copies.

#[export] Instance BasicAuthSpec_lawful : Lawful BasicAuthSpec_type.
Proof. unfold BasicAuthSpec_type. apply _. Qed.

#[export] Instance BasicAuthSpec_flat : Flat BasicAuthSpec_type.
Proof. unfold BasicAuthSpec_type. apply _. Qed.

Lemma BasicAuthSpec_copies in_ out : deep_copies BasicAuthSpec_type (BasicAuthSpec_DeepCopyInto in_ out) in_ out.
Proof. apply deep_copies_flat; apply _. Qed.

#[export] Hint Resolve BasicAuthSpec_copies : copies.

#[export] Instance ProxyProviderSpec_lawful : Lawful ProxyProviderSpec_type.
Proof. unfold ProxyProviderSpec_type. apply _. Qed.

Lemma ProxyProviderSpec_copies in_ out : deep_copies ProxyProviderSpec_type (ProxyProviderSpec_DeepCopyInto in_ out) in_ out.
Proof. copy_struct. Qed.

#[export] Hint Resolve ProxyProviderSpec_copies : copies.

#[export] Instance RedirectURI_lawful : Lawful RedirectURI_type.
Proof. unfold RedirectURI_type. apply _. Qed.

Lemma RedirectURI_copies in_ out : deep_copies RedirectURI_type (RedirectURI_DeepCopyInto in_ out) in_ out.
Proof. copy_struct. Qed.

#[export] Hint Resolve RedirectURI_copies : copies.

#[export] Instance OAuth2CredentialsSecretReference_lawful : Lawful OAuth2CredentialsSecretReference_type.
Proof. unfold OAuth2CredentialsSecretReference_type. apply _. Qed.

Lemma OAuth2CredentialsSecretReference_copies in_ out : deep_copies OAuth2CredentialsSecretReference_type (OAuth2CredentialsSecretReference_DeepCopyInto in_ out) in_ out.
Proof. copy_struct. Qed.

#[export] Hint Resolve OAuth2CredentialsSecretReference_copies : copies.

#[export] Instance OAuth2CredentialsSpec_lawful : Lawful OAuth2CredentialsSpec_type.
Proof. unfold OAuth2CredentialsSpec_type. apply _. Qed.

Lemma OAuth2CredentialsSpec_copies in_ out : deep_copies OAuth2CredentialsSpec_type (OAuth2CredentialsSpec_DeepCopyInto in_ out) in_ out.
Proof. copy_struct. Qed.

#[export] Hint Resolve OAuth2CredentialsSpec_copies : copies.

#[export] Instance OAuth2ProviderSpec_lawful : Lawful OAuth2ProviderSpec_type.
Proof. unfold OAuth2ProviderSpec_type. apply _. Qed.

Lemma OAuth2ProviderSpec_copies in_ out : deep_copies OAuth2ProviderSpec_type (OAuth2ProviderSpec_DeepCopyInto in_ out) in_ out.
Proof. copy_struct. Qed.

#[export] Hint Resolve OAuth2ProviderSpec_copies : copies.

#[export] Instance ProviderFlows_lawful : Lawful ProviderFlows_type.
Proof. unfold ProviderFlows_type. apply _. Qed.

Lemma ProviderFlows_copies in_ out : deep_copies ProviderFlows_type (ProviderFlows_DeepCopyInto in_ out) in_ out.
Proof. copy_struct. Qed.

#[export] Hint Resolve ProviderFlows_copies : copies.

#[export] Instance ProviderSpec_lawful : Lawful ProviderSpec_type.
Proof. unfold ProviderSpec_type. apply _. Qed.

Lemma ProviderSpec_copies in_ out : deep_copies ProviderSpec_type (ProviderSpec_DeepCopyInto in_ out) in_ out.
Proof. copy_struct. Qed.

#[export] Hint Resolve ProviderSpec_copies : copies.

#[export] Instance AccessRule_lawful : Lawful AccessRule_type.
Proof. unfold AccessRule_type. apply _. Qed.

Lemma AccessRule_copies in_ out : deep_copies AccessRule_type (AccessRule_DeepCopyInto in_ out) in_ out.
Proof. copy_struct. Qed.

#[export] Hint Resolve AccessRule_copies : copies.

#[export] Instance AccessSpec_lawful : Lawful AccessSpec_type.
Proof. unfold AccessSpec_type. apply _. Qed.

Lemma AccessSpec_copies in_ out : deep_copies AccessSpec_type (AccessSpec_DeepCopyInto in_ out) in_ out.
Proof. copy_struct. Qed.

#[export] Hint Resolve AccessSpec_copies : copies.

#[export] Instance AuthentikApplicationSpec_lawful : Lawful AuthentikApplicationSpec_type.
Proof. unfold AuthentikApplicationSpec_type. apply _. Qed.

Lemma AuthentikApplicationSpec_copies in_ out : deep_copies AuthentikApplicationSpec_type (AuthentikApplicationSpec_DeepCopyInto in_ out) in_ out.
Proof. copy_struct. Qed.

#[export] Hint Resolve AuthentikApplicationSpec_copies : copies.

#[export] Instance FieldDiff_lawful : Lawful FieldDiff_type.
Proof. unfold FieldDiff_type. apply _. Qed.

#[export] Instance FieldDiff_flat : Flat FieldDiff_type.
Proof. unfold FieldDiff_type. apply _. Qed.

Lemma FieldDiff_copies in_ out : deep_copies FieldDiff_type (FieldDiff_DeepCopyInto in_ out) in_ out.
Proof. apply deep_copies_flat; apply _. Qed.

#[export] Hint Resolve FieldDiff_copies : copies.

#[export] Instance UnmanagedBinding_lawful : Lawful UnmanagedBinding_type.
Proof. unfold UnmanagedBinding_type. apply _. Qed.

#[export] Instance UnmanagedBinding_flat : Flat UnmanagedBinding_type.
Proof. unfold UnmanagedBinding_type. apply _. Qed.

Lemma UnmanagedBinding_copies in_ out : deep_copies UnmanagedBinding_type (UnmanagedBinding_DeepCopyInto in_ out) in_ out.
Proof. apply deep_copies_flat; apply _. Qed.

#[export] Hint Resolve UnmanagedBinding_copies : copies.

(** ** Metadata

    The methods of the types of [metav1] are a parameter with the contract of a deep copy. Of the metadata of a resource
    the operator only reads the fields of [ObjectMeta]. *)
Record ObjectMeta : Type := mkObjectMeta {
  ObjectMeta_Namespace : string;
  ObjectMeta_Name : string;
  ObjectMeta_UID : string;
  ObjectMeta_Generation : Z;
  ObjectMeta_CreationTimestamp : Z;
  ObjectMeta_DeletionTimestamp : option Z;
  ObjectMeta_Finalizers : list string;
}.

Class MetaV1 : Type := {
  TypeMeta : Type;
  TypeMeta_type : go_type TypeMeta;
  ObjectMeta_type : go_type ObjectMeta;
  ObjectMeta_DeepCopyInto : loc -> loc -> mem ();
  ListMeta : Type;
  ListMeta_type : go_type ListMeta;
  ListMeta_DeepCopyInto : loc -> loc -> mem ();
  Condition_type : go_type Condition;
  Condition_DeepCopyInto : loc -> loc -> mem ();
}.

Class MetaV1Laws `{MetaV1} : Prop := {
  TypeMeta_lawful :: Lawful TypeMeta_type;
  TypeMeta_flat :: Flat TypeMeta_type;
  ObjectMeta_lawful :: Lawful ObjectMeta_type;
  ObjectMeta_copies p q : deep_copies ObjectMeta_type (ObjectMeta_DeepCopyInto p q) p q;
  ListMeta_lawful :: Lawful ListMeta_type;
  ListMeta_copies p q : deep_copies ListMeta_type (ListMeta_DeepCopyInto p q) p q;
  Condition_lawful :: Lawful Condition_type;
  Condition_copies p q : deep_copies Condition_type (Condition_DeepCopyInto p q) p q;
}.

Section resource.
Context `{MetaV1}.

Definition AuthentikApplicationStatus_type : go_type AuthentikApplicationStatus :=
  struct_type (fun '(a, (b, (c, (d, (e, (f, (g, (h, (i, j))))))))) => mkStatus a b c d e f g h i j) $
    pair_type int64_type $ pair_type string_type $ pair_type string_type $
    pair_type (pointer_type int64_type) $ pair_type string_type $ pair_type (list_type string_type) $
    pair_type string_type $ pair_type (list_type FieldDiff_type) $
    pair_type (list_type UnmanagedBinding_type) $ list_type Condition_type.

Definition AuthentikApplicationStatus_DeepCopyInto (in_ out : loc) : mem () :=
  shallow_copy (ty_size AuthentikApplicationStatus_type) in_ out ;;
  at_field 3 (copy_value int64_type) in_ out ;;
  at_field 5 (copy_values string_type) in_ out ;;
  at_field 7 (copy_values FieldDiff_type) in_ out ;;
  at_field 8 (copy_values UnmanagedBinding_type) in_ out ;;
  at_field 9 (copy_elements Condition_type Condition_DeepCopyInto) in_ out.

Definition AuthentikApplicationStatus_DeepCopy : option loc -> mem (option loc) := deep_copy AuthentikApplicationStatus_type AuthentikApplicationStatus_DeepCopyInto.

Definition AuthentikApplication_type : go_type AuthentikApplication :=
  struct_type (fun '(_, (meta, (spec, status))) =>
    mkResource meta.(ObjectMeta_Namespace) meta.(ObjectMeta_Name) meta.(ObjectMeta_UID) meta.(ObjectMeta_Generation)
      meta.(ObjectMeta_CreationTimestamp) meta.(ObjectMeta_DeletionTimestamp) meta.(ObjectMeta_Finalizers) spec status) $
    pair_type TypeMeta_type $ pair_type ObjectMeta_type $ pair_type AuthentikApplicationSpec_type $
    AuthentikApplicationStatus_type.

Definition AuthentikApplication_DeepCopyInto (in_ out : loc) : mem () :=
  shallow_copy (ty_size AuthentikApplication_type) in_ out ;;
  shallow_copy (ty_size TypeMeta_type) in_ out ;;
  at_field (ty_size TypeMeta_type) ObjectMeta_DeepCopyInto in_ out ;;
  at_field (ty_size TypeMeta_type) (at_field (ty_size ObjectMeta_type) AuthentikApplicationSpec_DeepCopyInto) in_ out ;;
  at_field (ty_size TypeMeta_type) (at_field (ty_size ObjectMeta_type)
    (at_field (ty_size AuthentikApplicationSpec_type) AuthentikApplicationStatus_DeepCopyInto)) in_ out.

Definition AuthentikApplication_DeepCopy : option loc -> mem (option loc) :=
  deep_copy AuthentikApplication_type AuthentikApplication_DeepCopyInto.

(** An interface value that is nil when the pointer is. *)
Definition copy_object (copy : option loc -> mem (option loc)) (in_ : option loc) : mem (option loc) :=
  c ← copy in_; match c with Some c => mret (Some c) | None => mret None end.

Definition AuthentikApplication_DeepCopyObject : option loc -> mem (option loc) := copy_object AuthentikApplication_DeepCopy.

Record AuthentikApplicationList : Type := mkList {
  List_TypeMeta : TypeMeta;
  List_ListMeta : ListMeta;
  List_Items : list AuthentikApplication;
}.

Definition AuthentikApplicationList_type : go_type AuthentikApplicationList :=
  struct_type (fun '(t, (m, items)) => mkList t m items) $
    pair_type TypeMeta_type $ pair_type ListMeta_type $ list_type AuthentikApplication_type.

Definition AuthentikApplicationList_DeepCopyInto (in_ out : loc) : mem () :=
  shallow_copy (ty_size AuthentikApplicationList_type) in_ out ;;
  shallow_copy (ty_size TypeMeta_type) in_ out ;;
  at_field (ty_size TypeMeta_type) ListMeta_DeepCopyInto in_ out ;;
  at_field (ty_size TypeMeta_type) (at_field (ty_size ListMeta_type)
    (copy_elements AuthentikApplication_type AuthentikApplication_DeepCopyInto)) in_ out.

Definition AuthentikApplicationList_DeepCopy : option loc -> mem (option loc) :=
  deep_copy AuthentikApplicationList_type AuthentikApplicationList_DeepCopyInto.

Definition AuthentikApplicationList_DeepCopyObject : option loc -> mem (option loc) :=
  copy_object AuthentikApplicationList_DeepCopy.
End resource.

Section laws.
Context `{MetaV1Laws}.

#[export] Instance AuthentikApplicationStatus_lawful : Lawful AuthentikApplicationStatus_type.
Proof. unfold AuthentikApplicationStatus_type. apply _. Qed.

Lemma AuthentikApplicationStatus_copies in_ out :
  deep_copies AuthentikApplicationStatus_type (AuthentikApplicationStatus_DeepCopyInto in_ out) in_ out.
Proof. pose proof Condition_copies. copy_struct. Qed.

#[export] Instance AuthentikApplication_lawful : Lawful AuthentikApplication_type.
Proof. unfold AuthentikApplication_type. apply _. Qed.

Lemma AuthentikApplication_copies in_ out :
  deep_copies AuthentikApplication_type (AuthentikApplication_DeepCopyInto in_ out) in_ out.
Proof.
  apply deep_copies_assign; [apply _|]. apply copies_struct. unfold at_field.
  apply copies_pair; [apply _..|apply deep_copies_deepens, deep_copies_flat; apply _|].
  apply copies_pair; [apply _..|apply deep_copies_deepens, ObjectMeta_copies|].
  apply copies_pair; [apply _..|apply deep_copies_deepens, AuthentikApplicationSpec_copies|].
  apply deep_copies_deepens, AuthentikApplicationStatus_copies.
Qed.

#[export] Instance AuthentikApplicationList_lawful : Lawful AuthentikApplicationList_type.
Proof. unfold AuthentikApplicationList_type. apply _. Qed.

Lemma AuthentikApplicationList_copies in_ out :
  deep_copies AuthentikApplicationList_type (AuthentikApplicationList_DeepCopyInto in_ out) in_ out.
Proof.
  apply deep_copies_assign; [apply _|]. apply copies_struct. unfold at_field.
  apply copies_pair; [apply _..|apply deep_copies_deepens, deep_copies_flat; apply _|].
  apply copies_pair; [apply _..|apply deep_copies_deepens, ListMeta_copies|].
  apply copies_struct, deepens_elements; [apply _|apply AuthentikApplication_copies].
Qed.

Lemma separates_object {A} (T : go_type A) copy : separates T copy -> separates T (copy_object copy).
Proof.
  intros [Hnil Hs]. split.
  - intros h. unfold copy_object, mbind, mem_bind. by rewrite Hnil.
  - intros h in_ v Hok Hl. destruct (Hs h in_ v Hok Hl) as (out & h' & E & Hr). exists out, h'. split; [|done].
    unfold copy_object, mbind, mem_bind. by rewrite E.
Qed.

(** C33: A deep copy is independent of its original. For every type of the resource, [DeepCopy] of nil is nil; for an
    address at which a value is stored it does not fault, changes no existing memory, and answers a new address at
    which the same value is stored. Whatever is written later to memory that the original reaches, the copy keeps its
    value, and the other way round, so that the copy that a status patch starts from is the resource before the
    changes. *)
Theorem deep_copies_are_independent :
  separates NamedReference_type NamedReference_DeepCopy /\
  separates FlowReference_type FlowReference_DeepCopy /\
  separates UserReference_type UserReference_DeepCopy /\
  separates ScopeMappingReference_type ScopeMappingReference_DeepCopy /\
  separates ProxyModeSpec_type ProxyModeSpec_DeepCopy /\
  separates ForwardAuthSingleSpec_type ForwardAuthSingleSpec_DeepCopy /\
  separates ForwardAuthDomainSpec_type ForwardAuthDomainSpec_DeepCopy /\
  separates BasicAuthSpec_type BasicAuthSpec_DeepCopy /\
  separates ProxyProviderSpec_type ProxyProviderSpec_DeepCopy /\
  separates RedirectURI_type RedirectURI_DeepCopy /\
  separates OAuth2CredentialsSecretReference_type OAuth2CredentialsSecretReference_DeepCopy /\
  separates OAuth2CredentialsSpec_type OAuth2CredentialsSpec_DeepCopy /\
  separates OAuth2ProviderSpec_type OAuth2ProviderSpec_DeepCopy /\
  separates ProviderFlows_type ProviderFlows_DeepCopy /\
  separates ProviderSpec_type ProviderSpec_DeepCopy /\
  separates AccessRule_type AccessRule_DeepCopy /\
  separates AccessSpec_type AccessSpec_DeepCopy /\
  separates AuthentikApplicationSpec_type AuthentikApplicationSpec_DeepCopy /\
  separates FieldDiff_type FieldDiff_DeepCopy /\
  separates UnmanagedBinding_type UnmanagedBinding_DeepCopy /\
  separates AuthentikApplicationStatus_type AuthentikApplicationStatus_DeepCopy /\
  separates AuthentikApplication_type AuthentikApplication_DeepCopy /\
  separates AuthentikApplication_type AuthentikApplication_DeepCopyObject /\
  separates AuthentikApplicationList_type AuthentikApplicationList_DeepCopy /\
  separates AuthentikApplicationList_type AuthentikApplicationList_DeepCopyObject.
Proof.
  split_and!;
    lazymatch goal with
    | |- separates _ AuthentikApplication_DeepCopyObject => apply separates_object
    | |- separates _ AuthentikApplicationList_DeepCopyObject => apply separates_object
    | |- _ => idtac
    end; apply deep_copy_separates; first [apply _|intros p q; eauto with copies].
  - apply AuthentikApplicationStatus_copies.
  - apply AuthentikApplication_copies.
  - apply AuthentikApplication_copies.
  - apply AuthentikApplicationList_copies.
  - apply AuthentikApplicationList_copies.
Qed.
End laws.

(** ** An instance

    Metadata with the fields that the operator reads, and a memory with a resource of 35 cells, a public flag and a
    Binding behind a pointer and a slice. *)
Definition example_ObjectMeta_type : go_type ObjectMeta :=
  struct_type (fun '(a, (b, (c, (d, (e, (f, g)))))) => mkObjectMeta a b c d e f g) $
    pair_type string_type $ pair_type string_type $ pair_type string_type $ pair_type int64_type $
    pair_type int64_type $ pair_type (pointer_type int64_type) $ list_type string_type.

Definition example_ObjectMeta_DeepCopyInto (in_ out : loc) : mem () :=
  shallow_copy (ty_size example_ObjectMeta_type) in_ out ;;
  at_field 5 (copy_value int64_type) in_ out ;;
  at_field 6 (copy_values string_type) in_ out.

Definition example_Condition_type : go_type Condition :=
  struct_type (fun '(a, (b, (c, (d, e)))) => mkCondition a b c d e) $
    pair_type string_type $ pair_type bool_type $ pair_type string_type $ pair_type string_type $ int64_type.

#[export] Instance example_MetaV1 : MetaV1 := {|
  TypeMeta := string * string;
  TypeMeta_type := pair_type string_type string_type;
  ObjectMeta_type := example_ObjectMeta_type;
  ObjectMeta_DeepCopyInto := example_ObjectMeta_DeepCopyInto;
  ListMeta := string;
  ListMeta_type := string_type;
  ListMeta_DeepCopyInto := shallow_copy (ty_size string_type);
  Condition_type := example_Condition_type;
  Condition_DeepCopyInto := shallow_copy (ty_size example_Condition_type);
|}.

#[local] Instance example_ObjectMeta_lawful : Lawful example_ObjectMeta_type.
Proof. unfold example_ObjectMeta_type. apply _. Qed.

#[local] Instance example_Condition_lawful : Lawful example_Condition_type.
Proof. unfold example_Condition_type. apply _. Qed.

#[local] Instance example_Condition_flat : Flat example_Condition_type.
Proof. unfold example_Condition_type. apply _. Qed.

#[export] Instance example_MetaV1Laws : MetaV1Laws.
Proof.
  refine (Build_MetaV1Laws example_MetaV1 (pair_lawful _ _ _ _) (pair_flat _ _ _ _) example_ObjectMeta_lawful _ _ _
    example_Condition_lawful _); intros p q.
  - apply deep_copies_assign; [apply _|]. apply copies_struct. copy_fields.
  - apply (deep_copies_flat string_type); apply _.
  - apply (deep_copies_flat example_Condition_type); apply _.
Qed.

Definition example_cells : list cell :=
  [CString "AuthentikApplication"; CString "v1alpha1"] ++
  [CString "default"; CString "wiki"; CString "uid-1"; CInt 1; CInt 10; CPtr None; CSlice None] ++
  [CString "wiki"; CString "Wiki"] ++ replicate 10 (CPtr None) ++
  [CPtr None; CSlice None; CPtr (Some 35); CPtr None] ++
  [CInt 1; CString "wiki"; CString "app-1"; CPtr None; CString ""; CSlice (Some (36, 1)); CString "";
   CSlice None; CSlice None; CSlice None] ++
  [CBool true; CString "binding-1"].

Definition example_memory : heap := initial_heap example_cells.

Definition example_stored (bindings : list string) : AuthentikApplication :=
  mkResource "default" "wiki" "uid-1" 1 10 None []
    (mkSpec "wiki" "Wiki" None None None None None None None None None None (mkAccessSpec None [] (Some true) None))
    (mkStatus 1 "wiki" "app-1" None "" bindings "" [] [] []).

(** A Binding is replaced in the array that the original reaches. *)
Lemma deep_copies_are_independent_witness :
  exists out h', AuthentikApplication_DeepCopy (Some 0) example_memory = Some (Some out, h') /\
    ty_load AuthentikApplication_type h' out = Some (example_stored ["binding-1"]) /\
    let h'' := mkHeap (<[36 := CString "binding-2"]> h'.(heap_cells)) h'.(heap_next) in
    ty_load AuthentikApplication_type h'' 0 = Some (example_stored ["binding-2"]) /\
    ty_load AuthentikApplication_type h'' out = Some (example_stored ["binding-1"]).
Proof.
  pose proof (deep_copies_are_independent (H := example_MetaV1)) as Hall.
  do 21 apply proj2 in Hall. apply proj1 in Hall.
  destruct (proj2 Hall example_memory 0 (example_stored ["binding-1"])) as (out & h' & E & _ & _ & _ & Hl & Hw & _).
  - apply initial_heap_ok.
  - vm_compute. reflexivity.
  - exists out, h'. split; [exact E|]. split; [exact Hl|]. cbv zeta. split.
    + vm_compute in E. injection E as <- <-. vm_compute. reflexivity.
    + apply Hw. intros x _ Hx. apply lookup_insert_ne. intros <-. apply Hx.
      vm_compute in E. injection E as <- <-. apply (bool_decide_unpack _). vm_compute. exact I.
Defined.
