(* ===== verification/Patch.v ===== *)
(** * PATCH requests from desired and observed state

    [internal/authentik/patch.go]: the Diff functions that decide which fields of an authentik object are sent.
    A Diff function returns [None] for the Go pair [(nil, false)].

    The theorems relate each Diff function to an independent specification of "every managed field has its desired
    value": the field predicates [value_ok], [pointer_ok], [nullable_ok] and [set_ok], where the fields compared as
    sets are compared by membership. *)
From S2P Require Import Prelude Api.

(** ** The comparison of one field *)

Section fields.
Context {T : Type} `{EqDecision T}.

Definition diffValue (desired : option T) (observed : T) : option T :=
  match desired with
  | None => None
  | Some d => if decide (d = observed) then None else desired
  end.

Definition diffPointer (desired observed : option T) : option T :=
  match desired with
  | None => None
  | Some d =>
      match observed with
      | Some o => if decide (d = o) then None else desired
      | None => desired
      end
  end.

Definition equalPointers (a b : option T) : bool :=
  match a, b with
  | None, None => true
  | Some x, Some y => bool_decide (x = y)
  | _, _ => false
  end.

(** [diffNullableString] and [diffNullableInt32]. *)
Definition diffNullable (desired observed : Nullable T) : Nullable T :=
  if negb (Nullable_IsSet desired) || equalPointers (Nullable_Get desired) (Nullable_Get observed)
  then Unset else desired.

(** The keys of a Go map after inserting the elements of a slice, in order of first insertion. *)
Definition map_set_key (m : list T) (v : T) : list T := if decide (v ∈ m) then m else m ++ [v].

Definition map_keys (a : list T) : list T := fold_left map_set_key a [].

(** The second loop of [sameSet]: [None] is the early [return false]. *)
Fixpoint sameSet_have (want b have : list T) : option (list T) :=
  match b with
  | [] => Some have
  | v :: rest => if decide (v ∈ want) then sameSet_have want rest (map_set_key have v) else None
  end.

Definition sameSet (a b : list T) : bool :=
  let want := map_keys a in
  match sameSet_have want b [] with
  | None => false
  | Some have => bool_decide (length want = length have)
  end.

Definition diffSet (desired : option (list T)) (observed : list T) : option (list T) :=
  match desired with
  | None => None
  | Some d => if sameSet d observed then None else desired
  end.
End fields.

(** ** Redirect URIs *)

Record redirectURIKey : Type := mkRedirectURIKey {
  key_url : string;
  key_matchingMode : string;
  key_uriType : string;
}.

#[export] Instance redirectURIKey_eq_dec : EqDecision redirectURIKey.
Proof. solve_decision. Defined.

Definition redirectURIType (t : option string) : string :=
  match t with None => REDIRECTURITYPEENUM_AUTHORIZATION | Some t => t end.

Definition request_key (d : RedirectURIRequest) : redirectURIKey :=
  mkRedirectURIKey d.(RedirectURIRequest_Url) d.(RedirectURIRequest_MatchingMode)
    (redirectURIType d.(RedirectURIRequest_RedirectUriType)).

Definition observed_key (o : RedirectURI) : redirectURIKey :=
  mkRedirectURIKey o.(RedirectURI_Url) o.(RedirectURI_MatchingMode)
    (redirectURIType o.(RedirectURI_RedirectUriType)).

Definition diffRedirectURIs (desired : option (list RedirectURIRequest)) (observed : list RedirectURI)
    : option (list RedirectURIRequest) :=
  match desired with
  | None => None
  | Some d => if sameSet (request_key <$> d) (observed_key <$> observed) then None else desired
  end.

(** ** The Diff functions *)

Definition is_set {A} (p : option A) : bool := match p with Some _ => true | None => false end.

Definition DiffApplication (desired : PatchedApplicationRequest) (observed : Application)
    : option PatchedApplicationRequest :=
  let patch := {|
    PatchedApplication_Name := diffValue desired.(PatchedApplication_Name) observed.(Application_Name);
    PatchedApplication_Slug := diffValue desired.(PatchedApplication_Slug) observed.(Application_Slug);
    PatchedApplication_Provider := diffNullable desired.(PatchedApplication_Provider) observed.(Application_Provider);
    PatchedApplication_OpenInNewTab :=
      diffPointer desired.(PatchedApplication_OpenInNewTab) observed.(Application_OpenInNewTab);
    PatchedApplication_MetaLaunchUrl :=
      diffPointer desired.(PatchedApplication_MetaLaunchUrl) observed.(Application_MetaLaunchUrl);
    PatchedApplication_MetaIcon := diffPointer desired.(PatchedApplication_MetaIcon) observed.(Application_MetaIcon);
    PatchedApplication_MetaDescription :=
      diffPointer desired.(PatchedApplication_MetaDescription) observed.(Application_MetaDescription);
    PatchedApplication_MetaPublisher :=
      diffPointer desired.(PatchedApplication_MetaPublisher) observed.(Application_MetaPublisher);
    PatchedApplication_PolicyEngineMode :=
      diffPointer desired.(PatchedApplication_PolicyEngineMode) observed.(Application_PolicyEngineMode);
    PatchedApplication_Group := diffPointer desired.(PatchedApplication_Group) observed.(Application_Group);
    PatchedApplication_MetaHide := diffPointer desired.(PatchedApplication_MetaHide) observed.(Application_MetaHide);
  |} in
  let changed :=
    is_set patch.(PatchedApplication_Name) || is_set patch.(PatchedApplication_Slug) ||
    Nullable_IsSet patch.(PatchedApplication_Provider) || is_set patch.(PatchedApplication_OpenInNewTab) ||
    is_set patch.(PatchedApplication_MetaLaunchUrl) || is_set patch.(PatchedApplication_MetaIcon) ||
    is_set patch.(PatchedApplication_MetaDescription) || is_set patch.(PatchedApplication_MetaPublisher) ||
    is_set patch.(PatchedApplication_PolicyEngineMode) || is_set patch.(PatchedApplication_Group) ||
    is_set patch.(PatchedApplication_MetaHide) in
  if negb changed then None else Some patch.

Definition DiffProxyProvider (desired : PatchedProxyProviderRequest) (observed : ProxyProvider)
    : option PatchedProxyProviderRequest :=
  let diff_mode := diffPointer desired.(PatchedProxy_Mode) observed.(ProxyProvider_Mode) in
  let patch mode := {|
    PatchedProxy_Name := diffValue desired.(PatchedProxy_Name) observed.(ProxyProvider_Name);
    PatchedProxy_AuthenticationFlow :=
      diffNullable desired.(PatchedProxy_AuthenticationFlow) observed.(ProxyProvider_AuthenticationFlow);
    PatchedProxy_AuthorizationFlow :=
      diffValue desired.(PatchedProxy_AuthorizationFlow) observed.(ProxyProvider_AuthorizationFlow);
    PatchedProxy_InvalidationFlow :=
      diffValue desired.(PatchedProxy_InvalidationFlow) observed.(ProxyProvider_InvalidationFlow);
    PatchedProxy_PropertyMappings :=
      diffSet desired.(PatchedProxy_PropertyMappings) observed.(ProxyProvider_PropertyMappings);
    PatchedProxy_InternalHost := diffPointer desired.(PatchedProxy_InternalHost) observed.(ProxyProvider_InternalHost);
    PatchedProxy_ExternalHost := diffValue desired.(PatchedProxy_ExternalHost) observed.(ProxyProvider_ExternalHost);
    PatchedProxy_InternalHostSslValidation :=
      diffPointer desired.(PatchedProxy_InternalHostSslValidation) observed.(ProxyProvider_InternalHostSslValidation);
    PatchedProxy_Certificate := diffNullable desired.(PatchedProxy_Certificate) observed.(ProxyProvider_Certificate);
    PatchedProxy_SkipPathRegex :=
      diffPointer desired.(PatchedProxy_SkipPathRegex) observed.(ProxyProvider_SkipPathRegex);
    PatchedProxy_BasicAuthEnabled :=
      diffPointer desired.(PatchedProxy_BasicAuthEnabled) observed.(ProxyProvider_BasicAuthEnabled);
    PatchedProxy_BasicAuthPasswordAttribute :=
      diffPointer desired.(PatchedProxy_BasicAuthPasswordAttribute) observed.(ProxyProvider_BasicAuthPasswordAttribute);
    PatchedProxy_BasicAuthUserAttribute :=
      diffPointer desired.(PatchedProxy_BasicAuthUserAttribute) observed.(ProxyProvider_BasicAuthUserAttribute);
    PatchedProxy_Mode := mode;
    PatchedProxy_InterceptHeaderAuth :=
      diffPointer desired.(PatchedProxy_InterceptHeaderAuth) observed.(ProxyProvider_InterceptHeaderAuth);
    PatchedProxy_CookieDomain := diffPointer desired.(PatchedProxy_CookieDomain) observed.(ProxyProvider_CookieDomain);
    PatchedProxy_AccessTokenValidity :=
      diffPointer desired.(PatchedProxy_AccessTokenValidity) observed.(ProxyProvider_AccessTokenValidity);
    PatchedProxy_RefreshTokenValidity :=
      diffPointer desired.(PatchedProxy_RefreshTokenValidity) observed.(ProxyProvider_RefreshTokenValidity);
  |} in
  let p := patch diff_mode in
  let changed :=
    is_set p.(PatchedProxy_Name) || Nullable_IsSet p.(PatchedProxy_AuthenticationFlow) ||
    is_set p.(PatchedProxy_AuthorizationFlow) || is_set p.(PatchedProxy_InvalidationFlow) ||
    is_set p.(PatchedProxy_PropertyMappings) || is_set p.(PatchedProxy_InternalHost) ||
    is_set p.(PatchedProxy_ExternalHost) || is_set p.(PatchedProxy_InternalHostSslValidation) ||
    Nullable_IsSet p.(PatchedProxy_Certificate) || is_set p.(PatchedProxy_SkipPathRegex) ||
    is_set p.(PatchedProxy_BasicAuthEnabled) || is_set p.(PatchedProxy_BasicAuthPasswordAttribute) ||
    is_set p.(PatchedProxy_BasicAuthUserAttribute) || is_set p.(PatchedProxy_Mode) ||
    is_set p.(PatchedProxy_InterceptHeaderAuth) || is_set p.(PatchedProxy_CookieDomain) ||
    is_set p.(PatchedProxy_AccessTokenValidity) || is_set p.(PatchedProxy_RefreshTokenValidity) in
  if negb changed then None
  else Some (patch (or_else desired.(PatchedProxy_Mode) observed.(ProxyProvider_Mode))).

Definition DiffOAuth2Provider (desired : PatchedOAuth2ProviderRequest) (observed : OAuth2Provider)
    : option PatchedOAuth2ProviderRequest :=
  let patch := {|
    PatchedOAuth2_Name := diffValue desired.(PatchedOAuth2_Name) observed.(OAuth2Provider_Name);
    PatchedOAuth2_AuthenticationFlow :=
      diffNullable desired.(PatchedOAuth2_AuthenticationFlow) observed.(OAuth2Provider_AuthenticationFlow);
    PatchedOAuth2_AuthorizationFlow :=
      diffValue desired.(PatchedOAuth2_AuthorizationFlow) observed.(OAuth2Provider_AuthorizationFlow);
    PatchedOAuth2_InvalidationFlow :=
      diffValue desired.(PatchedOAuth2_InvalidationFlow) observed.(OAuth2Provider_InvalidationFlow);
    PatchedOAuth2_PropertyMappings :=
      diffSet desired.(PatchedOAuth2_PropertyMappings) observed.(OAuth2Provider_PropertyMappings);
    PatchedOAuth2_ClientType := diffPointer desired.(PatchedOAuth2_ClientType) observed.(OAuth2Provider_ClientType);
    PatchedOAuth2_GrantTypes := diffSet desired.(PatchedOAuth2_GrantTypes) observed.(OAuth2Provider_GrantTypes);
    PatchedOAuth2_ClientId := diffPointer desired.(PatchedOAuth2_ClientId) observed.(OAuth2Provider_ClientId);
    PatchedOAuth2_ClientSecret :=
      diffPointer desired.(PatchedOAuth2_ClientSecret) observed.(OAuth2Provider_ClientSecret);
    PatchedOAuth2_AccessCodeValidity :=
      diffPointer desired.(PatchedOAuth2_AccessCodeValidity) observed.(OAuth2Provider_AccessCodeValidity);
    PatchedOAuth2_AccessTokenValidity :=
      diffPointer desired.(PatchedOAuth2_AccessTokenValidity) observed.(OAuth2Provider_AccessTokenValidity);
    PatchedOAuth2_RefreshTokenValidity :=
      diffPointer desired.(PatchedOAuth2_RefreshTokenValidity) observed.(OAuth2Provider_RefreshTokenValidity);
    PatchedOAuth2_RefreshTokenThreshold :=
      diffPointer desired.(PatchedOAuth2_RefreshTokenThreshold) observed.(OAuth2Provider_RefreshTokenThreshold);
    PatchedOAuth2_IncludeClaimsInIdToken :=
      diffPointer desired.(PatchedOAuth2_IncludeClaimsInIdToken) observed.(OAuth2Provider_IncludeClaimsInIdToken);
    PatchedOAuth2_SigningKey := diffNullable desired.(PatchedOAuth2_SigningKey) observed.(OAuth2Provider_SigningKey);
    PatchedOAuth2_EncryptionKey :=
      diffNullable desired.(PatchedOAuth2_EncryptionKey) observed.(OAuth2Provider_EncryptionKey);
    PatchedOAuth2_RedirectUris :=
      diffRedirectURIs desired.(PatchedOAuth2_RedirectUris) observed.(OAuth2Provider_RedirectUris);
    PatchedOAuth2_LogoutUri := diffPointer desired.(PatchedOAuth2_LogoutUri) observed.(OAuth2Provider_LogoutUri);
    PatchedOAuth2_LogoutMethod :=
      diffPointer desired.(PatchedOAuth2_LogoutMethod) observed.(OAuth2Provider_LogoutMethod);
    PatchedOAuth2_SubMode := diffPointer desired.(PatchedOAuth2_SubMode) observed.(OAuth2Provider_SubMode);
    PatchedOAuth2_IssuerMode := diffPointer desired.(PatchedOAuth2_IssuerMode) observed.(OAuth2Provider_IssuerMode);
  |} in
  let changed :=
    is_set patch.(PatchedOAuth2_Name) || Nullable_IsSet patch.(PatchedOAuth2_AuthenticationFlow) ||
    is_set patch.(PatchedOAuth2_AuthorizationFlow) || is_set patch.(PatchedOAuth2_InvalidationFlow) ||
    is_set patch.(PatchedOAuth2_PropertyMappings) || is_set patch.(PatchedOAuth2_ClientType) ||
    is_set patch.(PatchedOAuth2_GrantTypes) || is_set patch.(PatchedOAuth2_ClientId) ||
    is_set patch.(PatchedOAuth2_ClientSecret) || is_set patch.(PatchedOAuth2_AccessCodeValidity) ||
    is_set patch.(PatchedOAuth2_AccessTokenValidity) || is_set patch.(PatchedOAuth2_RefreshTokenValidity) ||
    is_set patch.(PatchedOAuth2_RefreshTokenThreshold) || is_set patch.(PatchedOAuth2_IncludeClaimsInIdToken) ||
    Nullable_IsSet patch.(PatchedOAuth2_SigningKey) || Nullable_IsSet patch.(PatchedOAuth2_EncryptionKey) ||
    is_set patch.(PatchedOAuth2_RedirectUris) || is_set patch.(PatchedOAuth2_LogoutUri) ||
    is_set patch.(PatchedOAuth2_LogoutMethod) || is_set patch.(PatchedOAuth2_SubMode) ||
    is_set patch.(PatchedOAuth2_IssuerMode) in
  if negb changed then None else Some patch.

(** The subject fields sent by [DiffPolicyBinding]. *)
Definition binding_subject_patch (desired : PatchedPolicyBindingRequest) (observed : PolicyBinding)
    : Nullable string * Nullable string * Nullable Z :=
  let policy := desired.(PatchedBinding_Policy) in
  let group := desired.(PatchedBinding_Group) in
  let user := desired.(PatchedBinding_User) in
  if Nullable_IsSet policy || Nullable_IsSet group || Nullable_IsSet user then
    (if Nullable_IsSet policy then policy else SetTo None,
     if Nullable_IsSet group then group else SetTo None,
     if Nullable_IsSet user then user else SetTo None)
  else (observed.(PolicyBinding_Policy), observed.(PolicyBinding_Group), observed.(PolicyBinding_User)).

Definition DiffPolicyBinding (desired : PatchedPolicyBindingRequest) (observed : PolicyBinding)
    : option PatchedPolicyBindingRequest :=
  let dPolicy := diffNullable desired.(PatchedBinding_Policy) observed.(PolicyBinding_Policy) in
  let dGroup := diffNullable desired.(PatchedBinding_Group) observed.(PolicyBinding_Group) in
  let dUser := diffNullable desired.(PatchedBinding_User) observed.(PolicyBinding_User) in
  let dTarget := diffValue desired.(PatchedBinding_Target) observed.(PolicyBinding_Target) in
  let dNegate := diffPointer desired.(PatchedBinding_Negate) observed.(PolicyBinding_Negate) in
  let dEnabled := diffPointer desired.(PatchedBinding_Enabled) observed.(PolicyBinding_Enabled) in
  let dOrder := diffValue desired.(PatchedBinding_Order) observed.(PolicyBinding_Order) in
  let dTimeout := diffPointer desired.(PatchedBinding_Timeout) observed.(PolicyBinding_Timeout) in
  let dFailureResult := diffPointer desired.(PatchedBinding_FailureResult) observed.(PolicyBinding_FailureResult) in
  let changed :=
    Nullable_IsSet dPolicy || Nullable_IsSet dGroup || Nullable_IsSet dUser || is_set dTarget ||
    is_set dNegate || is_set dEnabled || is_set dOrder || is_set dTimeout || is_set dFailureResult in
  if negb changed then None
  else
    let '(policy, group, user) := binding_subject_patch desired observed in
    Some {|
      PatchedBinding_Policy := policy;
      PatchedBinding_Group := group;
      PatchedBinding_User := user;
      PatchedBinding_Target := or_else desired.(PatchedBinding_Target) (Some observed.(PolicyBinding_Target));
      PatchedBinding_Negate := dNegate;
      PatchedBinding_Enabled := dEnabled;
      PatchedBinding_Order := dOrder;
      PatchedBinding_Timeout := dTimeout;
      PatchedBinding_FailureResult := dFailureResult;
    |}.

(** ** Specification of one field *)

(** A field that is not managed is [None] or [Unset]; otherwise the observed value has to be the desired one. *)
Definition value_ok {T} (desired : option T) (observed : T) : Prop :=
  forall d, desired = Some d -> observed = d.

Definition pointer_ok {T} (desired observed : option T) : Prop :=
  forall d, desired = Some d -> observed = Some d.

Definition nullable_ok {T} (desired observed : Nullable T) : Prop :=
  forall d, desired = SetTo d -> Nullable_Get observed = d.

Definition set_ok {T} (desired : option (list T)) (observed : list T) : Prop :=
  forall d, desired = Some d -> forall x, x ∈ d <-> x ∈ observed.

Definition redirects_ok (desired : option (list RedirectURIRequest)) (observed : list RedirectURI) : Prop :=
  set_ok (option_map (fmap request_key) desired) (fmap observed_key observed).

(** ** Lemmas: sets *)

Section sets.
Context {T : Type} `{EqDecision T}.
Implicit Types (a b want have m : list T) (v x : T).

Lemma map_set_key_elem m v x : x ∈ map_set_key m v <-> x ∈ m \/ x = v.
Proof. unfold map_set_key. case_decide; set_solver. Qed.

Lemma map_set_key_NoDup m v : NoDup m -> NoDup (map_set_key m v).
Proof.
  unfold map_set_key. case_decide; [done|]. intros. apply NoDup_app. split; [done|].
  split; [set_solver|apply NoDup_singleton].
Qed.

Lemma map_keys_from a m x : x ∈ fold_left map_set_key a m <-> x ∈ m \/ x ∈ a.
Proof.
  revert m. induction a as [|v a IH]; intros m; simpl; [set_solver|].
  rewrite IH, map_set_key_elem. set_solver.
Qed.

Lemma map_keys_elem a x : x ∈ map_keys a <-> x ∈ a.
Proof. unfold map_keys. rewrite map_keys_from. set_solver. Qed.

Lemma map_keys_NoDup_from a m : NoDup m -> NoDup (fold_left map_set_key a m).
Proof. revert m. induction a; simpl; eauto using map_set_key_NoDup. Qed.

Lemma map_keys_NoDup a : NoDup (map_keys a).
Proof. apply map_keys_NoDup_from, NoDup_nil_2. Qed.

(** The second loop succeeds when every element is wanted, and collects the distinct elements. *)
Lemma sameSet_have_spec want b have :
  sameSet_have want b have =
  if decide (Forall (.∈ want) b) then Some (fold_left map_set_key b have) else None.
Proof.
  revert have. induction b as [|v b IH]; intros have; simpl.
  - done.
  - destruct (decide (v ∈ want)) as [Hv|Hv].
    + rewrite IH. destruct (decide (Forall _ b)) as [Hb|Hb].
      * by rewrite decide_True by (by constructor).
      * rewrite decide_False; [done|]. by intros [_ ?]%Forall_cons_1.
    + rewrite decide_False; [done|]. by intros [? _]%Forall_cons_1.
Qed.

Lemma sameSet_spec a b : sameSet a b = true <-> forall x, x ∈ a <-> x ∈ b.
Proof.
  unfold sameSet. rewrite sameSet_have_spec. fold (map_keys b).
  destruct (decide (Forall _ b)) as [Hsub|Hsub]; [|split; [done|]; intros H; destruct Hsub].
  - rewrite Forall_forall in Hsub. rewrite bool_decide_eq_true. split.
    + intros Hlen x. assert (map_keys b ≡ₚ map_keys a) as Hp.
      { apply submseteq_length_Permutation; [|lia].
        apply NoDup_submseteq; [apply map_keys_NoDup|]. intros y Hy. apply Hsub. by apply map_keys_elem. }
      rewrite <- (map_keys_elem a), <- (map_keys_elem b). by rewrite Hp.
    + intros H. apply Permutation_length, NoDup_Permutation; [apply map_keys_NoDup..|].
      intros x. by rewrite !map_keys_elem.
  - apply Forall_forall. intros x Hx. apply map_keys_elem, H, Hx.
Qed.
End sets.

(** ** Lemmas: one field *)

Section field_lemmas.
Context {T : Type} `{EqDecision T}.

Lemma diffValue_unset (d : option T) o : is_set (diffValue d o) = false <-> value_ok d o.
Proof. unfold diffValue, value_ok. destruct d as [d|]; [case_decide|]; simpl; naive_solver. Qed.

Lemma diffPointer_unset (d o : option T) : is_set (diffPointer d o) = false <-> pointer_ok d o.
Proof.
  unfold diffPointer, pointer_ok. destruct d as [d|], o as [o|]; try case_decide; simpl; naive_solver.
Qed.

Lemma diffNullable_unset (d o : Nullable T) : Nullable_IsSet (diffNullable d o) = false <-> nullable_ok d o.
Proof.
  unfold diffNullable, nullable_ok, equalPointers.
  destruct d as [|[d|]]; simpl; destruct (Nullable_Get o) as [v|]; simpl; try case_bool_decide; simpl; naive_solver.
Qed.

Lemma diffSet_unset (d : option (list T)) o : is_set (diffSet d o) = false <-> set_ok d o.
Proof.
  unfold diffSet, set_ok. destruct d as [d|]; simpl; [|naive_solver].
  destruct (sameSet d o) eqn:E; simpl.
  - rewrite sameSet_spec in E. naive_solver.
  - split; [done|]. intros H. specialize (H d eq_refl). apply sameSet_spec in H. congruence.
Qed.
End field_lemmas.

Lemma diffRedirectURIs_unset d o : is_set (diffRedirectURIs d o) = false <-> redirects_ok d o.
Proof.
  unfold redirects_ok. rewrite <- diffSet_unset. unfold diffRedirectURIs, diffSet.
  destruct d as [d|]; simpl; [|done]. by destruct (sameSet _ _).
Qed.

(** ** Specification of the objects *)

(** Every managed field of the desired state has its value in the observed object. *)
Definition application_matches (d : PatchedApplicationRequest) (o : Application) : Prop :=
  value_ok d.(PatchedApplication_Name) o.(Application_Name) /\
  value_ok d.(PatchedApplication_Slug) o.(Application_Slug) /\
  nullable_ok d.(PatchedApplication_Provider) o.(Application_Provider) /\
  pointer_ok d.(PatchedApplication_OpenInNewTab) o.(Application_OpenInNewTab) /\
  pointer_ok d.(PatchedApplication_MetaLaunchUrl) o.(Application_MetaLaunchUrl) /\
  pointer_ok d.(PatchedApplication_MetaIcon) o.(Application_MetaIcon) /\
  pointer_ok d.(PatchedApplication_MetaDescription) o.(Application_MetaDescription) /\
  pointer_ok d.(PatchedApplication_MetaPublisher) o.(Application_MetaPublisher) /\
  pointer_ok d.(PatchedApplication_PolicyEngineMode) o.(Application_PolicyEngineMode) /\
  pointer_ok d.(PatchedApplication_Group) o.(Application_Group) /\
  pointer_ok d.(PatchedApplication_MetaHide) o.(Application_MetaHide).

Definition proxy_matches (d : PatchedProxyProviderRequest) (o : ProxyProvider) : Prop :=
  value_ok d.(PatchedProxy_Name) o.(ProxyProvider_Name) /\
  nullable_ok d.(PatchedProxy_AuthenticationFlow) o.(ProxyProvider_AuthenticationFlow) /\
  value_ok d.(PatchedProxy_AuthorizationFlow) o.(ProxyProvider_AuthorizationFlow) /\
  value_ok d.(PatchedProxy_InvalidationFlow) o.(ProxyProvider_InvalidationFlow) /\
  set_ok d.(PatchedProxy_PropertyMappings) o.(ProxyProvider_PropertyMappings) /\
  pointer_ok d.(PatchedProxy_InternalHost) o.(ProxyProvider_InternalHost) /\
  value_ok d.(PatchedProxy_ExternalHost) o.(ProxyProvider_ExternalHost) /\
  pointer_ok d.(PatchedProxy_InternalHostSslValidation) o.(ProxyProvider_InternalHostSslValidation) /\
  nullable_ok d.(PatchedProxy_Certificate) o.(ProxyProvider_Certificate) /\
  pointer_ok d.(PatchedProxy_SkipPathRegex) o.(ProxyProvider_SkipPathRegex) /\
  pointer_ok d.(PatchedProxy_BasicAuthEnabled) o.(ProxyProvider_BasicAuthEnabled) /\
  pointer_ok d.(PatchedProxy_BasicAuthPasswordAttribute) o.(ProxyProvider_BasicAuthPasswordAttribute) /\
  pointer_ok d.(PatchedProxy_BasicAuthUserAttribute) o.(ProxyProvider_BasicAuthUserAttribute) /\
  pointer_ok d.(PatchedProxy_Mode) o.(ProxyProvider_Mode) /\
  pointer_ok d.(PatchedProxy_InterceptHeaderAuth) o.(ProxyProvider_InterceptHeaderAuth) /\
  pointer_ok d.(PatchedProxy_CookieDomain) o.(ProxyProvider_CookieDomain) /\
  pointer_ok d.(PatchedProxy_AccessTokenValidity) o.(ProxyProvider_AccessTokenValidity) /\
  pointer_ok d.(PatchedProxy_RefreshTokenValidity) o.(ProxyProvider_RefreshTokenValidity).

Definition oauth2_matches (d : PatchedOAuth2ProviderRequest) (o : OAuth2Provider) : Prop :=
  value_ok d.(PatchedOAuth2_Name) o.(OAuth2Provider_Name) /\
  nullable_ok d.(PatchedOAuth2_AuthenticationFlow) o.(OAuth2Provider_AuthenticationFlow) /\
  value_ok d.(PatchedOAuth2_AuthorizationFlow) o.(OAuth2Provider_AuthorizationFlow) /\
  value_ok d.(PatchedOAuth2_InvalidationFlow) o.(OAuth2Provider_InvalidationFlow) /\
  set_ok d.(PatchedOAuth2_PropertyMappings) o.(OAuth2Provider_PropertyMappings) /\
  pointer_ok d.(PatchedOAuth2_ClientType) o.(OAuth2Provider_ClientType) /\
  set_ok d.(PatchedOAuth2_GrantTypes) o.(OAuth2Provider_GrantTypes) /\
  pointer_ok d.(PatchedOAuth2_ClientId) o.(OAuth2Provider_ClientId) /\
  pointer_ok d.(PatchedOAuth2_ClientSecret) o.(OAuth2Provider_ClientSecret) /\
  pointer_ok d.(PatchedOAuth2_AccessCodeValidity) o.(OAuth2Provider_AccessCodeValidity) /\
  pointer_ok d.(PatchedOAuth2_AccessTokenValidity) o.(OAuth2Provider_AccessTokenValidity) /\
  pointer_ok d.(PatchedOAuth2_RefreshTokenValidity) o.(OAuth2Provider_RefreshTokenValidity) /\
  pointer_ok d.(PatchedOAuth2_RefreshTokenThreshold) o.(OAuth2Provider_RefreshTokenThreshold) /\
  pointer_ok d.(PatchedOAuth2_IncludeClaimsInIdToken) o.(OAuth2Provider_IncludeClaimsInIdToken) /\
  nullable_ok d.(PatchedOAuth2_SigningKey) o.(OAuth2Provider_SigningKey) /\
  nullable_ok d.(PatchedOAuth2_EncryptionKey) o.(OAuth2Provider_EncryptionKey) /\
  redirects_ok d.(PatchedOAuth2_RedirectUris) o.(OAuth2Provider_RedirectUris) /\
  pointer_ok d.(PatchedOAuth2_LogoutUri) o.(OAuth2Provider_LogoutUri) /\
  pointer_ok d.(PatchedOAuth2_LogoutMethod) o.(OAuth2Provider_LogoutMethod) /\
  pointer_ok d.(PatchedOAuth2_SubMode) o.(OAuth2Provider_SubMode) /\
  pointer_ok d.(PatchedOAuth2_IssuerMode) o.(OAuth2Provider_IssuerMode).

Definition binding_matches (d : PatchedPolicyBindingRequest) (o : PolicyBinding) : Prop :=
  nullable_ok d.(PatchedBinding_Policy) o.(PolicyBinding_Policy) /\
  nullable_ok d.(PatchedBinding_Group) o.(PolicyBinding_Group) /\
  nullable_ok d.(PatchedBinding_User) o.(PolicyBinding_User) /\
  value_ok d.(PatchedBinding_Target) o.(PolicyBinding_Target) /\
  pointer_ok d.(PatchedBinding_Negate) o.(PolicyBinding_Negate) /\
  pointer_ok d.(PatchedBinding_Enabled) o.(PolicyBinding_Enabled) /\
  value_ok d.(PatchedBinding_Order) o.(PolicyBinding_Order) /\
  pointer_ok d.(PatchedBinding_Timeout) o.(PolicyBinding_Timeout) /\
  pointer_ok d.(PatchedBinding_FailureResult) o.(PolicyBinding_FailureResult).

(** Turns "nothing changed" into the conjunction of the field specifications. *)
Ltac diff_none :=
  match goal with
  | |- (if negb ?c then None else Some _) = None <-> _ =>
      transitivity (c = false); [by destruct c|]
  end;
  rewrite ?orb_false_iff, ?diffValue_unset, ?diffPointer_unset, ?diffNullable_unset, ?diffSet_unset,
    ?diffRedirectURIs_unset; tauto.

Lemma DiffApplication_None d o : DiffApplication d o = None <-> application_matches d o.
Proof. unfold DiffApplication, application_matches. cbn -[diffValue diffPointer diffNullable]. diff_none. Qed.

Lemma DiffProxyProvider_None d o : DiffProxyProvider d o = None <-> proxy_matches d o.
Proof. unfold DiffProxyProvider, proxy_matches. cbn -[diffValue diffPointer diffNullable diffSet]. diff_none. Qed.

Lemma DiffOAuth2Provider_None d o : DiffOAuth2Provider d o = None <-> oauth2_matches d o.
Proof.
  unfold DiffOAuth2Provider, oauth2_matches.
  cbn -[diffValue diffPointer diffNullable diffSet diffRedirectURIs]. diff_none.
Qed.

Lemma DiffPolicyBinding_None d o : DiffPolicyBinding d o = None <-> binding_matches d o.
Proof.
  unfold DiffPolicyBinding, binding_matches. cbv zeta. destruct (binding_subject_patch d o) as [[p g] u].
  diff_none.
Qed.
