(* ===== verification/Client.v ===== *)
(** * The requests of the authentik client

    [internal/authentik/apiclient.go], its generic part, and [metrics.go]: the wrapper of the requests of client-go
    that counts them and converts their errors, and the loop that follows the pages of the list APIs. The requests
    are executed by client-go: they are the calls of a signature, and the methods are programs over it. The
    latencies are not modelled. *)
From S2P Require Import Prelude Errors Effects Api.

(** ** Metrics *)

(** [requestsTotal]: the counters by operation and code. *)
Definition requestsTotal : Type := gmap (string * string) Z.

Definition observeRequest (counters : requestsTotal) (operation : string) (resp : option http_response) : requestsTotal :=
  let code := match resp with Some r => fmt_d r.(resp_StatusCode) | None => "error" end in
  <[(operation, code) := default 0 (counters !! (operation, code)) + 1]> counters.

(** ** Requests *)

(** What client-go returns from [Execute]: the body, the response and the error. *)
Record execution (T : Type) : Type := mkExecution {
  exec_result : T;
  exec_response : option http_response;
  exec_error : option openapi_error;
}.
Arguments mkExecution {T}.
Arguments exec_result {T}.
Arguments exec_response {T}.
Arguments exec_error {T}.

(** [page]: [page_next] is the number of the next page. The float32 of the API holds integers up to 2^24 exactly. *)
Record page (T : Type) : Type := mkPage {
  page_results : list T;
  page_next : Z;
}.
Arguments mkPage {T}.
Arguments page_results {T}.
Arguments page_next {T}.

Section client.
Context {C : Type -> Type} (json_Unmarshal : string -> option json) (json_Marshal : json -> option string).
Abbreviation wrapError := (wrapError json_Unmarshal json_Marshal).

(** A method of the client mutates the counters. *)
Abbreviation method T := (M C requestsTotal T) (only parsing).

Definition call {T} (operation : string) (execute : method (execution T)) : method T :=
  let* e := execute in
  mmodify (fun counters => observeRequest counters operation e.(exec_response)) ;;
  match wrapError operation e.(exec_response) e.(exec_error) with
  | Some err => mfail (ClientError err)
  | None => mret e.(exec_result)
  end.

Definition callNoContent (operation : string) (execute : method (execution ())) : method () :=
  let* e := execute in
  mmodify (fun counters => observeRequest counters operation e.(exec_response)) ;;
  match wrapError operation e.(exec_response) e.(exec_error) with
  | Some err => mfail (ClientError err)
  | None => mret ()
  end.

(** The loop of [listAll] from the page [current]: [None] when the fuel, the number of pages, runs out. *)
Fixpoint listAll_from {T} (fuel : nat) (operation : string) (fetch : Z -> method (execution (page T)))
    (keep : T -> bool) (items : list T) (current : Z) : method (option (list T)) :=
  match fuel with
  | O => mret None
  | S fuel =>
      let* p := call operation (fetch current) in
      let items := items ++ List.filter keep p.(page_results) in
      if decide (p.(page_next) <= 0) then mret (Some items)
      else listAll_from fuel operation fetch keep items (int32_wrap p.(page_next))
  end.

Definition listAll {T} (fuel : nat) (operation : string) (fetch : Z -> method (execution (page T)))
    (keep : T -> bool) : method (option (list T)) :=
  listAll_from fuel operation fetch keep [] 1.

(** [toPage]; the pagination is the number of the next page. *)
Definition toPage {T} (results : list T) (pagination : option Z) : page T :=
  mkPage results (default 0 pagination).

(** The closures that fetch a page: a nil list is an empty last page. *)
Definition fetch_page {T} (request : Z -> C (execution (option (list T * Z)))) (current : Z) : method (execution (page T)) :=
  let* e := mcall (request current) in
  mret (mkExecution
    (match e.(exec_result) with
     | None => mkPage [] 0
     | Some (results, pagination) => toPage results (Some pagination)
     end) e.(exec_response) e.(exec_error)).
End client.

(** ** Pagination *)

Section pagination.
Context {C : Type -> Type} {W : Type} (handle : forall R, C R -> W -> W * R).
Context (json_Unmarshal : string -> option json) (json_Marshal : json -> option string).
Context {T : Type} (operation : string) (request : Z -> C (execution (option (list T * Z)))).
Abbreviation wrapError := (wrapError json_Unmarshal json_Marshal).

(** The error of an answer, if any. *)
Definition page_error {A} (e : execution A) : option client_error :=
  wrapError operation e.(exec_response) e.(exec_error).

(** From the world [w] the API serves the pages [pages], numbered from [first], each naming the next one, and leaves
    the world [w']; after them comes the end of the list, or a page that fails with [failure]. *)
Fixpoint serves (first : Z) (pages : list (list T)) (failure : option client_error) (w w' : W) : Prop :=
  let '(w1, e) := handle _ (request first) w in
  match pages with
  | [] => exists err, failure = Some err /\ page_error e = Some err /\ w' = w1
  | items :: rest =>
      page_error e = None /\
      if decide (rest = [] /\ failure = None)
      then w' = w1 /\ exists next, e.(exec_result) = Some (items, next) /\ next <= 0
      else e.(exec_result) = Some (items, first + 1) /\ serves (first + 1) rest failure w1 w'
  end.

(** The answer of a list operation. *)
Definition listed (items : list T) (failure : option client_error) : result (option (list T)) :=
  match failure with Some err => Err (ClientError err) | None => Ok (Some items) end.

Abbreviation list_method fuel keep items first :=
  (listAll_from json_Unmarshal json_Marshal fuel operation (fetch_page request) keep items first).

Lemma listAll_from_serves fuel keep items first pages failure counters w w' :
  serves first pages failure w w' -> 0 < first -> first + Z.of_nat (length pages) <= 2 ^ 24 -> (length pages < fuel)%nat ->
  exists counters', mrun handle (list_method fuel keep items first) counters w =
    Some (counters', listed (items ++ List.filter keep (concat pages)) failure, w').
Proof.
  unfold mrun. revert fuel counters w items first.
  induction pages as [|page pages IH]; intros [|fuel] counters w items first Hs Hf Hb Hfuel; simpl in *; try lia;
    destruct (handle _ (request first) w) as [w1 e] eqn:Ee; simpl.
  - destruct Hs as (err & -> & He & ->). unfold page_error in He. rewrite He. simpl. eauto.
  - destruct Hs as (He & Hnext). unfold page_error in He. rewrite He, List.filter_app.
    case_decide as Hd.
    + destruct Hd as [-> ->], Hnext as (-> & next & -> & Hn). simpl.
      rewrite decide_True by done. simpl. rewrite app_nil_r. eauto.
    + destruct Hnext as [-> Hs]. simpl. rewrite decide_False by lia.
      rewrite int32_wrap_id by (unfold is_int32, max_int32; lia).
      destruct (IH fuel (observeRequest counters operation (exec_response e)) w1
        (items ++ List.filter keep page) (first + 1) Hs) as [counters' Hc]; [lia..|].
      rewrite app_assoc. eauto.
Qed.

(** A list operation reads every page exactly once and in order. When the API serves the pages, [listAll]
    returns, with fuel for one request more than there are pages, the items of all pages that pass the filter, in
    the order of the pages, and has made no other request; when a page fails, its error is returned and no items. *)
Theorem listAll_follows_pages fuel keep pages failure counters w w' :
  serves 1 pages failure w w' -> Z.of_nat (length pages) < 2 ^ 24 -> (length pages < fuel)%nat ->
  exists counters',
    mrun handle (listAll json_Unmarshal json_Marshal fuel operation (fetch_page request) keep) counters w =
      Some (counters', listed (List.filter keep (concat pages)) failure, w').
Proof. intros Hs Hb Hf. apply (listAll_from_serves _ _ [] 1); [done|lia|lia|done]. Qed.
End pagination.

(** Two pages of numbers; the world counts the requests. *)
Lemma listAll_follows_pages_witness :
  let handle R (q : option (list Z * Z) * R) (requests : nat) := (S requests, q.2) in
  let request current : option (list Z * Z) * execution (option (list Z * Z)) :=
    (None, mkExecution (Some (if decide (current = 1) then ([1; 2], 2) else ([3; 4], 0)))
             (Some (mkResponse 200 None)) None) in
  exists counters',
    mrun handle (listAll (fun _ => None) (fun _ => None) 3 "List" (fetch_page request) Z.even) ∅ O =
      Some (counters', Ok (Some [2; 4]), 2%nat).
Proof.
  intros handle request.
  apply (listAll_follows_pages handle (fun _ => None) (fun _ => None) "List" request 3 Z.even [[1; 2]; [3; 4]] None).
  - vm_compute. split; [done|]. split; [done|]. split; [done|]. split; [done|]. exists 0. split; [done|congruence].
  - vm_compute. reflexivity.
  - simpl. lia.
Defined.
