(* ===== verification/Interface.v ===== *)
(** * The calls to the external services

    [internal/authentik/interface.go]: one constructor per method of the [Client] interface, and the calls that the
    reconciler makes to the Kubernetes API, the event recorder and the clock. The services are not part of the
    program: a call is answered by an environment. The classification of the calls says which of them write to
    authentik. *)
From S2P Require Import Prelude Errors Effects Api Crd.

(** An authentik call returns a value or an error of the client. *)
Abbreviation ak A := (A + client_error)%type (only parsing).

(** A Kubernetes call returns a value or an error of the API server. *)
Abbreviation kube A := (A + kube_error)%type (only parsing).

(** The part of a Secret that the operator reads and writes. [Secret_Owner] is the UID of the controller owner. *)
Record Secret : Type := mkSecret {
  Secret_Namespace : string;
  Secret_Name : string;
  Secret_Owner : option string;
  Secret_Data : gmap string string;
}.

(** An Event: [Warning] or [Normal], its reason and its message. *)
Record event : Type := mkEvent {
  event_warning : bool;
  event_reason : string;
  event_message : string;
}.

Inductive call : Type -> Type :=
  (* VersionClient *)
  | GetVersion : call (ak Version)
  (* ApplicationClient *)
  | GetApplication (slug : string) : call (ak Application)
  | CreateApplication (request : ApplicationRequest) : call (ak Application)
  | PatchApplication (slug : string) (request : PatchedApplicationRequest) : call (ak Application)
  | DeleteApplication (slug : string) : call (ak ())
  (* ProxyProviderClient *)
  | GetProxyProvider (pk : Z) : call (ak ProxyProvider)
  | FindProxyProvidersByName (name : string) : call (ak (list ProxyProvider))
  | CreateProxyProvider (request : ProxyProviderRequest) : call (ak ProxyProvider)
  | PatchProxyProvider (pk : Z) (request : PatchedProxyProviderRequest) : call (ak ProxyProvider)
  | DeleteProxyProvider (pk : Z) : call (ak ())
  (* OAuth2ProviderClient *)
  | GetOAuth2Provider (pk : Z) : call (ak OAuth2Provider)
  | FindOAuth2ProvidersByName (name : string) : call (ak (list OAuth2Provider))
  | CreateOAuth2Provider (request : OAuth2ProviderRequest) : call (ak OAuth2Provider)
  | PatchOAuth2Provider (pk : Z) (request : PatchedOAuth2ProviderRequest) : call (ak OAuth2Provider)
  | DeleteOAuth2Provider (pk : Z) : call (ak ())
  (* PolicyBindingClient *)
  | GetPolicyBinding (uuid : string) : call (ak PolicyBinding)
  | ListPolicyBindings (target : string) : call (ak (list PolicyBinding))
  | CreatePolicyBinding (request : PolicyBindingRequest) : call (ak PolicyBinding)
  | PatchPolicyBinding (uuid : string) (request : PatchedPolicyBindingRequest) : call (ak PolicyBinding)
  | DeletePolicyBinding (uuid : string) : call (ak ())
  (* OutpostClient *)
  | GetOutpost (uuid : string) : call (ak Outpost)
  | FindOutpostsByName (name : string) : call (ak (list Outpost))
  | SetOutpostProviders (uuid : string) (providers : list Z) : call (ak Outpost)
  (* RBACClient *)
  | GetRole (uuid : string) : call (ak Role)
  | FindRolesByName (name : string) : call (ak (list Role))
  | CreateRole (name : string) : call (ak Role)
  | AssignObjectPermission (roleUUID model objectPK permission : string) : call (ak ())
  | UnassignObjectPermission (roleUUID model objectPK permission : string) : call (ak ())
  | ListRoleObjectPermissions (roleUUID : string) : call (ak (list RoleObjectPermission))
  | ListObjectPermissionRoles (model objectPK : string) : call (ak (list RoleAssignedObjectPermission))
  (* LookupClient *)
  | GetGroup (uuid : string) : call (ak Group)
  | FindGroupsByName (name : string) : call (ak (list Group))
  | GetUser (pk : Z) : call (ak User)
  | FindUsersByUsername (username : string) : call (ak (list User))
  | GetPolicy (uuid : string) : call (ak Policy)
  | FindPoliciesByName (name : string) : call (ak (list Policy))
  | GetFlow (uuid : string) : call (ak Flow)
  | FindFlowsBySlug (slug : string) : call (ak (list Flow))
  | GetCertificateKeyPair (uuid : string) : call (ak CertificateKeyPair)
  | FindCertificateKeyPairsByName (name : string) : call (ak (list CertificateKeyPair))
  | GetScopeMapping (uuid : string) : call (ak ScopeMapping)
  | FindScopeMappingsByScopeName (scopeName : string) : call (ak (list ScopeMapping))
  (* The Kubernetes API *)
  | KubeGet (namespace name : string) : call (kube AuthentikApplication)
  | KubeListBySlug (slug : string) : call (kube (list AuthentikApplication))
  | KubeListAll : call (kube (list AuthentikApplication))
  | KubeListBySecret (namespace secret : string) : call (kube (list AuthentikApplication))
  | KubePatch (app base : AuthentikApplication) : call (kube AuthentikApplication)
  | KubePatchStatus (app base : AuthentikApplication) : call (kube AuthentikApplication)
  | KubeGetSecret (namespace name : string) : call (kube Secret)
  | KubeCreateSecret (secret : Secret) : call (kube ())
  (* The event recorder, the clock, and the goroutine that feeds the work queue *)
  | Eventf (e : event) : call ()
  | Now : call Z
  | SendRoleEvents (apps : list AuthentikApplication) : call ().

(** ** Methods that make one call *)

Definition akcall {S A} (c : call (ak A)) : M call S A := minvoke ClientError c.
Definition kubecall {S A} (c : call (kube A)) : M call S A := minvoke KubeAPIError c.

(** One step of symbolic execution of a method of the operator. *)
Ltac go_step :=
  lazymatch goal with
  | |- mwp _ (kubecall _) _ _ _ => unfold kubecall; apply mwp_invoke; [try done|intros ? ? ?]
  | |- mwp _ (akcall _) _ _ _ => unfold akcall; apply mwp_invoke; [try done|intros ? ? ?]
  | |- mwp _ (mwrap _ _) _ _ _ => apply mwp_bind, mwp_try
  | |- _ => mwp_step
  end.

(** ** Classification of the calls *)

Inductive call_class : Type :=
  | Reads            (** no effect on authentik or Kubernetes *)
  | Roles            (** the creation of the ownership role *)
  | Marks            (** the object permissions of the role *)
  | Writes           (** creations and updates of Applications, Providers, PolicyBindings and Outposts *)
  | Unbinds          (** deletions of PolicyBindings *)
  | Deletes          (** deletions of Applications and Providers *)
  | KubeWrites.      (** the Kubernetes API, the events and the work queue *)

#[export] Instance call_class_eq_dec : EqDecision call_class.
Proof. solve_decision. Defined.

Definition class_of {R} (c : call R) : call_class :=
  match c with
  | CreateApplication _ | PatchApplication _ _ | CreateProxyProvider _ | PatchProxyProvider _ _
  | CreateOAuth2Provider _ | PatchOAuth2Provider _ _ | CreatePolicyBinding _ | PatchPolicyBinding _ _
  | SetOutpostProviders _ _ => Writes
  | DeletePolicyBinding _ => Unbinds
  | DeleteApplication _ | DeleteProxyProvider _ | DeleteOAuth2Provider _ => Deletes
  | CreateRole _ => Roles
  | AssignObjectPermission _ _ _ _ | UnassignObjectPermission _ _ _ _ => Marks
  | KubePatch _ _ | KubePatchStatus _ _ | KubeCreateSecret _ | Eventf _ | SendRoleEvents _ => KubeWrites
  | _ => Reads
  end.

Definition log_class (e : logged call) : call_class := class_of e.(log_call).

(** ** Runs against services that may answer anything *)

(** A run that panics ends the log. *)
Definition any_env : environment call (list (logged call)) := log_env (fun _ _ _ => True) True.

(** [m] only makes calls that are allowed, whatever the services answer. *)
Definition only_calls {S A} (allowed : logged call -> Prop) (m : M call S A) : Prop :=
  forall s w, mwp any_env m s w (fun _ _ w' => exists l, w' = w ++ l /\ Forall allowed l).
