(* ===== verification/Strconv.v ===== *)
(** * Decimal numbers

    [strconv.Atoi] of the standard library on ASCII strings, the decimals that [fmt] writes, and their round trip.
    The int of the supported platforms has 64 bits. *)
From S2P Require Import Prelude Errors.

(** ** strconv.Atoi *)

Definition digit_value (c : ascii) : option Z :=
  let n := Z.of_nat (Ascii.nat_of_ascii c) in
  if bool_decide (48 <= n <= 57) then Some (n - 48) else None.

Fixpoint digits_value (acc : Z) (s : string) : option Z :=
  match s with
  | EmptyString => Some acc
  | String c rest => d ← digit_value c; digits_value (10 * acc + d) rest
  end.

Definition plus_char : ascii := Ascii.ascii_of_nat 43.
Definition minus_char : ascii := Ascii.ascii_of_nat 45.

Definition atoi_error (s message : string) : error :=
  ErrorString ("strconv.Atoi: parsing " +:+ fmt_q s +:+ ": " +:+ message).

Definition strconv_Atoi (s : string) : result Z :=
  let '(negative, digits) :=
    match s with
    | String c rest => if decide (c = plus_char) then (false, rest) else if decide (c = minus_char) then (true, rest)
                       else (false, s)
    | EmptyString => (false, s)
    end in
  match digits with
  | EmptyString => Err (atoi_error s "invalid syntax")
  | _ =>
      match digits_value 0 digits with
      | None => Err (atoi_error s "invalid syntax")
      | Some n =>
          let z := if (negative : bool) then - n else n in
          if bool_decide (- 2 ^ 63 <= z < 2 ^ 63) then Ok z else Err (atoi_error s "value out of range")
      end
  end.

Definition dot_char : ascii := Ascii.ascii_of_nat 46.

(** ** Decimal numbers and dots *)

(** The string has no dot. *)
Definition dotless (s : string) : bool := negb (strings_cut dot_char s).2.

Lemma strings_split_dotless s t :
  dotless s = true -> strings_split dot_char (s +:+ String dot_char t) = s :: strings_split dot_char t.
Proof.
  unfold dotless. rewrite negb_true_iff. induction s as [|c s IH]; intros Hs; [done|].
  change (String c s +:+ String dot_char t) with (String c (s +:+ String dot_char t)). cbn [strings_split strings_cut] in *.
  destruct (decide (c = dot_char)); [done|]. destruct (strings_cut dot_char s) as [[b a] f]. simpl in Hs. by rewrite IH.
Qed.

Lemma strings_split_one s : dotless s = true -> strings_split dot_char s = [s].
Proof.
  unfold dotless. rewrite negb_true_iff. induction s as [|c s IH]; intros Hs; [done|]. cbn [strings_split strings_cut] in *.
  destruct (decide (c = dot_char)); [done|]. destruct (strings_cut dot_char s) as [[b a] f]. simpl in Hs. by rewrite IH.
Qed.

Lemma dotless_app s t : dotless s = true -> dotless t = true -> dotless (s +:+ t) = true.
Proof.
  unfold dotless. rewrite !negb_true_iff. induction s as [|c s IH]; intros Hs Ht; [done|].
  change (String c s +:+ t) with (String c (s +:+ t)). simpl in *. destruct (decide (c = dot_char)); [done|].
  destruct (strings_cut dot_char s) as [[b a] f]. simpl in Hs. specialize (IH Hs Ht).
  by destruct (strings_cut dot_char (s +:+ t)) as [[b' a'] f'].
Qed.

Lemma substring_app s t u :
  String.substring (String.length s) (String.length t) (s +:+ t +:+ u) = t.
Proof.
  induction s as [|c s IH]; [|exact IH]. change ("" +:+ t +:+ u) with (t +:+ u). simpl. induction t as [|c t IH]; [by destruct u|].
  change (String c t +:+ u) with (String c (t +:+ u)). simpl. by rewrite IH.
Qed.

Definition two_digits (n : Z) : string := fmt_d (n / 10) +:+ fmt_d (n mod 10).

(** *** The decimals of [fmt] are read back *)

Lemma digit_value_pretty n : (n < 10)%N -> digit_value (pretty_N_char n) = Some (Z.of_N n).
Proof.
  intros Hn. assert (Hcases : In n [0; 1; 2; 3; 4; 5; 6; 7; 8; 9]%N) by (simpl; lia).
  simpl in Hcases. by repeat destruct Hcases as [<-|Hcases].
Qed.

(** Reading the digits that [pretty] puts before [s] accumulates the number. *)
Lemma digits_value_pretty_go n s : digits_value 0 (pretty_N_go n s) = digits_value (Z.of_N n) s.
Proof.
  revert s. induction (N.lt_wf_0 n) as [n _ IH]; intros s. destruct (decide (n = 0)%N) as [->|Hn]; [done|].
  rewrite pretty_N_go_step, IH by (try apply N.div_lt; lia). simpl.
  rewrite digit_value_pretty by (apply N.mod_lt; lia). simpl. f_equal.
  pose proof (N.div_mod n 10 ltac:(done)) as Hdiv. lia.
Qed.

Definition is_digit (c : ascii) : bool := bool_decide (is_Some (digit_value c)).

Lemma pretty_go_digits n s :
  Forall (fun c => is_digit c = true) (String.list_ascii_of_string s) ->
  Forall (fun c => is_digit c = true) (String.list_ascii_of_string (pretty_N_go n s)).
Proof.
  revert s. induction (N.lt_wf_0 n) as [n _ IH]; intros s Hs. destruct (decide (n = 0)%N) as [->|Hn]; [done|].
  rewrite pretty_N_go_step by lia. apply IH; [apply N.div_lt; lia|]. constructor; [|done].
  unfold is_digit. rewrite digit_value_pretty by (apply N.mod_lt; lia). done.
Qed.

Lemma pretty_N_digits (n : N) : Forall (fun c => is_digit c = true) (String.list_ascii_of_string (pretty n)).
Proof.
  unfold pretty, pretty_N. case_decide; [by repeat constructor|]. by apply pretty_go_digits.
Qed.

Lemma digits_value_pretty (n : N) : digits_value 0 (pretty n) = Some (Z.of_N n).
Proof.
  unfold pretty, pretty_N. case_decide; [by subst|]. by rewrite digits_value_pretty_go.
Qed.

Lemma digits_dotless s : Forall (fun c => is_digit c = true) (String.list_ascii_of_string s) -> dotless s = true.
Proof.
  unfold dotless. induction s as [|c s IH]; intros Hs; [done|]. inversion_clear Hs as [|? ? Hc Hs']. simpl.
  case_decide as Hdot; [by subst c|]. specialize (IH Hs'). by destruct (strings_cut dot_char s) as [[b a] f].
Qed.

Lemma fmt_d_dotless z : dotless (fmt_d z) = true.
Proof.
  destruct z as [|p|p]; [done| |].
  - apply digits_dotless, (pretty_N_digits (N.pos p)).
  - apply (dotless_app "-"); [done|]. apply digits_dotless, (pretty_N_digits (N.pos p)).
Qed.

(** Digits without a sign. *)
Lemma strconv_Atoi_digits s n :
  Forall (fun c => is_digit c = true) (String.list_ascii_of_string s) -> digits_value 0 s = Some n -> s <> "" ->
  strconv_Atoi s = if bool_decide (- 2 ^ 63 <= n < 2 ^ 63) then Ok n else Err (atoi_error s "value out of range").
Proof.
  intros Hd Hn Hs. destruct s as [|c s]; [done|]. inversion_clear Hd as [|? ? Hc _]. unfold strconv_Atoi.
  destruct (decide (c = plus_char)) as [->|_]; [done|]. destruct (decide (c = minus_char)) as [->|_]; [done|].
  by rewrite Hn.
Qed.

(** [strconv.Atoi] reads what [%d] writes, for every int. *)
Lemma strconv_Atoi_fmt_d z : - 2 ^ 63 <= z < 2 ^ 63 -> strconv_Atoi (fmt_d z) = Ok z.
Proof.
  intros Hz. destruct z as [|p|p]; [done| |].
  - unfold fmt_d. change (pretty (Z.pos p)) with (pretty (N.pos p)).
    rewrite (strconv_Atoi_digits _ (Z.pos p)); [by rewrite bool_decide_eq_true_2|apply pretty_N_digits| |].
    + apply digits_value_pretty.
    + intros Hp. pose proof (digits_value_pretty (N.pos p)) as Hv. by rewrite Hp in Hv.
  - unfold fmt_d. change (pretty (Z.neg p)) with ("-" +:+ pretty (N.pos p)).
    pose proof (digits_value_pretty (N.pos p)) as Hv. destruct (pretty (N.pos p)) as [|c s]; [done|].
    change ("-" +:+ String c s) with (String minus_char (String c s)). cbv beta iota zeta delta [strconv_Atoi].
    destruct (decide (minus_char = plus_char)) as [|_]; [done|].
    destruct (decide (minus_char = minus_char)) as [_|]; [|done]. cbv beta iota. rewrite Hv. change (- Z.of_N (N.pos p)) with (Z.neg p). by rewrite bool_decide_eq_true_2.
Qed.

Lemma fmt_d_inj z z' : fmt_d z = fmt_d z' -> z = z'.
Proof. apply (inj pretty). Qed.

(** *** Numbers of a fixed width *)

Lemma fmt_d_digit z : 0 <= z < 10 -> fmt_d z = String (pretty_N_char (Z.to_N z)) "".
Proof.
  intros Hz. assert (Hcases : In z [0; 1; 2; 3; 4; 5; 6; 7; 8; 9]) by (simpl; lia).
  simpl in Hcases. by repeat destruct Hcases as [<-|Hcases].
Qed.

Lemma fmt_d_step z : 10 <= z -> fmt_d z = fmt_d (z / 10) +:+ fmt_d (z mod 10).
Proof.
  intros Hz. rewrite (fmt_d_digit (z mod 10)) by (apply Z.mod_pos_bound; lia).
  assert (Hgo : forall n s t, pretty_N_go n (s +:+ t) = pretty_N_go n s +:+ t).
  { intros n. induction (N.lt_wf_0 n) as [n _ IH]; intros s t. destruct (decide (n = 0)%N) as [->|Hn]; [done|].
    rewrite !(pretty_N_go_step n) by lia. rewrite <- IH by (apply N.div_lt; lia). done. }
  assert (Hpos : forall n, 0 < n -> fmt_d n = pretty_N_go (Z.to_N n) "").
  { intros [|p|p] Hp; [lia| |lia]. reflexivity. }
  assert (1 <= z / 10) by (apply Z.div_le_lower_bound; lia).
  rewrite !Hpos by lia. rewrite pretty_N_go_step, <- Hgo by lia. cbn [String.append].
  by rewrite Z2N.inj_div, Z2N.inj_mod by lia.
Qed.

Lemma fmt_d_length_digit z : 0 <= z < 10 -> String.length (fmt_d z) = 1%nat.
Proof. intros Hz. by rewrite fmt_d_digit. Qed.

Lemma fmt_d_length_year y : 1000 <= y < 10000 -> String.length (fmt_d y) = 4%nat.
Proof.
  intros Hy. rewrite fmt_d_step, (fmt_d_step (y / 10)), (fmt_d_step (y / 10 / 10)) by
    (repeat apply Z.div_le_lower_bound; lia).
  rewrite !string_app_length, !fmt_d_length_digit; [done|..]; try (apply Z.mod_pos_bound; lia).
  split; [repeat apply Z.div_pos; lia|]. repeat (apply Z.div_lt_upper_bound; [lia|]). lia.
Qed.

Lemma two_digits_length m : 0 <= m < 100 -> String.length (two_digits m) = 2%nat.
Proof.
  intros Hm. unfold two_digits. rewrite string_app_length, !fmt_d_length_digit; [done|apply Z.mod_pos_bound; lia|].
  split; [apply Z.div_pos|apply Z.div_lt_upper_bound]; lia.
Qed.

Lemma two_digits_value m : 0 <= m < 100 -> strconv_Atoi (two_digits m) = Ok m.
Proof.
  intros Hm. destruct (decide (10 <= m)) as [H10|H10].
  - unfold two_digits. rewrite <- fmt_d_step by done. apply strconv_Atoi_fmt_d. lia.
  - assert (Hcases : In m [0; 1; 2; 3; 4; 5; 6; 7; 8; 9]) by (simpl; lia).
    simpl in Hcases. by repeat destruct Hcases as [<-|Hcases].
Qed.

Lemma two_digits_dotless m : dotless (two_digits m) = true.
Proof. apply dotless_app; apply fmt_d_dotless. Qed.
