(* ===== verification/Version.v ===== *)
(** * The version check

    [internal/authentik/version.go]: the minor version of authentik that the linked client-go supports, and its
    comparison with the server. *)
From S2P Require Import Prelude Errors Effects Api Crd Interface Strconv.

(** ** Versions *)

Definition clientModulePath : string := "goauthentik.io/api/v3".
Definition v_char : ascii := Ascii.ascii_of_nat 118.

Definition version_parts (version : string) : list string := strings_split dot_char (strings_trim_prefix1 version v_char).

(** [fmt.Sprintf("%d.%d", year, minor)]. *)
Definition minor_version (year minor : Z) : string := fmt_d year +:+ String dot_char (fmt_d minor).

(** Both numbers are parsed, the first error is wrapped. *)
Definition parse_minor (message year minor : string) : result string :=
  match strconv_Atoi year with
  | Err err => Err (Wrapped message err)
  | Ok year =>
      match strconv_Atoi minor with
      | Err err => Err (Wrapped message err)
      | Ok minor => Ok (minor_version year minor)
      end
  end.

Definition minorFromClientVersion (version : string) : result string :=
  let message := "unexpected client-go version " +:+ fmt_q version in
  match version_parts version with
  | _ :: encoded :: _ =>
      if decide (String.length encoded <> 7%nat) then Err (ErrorString message)
      else parse_minor message (String.substring 0 4 encoded) (String.substring 4 2 encoded)
  | _ => Err (ErrorString message)
  end.

Definition minorFromServerVersion (version : string) : result string :=
  let message := "unexpected authentik version " +:+ fmt_q version in
  match version_parts version with
  | year :: minor :: _ => parse_minor message year minor
  | _ => Err (ErrorString message)
  end.

(** [debug.BuildInfo.Deps]: a module, its version and its replacement. *)
Record BuildModule : Type := mkBuildModule {
  BuildModule_Path : string;
  BuildModule_Version : string;
  BuildModule_Replace : option string;
}.

(** [debug.ReadBuildInfo] is the argument. *)
Definition SupportedVersion (info : option (list BuildModule)) : result string :=
  match info with
  | None => Err (ErrorString "build information is not available")
  | Some deps =>
      match find (fun dep => bool_decide (dep.(BuildModule_Path) = clientModulePath)) deps with
      | None => Err (ErrorString ("module " +:+ clientModulePath +:+ " is not in the build information"))
      | Some dep => minorFromClientVersion (default dep.(BuildModule_Version) dep.(BuildModule_Replace))
      end
  end.

(** [versionMismatch]: the gauge by server version and supported version. The memory of [CheckVersion]. *)
Definition versionMismatch : Type := gmap (string * string) Z.

Definition CheckVersion (supported : string) : M call versionMismatch bool :=
  let* version := mwrap "failed to read the authentik version" (akcall GetVersion) in
  let* server := mdone (minorFromServerVersion version.(Version_VersionCurrent)) in
  mmodify (fun _ => ∅) ;;
  let labels := (version.(Version_VersionCurrent), supported) in
  if decide (server <> supported) then mmodify (insert labels 1) ;; mret false
  else mmodify (insert labels 0) ;; mret true.

(** A number does not start with a [v]. *)
Lemma trim_decimal s t z : strconv_Atoi s = Ok z -> strings_trim_prefix1 (s +:+ t) v_char = s +:+ t.
Proof.
  destruct s as [|c s]; [done|]. intros Ha. change (String c s +:+ t) with (String c (s +:+ t)). simpl.
  destruct (decide (c = v_char)) as [->|]; [|done]. by vm_compute in Ha.
Qed.

(** ** Properties *)

(** The tags of client-go and the versions of authentik name the same minor version. The version
    [YYYY.M.p] of the server, with or without a leading [v], gives [YYYY.M] for all numbers of 64 bits, whatever
    follows. For a year of four digits and a minor version below one hundred, the tag [v3.YYYYMMr.n] of client-go gives
    the same. And two versions give the same answer only if the years and the minor versions are equal. *)
Theorem versions_agree year minor revision rest suffix (v : bool) :
  - 2 ^ 63 <= year < 2 ^ 63 -> - 2 ^ 63 <= minor < 2 ^ 63 -> String.length revision = 1%nat -> dotless revision = true ->
  minorFromServerVersion ((if v then "v" else "") +:+ fmt_d year +:+ String dot_char (fmt_d minor +:+ String dot_char suffix)) =
    Ok (minor_version year minor) /\
  (1000 <= year < 10000 -> 0 <= minor < 100 ->
    minorFromClientVersion ("v3." +:+ fmt_d year +:+ two_digits minor +:+ revision +:+ String dot_char rest) =
      Ok (minor_version year minor)) /\
  forall year' minor', minor_version year minor = minor_version year' minor' -> year' = year /\ minor' = minor.
Proof.
  intros Hy Hm Hr Hrd. split_and!.
  - unfold minorFromServerVersion, version_parts. cbv zeta.
    assert (Htrim : strings_trim_prefix1 ((if v then "v" else "") +:+ fmt_d year +:+ String dot_char
        (fmt_d minor +:+ String dot_char suffix)) v_char =
      fmt_d year +:+ String dot_char (fmt_d minor +:+ String dot_char suffix)).
    { destruct v; [done|]. change ("" +:+ ?s) with s. by apply trim_decimal with year, strconv_Atoi_fmt_d. }
    rewrite Htrim, !strings_split_dotless by apply fmt_d_dotless. unfold parse_minor. by rewrite !strconv_Atoi_fmt_d.
  - intros Hyear Hminor. unfold minorFromClientVersion, version_parts. cbv zeta.
    pose proof (fmt_d_length_year _ Hyear) as Hyl. pose proof (two_digits_length _ Hminor) as Htl.
    assert (Hparts : strings_split dot_char (strings_trim_prefix1
        ("v3." +:+ fmt_d year +:+ two_digits minor +:+ revision +:+ String dot_char rest) v_char) =
      "3" :: (fmt_d year +:+ two_digits minor +:+ revision) :: strings_split dot_char rest).
    { rewrite <- (strings_split_dotless (fmt_d year +:+ two_digits minor +:+ revision)).
      - rewrite <- (strings_split_dotless "3") by done. f_equal. by rewrite <- !string_app_assoc.
      - by do 2 (apply dotless_app; [apply fmt_d_dotless || apply two_digits_dotless|]). }
    rewrite Hparts, !string_app_length, Hyl, Htl, Hr. simpl (decide _).
    assert (H0 : String.substring 0 4 (fmt_d year +:+ two_digits minor +:+ revision) = fmt_d year).
    { rewrite <- Hyl. exact (substring_app "" (fmt_d year) (two_digits minor +:+ revision)). }
    pose proof (substring_app (fmt_d year) (two_digits minor) revision) as H4. rewrite Hyl, Htl in H4.
    unfold parse_minor. by rewrite H0, H4, strconv_Atoi_fmt_d, two_digits_value by done.
  - intros year' minor' Heq. apply (f_equal (strings_split dot_char)) in Heq. unfold minor_version in Heq.
    rewrite !strings_split_dotless, !strings_split_one in Heq by apply fmt_d_dotless. injection Heq as H1 H2.
    apply fmt_d_inj in H1 as ->. by apply fmt_d_inj in H2 as ->.
Qed.

Lemma versions_agree_witness :
  minorFromClientVersion "v3.2026080.2" = Ok "2026.8" /\ minorFromServerVersion "2026.8.0-rc1" = Ok "2026.8".
Proof.
  destruct (versions_agree 2026 8 "0" "2" "0-rc1" false) as (Hs & Hc & _); [lia|lia|reflexivity|reflexivity|].
  split; [apply Hc; lia|exact Hs].
Defined.
