(* ===== verification/Fake.v ===== *)
(** * The in-memory authentik

    [internal/authentik/fake/fake.go]: an implementation of the [Client] interface that reproduces the server
    behaviour the reconciler depends on. Go maps are [gmap]s; an iteration over a map visits [map_to_list], one of
    the orders that Go may pick. Objects are values: the fake copies what it returns, so nothing is shared.
    An operation that mutates the state returns the new state. *)
From stdpp Require Import sorting.
From S2P Require Import Prelude Errors Api Interface.

(** ** State *)

Record objectPermission : Type := mkObjectPermission {
  op_id : Z;
  op_role : string;
  op_model : string;
  op_objectPK : string;
  op_permission : string;
}.

(** [fk_rand seq n] are the [n] bytes that [crypto/rand] returns to the operation running at sequence [seq]. *)
Record Client : Type := mkClient {
  fk_version : Version;
  fk_sequence : Z;
  fk_applications : gmap string Application;
  fk_proxyProviders : gmap Z ProxyProvider;
  fk_oauth2Providers : gmap Z OAuth2Provider;
  fk_bindings : gmap string PolicyBinding;
  fk_outposts : gmap string Outpost;
  fk_roles : gmap string Role;
  fk_objectPermissions : list objectPermission;
  fk_groups : gmap string Group;
  fk_users : gmap Z User;
  fk_policies : gmap string Policy;
  fk_flows : gmap string Flow;
  fk_keyPairs : gmap string CertificateKeyPair;
  fk_scopeMappings : gmap string ScopeMapping;
  fk_rand : Z -> nat -> list nat;
}.

Definition set_sequence v c := mkClient c.(fk_version) v c.(fk_applications) c.(fk_proxyProviders)
  c.(fk_oauth2Providers) c.(fk_bindings) c.(fk_outposts) c.(fk_roles) c.(fk_objectPermissions) c.(fk_groups)
  c.(fk_users) c.(fk_policies) c.(fk_flows) c.(fk_keyPairs) c.(fk_scopeMappings) c.(fk_rand).
Definition set_applications v c := mkClient c.(fk_version) c.(fk_sequence) v c.(fk_proxyProviders)
  c.(fk_oauth2Providers) c.(fk_bindings) c.(fk_outposts) c.(fk_roles) c.(fk_objectPermissions) c.(fk_groups)
  c.(fk_users) c.(fk_policies) c.(fk_flows) c.(fk_keyPairs) c.(fk_scopeMappings) c.(fk_rand).
Definition set_proxyProviders v c := mkClient c.(fk_version) c.(fk_sequence) c.(fk_applications) v
  c.(fk_oauth2Providers) c.(fk_bindings) c.(fk_outposts) c.(fk_roles) c.(fk_objectPermissions) c.(fk_groups)
  c.(fk_users) c.(fk_policies) c.(fk_flows) c.(fk_keyPairs) c.(fk_scopeMappings) c.(fk_rand).
Definition set_oauth2Providers v c := mkClient c.(fk_version) c.(fk_sequence) c.(fk_applications)
  c.(fk_proxyProviders) v c.(fk_bindings) c.(fk_outposts) c.(fk_roles) c.(fk_objectPermissions) c.(fk_groups)
  c.(fk_users) c.(fk_policies) c.(fk_flows) c.(fk_keyPairs) c.(fk_scopeMappings) c.(fk_rand).
Definition set_bindings v c := mkClient c.(fk_version) c.(fk_sequence) c.(fk_applications) c.(fk_proxyProviders)
  c.(fk_oauth2Providers) v c.(fk_outposts) c.(fk_roles) c.(fk_objectPermissions) c.(fk_groups)
  c.(fk_users) c.(fk_policies) c.(fk_flows) c.(fk_keyPairs) c.(fk_scopeMappings) c.(fk_rand).
Definition set_outposts v c := mkClient c.(fk_version) c.(fk_sequence) c.(fk_applications) c.(fk_proxyProviders)
  c.(fk_oauth2Providers) c.(fk_bindings) v c.(fk_roles) c.(fk_objectPermissions) c.(fk_groups)
  c.(fk_users) c.(fk_policies) c.(fk_flows) c.(fk_keyPairs) c.(fk_scopeMappings) c.(fk_rand).
Definition set_roles v c := mkClient c.(fk_version) c.(fk_sequence) c.(fk_applications) c.(fk_proxyProviders)
  c.(fk_oauth2Providers) c.(fk_bindings) c.(fk_outposts) v c.(fk_objectPermissions) c.(fk_groups)
  c.(fk_users) c.(fk_policies) c.(fk_flows) c.(fk_keyPairs) c.(fk_scopeMappings) c.(fk_rand).
Definition set_objectPermissions v c := mkClient c.(fk_version) c.(fk_sequence) c.(fk_applications)
  c.(fk_proxyProviders) c.(fk_oauth2Providers) c.(fk_bindings) c.(fk_outposts) c.(fk_roles) v c.(fk_groups)
  c.(fk_users) c.(fk_policies) c.(fk_flows) c.(fk_keyPairs) c.(fk_scopeMappings) c.(fk_rand).
Definition set_groups v c := mkClient c.(fk_version) c.(fk_sequence) c.(fk_applications) c.(fk_proxyProviders)
  c.(fk_oauth2Providers) c.(fk_bindings) c.(fk_outposts) c.(fk_roles) c.(fk_objectPermissions) v
  c.(fk_users) c.(fk_policies) c.(fk_flows) c.(fk_keyPairs) c.(fk_scopeMappings) c.(fk_rand).
Definition set_users v c := mkClient c.(fk_version) c.(fk_sequence) c.(fk_applications) c.(fk_proxyProviders)
  c.(fk_oauth2Providers) c.(fk_bindings) c.(fk_outposts) c.(fk_roles) c.(fk_objectPermissions) c.(fk_groups)
  v c.(fk_policies) c.(fk_flows) c.(fk_keyPairs) c.(fk_scopeMappings) c.(fk_rand).
Definition set_policies v c := mkClient c.(fk_version) c.(fk_sequence) c.(fk_applications) c.(fk_proxyProviders)
  c.(fk_oauth2Providers) c.(fk_bindings) c.(fk_outposts) c.(fk_roles) c.(fk_objectPermissions) c.(fk_groups)
  c.(fk_users) v c.(fk_flows) c.(fk_keyPairs) c.(fk_scopeMappings) c.(fk_rand).
Definition set_flows v c := mkClient c.(fk_version) c.(fk_sequence) c.(fk_applications) c.(fk_proxyProviders)
  c.(fk_oauth2Providers) c.(fk_bindings) c.(fk_outposts) c.(fk_roles) c.(fk_objectPermissions) c.(fk_groups)
  c.(fk_users) c.(fk_policies) v c.(fk_keyPairs) c.(fk_scopeMappings) c.(fk_rand).
Definition set_keyPairs v c := mkClient c.(fk_version) c.(fk_sequence) c.(fk_applications) c.(fk_proxyProviders)
  c.(fk_oauth2Providers) c.(fk_bindings) c.(fk_outposts) c.(fk_roles) c.(fk_objectPermissions) c.(fk_groups)
  c.(fk_users) c.(fk_policies) c.(fk_flows) v c.(fk_scopeMappings) c.(fk_rand).
Definition set_scopeMappings v c := mkClient c.(fk_version) c.(fk_sequence) c.(fk_applications)
  c.(fk_proxyProviders) c.(fk_oauth2Providers) c.(fk_bindings) c.(fk_outposts) c.(fk_roles)
  c.(fk_objectPermissions) c.(fk_groups) c.(fk_users) c.(fk_policies) c.(fk_flows) c.(fk_keyPairs) v c.(fk_rand).
Definition set_version v c := mkClient v c.(fk_sequence) c.(fk_applications) c.(fk_proxyProviders)
  c.(fk_oauth2Providers) c.(fk_bindings) c.(fk_outposts) c.(fk_roles) c.(fk_objectPermissions) c.(fk_groups)
  c.(fk_users) c.(fk_policies) c.(fk_flows) c.(fk_keyPairs) c.(fk_scopeMappings) c.(fk_rand).

Definition New (rand : Z -> nat -> list nat) : Client :=
  mkClient (mkVersion "2026.8.2" "2026.8.2" true) 0 ∅ ∅ ∅ ∅ ∅ ∅ [] ∅ ∅ ∅ ∅ ∅ ∅ rand.

(** ** Helpers *)

(** An operation returns the new state and its result. *)
Abbreviation op A := (Client * ak A)%type (only parsing).

Definition nextPK (c : Client) : Client * Z :=
  let pk := int32_wrap (c.(fk_sequence) + 1) in (set_sequence pk c, pk).

Fixpoint zeros (n : nat) : string := match n with O => "" | S n => String (Ascii.ascii_of_nat 48) (zeros n) end.

(** The verb [%012d]. *)
Definition fmt_012d (z : Z) : string :=
  let digits := fmt_d (Z.abs z) in
  if decide (z < 0) then "-" +:+ zeros (11 - String.length digits) +:+ digits
  else zeros (12 - String.length digits) +:+ digits.

Definition uuid_of (pk : Z) : string := "00000000-0000-4000-8000-" +:+ fmt_012d pk.

Definition nextUUID (c : Client) : Client * string := let '(c, pk) := nextPK c in (c, uuid_of pk).

(** A JSON string literal; the messages hold no control characters. *)
Fixpoint json_escape (s : string) : string :=
  match s with
  | EmptyString => ""
  | String c rest =>
      if decide (c = quote_char \/ c = backslash_char) then String backslash_char (String c (json_escape rest))
      else String c (json_escape rest)
  end.

Definition json_quote (s : string) : string :=
  String quote_char "" +:+ json_escape s +:+ String quote_char "".

Definition notFound (operation model : string) : client_error :=
  APIError operation StatusNotFound
    ("{" +:+ json_quote "detail" +:+ ":" +:+ json_quote ("No " +:+ model +:+ " matches the given query.") +:+ "}").

Definition badRequest (operation field message : string) : client_error :=
  APIError operation StatusBadRequest
    ("{" +:+ json_quote field +:+ ":[" +:+ json_quote message +:+ "]}").

Definition cloneOrEmpty {A} (s : option (list A)) : list A := match s with None => [] | Some l => l end.

(** The updates of a PATCH: a field that is not in the request keeps its value. *)
Definition patch_value {A} (request : option A) (current : A) : A :=
  match request with Some v => v | None => current end.

Definition patch_pointer {A} (request current : option A) : option A :=
  match request with Some v => Some v | None => current end.

Definition patch_nullable {A} (request current : Nullable A) : Nullable A :=
  if Nullable_IsSet request then request else current.

(** Lookup of an object, with the 404 of the operation. *)
Definition get_or_404 {A} (o : option A) (operation model : string) : ak A :=
  match o with Some a => inl a | None => inr (notFound operation model) end.

(** [findAll]. *)
Definition findAll {K A} `{Countable K} (objects : gmap K A) (keep : A -> bool) : list A :=
  filter (fun a => keep a = true) (snd <$> map_to_list objects).

(** ** Objects that references can resolve *)

Definition AddGroup (c : Client) (name : string) : Client * Group :=
  let '(c, pk) := nextUUID c in
  let group := mkGroup pk name in (set_groups (<[pk := group]> c.(fk_groups)) c, group).

Definition AddUser (c : Client) (username : string) : Client * User :=
  let '(c, pk) := nextPK c in
  let user := mkUser pk username in (set_users (<[pk := user]> c.(fk_users)) c, user).

Definition AddPolicy (c : Client) (name : string) : Client * Policy :=
  let '(c, pk) := nextUUID c in
  let policy := mkPolicy pk name in (set_policies (<[pk := policy]> c.(fk_policies)) c, policy).

Definition AddFlow (c : Client) (slug : string) : Client * Flow :=
  let '(c, pk) := nextUUID c in
  let flow := mkFlow pk slug in (set_flows (<[pk := flow]> c.(fk_flows)) c, flow).

Definition AddCertificateKeyPair (c : Client) (name : string) : Client * CertificateKeyPair :=
  let '(c, pk) := nextUUID c in
  let keyPair := mkCertificateKeyPair pk name in (set_keyPairs (<[pk := keyPair]> c.(fk_keyPairs)) c, keyPair).

Definition AddScopeMapping (c : Client) (name scopeName : string) : Client * ScopeMapping :=
  let '(c, pk) := nextUUID c in
  let mapping := mkScopeMapping pk name scopeName Unset in
  (set_scopeMappings (<[pk := mapping]> c.(fk_scopeMappings)) c, mapping).

Definition AddManagedScopeMapping (c : Client) (name scopeName managed : string) : Client * ScopeMapping :=
  let '(c, pk) := nextUUID c in
  let mapping := mkScopeMapping pk name scopeName (SetTo (Some managed)) in
  (set_scopeMappings (<[pk := mapping]> c.(fk_scopeMappings)) c, mapping).

Definition AddOutpost (c : Client) (name : string) : Client * Outpost :=
  let '(c, pk) := nextUUID c in
  let outpost := mkOutpost pk name [] in (set_outposts (<[pk := outpost]> c.(fk_outposts)) c, outpost).

Definition SetVersion (c : Client) (version : string) : Client :=
  set_version (mkVersion version c.(fk_version).(Version_VersionLatest) c.(fk_version).(Version_VersionLatestValid)) c.

(** ** Applications *)

Definition fake_GetApplication (c : Client) (slug : string) : ak Application :=
  get_or_404 (c.(fk_applications) !! slug) "GetApplication" "Application".

Definition providerExists (c : Client) (pk : Z) : bool :=
  bool_decide (is_Some (c.(fk_proxyProviders) !! pk)) || bool_decide (is_Some (c.(fk_oauth2Providers) !! pk)).

(** The Application uses the Provider. *)
Definition uses_provider (app : Application) (pk : Z) : bool :=
  bool_decide (Nullable_Get app.(Application_Provider) = Some pk).

Definition checkApplicationProvider (c : Client) (operation : string) (provider : option Z) (exceptSlug : string)
    : option client_error :=
  match provider with
  | None => None
  | Some pk =>
      if negb (providerExists c pk) then
        Some (badRequest operation "provider"
          ("Invalid pk " +:+ String quote_char "" +:+ fmt_d pk +:+ String quote_char "" +:+ " - object does not exist."))
      else if existsb (fun '(slug, app) => bool_decide (slug <> exceptSlug) && uses_provider app pk)
                (map_to_list c.(fk_applications)) then
        Some (badRequest operation "provider" "application with this provider already exists.")
      else None
  end.

Definition fake_CreateApplication (c : Client) (request : ApplicationRequest) : op Application :=
  let operation := "CreateApplication" in
  match c.(fk_applications) !! request.(ApplicationRequest_Slug) with
  | Some _ => (c, inr (badRequest operation "slug" "application with this slug already exists."))
  | None =>
      match checkApplicationProvider c operation (Nullable_Get request.(ApplicationRequest_Provider)) "" with
      | Some err => (c, inr err)
      | None =>
          let '(c, pk) := nextUUID c in
          let app := {|
            Application_Pk := pk;
            Application_PbmUuid := pk;
            Application_Name := request.(ApplicationRequest_Name);
            Application_Slug := request.(ApplicationRequest_Slug);
            Application_Provider := request.(ApplicationRequest_Provider);
            Application_OpenInNewTab := request.(ApplicationRequest_OpenInNewTab);
            Application_MetaLaunchUrl := request.(ApplicationRequest_MetaLaunchUrl);
            Application_MetaIcon := request.(ApplicationRequest_MetaIcon);
            Application_MetaDescription := request.(ApplicationRequest_MetaDescription);
            Application_MetaPublisher := request.(ApplicationRequest_MetaPublisher);
            Application_PolicyEngineMode :=
              or_else request.(ApplicationRequest_PolicyEngineMode) (Some POLICYENGINEMODE_ANY);
            Application_Group := request.(ApplicationRequest_Group);
            Application_MetaHide := request.(ApplicationRequest_MetaHide);
          |} in
          (set_applications (<[app.(Application_Slug) := app]> c.(fk_applications)) c, inl app)
      end
  end.

(** The assignments of [PatchApplication]. *)
Definition apply_application_patch (request : PatchedApplicationRequest) (app : Application) : Application := {|
  Application_Pk := app.(Application_Pk);
  Application_PbmUuid := app.(Application_PbmUuid);
  Application_Name := patch_value request.(PatchedApplication_Name) app.(Application_Name);
  Application_Slug := patch_value request.(PatchedApplication_Slug) app.(Application_Slug);
  Application_Provider := patch_nullable request.(PatchedApplication_Provider) app.(Application_Provider);
  Application_OpenInNewTab := patch_pointer request.(PatchedApplication_OpenInNewTab) app.(Application_OpenInNewTab);
  Application_MetaLaunchUrl := patch_pointer request.(PatchedApplication_MetaLaunchUrl) app.(Application_MetaLaunchUrl);
  Application_MetaIcon := patch_pointer request.(PatchedApplication_MetaIcon) app.(Application_MetaIcon);
  Application_MetaDescription :=
    patch_pointer request.(PatchedApplication_MetaDescription) app.(Application_MetaDescription);
  Application_MetaPublisher := patch_pointer request.(PatchedApplication_MetaPublisher) app.(Application_MetaPublisher);
  Application_PolicyEngineMode :=
    patch_pointer request.(PatchedApplication_PolicyEngineMode) app.(Application_PolicyEngineMode);
  Application_Group := patch_pointer request.(PatchedApplication_Group) app.(Application_Group);
  Application_MetaHide := patch_pointer request.(PatchedApplication_MetaHide) app.(Application_MetaHide);
|}.

Definition fake_PatchApplication (c : Client) (slug : string) (request : PatchedApplicationRequest) : op Application :=
  let operation := "PatchApplication" in
  match c.(fk_applications) !! slug with
  | None => (c, inr (notFound operation "Application"))
  | Some app =>
      let renamed := match request.(PatchedApplication_Slug) with Some s => bool_decide (s <> slug) | None => false end in
      let new_slug := patch_value request.(PatchedApplication_Slug) slug in
      if renamed && bool_decide (is_Some (c.(fk_applications) !! new_slug)) then
        (c, inr (badRequest operation "slug" "application with this slug already exists."))
      else
        match (if Nullable_IsSet request.(PatchedApplication_Provider)
               then checkApplicationProvider c operation (Nullable_Get request.(PatchedApplication_Provider)) slug
               else None) with
        | Some err => (c, inr err)
        | None =>
            let app := apply_application_patch request app in
            let apps := if renamed then <[new_slug := app]> (delete slug c.(fk_applications))
                        else <[slug := app]> c.(fk_applications) in
            (set_applications apps c, inl app)
        end
  end.

Definition fake_DeleteApplication (c : Client) (slug : string) : op () :=
  match c.(fk_applications) !! slug with
  | None => (c, inr (notFound "DeleteApplication" "Application"))
  | Some app =>
      let bindings := filter (fun '(_, b) => b.(PolicyBinding_Target) <> app.(Application_PbmUuid)) c.(fk_bindings) in
      (set_bindings bindings (set_applications (delete slug c.(fk_applications)) c), inl ())
  end.

(** ** Providers *)

Definition providerNameTaken (c : Client) (name : string) (exceptPK : Z) : bool :=
  existsb (fun '(pk, p) => bool_decide (pk <> exceptPK) && bool_decide (p.(ProxyProvider_Name) = name))
    (map_to_list c.(fk_proxyProviders)) ||
  existsb (fun '(pk, p) => bool_decide (pk <> exceptPK) && bool_decide (p.(OAuth2Provider_Name) = name))
    (map_to_list c.(fk_oauth2Providers)).

Definition assignedApplicationSlug (c : Client) (pk : Z) : Nullable string :=
  SetTo (fst <$> find (fun '(_, app) => uses_provider app pk) (map_to_list c.(fk_applications))).

(** [deleteProvider]: the Provider leaves its Application and the Outposts. *)
Definition detach_application (pk : Z) (app : Application) : Application :=
  if uses_provider app pk then
    {|
      Application_Pk := app.(Application_Pk);
      Application_PbmUuid := app.(Application_PbmUuid);
      Application_Name := app.(Application_Name);
      Application_Slug := app.(Application_Slug);
      Application_Provider := SetTo None;
      Application_OpenInNewTab := app.(Application_OpenInNewTab);
      Application_MetaLaunchUrl := app.(Application_MetaLaunchUrl);
      Application_MetaIcon := app.(Application_MetaIcon);
      Application_MetaDescription := app.(Application_MetaDescription);
      Application_MetaPublisher := app.(Application_MetaPublisher);
      Application_PolicyEngineMode := app.(Application_PolicyEngineMode);
      Application_Group := app.(Application_Group);
      Application_MetaHide := app.(Application_MetaHide);
    |}
  else app.

Definition set_outpost_providers (providers : list Z) (o : Outpost) : Outpost :=
  mkOutpost o.(Outpost_Pk) o.(Outpost_Name) providers.

Definition detach_outpost (pk : Z) (o : Outpost) : Outpost :=
  set_outpost_providers (filter (fun p => p <> pk) o.(Outpost_Providers)) o.

Definition deleteProvider (c : Client) (pk : Z) : Client :=
  set_outposts (detach_outpost pk <$> c.(fk_outposts))
    (set_applications (detach_application pk <$> c.(fk_applications)) c).

Definition checkProxyMode (operation : string) (mode internalHost : option string) : option client_error :=
  let proxy := match mode with None => true | Some m => bool_decide (m = PROXYMODE_PROXY) end in
  let empty := match internalHost with None => true | Some h => bool_decide (h = "") end in
  if proxy && empty
  then Some (badRequest operation "internal_host" "Internal host cannot be empty when forward auth is disabled.")
  else None.

Definition copyProxyProvider (c : Client) (p : ProxyProvider) : ProxyProvider := {|
  ProxyProvider_Pk := p.(ProxyProvider_Pk);
  ProxyProvider_Name := p.(ProxyProvider_Name);
  ProxyProvider_AuthenticationFlow := p.(ProxyProvider_AuthenticationFlow);
  ProxyProvider_AuthorizationFlow := p.(ProxyProvider_AuthorizationFlow);
  ProxyProvider_InvalidationFlow := p.(ProxyProvider_InvalidationFlow);
  ProxyProvider_PropertyMappings := p.(ProxyProvider_PropertyMappings);
  ProxyProvider_AssignedApplicationSlug := assignedApplicationSlug c p.(ProxyProvider_Pk);
  ProxyProvider_InternalHost := p.(ProxyProvider_InternalHost);
  ProxyProvider_ExternalHost := p.(ProxyProvider_ExternalHost);
  ProxyProvider_InternalHostSslValidation := p.(ProxyProvider_InternalHostSslValidation);
  ProxyProvider_Certificate := p.(ProxyProvider_Certificate);
  ProxyProvider_SkipPathRegex := p.(ProxyProvider_SkipPathRegex);
  ProxyProvider_BasicAuthEnabled := p.(ProxyProvider_BasicAuthEnabled);
  ProxyProvider_BasicAuthPasswordAttribute := p.(ProxyProvider_BasicAuthPasswordAttribute);
  ProxyProvider_BasicAuthUserAttribute := p.(ProxyProvider_BasicAuthUserAttribute);
  ProxyProvider_Mode := p.(ProxyProvider_Mode);
  ProxyProvider_InterceptHeaderAuth := p.(ProxyProvider_InterceptHeaderAuth);
  ProxyProvider_CookieDomain := p.(ProxyProvider_CookieDomain);
  ProxyProvider_AccessTokenValidity := p.(ProxyProvider_AccessTokenValidity);
  ProxyProvider_RefreshTokenValidity := p.(ProxyProvider_RefreshTokenValidity);
|}.

Definition fake_GetProxyProvider (c : Client) (pk : Z) : ak ProxyProvider :=
  get_or_404 (copyProxyProvider c <$> c.(fk_proxyProviders) !! pk) "GetProxyProvider" "ProxyProvider".

Definition fake_FindProxyProvidersByName (c : Client) (name : string) : list ProxyProvider :=
  copyProxyProvider c <$> findAll c.(fk_proxyProviders) (fun p => bool_decide (p.(ProxyProvider_Name) = name)).

Definition fake_CreateProxyProvider (c : Client) (request : ProxyProviderRequest) : op ProxyProvider :=
  let operation := "CreateProxyProvider" in
  match checkProxyMode operation request.(ProxyProviderRequest_Mode) request.(ProxyProviderRequest_InternalHost) with
  | Some err => (c, inr err)
  | None =>
      if providerNameTaken c request.(ProxyProviderRequest_Name) 0 then
        (c, inr (badRequest operation "name" "provider with this name already exists."))
      else
        let '(c, pk) := nextPK c in
        let provider := {|
          ProxyProvider_Pk := pk;
          ProxyProvider_Name := request.(ProxyProviderRequest_Name);
          ProxyProvider_AuthenticationFlow := request.(ProxyProviderRequest_AuthenticationFlow);
          ProxyProvider_AuthorizationFlow := request.(ProxyProviderRequest_AuthorizationFlow);
          ProxyProvider_InvalidationFlow := request.(ProxyProviderRequest_InvalidationFlow);
          ProxyProvider_PropertyMappings := [];
          ProxyProvider_AssignedApplicationSlug := Unset;
          ProxyProvider_InternalHost := request.(ProxyProviderRequest_InternalHost);
          ProxyProvider_ExternalHost := request.(ProxyProviderRequest_ExternalHost);
          ProxyProvider_InternalHostSslValidation := request.(ProxyProviderRequest_InternalHostSslValidation);
          ProxyProvider_Certificate := request.(ProxyProviderRequest_Certificate);
          ProxyProvider_SkipPathRegex := request.(ProxyProviderRequest_SkipPathRegex);
          ProxyProvider_BasicAuthEnabled := request.(ProxyProviderRequest_BasicAuthEnabled);
          ProxyProvider_BasicAuthPasswordAttribute := request.(ProxyProviderRequest_BasicAuthPasswordAttribute);
          ProxyProvider_BasicAuthUserAttribute := request.(ProxyProviderRequest_BasicAuthUserAttribute);
          ProxyProvider_Mode := or_else request.(ProxyProviderRequest_Mode) (Some PROXYMODE_PROXY);
          ProxyProvider_InterceptHeaderAuth := request.(ProxyProviderRequest_InterceptHeaderAuth);
          ProxyProvider_CookieDomain := request.(ProxyProviderRequest_CookieDomain);
          ProxyProvider_AccessTokenValidity := request.(ProxyProviderRequest_AccessTokenValidity);
          ProxyProvider_RefreshTokenValidity := request.(ProxyProviderRequest_RefreshTokenValidity);
        |} in
        let c := set_proxyProviders (<[pk := provider]> c.(fk_proxyProviders)) c in
        (c, inl (copyProxyProvider c provider))
  end.

(** The assignments of [PatchProxyProvider]; [property_mappings] is not assigned. *)
Definition apply_proxy_patch (request : PatchedProxyProviderRequest) (p : ProxyProvider) : ProxyProvider := {|
  ProxyProvider_Pk := p.(ProxyProvider_Pk);
  ProxyProvider_Name := patch_value request.(PatchedProxy_Name) p.(ProxyProvider_Name);
  ProxyProvider_AuthenticationFlow :=
    patch_nullable request.(PatchedProxy_AuthenticationFlow) p.(ProxyProvider_AuthenticationFlow);
  ProxyProvider_AuthorizationFlow :=
    patch_value request.(PatchedProxy_AuthorizationFlow) p.(ProxyProvider_AuthorizationFlow);
  ProxyProvider_InvalidationFlow :=
    patch_value request.(PatchedProxy_InvalidationFlow) p.(ProxyProvider_InvalidationFlow);
  ProxyProvider_PropertyMappings := p.(ProxyProvider_PropertyMappings);
  ProxyProvider_AssignedApplicationSlug := p.(ProxyProvider_AssignedApplicationSlug);
  ProxyProvider_InternalHost := patch_pointer request.(PatchedProxy_InternalHost) p.(ProxyProvider_InternalHost);
  ProxyProvider_ExternalHost := patch_value request.(PatchedProxy_ExternalHost) p.(ProxyProvider_ExternalHost);
  ProxyProvider_InternalHostSslValidation :=
    patch_pointer request.(PatchedProxy_InternalHostSslValidation) p.(ProxyProvider_InternalHostSslValidation);
  ProxyProvider_Certificate := patch_nullable request.(PatchedProxy_Certificate) p.(ProxyProvider_Certificate);
  ProxyProvider_SkipPathRegex := patch_pointer request.(PatchedProxy_SkipPathRegex) p.(ProxyProvider_SkipPathRegex);
  ProxyProvider_BasicAuthEnabled :=
    patch_pointer request.(PatchedProxy_BasicAuthEnabled) p.(ProxyProvider_BasicAuthEnabled);
  ProxyProvider_BasicAuthPasswordAttribute :=
    patch_pointer request.(PatchedProxy_BasicAuthPasswordAttribute) p.(ProxyProvider_BasicAuthPasswordAttribute);
  ProxyProvider_BasicAuthUserAttribute :=
    patch_pointer request.(PatchedProxy_BasicAuthUserAttribute) p.(ProxyProvider_BasicAuthUserAttribute);
  ProxyProvider_Mode := patch_pointer request.(PatchedProxy_Mode) p.(ProxyProvider_Mode);
  ProxyProvider_InterceptHeaderAuth :=
    patch_pointer request.(PatchedProxy_InterceptHeaderAuth) p.(ProxyProvider_InterceptHeaderAuth);
  ProxyProvider_CookieDomain := patch_pointer request.(PatchedProxy_CookieDomain) p.(ProxyProvider_CookieDomain);
  ProxyProvider_AccessTokenValidity :=
    patch_pointer request.(PatchedProxy_AccessTokenValidity) p.(ProxyProvider_AccessTokenValidity);
  ProxyProvider_RefreshTokenValidity :=
    patch_pointer request.(PatchedProxy_RefreshTokenValidity) p.(ProxyProvider_RefreshTokenValidity);
|}.

Definition fake_PatchProxyProvider (c : Client) (pk : Z) (request : PatchedProxyProviderRequest) : op ProxyProvider :=
  let operation := "PatchProxyProvider" in
  match c.(fk_proxyProviders) !! pk with
  | None => (c, inr (notFound operation "ProxyProvider"))
  | Some provider =>
      match checkProxyMode operation request.(PatchedProxy_Mode) request.(PatchedProxy_InternalHost) with
      | Some err => (c, inr err)
      | None =>
          if match request.(PatchedProxy_Name) with Some name => providerNameTaken c name pk | None => false end then
            (c, inr (badRequest operation "name" "provider with this name already exists."))
          else
            let provider := apply_proxy_patch request provider in
            let c := set_proxyProviders (<[pk := provider]> c.(fk_proxyProviders)) c in
            (c, inl (copyProxyProvider c provider))
      end
  end.

Definition fake_DeleteProxyProvider (c : Client) (pk : Z) : op () :=
  match c.(fk_proxyProviders) !! pk with
  | None => (c, inr (notFound "DeleteProxyProvider" "ProxyProvider"))
  | Some _ => (deleteProvider (set_proxyProviders (delete pk c.(fk_proxyProviders)) c) pk, inl ())
  end.

(** ** OAuth2 Providers *)

Definition clientIDTaken (c : Client) (clientID : string) (exceptPK : Z) : bool :=
  existsb (fun '(pk, p) => bool_decide (pk <> exceptPK) && bool_decide (p.(OAuth2Provider_ClientId) = Some clientID))
    (map_to_list c.(fk_oauth2Providers)).

Definition alphabet : string := "abcdefghijklmnopqrstuvwxyzABCDEFGHIJKLMNOPQRSTUVWXYZ0123456789".

Fixpoint random_chars (bytes : list nat) : string :=
  match bytes with
  | [] => ""
  | b :: rest =>
      String (default (Ascii.ascii_of_nat 97) (String.get (b mod String.length alphabet) alphabet)) (random_chars rest)
  end.

Definition randomString (c : Client) (length : nat) : string := random_chars (c.(fk_rand) c.(fk_sequence) length).

Definition toRedirectURIs (requests : option (list RedirectURIRequest)) : list RedirectURI :=
  (fun r => mkRedirectURI r.(RedirectURIRequest_MatchingMode) r.(RedirectURIRequest_Url)
              r.(RedirectURIRequest_RedirectUriType)) <$> cloneOrEmpty requests.

Definition copyOAuth2Provider (c : Client) (p : OAuth2Provider) : OAuth2Provider := {|
  OAuth2Provider_Pk := p.(OAuth2Provider_Pk);
  OAuth2Provider_Name := p.(OAuth2Provider_Name);
  OAuth2Provider_AuthenticationFlow := p.(OAuth2Provider_AuthenticationFlow);
  OAuth2Provider_AuthorizationFlow := p.(OAuth2Provider_AuthorizationFlow);
  OAuth2Provider_InvalidationFlow := p.(OAuth2Provider_InvalidationFlow);
  OAuth2Provider_PropertyMappings := p.(OAuth2Provider_PropertyMappings);
  OAuth2Provider_AssignedApplicationSlug := assignedApplicationSlug c p.(OAuth2Provider_Pk);
  OAuth2Provider_ClientType := p.(OAuth2Provider_ClientType);
  OAuth2Provider_GrantTypes := p.(OAuth2Provider_GrantTypes);
  OAuth2Provider_ClientId := p.(OAuth2Provider_ClientId);
  OAuth2Provider_ClientSecret := p.(OAuth2Provider_ClientSecret);
  OAuth2Provider_AccessCodeValidity := p.(OAuth2Provider_AccessCodeValidity);
  OAuth2Provider_AccessTokenValidity := p.(OAuth2Provider_AccessTokenValidity);
  OAuth2Provider_RefreshTokenValidity := p.(OAuth2Provider_RefreshTokenValidity);
  OAuth2Provider_RefreshTokenThreshold := p.(OAuth2Provider_RefreshTokenThreshold);
  OAuth2Provider_IncludeClaimsInIdToken := p.(OAuth2Provider_IncludeClaimsInIdToken);
  OAuth2Provider_SigningKey := p.(OAuth2Provider_SigningKey);
  OAuth2Provider_EncryptionKey := p.(OAuth2Provider_EncryptionKey);
  OAuth2Provider_RedirectUris := p.(OAuth2Provider_RedirectUris);
  OAuth2Provider_LogoutUri := p.(OAuth2Provider_LogoutUri);
  OAuth2Provider_LogoutMethod := p.(OAuth2Provider_LogoutMethod);
  OAuth2Provider_SubMode := p.(OAuth2Provider_SubMode);
  OAuth2Provider_IssuerMode := p.(OAuth2Provider_IssuerMode);
|}.

Definition fake_GetOAuth2Provider (c : Client) (pk : Z) : ak OAuth2Provider :=
  get_or_404 (copyOAuth2Provider c <$> c.(fk_oauth2Providers) !! pk) "GetOAuth2Provider" "OAuth2Provider".

Definition fake_FindOAuth2ProvidersByName (c : Client) (name : string) : list OAuth2Provider :=
  copyOAuth2Provider c <$> findAll c.(fk_oauth2Providers) (fun p => bool_decide (p.(OAuth2Provider_Name) = name)).

Definition fake_CreateOAuth2Provider (c : Client) (request : OAuth2ProviderRequest) : op OAuth2Provider :=
  let operation := "CreateOAuth2Provider" in
  if providerNameTaken c request.(OAuth2ProviderRequest_Name) 0 then
    (c, inr (badRequest operation "name" "provider with this name already exists."))
  else
    let clientID := match request.(OAuth2ProviderRequest_ClientId) with Some id => id | None => randomString c 40 end in
    if clientIDTaken c clientID 0 then
      (c, inr (badRequest operation "client_id" "o auth2 provider with this Client ID already exists."))
    else
      let secret :=
        match request.(OAuth2ProviderRequest_ClientSecret) with Some s => s | None => randomString c 128 end in
      let '(c, pk) := nextPK c in
      let provider := {|
        OAuth2Provider_Pk := pk;
        OAuth2Provider_Name := request.(OAuth2ProviderRequest_Name);
        OAuth2Provider_AuthenticationFlow := request.(OAuth2ProviderRequest_AuthenticationFlow);
        OAuth2Provider_AuthorizationFlow := request.(OAuth2ProviderRequest_AuthorizationFlow);
        OAuth2Provider_InvalidationFlow := request.(OAuth2ProviderRequest_InvalidationFlow);
        OAuth2Provider_PropertyMappings := cloneOrEmpty request.(OAuth2ProviderRequest_PropertyMappings);
        OAuth2Provider_AssignedApplicationSlug := Unset;
        OAuth2Provider_ClientType := request.(OAuth2ProviderRequest_ClientType);
        OAuth2Provider_GrantTypes := cloneOrEmpty request.(OAuth2ProviderRequest_GrantTypes);
        OAuth2Provider_ClientId := Some clientID;
        OAuth2Provider_ClientSecret := Some secret;
        OAuth2Provider_AccessCodeValidity := request.(OAuth2ProviderRequest_AccessCodeValidity);
        OAuth2Provider_AccessTokenValidity := request.(OAuth2ProviderRequest_AccessTokenValidity);
        OAuth2Provider_RefreshTokenValidity := request.(OAuth2ProviderRequest_RefreshTokenValidity);
        OAuth2Provider_RefreshTokenThreshold := request.(OAuth2ProviderRequest_RefreshTokenThreshold);
        OAuth2Provider_IncludeClaimsInIdToken := request.(OAuth2ProviderRequest_IncludeClaimsInIdToken);
        OAuth2Provider_SigningKey := request.(OAuth2ProviderRequest_SigningKey);
        OAuth2Provider_EncryptionKey := request.(OAuth2ProviderRequest_EncryptionKey);
        OAuth2Provider_RedirectUris := toRedirectURIs request.(OAuth2ProviderRequest_RedirectUris);
        OAuth2Provider_LogoutUri := request.(OAuth2ProviderRequest_LogoutUri);
        OAuth2Provider_LogoutMethod := request.(OAuth2ProviderRequest_LogoutMethod);
        OAuth2Provider_SubMode := request.(OAuth2ProviderRequest_SubMode);
        OAuth2Provider_IssuerMode := request.(OAuth2ProviderRequest_IssuerMode);
      |} in
      let c := set_oauth2Providers (<[pk := provider]> c.(fk_oauth2Providers)) c in
      (c, inl (copyOAuth2Provider c provider)).

(** The assignments of [PatchOAuth2Provider]. *)
Definition apply_oauth2_patch (request : PatchedOAuth2ProviderRequest) (p : OAuth2Provider) : OAuth2Provider := {|
  OAuth2Provider_Pk := p.(OAuth2Provider_Pk);
  OAuth2Provider_Name := patch_value request.(PatchedOAuth2_Name) p.(OAuth2Provider_Name);
  OAuth2Provider_AuthenticationFlow :=
    patch_nullable request.(PatchedOAuth2_AuthenticationFlow) p.(OAuth2Provider_AuthenticationFlow);
  OAuth2Provider_AuthorizationFlow :=
    patch_value request.(PatchedOAuth2_AuthorizationFlow) p.(OAuth2Provider_AuthorizationFlow);
  OAuth2Provider_InvalidationFlow :=
    patch_value request.(PatchedOAuth2_InvalidationFlow) p.(OAuth2Provider_InvalidationFlow);
  OAuth2Provider_PropertyMappings :=
    patch_value request.(PatchedOAuth2_PropertyMappings) p.(OAuth2Provider_PropertyMappings);
  OAuth2Provider_AssignedApplicationSlug := p.(OAuth2Provider_AssignedApplicationSlug);
  OAuth2Provider_ClientType := patch_pointer request.(PatchedOAuth2_ClientType) p.(OAuth2Provider_ClientType);
  OAuth2Provider_GrantTypes := patch_value request.(PatchedOAuth2_GrantTypes) p.(OAuth2Provider_GrantTypes);
  OAuth2Provider_ClientId := patch_pointer request.(PatchedOAuth2_ClientId) p.(OAuth2Provider_ClientId);
  OAuth2Provider_ClientSecret := patch_pointer request.(PatchedOAuth2_ClientSecret) p.(OAuth2Provider_ClientSecret);
  OAuth2Provider_AccessCodeValidity :=
    patch_pointer request.(PatchedOAuth2_AccessCodeValidity) p.(OAuth2Provider_AccessCodeValidity);
  OAuth2Provider_AccessTokenValidity :=
    patch_pointer request.(PatchedOAuth2_AccessTokenValidity) p.(OAuth2Provider_AccessTokenValidity);
  OAuth2Provider_RefreshTokenValidity :=
    patch_pointer request.(PatchedOAuth2_RefreshTokenValidity) p.(OAuth2Provider_RefreshTokenValidity);
  OAuth2Provider_RefreshTokenThreshold :=
    patch_pointer request.(PatchedOAuth2_RefreshTokenThreshold) p.(OAuth2Provider_RefreshTokenThreshold);
  OAuth2Provider_IncludeClaimsInIdToken :=
    patch_pointer request.(PatchedOAuth2_IncludeClaimsInIdToken) p.(OAuth2Provider_IncludeClaimsInIdToken);
  OAuth2Provider_SigningKey := patch_nullable request.(PatchedOAuth2_SigningKey) p.(OAuth2Provider_SigningKey);
  OAuth2Provider_EncryptionKey := patch_nullable request.(PatchedOAuth2_EncryptionKey) p.(OAuth2Provider_EncryptionKey);
  OAuth2Provider_RedirectUris :=
    match request.(PatchedOAuth2_RedirectUris) with
    | Some uris => toRedirectURIs (Some uris)
    | None => p.(OAuth2Provider_RedirectUris)
    end;
  OAuth2Provider_LogoutUri := patch_pointer request.(PatchedOAuth2_LogoutUri) p.(OAuth2Provider_LogoutUri);
  OAuth2Provider_LogoutMethod := patch_pointer request.(PatchedOAuth2_LogoutMethod) p.(OAuth2Provider_LogoutMethod);
  OAuth2Provider_SubMode := patch_pointer request.(PatchedOAuth2_SubMode) p.(OAuth2Provider_SubMode);
  OAuth2Provider_IssuerMode := patch_pointer request.(PatchedOAuth2_IssuerMode) p.(OAuth2Provider_IssuerMode);
|}.

Definition fake_PatchOAuth2Provider (c : Client) (pk : Z) (request : PatchedOAuth2ProviderRequest) : op OAuth2Provider :=
  let operation := "PatchOAuth2Provider" in
  match c.(fk_oauth2Providers) !! pk with
  | None => (c, inr (notFound operation "OAuth2Provider"))
  | Some provider =>
      if match request.(PatchedOAuth2_Name) with Some name => providerNameTaken c name pk | None => false end then
        (c, inr (badRequest operation "name" "provider with this name already exists."))
      else if match request.(PatchedOAuth2_ClientId) with Some id => clientIDTaken c id pk | None => false end then
        (c, inr (badRequest operation "client_id" "o auth2 provider with this Client ID already exists."))
      else
        let provider := apply_oauth2_patch request provider in
        let c := set_oauth2Providers (<[pk := provider]> c.(fk_oauth2Providers)) c in
        (c, inl (copyOAuth2Provider c provider))
  end.

Definition fake_DeleteOAuth2Provider (c : Client) (pk : Z) : op () :=
  match c.(fk_oauth2Providers) !! pk with
  | None => (c, inr (notFound "DeleteOAuth2Provider" "OAuth2Provider"))
  | Some _ => (deleteProvider (set_oauth2Providers (delete pk c.(fk_oauth2Providers)) c) pk, inl ())
  end.

(** ** PolicyBindings *)

Definition nullableStringSet (v : Nullable string) : bool :=
  match Nullable_Get v with Some s => bool_decide (s <> "") | None => false end.

Definition nullableInt32Set (v : Nullable Z) : bool :=
  match Nullable_Get v with Some _ => true | None => false end.

Definition subject_count (policy group : Nullable string) (user : Nullable Z) : nat :=
  length (filter (fun b => b = true) [nullableStringSet policy; nullableStringSet group; nullableInt32Set user]).

Definition checkBindingSubject (operation : string) (policy group : Nullable string) (user : Nullable Z)
    : option client_error :=
  let count := subject_count policy group user in
  if bool_decide (1 < count)%nat then
    Some (badRequest operation "non_field_errors" "Only one of 'group', 'policy', 'user' can be set.")
  else if bool_decide (count < 1)%nat then
    Some (badRequest operation "non_field_errors" "One of 'group', 'policy', 'user' must be set.")
  else None.

Definition bindingOrderTaken (c : Client) (policy : Nullable string) (target : string) (order : Z) (exceptUUID : string)
    : bool :=
  nullableStringSet policy &&
  existsb (fun '(uuid, b) =>
      bool_decide (uuid <> exceptUUID) && nullableStringSet b.(PolicyBinding_Policy) &&
      bool_decide (Nullable_Get b.(PolicyBinding_Policy) = Nullable_Get policy) &&
      bool_decide (b.(PolicyBinding_Target) = target) && bool_decide (b.(PolicyBinding_Order) = order))
    (map_to_list c.(fk_bindings)).

Definition fake_GetPolicyBinding (c : Client) (uuid : string) : ak PolicyBinding :=
  get_or_404 (c.(fk_bindings) !! uuid) "GetPolicyBinding" "PolicyBinding".

Definition binding_order_le (a b : PolicyBinding) : Prop := a.(PolicyBinding_Order) <= b.(PolicyBinding_Order).

#[export] Instance binding_order_le_dec a b : Decision (binding_order_le a b).
Proof. unfold binding_order_le. apply _. Defined.

Definition fake_ListPolicyBindings (c : Client) (target : string) : list PolicyBinding :=
  merge_sort binding_order_le (findAll c.(fk_bindings) (fun b => bool_decide (b.(PolicyBinding_Target) = target))).

Definition unique_order_message : string := "The fields policy, target, order must make a unique set.".

Definition fake_CreatePolicyBinding (c : Client) (request : PolicyBindingRequest) : op PolicyBinding :=
  let operation := "CreatePolicyBinding" in
  let policy := request.(PolicyBindingRequest_Policy) in
  let group := request.(PolicyBindingRequest_Group) in
  let user := request.(PolicyBindingRequest_User) in
  match checkBindingSubject operation policy group user with
  | Some err => (c, inr err)
  | None =>
      if bindingOrderTaken c policy request.(PolicyBindingRequest_Target) request.(PolicyBindingRequest_Order) "" then
        (c, inr (badRequest operation "non_field_errors" unique_order_message))
      else
        let '(c, pk) := nextUUID c in
        let binding := {|
          PolicyBinding_Pk := pk;
          PolicyBinding_Policy := policy;
          PolicyBinding_Group := group;
          PolicyBinding_User := user;
          PolicyBinding_Target := request.(PolicyBindingRequest_Target);
          PolicyBinding_Negate := or_else request.(PolicyBindingRequest_Negate) (Some false);
          PolicyBinding_Enabled := or_else request.(PolicyBindingRequest_Enabled) (Some true);
          PolicyBinding_Order := request.(PolicyBindingRequest_Order);
          PolicyBinding_Timeout := or_else request.(PolicyBindingRequest_Timeout) (Some 30);
          PolicyBinding_FailureResult := or_else request.(PolicyBindingRequest_FailureResult) (Some false);
        |} in
        (set_bindings (<[pk := binding]> c.(fk_bindings)) c, inl binding)
  end.

(** The assignments of [PatchPolicyBinding]. *)
Definition apply_binding_patch (request : PatchedPolicyBindingRequest) (b : PolicyBinding) : PolicyBinding := {|
  PolicyBinding_Pk := b.(PolicyBinding_Pk);
  PolicyBinding_Policy := patch_nullable request.(PatchedBinding_Policy) b.(PolicyBinding_Policy);
  PolicyBinding_Group := patch_nullable request.(PatchedBinding_Group) b.(PolicyBinding_Group);
  PolicyBinding_User := patch_nullable request.(PatchedBinding_User) b.(PolicyBinding_User);
  PolicyBinding_Target := patch_value request.(PatchedBinding_Target) b.(PolicyBinding_Target);
  PolicyBinding_Negate := patch_pointer request.(PatchedBinding_Negate) b.(PolicyBinding_Negate);
  PolicyBinding_Enabled := patch_pointer request.(PatchedBinding_Enabled) b.(PolicyBinding_Enabled);
  PolicyBinding_Order := patch_value request.(PatchedBinding_Order) b.(PolicyBinding_Order);
  PolicyBinding_Timeout := patch_pointer request.(PatchedBinding_Timeout) b.(PolicyBinding_Timeout);
  PolicyBinding_FailureResult := patch_pointer request.(PatchedBinding_FailureResult) b.(PolicyBinding_FailureResult);
|}.

Definition fake_PatchPolicyBinding (c : Client) (uuid : string) (request : PatchedPolicyBindingRequest)
    : op PolicyBinding :=
  let operation := "PatchPolicyBinding" in
  match c.(fk_bindings) !! uuid with
  | None => (c, inr (notFound operation "PolicyBinding"))
  | Some binding =>
      match request.(PatchedBinding_Target) with
      | None => (c, inr (APIError operation StatusInternalServerError "Internal Server Error"))
      | Some target =>
          match checkBindingSubject operation request.(PatchedBinding_Policy) request.(PatchedBinding_Group)
                  request.(PatchedBinding_User) with
          | Some err => (c, inr err)
          | None =>
              let patched := apply_binding_patch request binding in
              if bindingOrderTaken c patched.(PolicyBinding_Policy) target patched.(PolicyBinding_Order) uuid then
                (c, inr (badRequest operation "non_field_errors" unique_order_message))
              else (set_bindings (<[uuid := patched]> c.(fk_bindings)) c, inl patched)
          end
      end
  end.

Definition fake_DeletePolicyBinding (c : Client) (uuid : string) : op () :=
  match c.(fk_bindings) !! uuid with
  | None => (c, inr (notFound "DeletePolicyBinding" "PolicyBinding"))
  | Some _ => (set_bindings (delete uuid c.(fk_bindings)) c, inl ())
  end.

(** ** Outposts *)

Definition fake_GetOutpost (c : Client) (uuid : string) : ak Outpost :=
  get_or_404 (c.(fk_outposts) !! uuid) "GetOutpost" "Outpost".

Definition fake_FindOutpostsByName (c : Client) (name : string) : list Outpost :=
  findAll c.(fk_outposts) (fun o => bool_decide (o.(Outpost_Name) = name)).

Definition fake_SetOutpostProviders (c : Client) (uuid : string) (providers : list Z) : op Outpost :=
  let operation := "SetOutpostProviders" in
  match c.(fk_outposts) !! uuid with
  | None => (c, inr (notFound operation "Outpost"))
  | Some outpost =>
      match find (fun pk => negb (providerExists c pk)) providers with
      | Some pk =>
          (c, inr (badRequest operation "providers"
            ("Invalid pk " +:+ String quote_char "" +:+ fmt_d pk +:+ String quote_char "" +:+ " - object does not exist.")))
      | None =>
          let outpost := set_outpost_providers providers outpost in
          (set_outposts (<[uuid := outpost]> c.(fk_outposts)) c, inl outpost)
      end
  end.

(** ** RBAC *)

Definition fake_GetRole (c : Client) (uuid : string) : ak Role := get_or_404 (c.(fk_roles) !! uuid) "GetRole" "Role".

Definition fake_FindRolesByName (c : Client) (name : string) : list Role :=
  findAll c.(fk_roles) (fun r => bool_decide (r.(Role_Name) = name)).

Definition fake_CreateRole (c : Client) (name : string) : op Role :=
  if existsb (fun '(_, r) => bool_decide (r.(Role_Name) = name)) (map_to_list c.(fk_roles)) then
    (c, inr (badRequest "CreateRole" "name" "role with this name already exists."))
  else
    let '(c, pk) := nextUUID c in
    let role := mkRole pk name in
    (set_roles (<[pk := role]> c.(fk_roles)) c, inl role).

(** Not part of [Client]: the role is deleted in the UI, with its object permissions. *)
Definition DeleteRole (c : Client) (uuid : string) : Client :=
  set_objectPermissions (filter (fun p => p.(op_role) <> uuid) c.(fk_objectPermissions))
    (set_roles (delete uuid c.(fk_roles)) c).

Definition objectExists (c : Client) (model objectPK : string) : bool :=
  if decide (model = MODELENUM_AUTHENTIK_CORE_APPLICATION) then
    existsb (fun '(_, app) => bool_decide (app.(Application_Pk) = objectPK)) (map_to_list c.(fk_applications))
  else if decide (model = MODELENUM_AUTHENTIK_PROVIDERS_PROXY_PROXYPROVIDER) then
    existsb (fun '(pk, _) => bool_decide (fmt_d pk = objectPK)) (map_to_list c.(fk_proxyProviders))
  else if decide (model = MODELENUM_AUTHENTIK_PROVIDERS_OAUTH2_OAUTH2PROVIDER) then
    existsb (fun '(pk, _) => bool_decide (fmt_d pk = objectPK)) (map_to_list c.(fk_oauth2Providers))
  else if decide (model = MODELENUM_AUTHENTIK_POLICIES_POLICYBINDING) then
    bool_decide (is_Some (c.(fk_bindings) !! objectPK))
  else false.

Definition same_permission (roleUUID model objectPK permission : string) (p : objectPermission) : bool :=
  bool_decide (p.(op_role) = roleUUID) && bool_decide (p.(op_model) = model) &&
  bool_decide (p.(op_objectPK) = objectPK) && bool_decide (p.(op_permission) = permission).

Definition fake_AssignObjectPermission (c : Client) (roleUUID model objectPK permission : string) : op () :=
  let operation := "AssignObjectPermission" in
  match c.(fk_roles) !! roleUUID with
  | None => (c, inr (notFound operation "Role"))
  | Some _ =>
      if negb (objectExists c model objectPK) then
        (c, inr (badRequest operation "object_pk" "Object does not exist."))
      else if existsb (same_permission roleUUID model objectPK permission) c.(fk_objectPermissions) then (c, inl ())
      else
        let '(c, id) := nextPK c in
        (set_objectPermissions
           (c.(fk_objectPermissions) ++ [mkObjectPermission id roleUUID model objectPK permission]) c, inl ())
  end.

Definition fake_UnassignObjectPermission (c : Client) (roleUUID model objectPK permission : string) : op () :=
  match c.(fk_roles) !! roleUUID with
  | None => (c, inr (notFound "UnassignObjectPermission" "Role"))
  | Some _ =>
      (set_objectPermissions
         (filter (fun p => same_permission roleUUID model objectPK permission p = false) c.(fk_objectPermissions)) c,
       inl ())
  end.

Definition dot : ascii := Ascii.ascii_of_nat 46.

Definition toRoleObjectPermission (p : objectPermission) : RoleObjectPermission :=
  let '(appLabel, codename, _) := strings_cut dot p.(op_permission) in
  let '(_, modelName, _) := strings_cut dot p.(op_model) in
  mkRoleObjectPermission p.(op_id) codename modelName appLabel p.(op_objectPK).

Definition fake_ListRoleObjectPermissions (c : Client) (roleUUID : string) : list RoleObjectPermission :=
  toRoleObjectPermission <$> filter (fun p => p.(op_role) = roleUUID) c.(fk_objectPermissions).

Definition fake_ListObjectPermissionRoles (c : Client) (model objectPK : string) : list RoleAssignedObjectPermission :=
  omap (fun '(uuid, role) =>
      if existsb (fun p => bool_decide (p.(op_role) = uuid) && bool_decide (p.(op_model) = model) &&
                           bool_decide (p.(op_objectPK) = objectPK)) c.(fk_objectPermissions)
      then Some (mkRoleAssignedObjectPermission uuid role.(Role_Name) (fake_ListRoleObjectPermissions c uuid))
      else None)
    (map_to_list c.(fk_roles)).

(** ** The fake as a handler of the authentik calls

    The calls to other services are not handled here: [None]. *)
Definition fake_handle (R : Type) (q : call R) (c : Client) : option (Client * R) :=
  match q in call R return option (Client * R) with
  | GetVersion => Some (c, inl c.(fk_version))
  | GetApplication slug => Some (c, fake_GetApplication c slug)
  | CreateApplication request => Some (fake_CreateApplication c request)
  | PatchApplication slug request => Some (fake_PatchApplication c slug request)
  | DeleteApplication slug => Some (fake_DeleteApplication c slug)
  | GetProxyProvider pk => Some (c, fake_GetProxyProvider c pk)
  | FindProxyProvidersByName name => Some (c, inl (fake_FindProxyProvidersByName c name))
  | CreateProxyProvider request => Some (fake_CreateProxyProvider c request)
  | PatchProxyProvider pk request => Some (fake_PatchProxyProvider c pk request)
  | DeleteProxyProvider pk => Some (fake_DeleteProxyProvider c pk)
  | GetOAuth2Provider pk => Some (c, fake_GetOAuth2Provider c pk)
  | FindOAuth2ProvidersByName name => Some (c, inl (fake_FindOAuth2ProvidersByName c name))
  | CreateOAuth2Provider request => Some (fake_CreateOAuth2Provider c request)
  | PatchOAuth2Provider pk request => Some (fake_PatchOAuth2Provider c pk request)
  | DeleteOAuth2Provider pk => Some (fake_DeleteOAuth2Provider c pk)
  | GetPolicyBinding uuid => Some (c, fake_GetPolicyBinding c uuid)
  | ListPolicyBindings target => Some (c, inl (fake_ListPolicyBindings c target))
  | CreatePolicyBinding request => Some (fake_CreatePolicyBinding c request)
  | PatchPolicyBinding uuid request => Some (fake_PatchPolicyBinding c uuid request)
  | DeletePolicyBinding uuid => Some (fake_DeletePolicyBinding c uuid)
  | GetOutpost uuid => Some (c, fake_GetOutpost c uuid)
  | FindOutpostsByName name => Some (c, inl (fake_FindOutpostsByName c name))
  | SetOutpostProviders uuid providers => Some (fake_SetOutpostProviders c uuid providers)
  | GetRole uuid => Some (c, fake_GetRole c uuid)
  | FindRolesByName name => Some (c, inl (fake_FindRolesByName c name))
  | CreateRole name => Some (fake_CreateRole c name)
  | AssignObjectPermission role model pk permission => Some (fake_AssignObjectPermission c role model pk permission)
  | UnassignObjectPermission role model pk permission => Some (fake_UnassignObjectPermission c role model pk permission)
  | ListRoleObjectPermissions role => Some (c, inl (fake_ListRoleObjectPermissions c role))
  | ListObjectPermissionRoles model pk => Some (c, inl (fake_ListObjectPermissionRoles c model pk))
  | GetGroup uuid => Some (c, get_or_404 (c.(fk_groups) !! uuid) "GetGroup" "Group")
  | FindGroupsByName name => Some (c, inl (findAll c.(fk_groups) (fun g => bool_decide (g.(Group_Name) = name))))
  | GetUser pk => Some (c, get_or_404 (c.(fk_users) !! pk) "GetUser" "User")
  | FindUsersByUsername username =>
      Some (c, inl (findAll c.(fk_users) (fun u => bool_decide (u.(User_Username) = username))))
  | GetPolicy uuid => Some (c, get_or_404 (c.(fk_policies) !! uuid) "GetPolicy" "Policy")
  | FindPoliciesByName name => Some (c, inl (findAll c.(fk_policies) (fun p => bool_decide (p.(Policy_Name) = name))))
  | GetFlow uuid => Some (c, get_or_404 (c.(fk_flows) !! uuid) "GetFlow" "Flow")
  | FindFlowsBySlug slug => Some (c, inl (findAll c.(fk_flows) (fun f => bool_decide (f.(Flow_Slug) = slug))))
  | GetCertificateKeyPair uuid =>
      Some (c, get_or_404 (c.(fk_keyPairs) !! uuid) "GetCertificateKeyPair" "CertificateKeyPair")
  | FindCertificateKeyPairsByName name =>
      Some (c, inl (findAll c.(fk_keyPairs) (fun k => bool_decide (k.(KeyPair_Name) = name))))
  | GetScopeMapping uuid => Some (c, get_or_404 (c.(fk_scopeMappings) !! uuid) "GetScopeMapping" "ScopeMapping")
  | FindScopeMappingsByScopeName scopeName =>
      Some (c, inl (findAll c.(fk_scopeMappings) (fun m => bool_decide (m.(ScopeMapping_ScopeName) = scopeName))))
  | _ => None
  end.
