(* ===== verification/ApiClient.v ===== *)
(** * The client of the authentik API

    The methods of [internal/authentik/apiclient.go]: each builds one request of client-go, or pages of one list
    request, and runs it with the wrapper of [Client]. The requests are the calls of a signature whose constructors
    are the operations of client-go with the parameters that the source sets. The theorem relates the client to the
    interface that the rest of the operator uses: in front of a REST server with the behaviour of the in-memory
    authentik every method answers as the in-memory authentik does. *)
From stdpp Require Import sorting.
From S2P Require Import Prelude Errors Effects Api Client Interface Fake.

(** ** The requests of client-go *)

(** The list operations, with their filters. *)
Inductive listing : Type -> Type :=
  | ProvidersProxyList (nameIexact : string) : listing ProxyProvider
  | ProvidersOauth2List (nameIexact : string) : listing OAuth2Provider
  | PoliciesBindingsList (target : string) : listing PolicyBinding
  | OutpostsInstancesList (nameIexact : string) : listing Outpost
  | RbacRolesList (name : string) : listing Role
  | RbacPermissionsRolesList (uuid : string) : listing RoleObjectPermission
  | RbacPermissionsAssignedByRolesList (model objectPk : string) : listing RoleAssignedObjectPermission
  | CoreGroupsList (name : string) (includeUsers : bool) : listing Group
  | CoreUsersList (username : string) (includeGroups : bool) : listing User
  | PoliciesAllList (search : string) : listing Policy
  | FlowsInstancesList_FlowUuid (flowUuid : string) : listing Flow
  | FlowsInstancesList_Slug (slug : string) : listing Flow
  | CryptoCertificatekeypairsList (name : string) : listing CertificateKeyPair
  | PropertymappingsProviderScopeList (scopeName : string) : listing ScopeMapping.

(** The answer to a request for an object is a pointer. *)
Abbreviation pointer T := (execution (option T)) (only parsing).

Inductive request : Type -> Type :=
  | ListPage {T : Type} (list : listing T) (page pageSize : Z) : request (pointer (Datatypes.list T * Z))
  | AdminVersionRetrieve : request (pointer Version)
  | CoreApplicationsRetrieve (slug : string) : request (pointer Application)
  | CoreApplicationsCreate (body : ApplicationRequest) : request (pointer Application)
  | CoreApplicationsPartialUpdate (slug : string) (body : PatchedApplicationRequest) : request (pointer Application)
  | CoreApplicationsDestroy (slug : string) : request (execution ())
  | ProvidersProxyRetrieve (id : Z) : request (pointer ProxyProvider)
  | ProvidersProxyCreate (body : ProxyProviderRequest) : request (pointer ProxyProvider)
  | ProvidersProxyPartialUpdate (id : Z) (body : PatchedProxyProviderRequest) : request (pointer ProxyProvider)
  | ProvidersProxyDestroy (id : Z) : request (execution ())
  | ProvidersOauth2Retrieve (id : Z) : request (pointer OAuth2Provider)
  | ProvidersOauth2Create (body : OAuth2ProviderRequest) : request (pointer OAuth2Provider)
  | ProvidersOauth2PartialUpdate (id : Z) (body : PatchedOAuth2ProviderRequest) : request (pointer OAuth2Provider)
  | ProvidersOauth2Destroy (id : Z) : request (execution ())
  | PoliciesBindingsRetrieve (uuid : string) : request (pointer PolicyBinding)
  | PoliciesBindingsCreate (body : PolicyBindingRequest) : request (pointer PolicyBinding)
  | PoliciesBindingsPartialUpdate (uuid : string) (body : PatchedPolicyBindingRequest) : request (pointer PolicyBinding)
  | PoliciesBindingsDestroy (uuid : string) : request (execution ())
  | OutpostsInstancesRetrieve (uuid : string) : request (pointer Outpost)
  | OutpostsInstancesPartialUpdate (uuid : string) (providers : option (Datatypes.list Z)) : request (pointer Outpost)
  | RbacRolesRetrieve (uuid : string) : request (pointer Role)
  | RbacRolesCreate (name : string) : request (pointer Role)
  | RbacPermissionsAssignedByRolesAssign (uuid : string) (permissions : Datatypes.list string)
      (model objectPk : option string) : request (execution ())
  | RbacPermissionsAssignedByRolesUnassignPartialUpdate (uuid : string) (permissions : Datatypes.list string)
      (model objectPk : option string) : request (execution ())
  | CoreGroupsRetrieve (uuid : string) (includeUsers : bool) : request (pointer Group)
  | CoreUsersRetrieve (id : Z) : request (pointer User)
  | PoliciesAllRetrieve (uuid : string) : request (pointer Policy)
  | CryptoCertificatekeypairsRetrieve (uuid : string) : request (pointer CertificateKeyPair)
  | PropertymappingsProviderScopeRetrieve (uuid : string) : request (pointer ScopeMapping).

Definition listPageSize : Z := 100.

(** ** The methods *)

Section methods.
Context (json_Unmarshal : string -> option json) (json_Marshal : json -> option string).
Abbreviation method T := (M request requestsTotal T) (only parsing).

(** [call] and [callNoContent] with the [Execute] of a request. *)
Definition execute {T} (operation : string) (q : request (execution T)) : method T :=
  Client.call json_Unmarshal json_Marshal operation (mcall q).

Definition executeNoContent (operation : string) (q : request (execution ())) : method () :=
  callNoContent json_Unmarshal json_Marshal operation (mcall q).

Definition client_GetVersion : method (option Version) := execute "GetVersion" AdminVersionRetrieve.

Definition client_GetApplication (slug : string) : method (option Application) :=
  execute "GetApplication" (CoreApplicationsRetrieve slug).

Definition client_CreateApplication (request : ApplicationRequest) : method (option Application) :=
  execute "CreateApplication" (CoreApplicationsCreate request).

Definition client_PatchApplication (slug : string) (request : PatchedApplicationRequest) : method (option Application) :=
  execute "PatchApplication" (CoreApplicationsPartialUpdate slug request).

Definition client_DeleteApplication (slug : string) : method () :=
  executeNoContent "DeleteApplication" (CoreApplicationsDestroy slug).

Definition client_GetProxyProvider (pk : Z) : method (option ProxyProvider) :=
  execute "GetProxyProvider" (ProvidersProxyRetrieve pk).

Definition client_CreateProxyProvider (request : ProxyProviderRequest) : method (option ProxyProvider) :=
  execute "CreateProxyProvider" (ProvidersProxyCreate request).

Definition client_PatchProxyProvider (pk : Z) (request : PatchedProxyProviderRequest) : method (option ProxyProvider) :=
  execute "PatchProxyProvider" (ProvidersProxyPartialUpdate pk request).

Definition client_DeleteProxyProvider (pk : Z) : method () :=
  executeNoContent "DeleteProxyProvider" (ProvidersProxyDestroy pk).

Definition client_GetOAuth2Provider (pk : Z) : method (option OAuth2Provider) :=
  execute "GetOAuth2Provider" (ProvidersOauth2Retrieve pk).

Definition client_CreateOAuth2Provider (request : OAuth2ProviderRequest) : method (option OAuth2Provider) :=
  execute "CreateOAuth2Provider" (ProvidersOauth2Create request).

Definition client_PatchOAuth2Provider (pk : Z) (request : PatchedOAuth2ProviderRequest) : method (option OAuth2Provider) :=
  execute "PatchOAuth2Provider" (ProvidersOauth2PartialUpdate pk request).

Definition client_DeleteOAuth2Provider (pk : Z) : method () :=
  executeNoContent "DeleteOAuth2Provider" (ProvidersOauth2Destroy pk).

Definition client_GetPolicyBinding (uuid : string) : method (option PolicyBinding) :=
  execute "GetPolicyBinding" (PoliciesBindingsRetrieve uuid).

Definition client_CreatePolicyBinding (request : PolicyBindingRequest) : method (option PolicyBinding) :=
  execute "CreatePolicyBinding" (PoliciesBindingsCreate request).

Definition client_PatchPolicyBinding (uuid : string) (request : PatchedPolicyBindingRequest)
    : method (option PolicyBinding) :=
  execute "PatchPolicyBinding" (PoliciesBindingsPartialUpdate uuid request).

Definition client_DeletePolicyBinding (uuid : string) : method () :=
  executeNoContent "DeletePolicyBinding" (PoliciesBindingsDestroy uuid).

Definition client_GetOutpost (uuid : string) : method (option Outpost) :=
  execute "GetOutpost" (OutpostsInstancesRetrieve uuid).

(** A nil slice would be omitted from the body of the request, which would leave the list unchanged. *)
Definition client_SetOutpostProviders (uuid : string) (providers : option (list Z)) : method (option Outpost) :=
  let providers := match providers with None => Some [] | Some _ => providers end in
  execute "SetOutpostProviders" (OutpostsInstancesPartialUpdate uuid providers).

Definition client_GetRole (uuid : string) : method (option Role) := execute "GetRole" (RbacRolesRetrieve uuid).

Definition client_CreateRole (name : string) : method (option Role) := execute "CreateRole" (RbacRolesCreate name).

Definition client_AssignObjectPermission (roleUUID model objectPK permission : string) : method () :=
  execute "AssignObjectPermission"
    (RbacPermissionsAssignedByRolesAssign roleUUID [permission] (Some model) (Some objectPK)).

Definition client_UnassignObjectPermission (roleUUID model objectPK permission : string) : method () :=
  executeNoContent "UnassignObjectPermission"
    (RbacPermissionsAssignedByRolesUnassignPartialUpdate roleUUID [permission] (Some model) (Some objectPK)).

Definition client_GetGroup (uuid : string) : method (option Group) := execute "GetGroup" (CoreGroupsRetrieve uuid false).

Definition client_GetUser (pk : Z) : method (option User) := execute "GetUser" (CoreUsersRetrieve pk).

Definition client_GetPolicy (uuid : string) : method (option Policy) := execute "GetPolicy" (PoliciesAllRetrieve uuid).

Definition client_GetCertificateKeyPair (uuid : string) : method (option CertificateKeyPair) :=
  execute "GetCertificateKeyPair" (CryptoCertificatekeypairsRetrieve uuid).

Definition client_GetScopeMapping (uuid : string) : method (option ScopeMapping) :=
  execute "GetScopeMapping" (PropertymappingsProviderScopeRetrieve uuid).

(** ** The methods that list

    [None] means that the fuel, the number of pages, ran out. *)
Section lists.
Context (fuel : nat).

Definition list_all {T} (operation : string) (l : listing T) (keep : T -> bool) : method (option (list T)) :=
  listAll json_Unmarshal json_Marshal fuel operation (fetch_page (fun p => ListPage l p listPageSize)) keep.

Definition named {T} (name : T -> string) (wanted : string) (item : T) : bool := bool_decide (name item = wanted).

Definition client_FindProxyProvidersByName (name : string) : method (option (list ProxyProvider)) :=
  list_all "FindProxyProvidersByName" (ProvidersProxyList name) (named ProxyProvider_Name name).

Definition client_FindOAuth2ProvidersByName (name : string) : method (option (list OAuth2Provider)) :=
  list_all "FindOAuth2ProvidersByName" (ProvidersOauth2List name) (named OAuth2Provider_Name name).

Definition client_ListPolicyBindings (target : string) : method (option (list PolicyBinding)) :=
  list_all "ListPolicyBindings" (PoliciesBindingsList target) (named PolicyBinding_Target target).

Definition client_FindOutpostsByName (name : string) : method (option (list Outpost)) :=
  list_all "FindOutpostsByName" (OutpostsInstancesList name) (named Outpost_Name name).

Definition client_FindRolesByName (name : string) : method (option (list Role)) :=
  list_all "FindRolesByName" (RbacRolesList name) (named Role_Name name).

Definition client_ListRoleObjectPermissions (roleUUID : string) : method (option (list RoleObjectPermission)) :=
  list_all "ListRoleObjectPermissions" (RbacPermissionsRolesList roleUUID) (fun _ => true).

Definition client_ListObjectPermissionRoles (model objectPK : string) : method (option (list RoleAssignedObjectPermission)) :=
  list_all "ListObjectPermissionRoles" (RbacPermissionsAssignedByRolesList model objectPK) (fun _ => true).

Definition client_FindGroupsByName (name : string) : method (option (list Group)) :=
  list_all "FindGroupsByName" (CoreGroupsList name false) (named Group_Name name).

Definition client_FindUsersByUsername (username : string) : method (option (list User)) :=
  list_all "FindUsersByUsername" (CoreUsersList username false) (named User_Username username).

Definition client_FindPoliciesByName (name : string) : method (option (list Policy)) :=
  list_all "FindPoliciesByName" (PoliciesAllList name) (named Policy_Name name).

(** The retrieve API of flows is keyed by slug, so the UUID is looked up through the list API. *)
Definition client_GetFlow (uuid : string) : method (option Flow) :=
  let* flows := list_all "GetFlow" (FlowsInstancesList_FlowUuid uuid) (named Flow_Pk uuid) in
  match flows with
  | None => mret None
  | Some [] => mfail (ClientError (APIError "GetFlow" StatusNotFound ("no flow with uuid " +:+ uuid)))
  | Some (flow :: _) => mret (Some flow)
  end.

Definition client_FindFlowsBySlug (slug : string) : method (option (list Flow)) :=
  list_all "FindFlowsBySlug" (FlowsInstancesList_Slug slug) (named Flow_Slug slug).

Definition client_FindCertificateKeyPairsByName (name : string) : method (option (list CertificateKeyPair)) :=
  list_all "FindCertificateKeyPairsByName" (CryptoCertificatekeypairsList name) (named KeyPair_Name name).

Definition client_FindScopeMappingsByScopeName (scopeName : string) : method (option (list ScopeMapping)) :=
  list_all "FindScopeMappingsByScopeName" (PropertymappingsProviderScopeList scopeName)
    (named ScopeMapping_ScopeName scopeName).

(** ** The client as an implementation of the interface *)

(** The answer of a method as the caller sees it; the absence of a value is a nil pointer or exhausted fuel. *)
Definition answer {A} (m : method (option A)) : method (ak A) :=
  let* r := mtry m in
  match r with
  | Ok (Some a) => mret (inl a)
  | Err (ClientError err) => mret (inr err)
  | Ok None | Err _ => mcrash
  end.

Definition answerNoContent (m : method ()) : method (ak ()) :=
  let* r := mtry m in
  match r with
  | Ok a => mret (inl a)
  | Err (ClientError err) => mret (inr err)
  | Err _ => mcrash
  end.

(** The methods of the interface; an empty list of providers is a nil slice, the case that needs care. The calls to
    other services are not handled here. *)
Definition client_method (R : Type) (q : Interface.call R) : option (method R) :=
  match q in Interface.call R return option (method R) with
  | GetVersion => Some (answer client_GetVersion)
  | GetApplication slug => Some (answer (client_GetApplication slug))
  | CreateApplication request => Some (answer (client_CreateApplication request))
  | PatchApplication slug request => Some (answer (client_PatchApplication slug request))
  | DeleteApplication slug => Some (answerNoContent (client_DeleteApplication slug))
  | GetProxyProvider pk => Some (answer (client_GetProxyProvider pk))
  | FindProxyProvidersByName name => Some (answer (client_FindProxyProvidersByName name))
  | CreateProxyProvider request => Some (answer (client_CreateProxyProvider request))
  | PatchProxyProvider pk request => Some (answer (client_PatchProxyProvider pk request))
  | DeleteProxyProvider pk => Some (answerNoContent (client_DeleteProxyProvider pk))
  | GetOAuth2Provider pk => Some (answer (client_GetOAuth2Provider pk))
  | FindOAuth2ProvidersByName name => Some (answer (client_FindOAuth2ProvidersByName name))
  | CreateOAuth2Provider request => Some (answer (client_CreateOAuth2Provider request))
  | PatchOAuth2Provider pk request => Some (answer (client_PatchOAuth2Provider pk request))
  | DeleteOAuth2Provider pk => Some (answerNoContent (client_DeleteOAuth2Provider pk))
  | GetPolicyBinding uuid => Some (answer (client_GetPolicyBinding uuid))
  | ListPolicyBindings target => Some (answer (client_ListPolicyBindings target))
  | CreatePolicyBinding request => Some (answer (client_CreatePolicyBinding request))
  | PatchPolicyBinding uuid request => Some (answer (client_PatchPolicyBinding uuid request))
  | DeletePolicyBinding uuid => Some (answerNoContent (client_DeletePolicyBinding uuid))
  | GetOutpost uuid => Some (answer (client_GetOutpost uuid))
  | FindOutpostsByName name => Some (answer (client_FindOutpostsByName name))
  | SetOutpostProviders uuid providers =>
      Some (answer (client_SetOutpostProviders uuid (if decide (providers = []) then None else Some providers)))
  | GetRole uuid => Some (answer (client_GetRole uuid))
  | FindRolesByName name => Some (answer (client_FindRolesByName name))
  | CreateRole name => Some (answer (client_CreateRole name))
  | AssignObjectPermission role model pk permission =>
      Some (answerNoContent (client_AssignObjectPermission role model pk permission))
  | UnassignObjectPermission role model pk permission =>
      Some (answerNoContent (client_UnassignObjectPermission role model pk permission))
  | ListRoleObjectPermissions role => Some (answer (client_ListRoleObjectPermissions role))
  | ListObjectPermissionRoles model pk => Some (answer (client_ListObjectPermissionRoles model pk))
  | GetGroup uuid => Some (answer (client_GetGroup uuid))
  | FindGroupsByName name => Some (answer (client_FindGroupsByName name))
  | GetUser pk => Some (answer (client_GetUser pk))
  | FindUsersByUsername username => Some (answer (client_FindUsersByUsername username))
  | GetPolicy uuid => Some (answer (client_GetPolicy uuid))
  | FindPoliciesByName name => Some (answer (client_FindPoliciesByName name))
  | GetFlow uuid => Some (answer (client_GetFlow uuid))
  | FindFlowsBySlug slug => Some (answer (client_FindFlowsBySlug slug))
  | GetCertificateKeyPair uuid => Some (answer (client_GetCertificateKeyPair uuid))
  | FindCertificateKeyPairsByName name => Some (answer (client_FindCertificateKeyPairsByName name))
  | GetScopeMapping uuid => Some (answer (client_GetScopeMapping uuid))
  | FindScopeMappingsByScopeName scopeName => Some (answer (client_FindScopeMappingsByScopeName scopeName))
  | _ => None
  end.
End lists.
End methods.

(** ** A REST server in front of the in-memory authentik

    [replies value answered] relates an answer of the in-memory authentik to what client-go returns: the object and a
    2xx response, or a response with the status code of the error. *)
Definition replies {A B} (value : A -> B) (answered : Client * ak A) (returned : Client * execution B) : Prop :=
  returned.1 = answered.1 /\
  match answered.2 with
  | inl a =>
      returned.2.(exec_result) = value a /\ returned.2.(exec_error) = None /\
      exists resp, returned.2.(exec_response) = Some resp /\ 200 <= resp.(resp_StatusCode) <= 299
  | inr (APIError _ code _) =>
      exists resp, returned.2.(exec_response) = Some resp /\ resp.(resp_StatusCode) = code
  | inr (CallFailed _ _) => returned.2.(exec_response) = None /\ is_Some returned.2.(exec_error)
  end.

(** The page [current] of [items], and the number of the next page, zero after the last one. *)
Definition page_of {T} (items : list T) (current size : Z) : list T * Z :=
  (take (Z.to_nat size) (drop (Z.to_nat ((current - 1) * size)) items),
   if decide (current * size < Z.of_nat (length items)) then current + 1 else 0).

Section rest.
(** What the server's own filters match. They may match more than the client asked for. *)
Context (matching : forall T, listing T -> Client -> list T).

Definition exact_listing (c : Client) {T} (l : listing T) : list T -> Prop :=
  match l in listing T return list T -> Prop with
  | ProvidersProxyList name => fun items =>
      List.filter (named ProxyProvider_Name name) items = fake_FindProxyProvidersByName c name
  | ProvidersOauth2List name => fun items =>
      List.filter (named OAuth2Provider_Name name) items = fake_FindOAuth2ProvidersByName c name
  | PoliciesBindingsList target => fun items =>
      List.filter (named PolicyBinding_Target target) items = fake_ListPolicyBindings c target
  | OutpostsInstancesList name => fun items =>
      List.filter (named Outpost_Name name) items = fake_FindOutpostsByName c name
  | RbacRolesList name => fun items => List.filter (named Role_Name name) items = fake_FindRolesByName c name
  | RbacPermissionsRolesList uuid => fun items => items = fake_ListRoleObjectPermissions c uuid
  | RbacPermissionsAssignedByRolesList model pk => fun items => items = fake_ListObjectPermissionRoles c model pk
  | CoreGroupsList name _ => fun items =>
      List.filter (named Group_Name name) items = findAll c.(fk_groups) (named Group_Name name)
  | CoreUsersList username _ => fun items =>
      List.filter (named User_Username username) items = findAll c.(fk_users) (named User_Username username)
  | PoliciesAllList name => fun items =>
      List.filter (named Policy_Name name) items = findAll c.(fk_policies) (named Policy_Name name)
  | FlowsInstancesList_FlowUuid uuid => fun items =>
      List.filter (named Flow_Pk uuid) items = match c.(fk_flows) !! uuid with Some flow => [flow] | None => [] end
  | FlowsInstancesList_Slug slug => fun items =>
      List.filter (named Flow_Slug slug) items = findAll c.(fk_flows) (named Flow_Slug slug)
  | CryptoCertificatekeypairsList name => fun items =>
      List.filter (named KeyPair_Name name) items = findAll c.(fk_keyPairs) (named KeyPair_Name name)
  | PropertymappingsProviderScopeList scopeName => fun items =>
      List.filter (named ScopeMapping_ScopeName scopeName) items =
        findAll c.(fk_scopeMappings) (named ScopeMapping_ScopeName scopeName)
  end.

(** What a request does: the state after it and what client-go returns. *)
Definition serves_request (c : Client) {R} (q : request R) : Client * R -> Prop :=
  match q in request R return Client * R -> Prop with
  | ListPage l page size => replies Some (c, inl (page_of (matching _ l c) page size))
  | AdminVersionRetrieve => replies Some (c, inl c.(fk_version))
  | CoreApplicationsRetrieve slug => replies Some (c, fake_GetApplication c slug)
  | CoreApplicationsCreate body => replies Some (fake_CreateApplication c body)
  | CoreApplicationsPartialUpdate slug body => replies Some (fake_PatchApplication c slug body)
  | CoreApplicationsDestroy slug => replies id (fake_DeleteApplication c slug)
  | ProvidersProxyRetrieve pk => replies Some (c, fake_GetProxyProvider c pk)
  | ProvidersProxyCreate body => replies Some (fake_CreateProxyProvider c body)
  | ProvidersProxyPartialUpdate pk body => replies Some (fake_PatchProxyProvider c pk body)
  | ProvidersProxyDestroy pk => replies id (fake_DeleteProxyProvider c pk)
  | ProvidersOauth2Retrieve pk => replies Some (c, fake_GetOAuth2Provider c pk)
  | ProvidersOauth2Create body => replies Some (fake_CreateOAuth2Provider c body)
  | ProvidersOauth2PartialUpdate pk body => replies Some (fake_PatchOAuth2Provider c pk body)
  | ProvidersOauth2Destroy pk => replies id (fake_DeleteOAuth2Provider c pk)
  | PoliciesBindingsRetrieve uuid => replies Some (c, fake_GetPolicyBinding c uuid)
  | PoliciesBindingsCreate body => replies Some (fake_CreatePolicyBinding c body)
  | PoliciesBindingsPartialUpdate uuid body => replies Some (fake_PatchPolicyBinding c uuid body)
  | PoliciesBindingsDestroy uuid => replies id (fake_DeletePolicyBinding c uuid)
  | OutpostsInstancesRetrieve uuid => replies Some (c, fake_GetOutpost c uuid)
  | OutpostsInstancesPartialUpdate uuid (Some providers) => replies Some (fake_SetOutpostProviders c uuid providers)
  | OutpostsInstancesPartialUpdate uuid None => replies Some (c, fake_GetOutpost c uuid)
  | RbacRolesRetrieve uuid => replies Some (c, fake_GetRole c uuid)
  | RbacRolesCreate name => replies Some (fake_CreateRole c name)
  | RbacPermissionsAssignedByRolesAssign role [permission] (Some model) (Some pk) =>
      replies id (fake_AssignObjectPermission c role model pk permission)
  | RbacPermissionsAssignedByRolesUnassignPartialUpdate role [permission] (Some model) (Some pk) =>
      replies id (fake_UnassignObjectPermission c role model pk permission)
  | CoreGroupsRetrieve uuid _ => replies Some (c, get_or_404 (c.(fk_groups) !! uuid) "GetGroup" "Group")
  | CoreUsersRetrieve pk => replies Some (c, get_or_404 (c.(fk_users) !! pk) "GetUser" "User")
  | PoliciesAllRetrieve uuid => replies Some (c, get_or_404 (c.(fk_policies) !! uuid) "GetPolicy" "Policy")
  | CryptoCertificatekeypairsRetrieve uuid =>
      replies Some (c, get_or_404 (c.(fk_keyPairs) !! uuid) "GetCertificateKeyPair" "CertificateKeyPair")
  | PropertymappingsProviderScopeRetrieve uuid =>
      replies Some (c, get_or_404 (c.(fk_scopeMappings) !! uuid) "GetScopeMapping" "ScopeMapping")
  | _ => fun _ => True
  end.

(** The handler [handle] of the requests fronts the in-memory authentik in the state [c], and its lists have less
    than [fuel] items. *)
Class RestServer (handle : forall R, request R -> Client -> Client * R) (c : Client) (fuel : nat) : Prop := {
  rest_serves : forall R (q : request R), serves_request c q (handle R q c);
  rest_exact : forall T (l : listing T), exact_listing c l (matching T l c);
  rest_length : forall T (l : listing T), (S (length (matching T l c)) < fuel)%nat;
}.
End rest.
Arguments rest_serves {matching handle c fuel _} R q.
Arguments rest_exact {matching handle c fuel _} T l.
Arguments rest_length {matching handle c fuel _} T l.

(** ** The client refines the in-memory authentik *)

(** The errors agree on the operation and the status code; the body of a response may be redacted and cut. *)
Definition agrees {A} (r r' : ak A) : Prop :=
  match r, r' with
  | inl a, inl a' => a = a'
  | inr (APIError op code _), inr (APIError op' code' _) => op = op' /\ code = code'
  | _, _ => False
  end.

Definition same_answer {R} (q : Interface.call R) : R -> R -> Prop :=
  match q in Interface.call R return R -> R -> Prop with
  | KubeGet _ _ | KubeListBySlug _ | KubeListAll | KubeListBySecret _ _ | KubePatch _ _ | KubePatchStatus _ _
  | KubeGetSecret _ _ | KubeCreateSecret _ | Eventf _ | Now | SendRoleEvents _ => eq
  | _ => agrees
  end.

(** An error that the operation [operation] reports. *)
Definition reports {A} (operation : string) (r : ak A) : Prop :=
  match r with
  | inl _ => True
  | inr (APIError op code _) => op = operation /\ ~ 200 <= code <= 299
  | inr (CallFailed _ _) => False
  end.

Lemma reports_404 {A} (o : option A) operation model : reports operation (get_or_404 o operation model).
Proof. destruct o; simpl; [done|]. split; [done|]. unfold StatusNotFound. lia. Qed.

(** The in-memory authentik reports errors under the name of the operation, with a status of a failure. *)
Ltac solve_reports :=
  unfold checkApplicationProvider, checkProxyMode, checkBindingSubject, nextUUID, nextPK, notFound, badRequest,
    StatusNotFound, StatusBadRequest, StatusInternalServerError;
  repeat (case_match; simplify_eq/=); first [exact I | split; [reflexivity | lia]].

Lemma reports_CreateApplication c body : reports "CreateApplication" (fake_CreateApplication c body).2.
Proof. unfold fake_CreateApplication. solve_reports. Qed.

Lemma reports_PatchApplication c slug body : reports "PatchApplication" (fake_PatchApplication c slug body).2.
Proof. unfold fake_PatchApplication. solve_reports. Qed.

Lemma reports_DeleteApplication c slug : reports "DeleteApplication" (fake_DeleteApplication c slug).2.
Proof. unfold fake_DeleteApplication. solve_reports. Qed.

Lemma reports_CreateProxyProvider c body : reports "CreateProxyProvider" (fake_CreateProxyProvider c body).2.
Proof. unfold fake_CreateProxyProvider. solve_reports. Qed.

Lemma reports_PatchProxyProvider c pk body : reports "PatchProxyProvider" (fake_PatchProxyProvider c pk body).2.
Proof. unfold fake_PatchProxyProvider. solve_reports. Qed.

Lemma reports_DeleteProxyProvider c pk : reports "DeleteProxyProvider" (fake_DeleteProxyProvider c pk).2.
Proof. unfold fake_DeleteProxyProvider. solve_reports. Qed.

Lemma reports_CreateOAuth2Provider c body : reports "CreateOAuth2Provider" (fake_CreateOAuth2Provider c body).2.
Proof. unfold fake_CreateOAuth2Provider. solve_reports. Qed.

Lemma reports_PatchOAuth2Provider c pk body : reports "PatchOAuth2Provider" (fake_PatchOAuth2Provider c pk body).2.
Proof. unfold fake_PatchOAuth2Provider. solve_reports. Qed.

Lemma reports_DeleteOAuth2Provider c pk : reports "DeleteOAuth2Provider" (fake_DeleteOAuth2Provider c pk).2.
Proof. unfold fake_DeleteOAuth2Provider. solve_reports. Qed.

Lemma reports_CreatePolicyBinding c body : reports "CreatePolicyBinding" (fake_CreatePolicyBinding c body).2.
Proof. unfold fake_CreatePolicyBinding. solve_reports. Qed.

Lemma reports_PatchPolicyBinding c uuid body : reports "PatchPolicyBinding" (fake_PatchPolicyBinding c uuid body).2.
Proof. unfold fake_PatchPolicyBinding. solve_reports. Qed.

Lemma reports_DeletePolicyBinding c uuid : reports "DeletePolicyBinding" (fake_DeletePolicyBinding c uuid).2.
Proof. unfold fake_DeletePolicyBinding. solve_reports. Qed.

Lemma reports_SetOutpostProviders c uuid pks : reports "SetOutpostProviders" (fake_SetOutpostProviders c uuid pks).2.
Proof. unfold fake_SetOutpostProviders. solve_reports. Qed.

Lemma reports_CreateRole c name : reports "CreateRole" (fake_CreateRole c name).2.
Proof. unfold fake_CreateRole. solve_reports. Qed.

Lemma reports_AssignObjectPermission c role model pk permission :
  reports "AssignObjectPermission" (fake_AssignObjectPermission c role model pk permission).2.
Proof. unfold fake_AssignObjectPermission. solve_reports. Qed.

Lemma reports_UnassignObjectPermission c role model pk permission :
  reports "UnassignObjectPermission" (fake_UnassignObjectPermission c role model pk permission).2.
Proof. unfold fake_UnassignObjectPermission. solve_reports. Qed.

#[export] Hint Resolve reports_404 reports_CreateApplication reports_PatchApplication reports_DeleteApplication
  reports_CreateProxyProvider reports_PatchProxyProvider reports_DeleteProxyProvider reports_CreateOAuth2Provider
  reports_PatchOAuth2Provider reports_DeleteOAuth2Provider reports_CreatePolicyBinding reports_PatchPolicyBinding
  reports_DeletePolicyBinding reports_SetOutpostProviders reports_CreateRole reports_AssignObjectPermission
  reports_UnassignObjectPermission : go.

(** The pages of a list of [items] that starts at the page [first]. *)
Lemma page_of_rest {T} (items : list T) (first size : Z) :
  0 < first -> 0 < size -> first * size < Z.of_nat (length items) ->
  drop (Z.to_nat ((first - 1) * size)) items =
    take (Z.to_nat size) (drop (Z.to_nat ((first - 1) * size)) items) ++ drop (Z.to_nat (first * size)) items.
Proof.
  intros Hf Hs Hl. rewrite <- (take_drop (Z.to_nat size) (drop _ items)) at 1. f_equal.
  rewrite drop_drop. f_equal. rewrite <- Z2Nat.inj_add by nia. f_equal. lia.
Qed.

Lemma filter_all {T} (items : list T) : List.filter (fun _ => true) items = items.
Proof. induction items; simpl; congruence. Qed.

Section refinement.
Context (json_Unmarshal : string -> option json) (json_Marshal : json -> option string).
Context (matching : forall T, listing T -> Client -> list T).
Context (handle : forall R, request R -> Client -> Client * R) (c : Client) (fuel : nat).
Context `{!RestServer matching handle c fuel}.
Context (fuel_bound : Z.of_nat fuel <= 2 ^ 24).
Abbreviation wrapError := (wrapError json_Unmarshal json_Marshal).

(** The run of [m] ends in the state and with the answer of [answered]. *)
Definition behaves {R} (same : R -> R -> Prop) (m : M request requestsTotal R) (answered : Client * R) : Prop :=
  forall counters, exists counters' r,
    mrun handle m counters c = Some (counters', Ok r, answered.1) /\ same r answered.2.

Lemma wrapError_ok operation resp : 200 <= resp.(resp_StatusCode) <= 299 -> wrapError operation (Some resp) None = None.
Proof. intros. unfold Errors.wrapError. by rewrite bool_decide_eq_false_2 by lia. Qed.

Lemma wrapError_code operation resp err :
  ~ 200 <= resp.(resp_StatusCode) <= 299 ->
  exists body, wrapError operation (Some resp) err = Some (APIError operation resp.(resp_StatusCode) body).
Proof. intros. unfold Errors.wrapError. rewrite bool_decide_eq_true_2 by lia. eauto. Qed.

Lemma execute_behaves {A} operation (q : request (execution (option A))) answered :
  replies Some answered (handle _ q c) -> reports operation answered.2 ->
  behaves agrees (answer (execute json_Unmarshal json_Marshal operation q)) answered.
Proof.
  intros Hr Hn counters. unfold mrun. simpl. destruct (handle _ q c) as [c1 e], answered as [c' [a|[op code body|]]];
    unfold replies in Hr; simpl in *; [| |done].
  - destruct Hr as (-> & Ha & He & resp & Hresp & Hc). rewrite Ha, He, Hresp, wrapError_ok by done. simpl. eexists _, _. split; [done|]. done.
  - destruct Hr as (-> & resp & Hresp & Hc), Hn as [-> Hcode]. rewrite Hresp. subst code.
    destruct (wrapError_code operation resp e.(exec_error) Hcode) as [b Hb]. rewrite Hb. simpl.
    eexists _, _. split; [done|]. done.
Qed.

Lemma executeNoContent_behaves operation (q : request (execution ())) answered :
  replies id answered (handle _ q c) -> reports operation answered.2 ->
  behaves agrees (answerNoContent (executeNoContent json_Unmarshal json_Marshal operation q)) answered.
Proof.
  intros Hr Hn counters. unfold mrun. simpl. destruct (handle _ q c) as [c1 e], answered as [c' [a|[op code body|]]];
    unfold replies in Hr; simpl in *; [| |done].
  - destruct Hr as (-> & Ha & He & resp & Hresp & Hc). rewrite He, Hresp, wrapError_ok by done. simpl.
    eexists _, _. split; [done|]. by destruct a.
  - destruct Hr as (-> & resp & Hresp & Hc), Hn as [-> Hcode]. rewrite Hresp. subst code.
    destruct (wrapError_code operation resp e.(exec_error) Hcode) as [b Hb]. rewrite Hb. simpl.
    eexists _, _. split; [done|]. done.
Qed.

(** [AssignObjectPermission] drops the body of the answer. *)
Lemma execute_unit_behaves operation (q : request (execution ())) answered :
  replies id answered (handle _ q c) -> reports operation answered.2 ->
  behaves agrees (answerNoContent (execute json_Unmarshal json_Marshal operation q)) answered.
Proof.
  intros Hr Hn counters. unfold mrun. simpl. destruct (handle _ q c) as [c1 e], answered as [c' [a|[op code body|]]];
    unfold replies in Hr; simpl in *; [| |done].
  - destruct Hr as (-> & Ha & He & resp & Hresp & Hc). rewrite Ha, He, Hresp, wrapError_ok by done. simpl. eexists _, _. split; [done|]. done.
  - destruct Hr as (-> & resp & Hresp & Hc), Hn as [-> Hcode]. rewrite Hresp. subst code.
    destruct (wrapError_code operation resp e.(exec_error) Hcode) as [b Hb]. rewrite Hb. simpl.
    eexists _, _. split; [done|]. done.
Qed.

(** The server serves the items that its filter matches, page by page. *)
Lemma listing_serves {T} operation (l : listing T) (n : nat) (first : Z) :
  0 < first -> (length (matching T l c) - Z.to_nat ((first - 1) * listPageSize) <= n)%nat ->
  (first = 1 \/ (first - 1) * listPageSize < Z.of_nat (length (matching T l c))) ->
  exists pages, concat pages = drop (Z.to_nat ((first - 1) * listPageSize)) (matching T l c) /\
    (length pages <= S n)%nat /\
    serves handle json_Unmarshal json_Marshal operation (fun p => ListPage l p listPageSize) first pages None c c.
Proof.
  unfold listPageSize. set (items := matching T l c). revert first.
  induction n as [n IH] using lt_wf_ind. intros first Hf Hn Hfirst.
  pose proof (rest_serves _ (ListPage l first 100)) as Hs. simpl in Hs.
  destruct (handle _ (ListPage l first 100) c) as [c1 e] eqn:Ee. unfold replies in Hs. simpl in Hs.
  destruct Hs as (-> & Hres & Herr & resp & Hresp & Hcode). unfold page_of in Hres. fold items in Hres.
  assert (page_error json_Unmarshal json_Marshal operation e = None) as Hpage
    by (unfold page_error; rewrite Herr, Hresp; by apply wrapError_ok).
  destruct (decide (first * 100 < Z.of_nat (length items))) as [Hmore|Hlast].
  - destruct (IH (n - 100)%nat) with (first := first + 1) as (pages & Hc & Hl & Hpages); [lia|lia|lia|right; lia|].
    replace (first + 1 - 1) with first in Hc by lia.
    exists (take (Z.to_nat 100) (drop (Z.to_nat ((first - 1) * 100)) items) :: pages).
    split_and!; simpl; [rewrite Hc; symmetry; apply page_of_rest; lia|lia|]. rewrite Ee.
    split; [done|]. rewrite decide_False; [done|]. intros [-> _].
    assert (length (drop (Z.to_nat (first * 100)) items) = 0%nat) as H0 by (by rewrite <- Hc).
    rewrite length_drop in H0. lia.
  - exists [take (Z.to_nat 100) (drop (Z.to_nat ((first - 1) * 100)) items)].
    split_and!; simpl; [|lia|].
    + rewrite app_nil_r. apply take_ge. rewrite length_drop. lia.
    + rewrite Ee. split; [done|]. split; [done|]. eauto with lia.
Qed.

Lemma list_all_runs {T} operation (l : listing T) keep counters :
  exists counters', mrun handle (list_all json_Unmarshal json_Marshal fuel operation l keep) counters c =
    Some (counters', Ok (Some (List.filter keep (matching T l c))), c).
Proof.
  pose proof (rest_length _ l) as Hlen.
  destruct (listing_serves operation l (length (matching T l c)) 1) as (pages & Hc & Hl & Hs); [lia|lia|by left|].
  destruct (listAll_from_serves handle json_Unmarshal json_Marshal operation (fun p => ListPage l p listPageSize)
    fuel keep [] 1 pages None counters c c Hs) as [counters' Hrun]; [lia..|].
  exists counters'. unfold list_all, listAll. rewrite Hrun, Hc. done.
Qed.

Lemma list_all_behaves {T} operation (l : listing T) keep expected :
  List.filter keep (matching T l c) = expected ->
  behaves agrees (answer (list_all json_Unmarshal json_Marshal fuel operation l keep)) (c, inl expected).
Proof.
  intros <- counters. destruct (list_all_runs operation l keep counters) as [counters' Hrun].
  exists counters', (inl (List.filter keep (matching T l c))). split; [|done].
  unfold answer. rewrite mrun_bind, mrun_try, Hrun. done.
Qed.

Lemma GetFlow_behaves uuid :
  behaves agrees (answer (client_GetFlow json_Unmarshal json_Marshal fuel uuid))
    (c, get_or_404 (c.(fk_flows) !! uuid) "GetFlow" "Flow").
Proof.
  intros counters. destruct (list_all_runs "GetFlow" (FlowsInstancesList_FlowUuid uuid) (named Flow_Pk uuid) counters)
    as [counters' Hrun].
  rewrite (rest_exact _ (FlowsInstancesList_FlowUuid uuid)) in Hrun.
  unfold answer, client_GetFlow. rewrite mrun_bind, mrun_try, mrun_bind, Hrun.
  destruct (c.(fk_flows) !! uuid); simpl; eexists _, _; (split; [done|]); done.
Qed.

Lemma SetOutpostProviders_behaves uuid providers :
  behaves agrees
    (answer (client_SetOutpostProviders json_Unmarshal json_Marshal uuid (if decide (providers = []) then None else Some providers)))
    (fake_SetOutpostProviders c uuid providers).
Proof.
  unfold client_SetOutpostProviders. apply execute_behaves; [|eauto with go].
  case_decide as Hp; [subst|]; apply (rest_serves _ (OutpostsInstancesPartialUpdate uuid (Some _))).
Qed.

Local Ltac unfold_head m :=
  lazymatch m with
  | ?f _ => unfold_head f
  | _ => unfold m
  end.

(** The behaviour of the server on the request or the list of the goal. *)
Local Ltac from_server :=
  lazymatch goal with
  | |- replies _ _ (handle ?R ?q c) => exact (rest_serves R q)
  | |- List.filter (fun _ => true) _ = _ => rewrite filter_all; from_server
  | |- List.filter _ (matching ?T ?l c) = _ => exact (rest_exact T l)
  | |- matching ?T ?l c = _ => exact (rest_exact T l)
  end.

Local Ltac reported := cbn [snd]; first [exact I | apply reports_404 | auto with go].

(** The lemma for the kind of method of the goal. *)
Local Ltac method_step :=
  lazymatch goal with
  | |- behaves _ (answer (client_GetFlow _ _ _ _)) _ => apply GetFlow_behaves
  | |- behaves _ (answer (client_SetOutpostProviders _ _ _ _)) _ => apply SetOutpostProviders_behaves
  | |- behaves _ (answer (list_all _ _ _ _ _ _)) _ => apply list_all_behaves; from_server
  | |- behaves _ (answer (execute _ _ _ _)) _ => apply execute_behaves; [from_server|reported]
  | |- behaves _ (answerNoContent (execute _ _ _ _)) _ => apply execute_unit_behaves; [from_server|reported]
  | |- behaves _ (answerNoContent (executeNoContent _ _ _ _)) _ =>
      apply executeNoContent_behaves; [from_server|reported]
  | |- behaves _ (_ ?m) _ => unfold_head m; method_step
  end.

(** C34: The client implements the interface as the in-memory authentik does. In front of a REST server whose
    requests have the effects of the in-memory authentik, whose filters match at least the objects that the client
    looks for, and which lists them in pages, every method of the client ends, without dereferencing a nil answer,
    in the state of the in-memory authentik and with its answer: the same objects, or an error of the same operation
    with the same status code. The theorems about the operator against the in-memory authentik so describe the
    operator with its real client. *)
Theorem client_refines_fake R (q : Interface.call R) answered :
  fake_handle R q c = Some answered ->
  exists m, client_method json_Unmarshal json_Marshal fuel R q = Some m /\ behaves (same_answer q) m answered.
Proof.
  destruct q; cbn [fake_handle client_method]; intros [= <-]; (eexists; split; [reflexivity|]); cbn [same_answer];
    method_step.
Qed.
End refinement.

(** ** A REST server

    Its filters match every object of the kind where that is exact after the client's own filter. *)
Definition values {K A} `{Countable K} (objects : gmap K A) : list A := snd <$> map_to_list objects.

Definition fake_matching (T : Type) (l : listing T) (c : Client) : list T :=
  match l in listing T return list T with
  | ProvidersProxyList _ => copyProxyProvider c <$> values c.(fk_proxyProviders)
  | ProvidersOauth2List _ => copyOAuth2Provider c <$> values c.(fk_oauth2Providers)
  | PoliciesBindingsList target => fake_ListPolicyBindings c target
  | OutpostsInstancesList _ => values c.(fk_outposts)
  | RbacRolesList _ => values c.(fk_roles)
  | RbacPermissionsRolesList uuid => fake_ListRoleObjectPermissions c uuid
  | RbacPermissionsAssignedByRolesList model pk => fake_ListObjectPermissionRoles c model pk
  | CoreGroupsList _ _ => values c.(fk_groups)
  | CoreUsersList _ _ => values c.(fk_users)
  | PoliciesAllList _ => values c.(fk_policies)
  | FlowsInstancesList_FlowUuid uuid => match c.(fk_flows) !! uuid with Some flow => [flow] | None => [] end
  | FlowsInstancesList_Slug _ => values c.(fk_flows)
  | CryptoCertificatekeypairsList _ => values c.(fk_keyPairs)
  | PropertymappingsProviderScopeList _ => values c.(fk_scopeMappings)
  end.

Definition http_answer {A B} (value : A -> B) (none : B) (answered : Client * ak A) : Client * execution B :=
  (answered.1,
   match answered.2 with
   | inl a => mkExecution (value a) (Some (mkResponse 200 None)) None
   | inr (APIError _ code body) =>
       mkExecution none (Some (mkResponse code (Some body))) (Some (mkOpenAPIError (Some body) "failed"))
   | inr (CallFailed _ message) => mkExecution none None (Some (mkOpenAPIError None message))
   end).

Lemma http_answer_replies {A B} (value : A -> B) none answered : replies value answered (http_answer value none answered).
Proof.
  destruct answered as [c [a|[op code body|op message]]]; unfold replies, http_answer; simpl; eauto 6.
  split_and!; try done. eexists. split; [done|]. simpl. lia.
Qed.

Definition fake_front (R : Type) (q : request R) (c : Client) : Client * R :=
  match q in request R return Client * R with
  | ListPage l page size => http_answer Some None (c, inl (page_of (fake_matching _ l c) page size))
  | AdminVersionRetrieve => http_answer Some None (c, inl c.(fk_version))
  | CoreApplicationsRetrieve slug => http_answer Some None (c, fake_GetApplication c slug)
  | CoreApplicationsCreate body => http_answer Some None (fake_CreateApplication c body)
  | CoreApplicationsPartialUpdate slug body => http_answer Some None (fake_PatchApplication c slug body)
  | CoreApplicationsDestroy slug => http_answer id () (fake_DeleteApplication c slug)
  | ProvidersProxyRetrieve pk => http_answer Some None (c, fake_GetProxyProvider c pk)
  | ProvidersProxyCreate body => http_answer Some None (fake_CreateProxyProvider c body)
  | ProvidersProxyPartialUpdate pk body => http_answer Some None (fake_PatchProxyProvider c pk body)
  | ProvidersProxyDestroy pk => http_answer id () (fake_DeleteProxyProvider c pk)
  | ProvidersOauth2Retrieve pk => http_answer Some None (c, fake_GetOAuth2Provider c pk)
  | ProvidersOauth2Create body => http_answer Some None (fake_CreateOAuth2Provider c body)
  | ProvidersOauth2PartialUpdate pk body => http_answer Some None (fake_PatchOAuth2Provider c pk body)
  | ProvidersOauth2Destroy pk => http_answer id () (fake_DeleteOAuth2Provider c pk)
  | PoliciesBindingsRetrieve uuid => http_answer Some None (c, fake_GetPolicyBinding c uuid)
  | PoliciesBindingsCreate body => http_answer Some None (fake_CreatePolicyBinding c body)
  | PoliciesBindingsPartialUpdate uuid body => http_answer Some None (fake_PatchPolicyBinding c uuid body)
  | PoliciesBindingsDestroy uuid => http_answer id () (fake_DeletePolicyBinding c uuid)
  | OutpostsInstancesRetrieve uuid => http_answer Some None (c, fake_GetOutpost c uuid)
  | OutpostsInstancesPartialUpdate uuid (Some pks) => http_answer Some None (fake_SetOutpostProviders c uuid pks)
  | OutpostsInstancesPartialUpdate uuid None => http_answer Some None (c, fake_GetOutpost c uuid)
  | RbacRolesRetrieve uuid => http_answer Some None (c, fake_GetRole c uuid)
  | RbacRolesCreate name => http_answer Some None (fake_CreateRole c name)
  | RbacPermissionsAssignedByRolesAssign role [permission] (Some model) (Some pk) =>
      http_answer id () (fake_AssignObjectPermission c role model pk permission)
  | RbacPermissionsAssignedByRolesUnassignPartialUpdate role [permission] (Some model) (Some pk) =>
      http_answer id () (fake_UnassignObjectPermission c role model pk permission)
  | CoreGroupsRetrieve uuid _ => http_answer Some None (c, get_or_404 (c.(fk_groups) !! uuid) "GetGroup" "Group")
  | CoreUsersRetrieve pk => http_answer Some None (c, get_or_404 (c.(fk_users) !! pk) "GetUser" "User")
  | PoliciesAllRetrieve uuid => http_answer Some None (c, get_or_404 (c.(fk_policies) !! uuid) "GetPolicy" "Policy")
  | CryptoCertificatekeypairsRetrieve uuid =>
      http_answer Some None (c, get_or_404 (c.(fk_keyPairs) !! uuid) "GetCertificateKeyPair" "CertificateKeyPair")
  | PropertymappingsProviderScopeRetrieve uuid =>
      http_answer Some None (c, get_or_404 (c.(fk_scopeMappings) !! uuid) "GetScopeMapping" "ScopeMapping")
  | RbacPermissionsAssignedByRolesAssign _ _ _ _ | RbacPermissionsAssignedByRolesUnassignPartialUpdate _ _ _ _ =>
      http_answer id () (c, inr (badRequest "" "permissions" "Not supported."))
  end.

Lemma fake_front_serves c R (q : request R) : serves_request fake_matching c q (fake_front R q c).
Proof. destruct q; cbn; repeat case_match; first [exact I | apply http_answer_replies]. Qed.

Lemma filter_values {K A} `{Countable K} (objects : gmap K A) (keep : A -> bool) :
  List.filter keep (values objects) = findAll objects keep.
Proof.
  unfold values, findAll. induction (snd <$> map_to_list objects) as [|a l IH]; [done|].
  rewrite filter_cons. simpl. rewrite IH. by destruct (keep a).
Qed.

Lemma filter_copies {K A} `{Countable K} (objects : gmap K A) (copy : A -> A) (keep : A -> bool) :
  (forall a, keep (copy a) = keep a) -> List.filter keep (copy <$> values objects) = copy <$> findAll objects keep.
Proof.
  intros Hk. rewrite <- filter_values. induction (values objects) as [|a l IH]; [done|].
  rewrite fmap_cons. cbn [List.filter]. rewrite Hk, IH. by destruct (keep a).
Qed.

Lemma filter_bindings (c : Client) target :
  List.filter (named PolicyBinding_Target target) (fake_ListPolicyBindings c target) = fake_ListPolicyBindings c target.
Proof.
  assert (Forall (fun b => PolicyBinding_Target b = target) (fake_ListPolicyBindings c target)) as Hall.
  { apply Forall_forall. intros b Hb. unfold fake_ListPolicyBindings, findAll in Hb.
    rewrite (merge_sort_Permutation binding_order_le) in Hb. apply list_elem_of_filter in Hb as [Hb _]. by apply bool_decide_eq_true in Hb. }
  induction Hall as [|b l Hb Hall IH]; [done|]. simpl. unfold named at 1. rewrite bool_decide_eq_true_2 by done. by rewrite IH.
Qed.

(** The listing of a server whose flows are stored under their UUID is exact. *)
Lemma fake_front_exact c T (l : listing T) :
  (forall uuid flow, c.(fk_flows) !! uuid = Some flow -> flow.(Flow_Pk) = uuid) ->
  exact_listing c l (fake_matching T l c).
Proof.
  intros Hflows. destruct l; cbn; try apply filter_values; try by apply filter_copies.
  - apply filter_bindings.
  - done.
  - done.
  - destruct (fk_flows c !! flowUuid) as [flow|] eqn:E; [|done]. simpl. unfold named.
    by rewrite bool_decide_eq_true_2 by (by apply Hflows).
Qed.

(** An authentik with a flow and an Outpost. *)
Definition example_front : Client := (AddOutpost (AddFlow (New (fun _ _ => [])) "default").1 "edge").1.

#[export] Instance example_RestServer : RestServer fake_matching fake_front example_front 3.
Proof.
  split.
  - apply fake_front_serves.
  - intros T l. apply fake_front_exact. intros uuid flow Hf. unfold example_front, AddFlow, AddOutpost in Hf. simpl in Hf.
    by apply lookup_singleton_Some in Hf as [<- <-].
  - intros T l. destruct l; vm_compute; try lia. case_match; vm_compute; lia.
Qed.

(** The Outpost is found through the list API. *)
Lemma client_refines_fake_witness :
  exists m, client_method (fun _ => None) (fun _ => None) 3 _ (FindOutpostsByName "edge") = Some m /\
    behaves fake_front example_front (same_answer (FindOutpostsByName "edge")) m
      (example_front, inl [mkOutpost "00000000-0000-4000-8000-000000000002" "edge" []]).
Proof.
  apply (client_refines_fake (fun _ => None) (fun _ => None) fake_matching fake_front example_front 3).
  - vm_compute. congruence.
  - vm_compute. reflexivity.
Defined.
