(* ===== verification/Marker.v ===== *)
(** * Ownership markers

    [internal/ownership/marker.go]: the ownership role and the object permissions that mark the objects the operator
    manages. The memory of a [Marker] is the name of the role and the UUID it remembers; its methods run in the
    monad of the calls. The mutex protects the remembered UUID only: a method is a sequence of calls whose accesses
    to the UUID are atomic. *)
From S2P Require Import Prelude Errors Effects Api Interface.

Definition roleNamePrefix : string := "authentik-operator-".

Definition ModelApplication : string := MODELENUM_AUTHENTIK_CORE_APPLICATION.
Definition ModelProxyProvider : string := MODELENUM_AUTHENTIK_PROVIDERS_PROXY_PROXYPROVIDER.
Definition ModelOAuth2Provider : string := MODELENUM_AUTHENTIK_PROVIDERS_OAUTH2_OAUTH2PROVIDER.
Definition ModelPolicyBinding : string := MODELENUM_AUTHENTIK_POLICIES_POLICYBINDING.

(** [RoleName(clusterName, ownerRole)]. *)
Definition RoleName (clusterName ownerRole : string) : result string :=
  if decide (ownerRole <> "") then Ok ownerRole
  else if decide (clusterName = "") then
    Err (ErrorString "either --cluster-name or --owner-role must be specified")
  else Ok (roleNamePrefix +:+ clusterName).

(** [Object]: the model and the primary key of an authentik object. *)
Record Object : Type := mkObject {
  Object_Model : string;
  Object_PK : string;
}.

#[export] Instance Object_eq_dec : EqDecision Object.
Proof. solve_decision. Defined.

#[export] Instance Object_countable : Countable Object.
Proof.
  apply (inj_countable' (fun o => (o.(Object_Model), o.(Object_PK))) (fun '(m, p) => mkObject m p)).
  by intros [].
Defined.

Definition model_separator : ascii := Ascii.ascii_of_nat 46.

Definition viewPermission (model : string) : string :=
  let '(appLabel, name, _) := strings_cut model_separator model in
  appLabel +:+ ".view_" +:+ name.

Definition modelOf (appLabel model : string) : string := appLabel +:+ "." +:+ model.

(** The [Marker] struct without its client. *)
Record Marker : Type := mkMarker {
  marker_roleName : string;
  marker_roleUUID : string;
}.

Definition set_roleUUID (uuid : string) (m : Marker) : Marker := mkMarker m.(marker_roleName) uuid.

Definition NewMarker (roleName : string) : Marker := mkMarker roleName "".

Section methods.
Abbreviation method A := (M call Marker A) (only parsing).

Definition findRole : method (option string) :=
  let* m := mget in
  let* roles := mwrap ("failed to find role " +:+ fmt_q m.(marker_roleName))
                  (akcall (FindRolesByName m.(marker_roleName))) in
  match roles with
  | [] => mret None
  | [role] => mret (Some role.(Role_Pk))
  | _ => mfail (ErrorString ("found " +:+ fmt_d (Z.of_nat (length roles)) +:+ " roles named " +:+ fmt_q m.(marker_roleName)))
  end.

Definition findOrCreateRole : method string :=
  let* found := findRole in
  match found with
  | Some uuid => mret uuid
  | None =>
      let* m := mget in
      let* role := mtry (akcall (CreateRole m.(marker_roleName))) in
      match role with
      | Ok role => mret role.(Role_Pk)
      | Err createErr =>
          let* found := findRole in
          match found with
          | None => mfail (Wrapped ("failed to create role " +:+ fmt_q m.(marker_roleName)) createErr)
          | Some uuid => mret uuid
          end
      end
  end.

(** Returns the UUID and the one that was remembered before. *)
Definition EnsureRole : method (string * string) :=
  let* uuid := findOrCreateRole in
  let* m := mget in
  let previous := m.(marker_roleUUID) in
  mmodify (set_roleUUID uuid) ;;
  mret (uuid, previous).

Definition role : method string :=
  let* m := mget in
  if decide (m.(marker_roleUUID) <> "") then mret m.(marker_roleUUID)
  else let* r := EnsureRole in mret r.1.

Definition Mark (object : Object) : method () :=
  let* role := role in
  mwrap ("failed to mark " +:+ object.(Object_Model) +:+ " " +:+ object.(Object_PK))
    (akcall (AssignObjectPermission role object.(Object_Model) object.(Object_PK) (viewPermission object.(Object_Model)))).

(** The error of an assignment that says the object does not exist. *)
Definition object_is_gone (err : error) : bool :=
  match errors_as as_api_error err with
  | Some (APIError _ code body) => bool_decide (code = StatusBadRequest) && strings_contains body "object_pk"
  | _ => false
  end.

Definition MarkIfExists (object : Object) : method bool :=
  let* role := role in
  let* r := mtry (akcall (AssignObjectPermission role object.(Object_Model) object.(Object_PK)
                            (viewPermission object.(Object_Model)))) in
  match r with
  | Err err =>
      if object_is_gone err then mret false
      else mfail (Wrapped ("failed to mark " +:+ object.(Object_Model) +:+ " " +:+ object.(Object_PK)) err)
  | Ok _ => mret true
  end.

Definition Unmark (object : Object) : method () :=
  let* role := role in
  mwrap ("failed to unmark " +:+ object.(Object_Model) +:+ " " +:+ object.(Object_PK))
    (akcall (UnassignObjectPermission role object.(Object_Model) object.(Object_PK)
               (viewPermission object.(Object_Model)))).

Definition permission_object (p : RoleObjectPermission) : Object :=
  mkObject (modelOf p.(Permission_AppLabel) p.(Permission_Model)) p.(Permission_ObjectPk).

Definition IsManaged (object : Object) : method bool :=
  let* role := role in
  let* assignments := mwrap ("failed to look up the owner of " +:+ object.(Object_Model) +:+ " " +:+ object.(Object_PK))
                        (akcall (ListObjectPermissionRoles object.(Object_Model) object.(Object_PK))) in
  mret (existsb (fun assignment =>
          bool_decide (assignment.(Assigned_RolePk) = role) &&
          existsb (fun permission => bool_decide (permission_object permission = object))
            assignment.(Assigned_ObjectPermissions)) assignments).

(** [ListManaged] returns a [Set], here the finite set of its objects. *)
Definition ListManaged : method (gset Object) :=
  let* role := role in
  let* m := mget in
  let* permissions := mwrap ("failed to list the markers of role " +:+ fmt_q m.(marker_roleName))
                        (akcall (ListRoleObjectPermissions role)) in
  mret (list_to_set (permission_object <$> permissions)).
End methods.

(** ** Permissions and models *)

(** A model identifier is an app label and a name separated by the first dot. *)
Definition well_formed_model (model : string) : Prop :=
  exists appLabel name, strings_cut model_separator model = (appLabel, name, true).

Lemma viewPermission_cut model appLabel name :
  strings_cut model_separator model = (appLabel, name, true) ->
  viewPermission model = appLabel +:+ ".view_" +:+ name /\ modelOf appLabel name = model.
Proof.
  intros H. unfold viewPermission, modelOf. rewrite H. split; [done|].
  symmetry. apply (strings_cut_join _ _ _ _ H).
Qed.

Lemma marked_models_well_formed model :
  model ∈ [ModelApplication; ModelProxyProvider; ModelOAuth2Provider; ModelPolicyBinding] ->
  well_formed_model model.
Proof.
  rewrite !elem_of_cons, elem_of_nil.
  intros [->|[->|[->|[->|[]]]]]; eexists _, _; reflexivity.
Qed.
