(* ===== verification/MarkerCache.v ===== *)
(** * The marker cache

    [internal/controller/markers.go] and [requeueAll] of [internal/controller/gc.go]: the cached list of the marked
    objects, which is read again when it is older than the resync interval. Every method holds the mutex of the
    cache, except that [collect] releases it between the objects. A write to a nil map panics. *)
From S2P Require Import Prelude Errors Effects Api Crd Interface Marker.

(** [mc_objects] is [None] for the nil map. [mc_roleEvents] says whether the channel of [requeueAll] exists. *)
Record markerCache : Type := mkMarkerCache {
  mc_marker : Marker;
  mc_ttl : Z;
  mc_roleEvents : bool;
  mc_objects : option (gset Object);
  mc_fetched : Z;
}.

Definition set_marker (m : Marker) (c : markerCache) : markerCache :=
  mkMarkerCache m c.(mc_ttl) c.(mc_roleEvents) c.(mc_objects) c.(mc_fetched).

Definition set_objects (objects : option (gset Object)) (c : markerCache) : markerCache :=
  mkMarkerCache c.(mc_marker) c.(mc_ttl) c.(mc_roleEvents) objects c.(mc_fetched).

Definition set_fetched (fetched : Z) (c : markerCache) : markerCache :=
  mkMarkerCache c.(mc_marker) c.(mc_ttl) c.(mc_roleEvents) c.(mc_objects) fetched.

Definition newMarkerCache (marker : Marker) (ttl : Z) (roleEvents : bool) : markerCache :=
  mkMarkerCache marker ttl roleEvents None 0.

Section methods.
Abbreviation method A := (M call markerCache A) (only parsing).

Definition with_marker {A} (m : M call Marker A) : method A := mzoom mc_marker set_marker m.

(** [requeueAll]: the resources are sent to the work queue by a goroutine. *)
Definition requeueAll : method () :=
  let* c := mget in
  if negb c.(mc_roleEvents) then mret ()
  else
    let* list := mtry (kubecall KubeListAll) in
    match list with
    | Err _ => mret ()
    | Ok apps => mcall (SendRoleEvents apps)
    end.

(** The condition of the first return of [refreshLocked]. *)
Definition fresh : method bool :=
  let* c := mget in
  match c.(mc_objects) with
  | None => mret false
  | Some _ => let* now := mcall Now in mret (bool_decide (now - c.(mc_fetched) < c.(mc_ttl)))
  end.

Definition refreshLocked : method () :=
  let* fresh := fresh in
  if fresh then mret ()
  else
    let* ensured := with_marker EnsureRole in
    let '(current, previous) := ensured in
    (if decide (previous <> "" /\ previous <> current) then requeueAll else mret ()) ;;
    let* set := with_marker ListManaged in
    mmodify (set_objects (Some set)) ;;
    let* now := mcall Now in
    mmodify (set_fetched now).

(** [_, ok := c.objects[object]]; a nil map has no entry. *)
Definition has_object (object : Object) (c : markerCache) : bool :=
  match c.(mc_objects) with None => false | Some objects => bool_decide (object ∈ objects) end.

(** [c.objects[object] = struct{}{}]. *)
Definition put_object (object : Object) : method () :=
  let* c := mget in
  match c.(mc_objects) with
  | None => mcrash
  | Some objects => mmodify (set_objects (Some ({[object]} ∪ objects)))
  end.

(** [delete(c.objects, object)]. *)
Definition delete_object (object : Object) : method () :=
  mmodify (fun c => set_objects ((fun objects => objects ∖ {[object]}) <$> c.(mc_objects)) c).

Definition contains (object : Object) : method bool :=
  refreshLocked ;;
  let* c := mget in
  mret (has_object object c).

Definition isManaged (object : Object) : method bool :=
  refreshLocked ;;
  let* c := mget in
  if has_object object c then mret true
  else
    let* managed := with_marker (IsManaged object) in
    if negb managed then mret false
    else put_object object ;; mret true.

Definition ensure (object : Object) : method () :=
  refreshLocked ;;
  let* c := mget in
  if has_object object c then mret ()
  else with_marker (Mark object) ;; put_object object.

Definition remove (object : Object) : method () :=
  with_marker (Unmark object) ;;
  delete_object object.

Definition removeIfOrphaned (object : Object) : method bool :=
  let* c := mget in
  if negb (has_object object c) then mret false
  else
    let* exists_ := with_marker (MarkIfExists object) in
    if exists_ then mret false
    else
      with_marker (Unmark object) ;;
      delete_object object ;;
      mret true.

(** The first critical section of [collect] and its loop. The count that Go returns next to an error is not used by
    its caller. *)
Definition collect : method Z :=
  mmodify (set_objects None) ;;
  let* r := mtry refreshLocked in
  let* c := mget in
  let objects := match c.(mc_objects) with None => [] | Some objects => elements objects end in
  match r with
  | Err err => mfail err
  | Ok _ =>
      mfold objects 0 (fun removed object =>
        let* orphaned := removeIfOrphaned object in
        mret (if orphaned then removed + 1 else removed))
  end.

(** [markerCollector.Start]: one collection per tick of the resync interval until the context is done, here after
    [ticks] ticks; an error is only logged. *)
Fixpoint collector_Start (ticks : nat) : method () :=
  match ticks with
  | O => mret ()
  | S ticks => mtry collect ;; collector_Start ticks
  end.

End methods.
