(* ===== verification/MarkerSpec.v ===== *)
(** * Markers on the server

    What the ownership markers promise, as a set of objects per role: the in-memory authentik ([Fake]) implements the
    set, the methods of [Marker] read and update it, and the marker cache is sound with respect to it. Calls that are
    not authentik calls, such as the clock and the Kubernetes API, may be answered in any way. *)
From S2P Require Import Prelude Errors Effects Api Crd Interface Fake Marker MarkerCache.

(** ** The environment *)

Definition fake_env : environment call Client :=
  mkEnv (fun _ _ _ => True)
    (fun R q c r c' =>
       match fake_handle R q c with
       | Some answer => c' = answer.1 /\ r = answer.2
       | None => c' = c
       end) False.

(** One step of symbolic execution against the in-memory authentik. *)
Ltac fake_step :=
  go_step;
  try match goal with
  | H : env_step fake_env _ _ _ _ _ |- _ => cbn [fake_env env_step fake_handle] in H;
      lazymatch type of H with
      | _ /\ _ => destruct H as [-> ->]; cbn [fst snd]; cbv beta iota
      | _ = _ => rewrite H; clear H
      end
  end.

(** ** The set of marked objects *)

(** An object permission as the operator assigns it. *)
Definition is_marker (p : objectPermission) : Prop :=
  well_formed_model p.(op_model) /\ p.(op_permission) = viewPermission p.(op_model).

Definition markers_ok (c : Client) : Prop := Forall is_marker c.(fk_objectPermissions).

Definition op_object (p : objectPermission) : Object := mkObject p.(op_model) p.(op_objectPK).

Definition marked (c : Client) (role : string) : gset Object :=
  list_to_set (op_object <$> filter (fun p => p.(op_role) = role) c.(fk_objectPermissions)).

Lemma elem_of_marked c role o :
  o ∈ marked c role <-> exists p, p ∈ c.(fk_objectPermissions) /\ p.(op_role) = role /\ op_object p = o.
Proof.
  unfold marked. rewrite elem_of_list_to_set, list_elem_of_fmap. setoid_rewrite list_elem_of_filter. naive_solver.
Qed.

(** The object of a listed permission is the marked one. *)
Lemma permission_object_marker p : is_marker p -> permission_object (toRoleObjectPermission p) = op_object p.
Proof.
  intros [(app & name & Hm) Hp]. unfold toRoleObjectPermission, permission_object, op_object.
  pose proof (viewPermission_cut _ _ _ Hm) as [Hv Hmodel]. rewrite Hp, Hv.
  assert (Hcut : strings_cut dot (app +:+ ".view_" +:+ name) = (app, "view_" +:+ name, true)).
  { change (app +:+ ".view_" +:+ name) with (app +:+ String dot ("view_" +:+ name)).
    apply strings_cut_app. by eapply strings_cut_before. }
  rewrite Hcut. change dot with model_separator. rewrite Hm. simpl. by rewrite Hmodel.
Qed.

(** ** The operations of the server *)

Lemma same_permission_spec role model pk permission p :
  same_permission role model pk permission p = true <->
  p.(op_role) = role /\ p.(op_model) = model /\ p.(op_objectPK) = pk /\ p.(op_permission) = permission.
Proof. unfold same_permission. rewrite !andb_true_iff, !bool_decide_eq_true. tauto. Qed.

(** What an RBAC operation leaves alone: the roles and every object. *)
Definition same_objects (c c' : Client) : Prop :=
  c'.(fk_roles) = c.(fk_roles) /\ c'.(fk_applications) = c.(fk_applications) /\
  c'.(fk_proxyProviders) = c.(fk_proxyProviders) /\ c'.(fk_oauth2Providers) = c.(fk_oauth2Providers) /\
  c'.(fk_bindings) = c.(fk_bindings) /\ c'.(fk_outposts) = c.(fk_outposts).

(** The markers of [role] become [objects], those of the other roles are unchanged. *)
Definition marks_become (c c' : Client) (role : string) (objects : gset Object) : Prop :=
  markers_ok c' /\ same_objects c c' /\ marked c' role = objects /\
  forall role', role' <> role -> marked c' role' = marked c role'.

(** At most one primary key was handed out. *)
Definition sequence_step (c c' : Client) : Prop :=
  c'.(fk_sequence) = c.(fk_sequence) \/ c'.(fk_sequence) = int32_wrap (c.(fk_sequence) + 1).

Lemma sequence_step_same c : sequence_step c c.
Proof. by left. Qed.

(** At most one call, which assigned a permission. *)
Definition assigned_at_most (c c' : Client) : Prop :=
  c' = c \/ exists role model pk permission, c' = (fake_AssignObjectPermission c role model pk permission).1.

Lemma assigned_sequence c c' : assigned_at_most c c' -> sequence_step c c'.
Proof.
  intros [->|(role & model & pk & permission & ->)]; [by left|]. unfold fake_AssignObjectPermission.
  destruct (_ !! role); [|by left]. destruct (negb _); [by left|]. destruct (existsb _ _); [by left|by right].
Qed.

Lemma assigned_same c : assigned_at_most c c.
Proof. by left. Qed.

#[export] Hint Resolve assigned_same assigned_sequence : go.

#[export] Hint Resolve sequence_step_same : go.

Lemma same_objects_refl c : same_objects c c.
Proof. by unfold same_objects. Qed.

#[export] Hint Resolve same_objects_refl : go.

Lemma marks_become_same c role : markers_ok c -> marks_become c c role (marked c role).
Proof. by intros. Qed.

Lemma assign_marks c role o :
  markers_ok c -> is_Some (c.(fk_roles) !! role) -> well_formed_model o.(Object_Model) ->
  objectExists c o.(Object_Model) o.(Object_PK) = true ->
  exists c',
    fake_AssignObjectPermission c role o.(Object_Model) o.(Object_PK) (viewPermission o.(Object_Model)) = (c', inl ()) /\
    marks_become c c' role ({[o]} ∪ marked c role) /\ sequence_step c c'.
Proof.
  intros Hok [r Hr] Hm Ho. unfold fake_AssignObjectPermission. rewrite Hr, Ho. simpl.
  destruct (existsb _ _) eqn:E.
  - exists c. split; [done|]. split; [|by left]. split_and!; try done. apply existsb_elem_of in E as (p & Hp & Hs).
    apply same_permission_spec in Hs as (H1 & H2 & H3 & H4).
    assert (o ∈ marked c role); [|set_solver]. apply elem_of_marked. exists p. split_and!; try done.
    unfold op_object. rewrite H2, H3. by destruct o.
  - eexists. split; [done|]. split; [|by right]. unfold marks_become, markers_ok, same_objects. simpl. split_and!; try done.
    + apply Forall_app. split; [done|]. by repeat constructor.
    + apply set_eq. intros o'. rewrite elem_of_union, elem_of_singleton, !elem_of_marked. simpl.
      setoid_rewrite elem_of_app. setoid_rewrite list_elem_of_singleton. split.
      * intros (p & [Hp| ->] & H1 & <-); [eauto|left; by destruct o].
      * intros [->|(p & Hp & H1 & H2)]; [|eauto]. eexists. split; [by right|]. split; [done|by destruct o].
    + intros role' Hne. apply set_eq. intros o'. rewrite !elem_of_marked. simpl.
      setoid_rewrite elem_of_app. setoid_rewrite list_elem_of_singleton. split; [|naive_solver].
      intros (p & [Hp| ->] & H1 & H2); [eauto|]. by destruct Hne.
Qed.

Lemma assign_missing c role o permission :
  is_Some (c.(fk_roles) !! role) -> objectExists c o.(Object_Model) o.(Object_PK) = false ->
  fake_AssignObjectPermission c role o.(Object_Model) o.(Object_PK) permission =
  (c, inr (badRequest "AssignObjectPermission" "object_pk" "Object does not exist.")).
Proof. intros [r Hr] Ho. unfold fake_AssignObjectPermission. by rewrite Hr, Ho. Qed.

Lemma unassign_marks c role o :
  markers_ok c -> is_Some (c.(fk_roles) !! role) ->
  exists c',
    fake_UnassignObjectPermission c role o.(Object_Model) o.(Object_PK) (viewPermission o.(Object_Model)) = (c', inl ()) /\
    marks_become c c' role (marked c role ∖ {[o]}) /\ c'.(fk_sequence) = c.(fk_sequence).
Proof.
  intros Hok [r Hr]. unfold fake_UnassignObjectPermission. rewrite Hr. eexists. split; [done|]. split; [|done].
  unfold markers_ok in Hok. rewrite Forall_forall in Hok.
  assert (Hkeep : forall p, p ∈ c.(fk_objectPermissions) ->
    same_permission role o.(Object_Model) o.(Object_PK) (viewPermission o.(Object_Model)) p = false <->
    ~ (p.(op_role) = role /\ op_object p = o)).
  { intros p Hp. rewrite <- not_true_iff_false, same_permission_spec. destruct (Hok p Hp) as [_ Hv].
    unfold op_object. destruct o as [m k]; simpl. rewrite Hv. naive_solver. }
  unfold marks_become, markers_ok, same_objects. simpl. split_and!; try done.
  - apply Forall_forall. intros p [_ Hp]%list_elem_of_filter. auto.
  - apply set_eq. intros o'. rewrite elem_of_difference, elem_of_singleton, !elem_of_marked. simpl.
    setoid_rewrite list_elem_of_filter. split.
    + intros (p & [Hs Hp] & H1 & <-). rewrite Hkeep in Hs by done. naive_solver.
    + intros [(p & Hp & H1 & <-) Hne]. exists p. rewrite Hkeep by done. naive_solver.
  - intros role' Hne. apply set_eq. intros o'. rewrite !elem_of_marked. simpl. setoid_rewrite list_elem_of_filter.
    split; [naive_solver|]. intros (p & Hp & H1 & H2). exists p. rewrite Hkeep by done. naive_solver.
Qed.

Lemma listed_objects c role :
  markers_ok c -> permission_object <$> fake_ListRoleObjectPermissions c role =
                  op_object <$> filter (fun p => p.(op_role) = role) c.(fk_objectPermissions).
Proof.
  intros Hok. unfold fake_ListRoleObjectPermissions. rewrite <- list_fmap_compose. apply Forall_fmap_ext.
  apply Forall_forall. intros p [_ Hp]%list_elem_of_filter. unfold markers_ok in Hok. rewrite Forall_forall in Hok.
  by apply permission_object_marker, Hok.
Qed.

(** ** The methods of the marker *)

(** The UUID of the role is remembered and the role exists. *)
Definition role_ready (m : Marker) (c : Client) : Prop :=
  m.(marker_roleUUID) <> "" /\ is_Some (c.(fk_roles) !! m.(marker_roleUUID)).

(** The objects marked for the operator. *)
Definition my_marks (m : Marker) (c : Client) : gset Object := marked c m.(marker_roleUUID).

Lemma mwp_role E m (w : Client) Q :
  m.(marker_roleUUID) <> "" -> Q m (Ok m.(marker_roleUUID)) w -> mwp E role m w Q.
Proof. intros Hm HQ. unfold role. repeat go_step. rewrite decide_True by done. by repeat go_step. Qed.

Lemma Mark_spec m c o (Q : Marker -> result () -> Client -> Prop) :
  role_ready m c -> markers_ok c -> well_formed_model o.(Object_Model) ->
  objectExists c o.(Object_Model) o.(Object_PK) = true ->
  (forall c', marks_become c c' m.(marker_roleUUID) ({[o]} ∪ my_marks m c) -> assigned_at_most c c' -> Q m (Ok ()) c') ->
  mwp fake_env (Mark o) m c Q.
Proof.
  intros [Hu Hr] Hok Hm Ho HQ. destruct (assign_marks c _ o Hok Hr Hm Ho) as (c' & Ha & Hc' & Hseq).
  unfold Mark. go_step. apply mwp_role; [done|]. repeat fake_step. rewrite Ha. repeat go_step. apply HQ; [done|].
  right. eexists _, _, _, _. by rewrite Ha.
Qed.

Lemma Unmark_spec m c o (Q : Marker -> result () -> Client -> Prop) :
  role_ready m c -> markers_ok c ->
  (forall c', marks_become c c' m.(marker_roleUUID) (my_marks m c ∖ {[o]}) -> c'.(fk_sequence) = c.(fk_sequence) ->
     Q m (Ok ()) c') ->
  mwp fake_env (Unmark o) m c Q.
Proof.
  intros [Hu Hr] Hok HQ. destruct (unassign_marks c _ o Hok Hr) as (c' & Ha & Hc' & Hseq).
  unfold Unmark. go_step. apply mwp_role; [done|]. repeat fake_step. rewrite Ha. repeat go_step. by apply HQ.
Qed.

Lemma MarkIfExists_spec m c o (Q : Marker -> result bool -> Client -> Prop) :
  role_ready m c -> markers_ok c -> well_formed_model o.(Object_Model) ->
  (forall c', objectExists c o.(Object_Model) o.(Object_PK) = true ->
     marks_become c c' m.(marker_roleUUID) ({[o]} ∪ my_marks m c) -> Q m (Ok true) c') ->
  (objectExists c o.(Object_Model) o.(Object_PK) = false -> Q m (Ok false) c) ->
  mwp fake_env (MarkIfExists o) m c Q.
Proof.
  intros [Hu Hr] Hok Hm Ht Hf. unfold MarkIfExists. go_step. apply mwp_role; [done|].
  destruct (objectExists c o.(Object_Model) o.(Object_PK)) eqn:Ho.
  - destruct (assign_marks c _ o Hok Hr Hm Ho) as (c' & Ha & Hc' & _).
    repeat fake_step. rewrite Ha. repeat go_step. by apply Ht.
  - repeat fake_step. rewrite (assign_missing c _ o _ Hr Ho). cbn -[strings_contains].
    rewrite bool_decide_true by done.
    replace (strings_contains _ "object_pk") with true by (vm_compute; reflexivity). simpl. repeat go_step. by apply Hf.
Qed.

Lemma ListManaged_spec m c (Q : Marker -> result (gset Object) -> Client -> Prop) :
  role_ready m c -> markers_ok c -> Q m (Ok (my_marks m c)) c -> mwp fake_env ListManaged m c Q.
Proof.
  intros [Hu Hr] Hok HQ. unfold ListManaged. go_step. apply mwp_role; [done|]. repeat fake_step.
  rewrite listed_objects by done. done.
Qed.

Lemma listed_roles c o role :
  markers_ok c -> is_Some (c.(fk_roles) !! role) ->
  existsb (fun assignment => bool_decide (assignment.(Assigned_RolePk) = role) &&
      existsb (fun permission => bool_decide (permission_object permission = o)) assignment.(Assigned_ObjectPermissions))
    (fake_ListObjectPermissionRoles c o.(Object_Model) o.(Object_PK)) = bool_decide (o ∈ marked c role).
Proof.
  intros Hok [r Hr]. apply eq_bool_prop_intro. rewrite bool_decide_spec, Is_true_true, existsb_elem_of.
  unfold fake_ListObjectPermissionRoles. split.
  - intros (a & Ha & Hb). rewrite andb_true_iff, bool_decide_eq_true, existsb_elem_of in Hb.
    destruct Hb as [Hrole (p & Hp & Ho)]. apply bool_decide_eq_true in Ho.
    rewrite list_elem_of_omap in Ha. destruct Ha as ([uuid role'] & _ & Ha).
    destruct (existsb _ _); simplify_eq/=.
    assert (Hin : permission_object p ∈ permission_object <$> fake_ListRoleObjectPermissions c uuid)
      by by apply list_elem_of_fmap_2.
    rewrite listed_objects in Hin by done. apply elem_of_marked.
    apply list_elem_of_fmap in Hin as (q & -> & [? ?]%list_elem_of_filter). eauto.
  - intros Hin. exists (mkRoleAssignedObjectPermission role r.(Role_Name) (fake_ListRoleObjectPermissions c role)). split.
    + rewrite list_elem_of_omap. exists (role, r). split; [by apply elem_of_map_to_list|].
      assert (existsb (fun p => bool_decide (p.(op_role) = role) && bool_decide (p.(op_model) = o.(Object_Model)) &&
        bool_decide (p.(op_objectPK) = o.(Object_PK))) c.(fk_objectPermissions) = true) as ->; [|done].
      apply elem_of_marked in Hin as (p & Hp & Hrole & <-). apply existsb_elem_of. exists p. split; [done|].
      by rewrite !andb_true_iff, !bool_decide_eq_true.
    + rewrite andb_true_iff, bool_decide_eq_true, existsb_elem_of. split; [done|]. simpl.
      assert (Hl : o ∈ permission_object <$> fake_ListRoleObjectPermissions c role).
      { rewrite listed_objects by done. apply elem_of_marked in Hin as (p & Hp & Hrole & <-).
        apply list_elem_of_fmap. exists p. by rewrite list_elem_of_filter. }
      apply list_elem_of_fmap in Hl as (p & -> & Hp). exists p. by rewrite bool_decide_eq_true.
Qed.

Lemma IsManaged_spec m c o (Q : Marker -> result bool -> Client -> Prop) :
  role_ready m c -> markers_ok c -> Q m (Ok (bool_decide (o ∈ my_marks m c))) c -> mwp fake_env (IsManaged o) m c Q.
Proof.
  intros [Hu Hr] Hok HQ. unfold IsManaged. go_step. apply mwp_role; [done|]. repeat fake_step.
  rewrite listed_roles by done. done.
Qed.

(** ** The ownership role *)

(** The remembered role is the only role with the name of the operator. *)
Definition role_unique (m : Marker) (c : Client) : Prop :=
  exists r, c.(fk_roles) !! m.(marker_roleUUID) = Some r /\ r.(Role_Pk) = m.(marker_roleUUID) /\
    r.(Role_Name) = m.(marker_roleName) /\
    forall u r', c.(fk_roles) !! u = Some r' -> r'.(Role_Name) = m.(marker_roleName) -> u = m.(marker_roleUUID).

Lemma findAll_unique {K A} `{Countable K} (m : gmap K A) (keep : A -> bool) k a :
  m !! k = Some a -> keep a = true -> (forall k' a', m !! k' = Some a' -> keep a' = true -> k' = k) ->
  findAll m keep = [a].
Proof.
  intros Hk Ha Hu. unfold findAll. apply Permutation_singleton_r.
  rewrite <- (map_to_list_delete m k a Hk). simpl. rewrite filter_cons_True by done.
  apply Permutation_skip. replace (filter _ _) with (@nil A); [done|]. symmetry. apply elem_of_nil_inv.
  intros x [Hx Hin]%list_elem_of_filter. apply list_elem_of_fmap in Hin as ([k' a'] & -> & Hin).
  apply elem_of_map_to_list, lookup_delete_Some in Hin as [Hne Hk']. by apply Hne, symmetry, (Hu k' a').
Qed.

(** [EnsureRole] finds the role again and changes nothing. *)
Lemma EnsureRole_spec m c (Q : Marker -> result (string * string) -> Client -> Prop) :
  role_unique m c -> Q m (Ok (m.(marker_roleUUID), m.(marker_roleUUID))) c -> mwp fake_env EnsureRole m c Q.
Proof.
  intros (r & Hr & Hpk & Hname & Hu) HQ. unfold EnsureRole, findOrCreateRole, findRole. repeat fake_step.
  unfold fake_FindRolesByName. rewrite (findAll_unique _ _ _ r Hr).
  - cbn. by rewrite Hpk; destruct m.
  - by rewrite bool_decide_true.
  - intros u r' Hu' Hn%bool_decide_eq_true. by eapply Hu.
Qed.

(** ** The marker cache *)

(** The cache only holds marked objects, and its role is the remembered one. *)
Record cache_ok (mc : markerCache) (c : Client) : Prop := {
  cache_role_set : mc.(mc_marker).(marker_roleUUID) <> "";
  cache_role_unique : role_unique mc.(mc_marker) c;
  cache_markers_ok : markers_ok c;
  cache_sound : forall objects, mc.(mc_objects) = Some objects -> objects ⊆ my_marks mc.(mc_marker) c;
}.

Lemma cache_ok_ready mc c : cache_ok mc c -> role_ready mc.(mc_marker) c.
Proof. intros [Hs (r & Hr & _) _ _]. split; [done|by exists r]. Qed.

(** The cache after the methods: the marker is the same, the objects are known, and a nil cache was read again. *)
Definition cache_after (mc mc' : markerCache) (c' : Client) : Prop :=
  mc'.(mc_marker) = mc.(mc_marker) /\ cache_ok mc' c' /\ is_Some mc'.(mc_objects).

Lemma refreshLocked_spec mc c (Q : markerCache -> result () -> Client -> Prop) :
  cache_ok mc c ->
  (forall mc', cache_after mc mc' c -> (mc.(mc_objects) = None -> mc'.(mc_objects) = Some (my_marks mc.(mc_marker) c)) ->
     Q mc' (Ok ()) c) ->
  mwp fake_env refreshLocked mc c Q.
Proof.
  intros Hok HQ. pose proof (cache_ok_ready _ _ Hok) as Hready. destruct Hok as [Hs Hu Hm Hsound].
  assert (Hrest : forall mc', mc'.(mc_marker) = mc.(mc_marker) ->
    mwp fake_env (let* ensured := with_marker EnsureRole in
      let '(current, previous) := ensured in
      (if decide (previous <> "" /\ previous <> current) then requeueAll else mret ()) ;;
      let* set := with_marker ListManaged in
      mmodify (set_objects (Some set)) ;;
      let* now := mcall Now in
      mmodify (set_fetched now)) mc' c Q).
  { intros mc' Hmc. unfold with_marker. repeat fake_step. rewrite Hmc. apply EnsureRole_spec; [done|].
    rewrite decide_False by tauto. repeat fake_step. rewrite <- Hmc.
    assert (set_marker (mc_marker mc') mc' = mc') as -> by by destruct mc'. rewrite Hmc.
    apply ListManaged_spec; [done|done|]. repeat fake_step.
    apply HQ; [|done]. split; [done|]. split; [|by eexists]. split; try done. intros objects [= <-]. done. }
  unfold refreshLocked, fresh. repeat fake_step. destruct mc.(mc_objects) as [objects|] eqn:Eo.
  - repeat fake_step. case_bool_decide; [|by apply Hrest]. repeat fake_step. apply HQ; [|done]. split; [done|].
    split; [|by rewrite Eo]. split; try done. by rewrite Eo.
  - go_step. by apply Hrest.
Qed.

(** The markers changed and the cache followed: the cache is still sound. *)
Lemma cache_ok_update mc mc' c c' objects' :
  cache_ok mc c -> mc'.(mc_marker) = mc.(mc_marker) ->
  marks_become c c' mc.(mc_marker).(marker_roleUUID) objects' ->
  (forall objects, mc'.(mc_objects) = Some objects -> objects ⊆ objects') -> cache_ok mc' c'.
Proof.
  intros [Hs (r & Hr) Hm Hsound] Hmc (Hm' & (Hroles & _) & Hmine & _) Ho. split; rewrite ?Hmc; try done.
  - exists r. by rewrite Hroles.
  - intros objects E. unfold my_marks. rewrite Hmine. by apply Ho.
Qed.

(** A method of the marker under the cache. *)
Lemma with_marker_spec {A} (m : M call Marker A) mc c (Q : markerCache -> result A -> Client -> Prop) :
  mwp fake_env m mc.(mc_marker) c (fun m' r c' => m' = mc.(mc_marker) /\ Q mc r c') ->
  mwp fake_env (with_marker m) mc c Q.
Proof.
  intros Hm. unfold with_marker. go_step. eapply mwp_mono; [exact Hm|]. intros m' r c' [-> HQ].
  by assert (set_marker (mc_marker mc) mc = mc) as -> by by destruct mc.
Qed.

Lemma put_object_spec mc c o (Q : markerCache -> result () -> Client -> Prop) objects :
  mc.(mc_objects) = Some objects -> Q (set_objects (Some ({[o]} ∪ objects)) mc) (Ok ()) c ->
  mwp fake_env (put_object o) mc c Q.
Proof. intros E HQ. unfold put_object. repeat go_step. rewrite E. by repeat go_step. Qed.

Lemma has_object_spec o mc : has_object o mc = true <-> exists objects, mc.(mc_objects) = Some objects /\ o ∈ objects.
Proof. unfold has_object. destruct mc.(mc_objects); rewrite ?bool_decide_eq_true; naive_solver. Qed.

Lemma removeIfOrphaned_spec mc c o objects (Q : markerCache -> result bool -> Client -> Prop) :
  cache_ok mc c -> mc.(mc_objects) = Some objects -> o ∈ objects -> well_formed_model o.(Object_Model) ->
  (forall c', objectExists c o.(Object_Model) o.(Object_PK) = true ->
     marks_become c c' mc.(mc_marker).(marker_roleUUID) (my_marks mc.(mc_marker) c) -> Q mc (Ok false) c') ->
  (forall c', objectExists c o.(Object_Model) o.(Object_PK) = false ->
     marks_become c c' mc.(mc_marker).(marker_roleUUID) (my_marks mc.(mc_marker) c ∖ {[o]}) ->
     Q (set_objects (Some (objects ∖ {[o]})) mc) (Ok true) c') ->
  mwp fake_env (removeIfOrphaned o) mc c Q.
Proof.
  intros Hok Eo Hin Hm Hkeep Hgone. pose proof (cache_ok_ready _ _ Hok) as Hready.
  unfold removeIfOrphaned. repeat go_step. rewrite (proj2 (has_object_spec _ _)) by eauto. simpl. go_step.
  apply with_marker_spec, MarkIfExists_spec; [done|by apply Hok|done| |].
  - intros c' Ho Hc'. split; [done|]. repeat go_step. apply Hkeep; [done|].
    replace (my_marks (mc_marker mc) c) with ({[o]} ∪ my_marks (mc_marker mc) c) at 1; [done|].
    apply (cache_sound _ _ Hok) in Eo. set_solver.
  - intros Ho. split; [done|]. go_step. apply with_marker_spec, Unmark_spec; [done|by apply Hok|].
    intros c' Hc' _. split; [done|]. unfold delete_object. repeat go_step. rewrite Eo. by apply Hgone.
Qed.

(** [contains], [ensure] and [remove] on a sound cache. *)
Lemma cache_contains_spec mc c o (Q : markerCache -> result bool -> Client -> Prop) :
  cache_ok mc c ->
  (forall mc' b, cache_ok mc' c -> mc'.(mc_marker) = mc.(mc_marker) -> (b = true -> o ∈ my_marks mc.(mc_marker) c) ->
     Q mc' (Ok b) c) ->
  mwp fake_env (contains o) mc c Q.
Proof.
  intros Hok HQ. unfold contains. go_step. apply refreshLocked_spec; [done|]. intros mc' (Hmc & Hok' & [objects Eo]) _.
  repeat go_step. apply HQ; [done|done|]. rewrite has_object_spec, <- Hmc.
  intros (? & E & ?). apply (cache_sound _ _ Hok') in E. set_solver.
Qed.

Lemma cache_isManaged_spec mc c o (Q : markerCache -> result bool -> Client -> Prop) :
  cache_ok mc c ->
  (forall mc', cache_ok mc' c -> mc'.(mc_marker) = mc.(mc_marker) ->
     Q mc' (Ok (bool_decide (o ∈ my_marks mc.(mc_marker) c))) c) ->
  mwp fake_env (isManaged o) mc c Q.
Proof.
  intros Hok HQ. unfold isManaged. go_step. apply refreshLocked_spec; [done|]. intros mc' (Hmc & Hok' & [objects Eo]) _.
  repeat go_step. pose proof (cache_sound _ _ Hok' _ Eo) as Hsub. rewrite Hmc in Hsub.
  destruct (has_object o mc') eqn:Eh.
  { apply has_object_spec in Eh as (? & ? & ?). simplify_eq. go_step.
    rewrite <- (bool_decide_true (o ∈ my_marks mc.(mc_marker) c)) by set_solver. by apply HQ. }
  go_step. apply with_marker_spec, IsManaged_spec; [by apply cache_ok_ready|by apply Hok'|]. rewrite Hmc. split; [done|].
  case_bool_decide as Hin; simpl; [|go_step; by apply HQ].
  go_step. eapply put_object_spec; [done|]. repeat go_step. apply HQ; [|done].
  destruct Hok'. split; try done. intros ? [= <-]. unfold my_marks in *. simpl. rewrite Hmc. set_solver.
Qed.

Lemma cache_ensure_spec mc c o (Q : markerCache -> result () -> Client -> Prop) :
  cache_ok mc c -> well_formed_model o.(Object_Model) -> objectExists c o.(Object_Model) o.(Object_PK) = true ->
  (forall mc' c', cache_ok mc' c' -> mc'.(mc_marker) = mc.(mc_marker) -> same_objects c c' -> assigned_at_most c c' ->
     my_marks mc'.(mc_marker) c' = {[o]} ∪ my_marks mc.(mc_marker) c -> Q mc' (Ok ()) c') ->
  mwp fake_env (ensure o) mc c Q.
Proof.
  intros Hok Hm Ho HQ. unfold ensure. go_step. apply refreshLocked_spec; [done|].
  intros mc' (Hmc & Hok' & [objects Eo]) _.
  repeat go_step. pose proof (cache_sound _ _ Hok' _ Eo) as Hsub. destruct (has_object o mc') eqn:Eh.
  { apply has_object_spec in Eh as (? & ? & ?). simplify_eq. repeat go_step. apply HQ; auto with go.
    rewrite <- Hmc. set_solver. }
  go_step. apply with_marker_spec, Mark_spec; [by apply cache_ok_ready|by apply Hok'|done|done|].
  intros c' Hc' Hseq. split; [done|]. eapply put_object_spec; [done|]. apply HQ; [|done|apply Hc'|done|].
  - eapply cache_ok_update; [apply Hok'|done|done|]. intros ? [= <-]. set_solver.
  - unfold my_marks at 1. simpl. rewrite <- Hmc. apply Hc'.
Qed.

Lemma cache_remove_spec mc c o (Q : markerCache -> result () -> Client -> Prop) :
  cache_ok mc c ->
  (forall mc' c', cache_ok mc' c' -> mc'.(mc_marker) = mc.(mc_marker) -> same_objects c c' ->
     c'.(fk_sequence) = c.(fk_sequence) -> my_marks mc'.(mc_marker) c' = my_marks mc.(mc_marker) c ∖ {[o]} ->
     has_object o mc' = false -> Q mc' (Ok ()) c') ->
  mwp fake_env (remove o) mc c Q.
Proof.
  intros Hok HQ. unfold remove. go_step. apply with_marker_spec, Unmark_spec; [by apply cache_ok_ready|by apply Hok|].
  intros c' Hc' Hseq. split; [done|]. unfold delete_object. repeat go_step. apply HQ; [|done|apply Hc'|done|apply Hc'|].
  - eapply cache_ok_update; [done|done|done|]. simpl. intros objects'. destruct mc.(mc_objects) eqn:Eo; [|done].
    intros [= <-]. apply (cache_sound _ _ Hok) in Eo. set_solver.
  - unfold has_object. simpl. destruct mc.(mc_objects); [|done]. simpl. apply bool_decide_eq_false. set_solver.
Qed.

(** ** The collection of the markers of missing objects *)

Lemma marked_well_formed c role o : markers_ok c -> o ∈ marked c role -> well_formed_model o.(Object_Model).
Proof.
  unfold markers_ok. rewrite Forall_forall, elem_of_marked. intros Hok (p & Hp & _ & <-). by apply Hok.
Qed.

Lemma objectExists_same c c' model pk : same_objects c c' -> objectExists c' model pk = objectExists c model pk.
Proof. intros (_ & Ha & Hp & Ho & Hb & _). unfold objectExists. by rewrite Ha, Hp, Ho, Hb. Qed.

(** The objects of a set that the server does not have. *)
Definition missing (c : Client) (objects : gset Object) : gset Object :=
  filter (fun o => objectExists c o.(Object_Model) o.(Object_PK) = false) objects.

Lemma missing_size c objects :
  size (missing c objects) =
  length (filter (fun o => objectExists c o.(Object_Model) o.(Object_PK) = false) (elements objects)).
Proof.
  unfold size, set_size, missing; simpl. apply Permutation_length, NoDup_Permutation; [apply NoDup_elements| |].
  - apply NoDup_filter, NoDup_elements.
  - intros o. rewrite list_elem_of_filter, !elem_of_elements, elem_of_filter. done.
Qed.

(** The loop of [collect] after the objects [seen]. *)
Definition collected (mc : markerCache) (c : Client) (seen : list Object) (removed : Z) (mc' : markerCache)
    (c' : Client) : Prop :=
  mc'.(mc_marker) = mc.(mc_marker) /\ cache_ok mc' c' /\
  marks_become c c' mc.(mc_marker).(marker_roleUUID) (my_marks mc.(mc_marker) c ∖ missing c (list_to_set seen)) /\
  mc'.(mc_objects) = Some (my_marks mc.(mc_marker) c') /\
  removed = Z.of_nat (length (filter (fun o => objectExists c o.(Object_Model) o.(Object_PK) = false) seen)).

Lemma marks_become_trans c1 c2 c3 role o2 o3 :
  marks_become c1 c2 role o2 -> marks_become c2 c3 role o3 -> marks_become c1 c3 role o3.
Proof.
  intros (_ & (H1 & H2 & H3 & H4 & H5 & H6) & _ & Ho) (Hm & (? & ? & ? & ? & ? & ?) & Hmine & Ho').
  split_and!; try congruence; try done. { split_and!; congruence. } intros r Hr. by rewrite Ho', Ho.
Qed.

Lemma collect_step mc c seen o rest removed mc' c' :
  elements (my_marks mc.(mc_marker) c) = seen ++ o :: rest -> markers_ok c ->
  collected mc c seen removed mc' c' ->
  mwp fake_env (let* orphaned := removeIfOrphaned o in mret (if orphaned then removed + 1 else removed)) mc' c'
    (fun s r w => match r with Ok acc => collected mc c (seen ++ [o]) acc s w | Err _ => False end).
Proof.
  intros Helems Hm (Hmc & Hok & Hmarks & Eo & ->).
  assert (Hin : o ∈ my_marks (mc_marker mc) c).
  { apply elem_of_elements. rewrite Helems. apply elem_of_app. right. by left. }
  assert (Hseen : o ∉ seen).
  { pose proof (NoDup_elements (my_marks (mc_marker mc) c)) as Hnd. rewrite Helems in Hnd.
    apply NoDup_app in Hnd as (_ & Hd & _). intros Ho. apply (Hd o Ho). by left. }
  pose proof (proj1 (proj2 Hmarks)) as Hsame. pose proof (proj1 (proj2 (proj2 Hmarks))) as Hmine.
  fold (my_marks (mc_marker mc) c') in Hmine.
  go_step. eapply removeIfOrphaned_spec; [done|exact Eo| |by eapply marked_well_formed| |].
  - rewrite Hmine. apply elem_of_difference. split; [done|]. unfold missing. rewrite elem_of_filter, elem_of_list_to_set. tauto.
  - rewrite (objectExists_same _ _ _ _ Hsame), Hmc. intros c'' Ho Hc''. go_step.
    pose proof (proj1 (proj2 (proj2 Hc''))) as Hsub. fold (my_marks (mc_marker mc) c'') in Hsub. split_and!; [done| | |by rewrite Hsub|].
    + eapply cache_ok_update; [exact Hok|done|by rewrite Hmc|]. intros ? E. rewrite Eo in E. by injection E as <-.
    + replace (my_marks (mc_marker mc) c ∖ missing c (list_to_set (seen ++ [o]))) with (my_marks (mc_marker mc) c').
      { by eapply marks_become_trans. }
      rewrite Hmine. apply set_eq. intros x. unfold missing.
      rewrite !elem_of_difference, !elem_of_filter, !elem_of_list_to_set, elem_of_app, list_elem_of_singleton.
      split; [|tauto]. intros [Hx Hn]. split; [done|]. intros [Hf [?| ->]]; [tauto|congruence].
    + rewrite filter_app, filter_cons_False by congruence. by rewrite app_nil_r.
  - rewrite (objectExists_same _ _ _ _ Hsame), Hmc. intros c'' Ho Hc''. go_step.
    pose proof (proj1 (proj2 (proj2 Hc''))) as Hsub. fold (my_marks (mc_marker mc) c'') in Hsub.
    split_and!; [done| | |by rewrite Hsub|].
    + eapply cache_ok_update; [exact Hok|done|by rewrite Hmc|]. by intros ? [= <-].
    + replace (my_marks (mc_marker mc) c ∖ missing c (list_to_set (seen ++ [o])))
        with (my_marks (mc_marker mc) c' ∖ {[o]}). { by eapply marks_become_trans. }
      rewrite Hmine. apply set_eq. intros x. unfold missing.
      rewrite !elem_of_difference, !elem_of_filter, !elem_of_list_to_set, elem_of_app, list_elem_of_singleton,
        elem_of_singleton. split; [tauto|]. intros [Hx Hn]. split; [tauto|]. intros ->. tauto.
    + rewrite filter_app, filter_cons_True by done. rewrite length_app. simpl. lia.
Qed.

(** The loop of [collect], once the list of the markers was read. *)
Definition collect_objects (objects : gset Object) : M call markerCache Z :=
  mfold (elements objects) 0 (fun removed object =>
    let* orphaned := removeIfOrphaned object in
    mret (if orphaned then removed + 1 else removed)).

Lemma collect_loop mc mc' c :
  let before := my_marks mc.(mc_marker) c in
  let after := before ∖ missing c before in
  mc'.(mc_marker) = mc.(mc_marker) -> cache_ok mc' c -> mc'.(mc_objects) = Some before ->
  mwp fake_env (collect_objects before) mc' c (fun mc'' r c' =>
    r = Ok (Z.of_nat (size (missing c before))) /\ marks_become c c' mc.(mc_marker).(marker_roleUUID) after /\
    cache_ok mc'' c' /\ mc''.(mc_objects) = Some after /\ mc''.(mc_marker) = mc.(mc_marker)).
Proof.
  intros before after Hmc Hok Hbefore. eapply mwp_mono.
  - apply (mwp_fold _ _ _ _ (collected mc c) (fun _ _ _ => False)).
    + split_and!; try done. assert (missing c (list_to_set []) = ∅) as ->.
      { unfold missing. set_solver. }
      rewrite difference_empty_L. apply marks_become_same, Hok.
    + intros. eapply collect_step; [done|apply Hok|done].
  - intros mc'' [n|e] c'' HI; [|done]. destruct HI as (Hmc'' & Hok'' & Hmarks & Eo & ->).
    rewrite list_to_set_elements_L in Hmarks. rewrite missing_size. split_and!; [done|done|done| |done].
    rewrite Eo. unfold my_marks at 1. by rewrite (proj1 (proj2 (proj2 Hmarks))).
Qed.

(** ** The properties *)

(** C17: The markers are a set per role. While the remembered role exists, [ListManaged] returns exactly the set of
    the objects marked for it and [IsManaged] its membership, both without changing anything; [Mark] adds an existing
    object to the set, [Unmark] removes one, [MarkIfExists] adds the object and returns true exactly when the object
    exists and otherwise changes nothing. None of them touches another role's markers or any object. *)
Theorem marker_methods_refine_set m c o :
  role_ready m c -> markers_ok c -> well_formed_model o.(Object_Model) ->
  let exists_ := objectExists c o.(Object_Model) o.(Object_PK) in
  let becomes c' objects := marks_become c c' m.(marker_roleUUID) objects in
  mwp fake_env ListManaged m c (fun m' r c' => m' = m /\ c' = c /\ r = Ok (my_marks m c)) /\
  mwp fake_env (IsManaged o) m c (fun m' r c' => m' = m /\ c' = c /\ r = Ok (bool_decide (o ∈ my_marks m c))) /\
  (exists_ = true -> mwp fake_env (Mark o) m c (fun m' r c' => m' = m /\ r = Ok () /\ becomes c' ({[o]} ∪ my_marks m c))) /\
  mwp fake_env (Unmark o) m c (fun m' r c' => m' = m /\ r = Ok () /\ becomes c' (my_marks m c ∖ {[o]})) /\
  mwp fake_env (MarkIfExists o) m c (fun m' r c' => m' = m /\ r = Ok exists_ /\
    if exists_ then becomes c' ({[o]} ∪ my_marks m c) else c' = c).
Proof.
  intros Hr Hok Hm. cbv zeta. split_and!.
  - by apply ListManaged_spec.
  - by apply IsManaged_spec.
  - intros Ho. apply Mark_spec; auto.
  - apply Unmark_spec; auto.
  - apply MarkIfExists_spec; try done; [intros c' ->|intros ->]; auto.
Qed.

(** C11: The marker cache never lies about ownership. Whatever the clock says, a cache that only holds marked objects
    stays so, and no method panics: [isManaged] answers exactly whether the object is marked, [contains] answers true
    only for marked objects, [ensure] leaves an existing object marked, [remove] leaves it unmarked and forgotten. *)
Theorem cache_is_sound mc c o :
  cache_ok mc c ->
  let mine mc c := my_marks mc.(mc_marker) c in
  mwp fake_env (isManaged o) mc c (fun mc' r c' => cache_ok mc' c' /\ c' = c /\ r = Ok (bool_decide (o ∈ mine mc c))) /\
  mwp fake_env (contains o) mc c (fun mc' r c' => cache_ok mc' c' /\ c' = c /\
    exists b, r = Ok b /\ (b = true -> o ∈ mine mc c)) /\
  (well_formed_model o.(Object_Model) -> objectExists c o.(Object_Model) o.(Object_PK) = true ->
    mwp fake_env (ensure o) mc c (fun mc' r c' => cache_ok mc' c' /\ r = Ok () /\ mine mc' c' = {[o]} ∪ mine mc c)) /\
  mwp fake_env (remove o) mc c (fun mc' r c' => cache_ok mc' c' /\ r = Ok () /\ mine mc' c' = mine mc c ∖ {[o]} /\
    has_object o mc' = false).
Proof.
  intros Hok. cbv zeta. split_and!.
  - apply cache_isManaged_spec; [done|]. by intros mc' Hok' _.
  - apply cache_contains_spec; [done|]. intros mc' b Hok' _ Hb. split_and!; [done|done|eauto].
  - intros Hm Ho. apply cache_ensure_spec; auto.
  - apply cache_remove_spec; auto 10.
Qed.

(** C12: The marker collection removes exactly the markers of the objects that no longer exist. Starting from a
    sound cache, [collect] succeeds without a panic; afterwards the objects marked for the operator are those that
    exist, the returned count is the number of removed markers, the cache holds exactly the remaining markers, and no
    object and no other role's marker has changed. *)
Theorem collect_removes_missing mc c :
  cache_ok mc c ->
  mwp fake_env collect mc c (fun mc' r c' =>
    let before := my_marks mc.(mc_marker) c in
    let after := before ∖ missing c before in
    r = Ok (Z.of_nat (size (missing c before))) /\ marks_become c c' mc.(mc_marker).(marker_roleUUID) after /\
    cache_ok mc' c' /\ mc'.(mc_objects) = Some after).
Proof.
  intros Hok. unfold collect. repeat go_step. apply refreshLocked_spec.
  { destruct Hok. by split. }
  intros mc' (Hmc & Hok' & _) Hnil. specialize (Hnil eq_refl). simpl in Hmc, Hnil. repeat go_step. rewrite Hnil. cbv zeta.
  eapply mwp_mono; [by apply (collect_loop mc mc')|]. intros mc'' r c'' (-> & Hmarks & Hok'' & Eo & _). done.
Qed.

(** ** Instances *)

(** A server with the role of the operator, a marked Binding, and the marker of a missing one. *)
Definition example_binding (uuid : string) : PolicyBinding :=
  mkPolicyBinding uuid Unset (SetTo (Some "group-1")) Unset "target" None None 0 None None.

Definition example_object (uuid : string) : Object := mkObject ModelPolicyBinding uuid.

Definition example_mark (id : Z) (uuid : string) : objectPermission :=
  mkObjectPermission id "role-1" ModelPolicyBinding uuid (viewPermission ModelPolicyBinding).

Definition example_marks : Client :=
  set_objectPermissions [example_mark 1 "b1"; example_mark 2 "b2"]
    (set_roles {["role-1" := mkRole "role-1" "operator"]}
       (set_bindings {["b1" := example_binding "b1"]} (New (fun _ _ => [])))).

Definition example_marker : Marker := mkMarker "operator" "role-1".

Lemma example_marks_ok : markers_ok example_marks.
Proof. repeat constructor; apply marked_models_well_formed; unfold ModelPolicyBinding; set_solver. Qed.

Lemma example_role_ready : role_ready example_marker example_marks.
Proof. split; [done|]. by eexists. Qed.

Lemma example_cache_ok : cache_ok (newMarkerCache example_marker 60 true) example_marks.
Proof.
  split; [done| |apply example_marks_ok|done]. exists (mkRole "role-1" "operator"). split_and!; try done.
  intros u r Hu. unfold example_marks in Hu. simpl in Hu. by apply lookup_singleton_Some in Hu as [<- _].
Qed.

Lemma marker_methods_refine_set_witness :
  mwp fake_env (MarkIfExists (example_object "b2")) example_marker example_marks
    (fun m' r c' => m' = example_marker /\ r = Ok false /\ c' = example_marks).
Proof.
  apply (marker_methods_refine_set example_marker example_marks (example_object "b2") example_role_ready example_marks_ok).
  apply marked_models_well_formed. unfold ModelPolicyBinding. set_solver.
Defined.

Lemma cache_is_sound_witness :
  mwp fake_env (isManaged (example_object "b1")) (newMarkerCache example_marker 60 true) example_marks
    (fun mc' r c' => cache_ok mc' c' /\ c' = example_marks /\ r = Ok true).
Proof.
  eapply mwp_mono.
  - exact (proj1 (cache_is_sound (newMarkerCache example_marker 60 true) example_marks (example_object "b1") example_cache_ok)).
  - intros mc' r c' (H & -> & ->). split_and!; [done|done|]. vm_compute. reflexivity.
Defined.

Lemma collect_removes_missing_witness :
  mwp fake_env collect (newMarkerCache example_marker 60 true) example_marks
    (fun mc' r c' => r = Ok 1 /\ exists objects, mc'.(mc_objects) = Some objects /\ elements objects = [example_object "b1"]).
Proof.
  eapply mwp_mono.
  - exact (collect_removes_missing (newMarkerCache example_marker 60 true) example_marks example_cache_ok).
  - intros mc' r c' (-> & _ & _ & ->). split; [|eexists; split; [done|]]; vm_compute; reflexivity.
Defined.
