(* ===== verification/Collector.v ===== *)
(** * The collection of the markers over time

    [markerCollector] of [internal/controller/gc.go] against the in-memory authentik: from any memory of the marker
    cache, whatever failed before, the ticks of the resync interval remove the markers of the objects that were
    deleted outside the operator. *)
From S2P Require Import Prelude Errors Effects Api Crd Interface Fake Marker MarkerCache MarkerSpec.

(** The role of the operator on the server is [u], whatever the cache remembers. *)
Definition server_role (mc : markerCache) (u : string) (c : Client) : Prop :=
  u <> "" /\ role_unique (set_roleUUID u mc.(mc_marker)) c.

(** [EnsureRole] finds the role also when another one, or none, was remembered. *)
Lemma EnsureRole_any m u c (Q : Marker -> result (string * string) -> Client -> Prop) :
  role_unique (set_roleUUID u m) c -> Q (set_roleUUID u m) (Ok (u, m.(marker_roleUUID))) c -> mwp fake_env EnsureRole m c Q.
Proof.
  intros (r & Hr & Hpk & Hname & Hu) HQ. simpl in *. unfold EnsureRole, findOrCreateRole, findRole. repeat fake_step.
  unfold fake_FindRolesByName. rewrite (findAll_unique _ _ _ r Hr).
  - cbn. by rewrite Hpk.
  - by rewrite bool_decide_true.
  - intros u' r' Hu' Hn%bool_decide_eq_true. by eapply Hu.
Qed.

Lemma requeueAll_fake mc c (Q : markerCache -> result () -> Client -> Prop) :
  Q mc (Ok ()) c -> mwp fake_env requeueAll mc c Q.
Proof.
  intros HQ. unfold requeueAll. repeat fake_step. destruct mc.(mc_roleEvents); simpl; [|by go_step].
  repeat fake_step. destruct r; [|by go_step]. apply mwp_call; [done|]. intros [] c' Hc. cbn in Hc. by subst.
Qed.

(** A nil cache is read again, with the role of the server. *)
Lemma refreshLocked_any mc u c (Q : markerCache -> result () -> Client -> Prop) :
  server_role mc u c -> markers_ok c -> mc.(mc_objects) = None ->
  (forall mc', mc'.(mc_marker) = set_roleUUID u mc.(mc_marker) -> mc'.(mc_objects) = Some (marked c u) -> cache_ok mc' c ->
     Q mc' (Ok ()) c) ->
  mwp fake_env refreshLocked mc c Q.
Proof.
  intros [Hu Hrole] Hm Hnil HQ. unfold refreshLocked, fresh. repeat fake_step. rewrite Hnil. repeat fake_step.
  unfold with_marker. repeat fake_step. apply EnsureRole_any with u; [done|]. repeat go_step.
  assert (forall mc', mc'.(mc_marker) = set_roleUUID u mc.(mc_marker) ->
    mwp fake_env (let* set := mzoom mc_marker set_marker ListManaged in
      mmodify (set_objects (Some set)) ;; let* now := mcall Now in mmodify (set_fetched now)) mc' c Q) as Hrest.
  { intros mc' Hmc'. repeat go_step. rewrite Hmc'. apply ListManaged_spec; [|done|].
    - destruct Hrole as (r & Hr & _). split; [done|by exists r].
    - repeat fake_step. apply HQ; [by destruct mc'|done|]. split; simpl; [done|done|done|]. by intros ? [= <-]. }
  case_decide; [|by go_step; apply Hrest]. apply requeueAll_fake. by apply Hrest.
Qed.

(** What one collection reaches. *)
Definition orphans_removed (u : string) (c : Client) (mc' : markerCache) (c' : Client) : Prop :=
  let after := marked c u ∖ missing c (marked c u) in
  marks_become c c' u after /\ mc'.(mc_objects) = Some after /\ server_role mc' u c' /\ mc'.(mc_marker).(marker_roleUUID) = u.

Lemma collect_any mc u c :
  server_role mc u c -> markers_ok c ->
  mwp fake_env collect mc c (fun mc' r c' =>
    r = Ok (Z.of_nat (size (missing c (marked c u)))) /\ orphans_removed u c mc' c').
Proof.
  intros Hrole Hm. unfold collect. repeat go_step. apply refreshLocked_any with u; [done|done|done|].
  intros mc' Hmc' Hobj Hok. repeat go_step. rewrite Hobj.
  assert (my_marks mc'.(mc_marker) c = marked c u) as Hmine by (unfold my_marks; by rewrite Hmc').
  rewrite <- Hmine in Hobj |- *.
  eapply mwp_mono; [by apply (collect_loop mc' mc' c)|].
  intros mc'' r c' (-> & Hmarks & Hok' & Eo & Hmc''). split; [by rewrite Hmine|]. rewrite Hmine in Hmarks, Eo.
  rewrite Hmc' in Hmarks, Hmc''. simpl in Hmarks. split_and!; [done|done| |by rewrite Hmc''].
  destruct Hok' as [_ Hu _ _]. split; [by destruct Hrole|]. rewrite Hmc'' in *. exact Hu.
Qed.

Lemma missing_removed c c' objects :
  same_objects c c' -> missing c' (objects ∖ missing c objects) = ∅.
Proof.
  intros Hs. apply set_eq. intros o. unfold missing. rewrite elem_of_filter, (objectExists_same _ _ _ _ Hs).
  set_solver.
Qed.

(** C36: Markers of deleted objects do not outlive the next tick. From any memory of the cache, whatever failed
    before and whether or not the remembered role is still the one on the server, and for every number of ticks from
    one on, the collector ends without an error or a panic; then exactly the markers of the objects that still exist
    are left, the cache knows them and the role, and no object and no other role's marker has changed. *)
Theorem collector_removes_orphans ticks mc u c :
  server_role mc u c -> markers_ok c ->
  mwp fake_env (collector_Start (S ticks)) mc c (fun mc' r c' => r = Ok () /\ orphans_removed u c mc' c').
Proof.
  intros Hrole Hm. simpl. go_step. go_step. eapply mwp_mono; [by apply collect_any|]. intros mc1 r c1 [-> H1].
  revert mc1 c1 H1. induction ticks as [|ticks IH]; intros mc1 c1 H1; simpl; [by apply mwp_ret|].
  destruct H1 as (Hmarks & Hobj & Hrole1 & Hu). pose proof Hmarks as (Hm1 & Hsame & Hmine & _).
  go_step. go_step. eapply mwp_mono; [by apply collect_any|]. intros mc2 r c2 [-> H2]. apply IH.
  destruct H2 as (Hmarks2 & Hobj2 & Hrole2 & Hu2).
  assert (marked c1 u ∖ missing c1 (marked c1 u) = marked c u ∖ missing c (marked c u)) as Heq.
  { rewrite Hmine, missing_removed by done. by rewrite difference_empty_L. }
  rewrite Heq in *. split_and!; [by eapply marks_become_trans|done|done|done].
Qed.

(** The cache remembers a role that was deleted, and the list of its markers; one of the markers is an orphan. *)
Lemma collector_removes_orphans_witness :
  let stale := mkMarkerCache (mkMarker "operator" "role-0") 60 true (Some {[example_object "b9"]}) 0 in
  server_role stale "role-1" example_marks /\
  mwp fake_env (collector_Start 2) stale example_marks (fun mc' r c' =>
    r = Ok () /\ marked c' "role-1" = {[example_object "b1"]}).
Proof.
  intros stale.
  assert (server_role stale "role-1" example_marks) as Hrole.
  { split; [done|]. exact (cache_role_unique _ _ example_cache_ok). }
  split; [exact Hrole|].
  eapply mwp_mono; [exact (collector_removes_orphans 1 stale "role-1" example_marks Hrole example_marks_ok)|].
  intros mc' r c' [-> ((_ & _ & -> & _) & _)]. split; [reflexivity|]. vm_compute. reflexivity.
Defined.
