(* ===== verification/Reference.v ===== *)
(** * Reference resolution

    [internal/reference/resolver.go]: the objects and the Secret that an AuthentikApplication references are looked
    up; the references that cannot be resolved are collected, and every other error stops the resolution. The
    memory of a method is the collector. The pointer to a Secret key and similar dereferences of nil panic. *)
From S2P Require Import Prelude Errors Effects Api Crd Interface.

Definition EmbeddedOutpostName : string := "authentik Embedded Outpost".
Definition DefaultSigningKeyName : string := "authentik Self-signed Certificate".
Definition DefaultClientIDKey : string := "client-id".
Definition DefaultClientSecretKey : string := "client-secret".
Definition defaultScopeNames : list string := ["openid"; "email"; "profile"].
Definition nameKey : string := "name".
Definition managedScopeMappingPrefix : string := "goauthentik.io/providers/oauth2/scope-".

(** ** Results *)

Record Flows : Type := mkFlows {
  Resolved_Authorization : string;
  Resolved_Invalidation : string;
  Resolved_Authentication : option string;
}.

Record ProxyReferences : Type := mkProxyReferences {
  ProxyReferences_Certificate : option string;
  ProxyReferences_Outpost : string;
}.

Record Credentials : Type := mkCredentials {
  Credentials_SecretExists : bool;
  Credentials_ClientID : string;
  Credentials_ClientSecret : string;
}.

Record OAuth2References : Type := mkOAuth2References {
  OAuth2References_Scopes : option (list string);
  OAuth2References_SigningKey : option string;
  OAuth2References_EncryptionKey : option string;
  OAuth2References_Credentials : option Credentials;
}.

Record Rule : Type := mkRule {
  Rule_Group : option string;
  Rule_User : option Z;
  Rule_Policy : option string;
  Rule_Negate : bool;
}.

Record Resolved : Type := mkResolved {
  Resolved_Flows : option Flows;
  Resolved_Proxy : option ProxyReferences;
  Resolved_OAuth2 : option OAuth2References;
  Resolved_Rules : list Rule;
}.

Record CreationDefaults : Type := mkCreationDefaults {
  CreationDefaults_Scopes : option (list string);
  CreationDefaults_SigningKey : option string;
}.

(** ** The collector *)

Definition collector : Type := list Failure.

(** [c.err()]: the error that lists the failures. *)
Definition collector_err (c : collector) : option error :=
  match c with [] => None | _ => Some (ReferenceError c) end.

Section methods.
Abbreviation method A := (M call collector A) (only parsing).

Definition collector_add (path target : string) (matches : Z) : method () :=
  mmodify (fun c => c ++ [mkFailure path target matches]).

(** The last lines of [Resolve] and [ResolveCreationDefaults]. *)
Definition finish_resolution {A} (a : A) : method A :=
  let* c := mget in
  match collector_err c with Some err => mfail err | None => mret a end.

(** ** Lookups *)

Definition getOne {T} (path target : string) (get : method T) : method (option T) :=
  let* r := mtry get in
  match r with
  | Err err =>
      if is_not_found err then collector_add path target 0 ;; mret None
      else mfail (Wrapped ("failed to resolve " +:+ path) err)
  | Ok object => mret (Some object)
  end.

Definition findOne {T} (path target : string) (find : method (list T)) : method (option T) :=
  let* r := mtry find in
  match r with
  | Err err => mfail (Wrapped ("failed to resolve " +:+ path) err)
  | Ok [object] => mret (Some object)
  | Ok objects => collector_add path target (Z.of_nat (length objects)) ;; mret None
  end.

(** [stringLookup]. *)
Record stringLookup (T : Type) : Type := mkStringLookup {
  lookup_kind : string;
  lookup_keyName : string;
  lookup_get : string -> call (ak T);
  lookup_find : string -> call (ak (list T));
  lookup_pk : T -> string;
}.
#[global] Arguments lookup_kind {T}.
#[global] Arguments lookup_keyName {T}.
#[global] Arguments lookup_get {T}.
#[global] Arguments lookup_find {T}.
#[global] Arguments lookup_pk {T}.

Definition flowLookup : stringLookup Flow := mkStringLookup _ "Flow" "slug" GetFlow FindFlowsBySlug Flow_Pk.
Definition keyPairLookup : stringLookup CertificateKeyPair :=
  mkStringLookup _ "CertificateKeyPair" nameKey GetCertificateKeyPair FindCertificateKeyPairsByName KeyPair_Pk.
Definition outpostLookup : stringLookup Outpost :=
  mkStringLookup _ "Outpost" nameKey GetOutpost FindOutpostsByName Outpost_Pk.
Definition scopeMappingLookup : stringLookup ScopeMapping :=
  mkStringLookup _ "ScopeMapping" "scopeName" GetScopeMapping FindScopeMappingsByScopeName ScopeMapping_Pk.
Definition groupLookup : stringLookup Group := mkStringLookup _ "Group" nameKey GetGroup FindGroupsByName Group_Pk.
Definition policyLookup : stringLookup Policy :=
  mkStringLookup _ "Policy" nameKey GetPolicy FindPoliciesByName Policy_Pk.

(** The empty string stands for a reference that cannot be resolved. *)
Definition resolveByString {T} (path : string) (lookup : stringLookup T) (uuid key : option string) : method string :=
  let* object :=
    match uuid with
    | Some uuid =>
        getOne path (lookup.(lookup_kind) +:+ " uuid " +:+ fmt_q uuid) (akcall (lookup.(lookup_get) uuid))
    | None =>
        let* key := mderef key in
        findOne path (lookup.(lookup_kind) +:+ " " +:+ lookup.(lookup_keyName) +:+ " " +:+ fmt_q key)
          (akcall (lookup.(lookup_find) key))
    end in
  match object with
  | None => mret ""
  | Some object => mret (lookup.(lookup_pk) object)
  end.

Definition resolveNamed {T} (path : string) (lookup : stringLookup T) (ref : option NamedReference)
    : method (option string) :=
  match ref with
  | None => mret None
  | Some ref =>
      let* before := mget in
      let* pk := resolveByString path lookup ref.(NamedReference_UUID) ref.(NamedReference_Name) in
      let* after := mget in
      if decide (length before < length after)%nat then mret None else mret (Some pk)
  end.

(** ** The parts of the spec *)

Definition resolveFlows (flows : ProviderFlows) : method Flows :=
  let resolve path (ref : FlowReference) :=
    resolveByString path flowLookup ref.(FlowReference_UUID) ref.(FlowReference_Slug) in
  let* authorization := resolve "provider.flows.authorization" flows.(Flows_Authorization) in
  let* invalidation := resolve "provider.flows.invalidation" flows.(Flows_Invalidation) in
  match flows.(Flows_Authentication) with
  | None => mret (mkFlows authorization invalidation None)
  | Some ref =>
      let* authentication := resolve "provider.flows.authentication" ref in
      mret (mkFlows authorization invalidation (Some authentication))
  end.

Definition resolveProxy (proxy : ProxyProviderSpec) : method ProxyReferences :=
  let* certificate := resolveNamed "provider.proxy.certificate" keyPairLookup proxy.(Proxy_Certificate) in
  let outpost := default (mkNamedReference (Some EmbeddedOutpostName) None) proxy.(Proxy_Outpost) in
  let* outpost := resolveByString "provider.proxy.outpost" outpostLookup outpost.(NamedReference_UUID)
                    outpost.(NamedReference_Name) in
  mret (mkProxyReferences certificate outpost).

(** The closure [readKey]. *)
Definition readKey (secret : Secret) (refName path : string) (key : option string) (defaultKey : string)
    : method string :=
  let name := default defaultKey key in
  match secret.(Secret_Data) !! name with
  | Some value => mret value
  | None =>
      collector_add path ("key " +:+ fmt_q name +:+ " in Secret " +:+ fmt_q refName) 0 ;;
      mret ""
  end.

Definition resolveCredentials (namespace : string) (spec : OAuth2CredentialsSpec) : method Credentials :=
  let ref := spec.(CredentialsSpec_SecretRef) in
  let* r := mtry (kubecall (KubeGetSecret namespace ref.(SecretRef_Name))) in
  match r with
  | Err err =>
      if kube_is_not_found err then mret (mkCredentials false (default "" spec.(CredentialsSpec_ClientID)) "")
      else mfail (Wrapped ("failed to get Secret " +:+ namespace +:+ "/" +:+ ref.(SecretRef_Name)) err)
  | Ok secret =>
      let* clientID :=
        match spec.(CredentialsSpec_ClientID) with
        | Some id => mret id
        | None => readKey secret ref.(SecretRef_Name) "provider.oauth2.credentials.secretRef.clientIDKey"
                    ref.(SecretRef_ClientIDKey) DefaultClientIDKey
        end in
      let* clientSecret := readKey secret ref.(SecretRef_Name) "provider.oauth2.credentials.secretRef.clientSecretKey"
                             ref.(SecretRef_ClientSecretKey) DefaultClientSecretKey in
      mret (mkCredentials true clientID clientSecret)
  end.

(** A loop over indexed elements that appends one result each. *)
Fixpoint resolve_each {X Y} (i : nat) (xs : list X) (resolve : nat -> X -> method Y) : method (list Y) :=
  match xs with
  | [] => mret []
  | x :: rest =>
      let* y := resolve i x in
      let* ys := resolve_each (S i) rest resolve in
      mret (y :: ys)
  end.

Definition indexed (name : string) (i : nat) : string := name +:+ "[" +:+ fmt_d (Z.of_nat i) +:+ "]".

Definition resolveOAuth2 (namespace : string) (oauth2 : OAuth2ProviderSpec) : method OAuth2References :=
  let* scopes :=
    match oauth2.(OAuth2_Scopes) with
    | None => mret None
    | Some refs =>
        let* pks := resolve_each 0 refs (fun i ref =>
                      resolveByString (indexed "provider.oauth2.scopes" i) scopeMappingLookup
                        ref.(ScopeMappingReference_UUID) ref.(ScopeMappingReference_ScopeName)) in
        mret (Some pks)
    end in
  let* signingKey := resolveNamed "provider.oauth2.signingKey" keyPairLookup oauth2.(OAuth2_SigningKey) in
  let* encryptionKey := resolveNamed "provider.oauth2.encryptionKey" keyPairLookup oauth2.(OAuth2_EncryptionKey) in
  let* credentials :=
    match oauth2.(OAuth2_Credentials) with
    | None => mret None
    | Some spec => let* c := resolveCredentials namespace spec in mret (Some c)
    end in
  mret (mkOAuth2References scopes signingKey encryptionKey credentials).

Definition resolveUser (path : string) (ref : UserReference) : method (option Z) :=
  let* user :=
    match ref.(UserReference_PK) with
    | Some pk =>
        let target := "User pk " +:+ fmt_d pk in
        if decide (pk < 1 \/ pk > max_int32) then collector_add path target 0 ;; mret None
        else getOne path target (akcall (GetUser (int32_wrap pk)))
    | None =>
        let* username := mderef ref.(UserReference_Username) in
        findOne path ("User username " +:+ fmt_q username) (akcall (FindUsersByUsername username))
    end in
  mret (User_Pk <$> user).

Definition resolveRule (path : string) (rule : AccessRule) : method Rule :=
  let negate := default false rule.(AccessRule_Negate) in
  match rule.(AccessRule_Group), rule.(AccessRule_User), rule.(AccessRule_Policy) with
  | Some group, _, _ =>
      let* group := resolveNamed (path +:+ ".group") groupLookup (Some group) in
      mret (mkRule group None None negate)
  | None, Some user, _ =>
      let* user := resolveUser (path +:+ ".user") user in
      mret (mkRule None user None negate)
  | None, None, Some policy =>
      let* policy := resolveNamed (path +:+ ".policy") policyLookup (Some policy) in
      mret (mkRule None None policy negate)
  | None, None, None => mret (mkRule None None None negate)
  end.

Definition resolveDefaultScopeMapping (scopeName : string) : method string :=
  let* r := mtry (akcall (FindScopeMappingsByScopeName scopeName)) in
  match r with
  | Err err => mfail (Wrapped "failed to resolve provider.oauth2.scopes" err)
  | Ok mappings =>
      let managed := managedScopeMappingPrefix +:+ scopeName in
      match filter (fun m => Nullable_Get m.(ScopeMapping_Managed) = Some managed) mappings with
      | [mapping] => mret mapping.(ScopeMapping_Pk)
      | found =>
          collector_add "provider.oauth2.scopes" ("ScopeMapping managed " +:+ fmt_q managed) (Z.of_nat (length found)) ;;
          mret ""
      end
  end.

(** ** Resolve *)

(** The block of [Resolve] under [spec.Provider != nil]. *)
Definition resolve_provider (namespace : string) (spec : AuthentikApplicationSpec)
    : method (option Flows * option ProxyReferences * option OAuth2References) :=
  match spec.(Spec_Provider) with
  | None => mret (None, None, None)
  | Some provider =>
      let* flows := resolveFlows provider.(Provider_Flows) in
      let* proxy :=
        match provider.(Provider_Proxy) with
        | None => mret None
        | Some proxy => let* r := resolveProxy proxy in mret (Some r)
        end in
      let* oauth2 :=
        match provider.(Provider_OAuth2) with
        | None => mret None
        | Some oauth2 => let* r := resolveOAuth2 namespace oauth2 in mret (Some r)
        end in
      mret (Some flows, proxy, oauth2)
  end.

(** [Resolve] up to the test of the collector. *)
Definition resolve_parts (namespace : string) (spec : AuthentikApplicationSpec) : method Resolved :=
  let* provider := resolve_provider namespace spec in
  let '(flows, proxy, oauth2) := provider in
  let* rules := resolve_each 0 spec.(Spec_Access).(Access_Rules)
                  (fun i rule => resolveRule (indexed "access.rules" i) rule) in
  mret (mkResolved flows proxy oauth2 rules).

Definition resolve_spec (namespace : string) (spec : AuthentikApplicationSpec) : method Resolved :=
  let* resolved := resolve_parts namespace spec in
  finish_resolution resolved.

Definition resolve_defaults (spec : AuthentikApplicationSpec) : method CreationDefaults :=
  match spec.(Spec_Provider) ≫= Provider_OAuth2 with
  | None => mret (mkCreationDefaults None None)
  | Some oauth2 =>
      let* scopes :=
        match oauth2.(OAuth2_Scopes) with
        | Some _ => mret None
        | None =>
            let* pks := resolve_each 0 defaultScopeNames (fun _ name => resolveDefaultScopeMapping name) in
            mret (Some pks)
        end in
      let* signingKey :=
        match oauth2.(OAuth2_SigningKey) with
        | Some _ => mret None
        | None =>
            let* pk := resolveByString "provider.oauth2.signingKey" keyPairLookup None (Some DefaultSigningKeyName) in
            mret (Some pk)
        end in
      finish_resolution (mkCreationDefaults scopes signingKey)
  end.
End methods.

(** The exported methods start with an empty collector, which is not part of the memory of their caller. *)
Definition Resolve {S} (app : AuthentikApplication) : M call S Resolved :=
  mzoom (fun _ => []) (fun _ s => s) (resolve_spec app.(App_Namespace) app.(App_Spec)).

Definition ResolveCreationDefaults {S} (app : AuthentikApplication) : M call S CreationDefaults :=
  mzoom (fun _ => []) (fun _ s => s) (resolve_defaults app.(App_Spec)).
