(* ===== verification/Desired.v ===== *)
(** * Desired state

    [internal/controller/desired.go]: the spec and the resolved references as PATCH requests, whose unset fields are
    not managed, and the requests that create the objects. A function whose Go body dereferences a pointer that may
    be nil returns an [option]; [None] is the panic. The theorems relate the requests to the predicates of the
    server: the mode of a Proxy Provider, the subject of a Binding and the enumerations of the API. *)
From S2P Require Import Prelude Api Crd Patch Reference.

(** ** Enumerations *)

Definition policyEngineModes : list (string * string) :=
  [(AccessModeAny, POLICYENGINEMODE_ANY); (AccessModeAll, POLICYENGINEMODE_ALL)].

Definition clientTypes : list (string * string) :=
  [(ClientTypeConfidential, CLIENTTYPEENUM_CONFIDENTIAL); (ClientTypePublic, CLIENTTYPEENUM_PUBLIC)].

Definition grantTypes : list (string * string) :=
  [(GrantTypeAuthorizationCode, GRANTTYPEENUM_AUTHORIZATION_CODE);
   (GrantTypeImplicit, GRANTTYPEENUM_IMPLICIT);
   (GrantTypeHybrid, GRANTTYPEENUM_HYBRID);
   (GrantTypeRefreshToken, GRANTTYPEENUM_REFRESH_TOKEN);
   (GrantTypeClientCredentials, GRANTTYPEENUM_CLIENT_CREDENTIALS);
   (GrantTypePassword, GRANTTYPEENUM_PASSWORD);
   (GrantTypeDeviceCode, GRANTTYPEENUM_DEVICE_CODE);
   (GrantTypeTokenExchange, GRANTTYPEENUM_TOKEN_EXCHANGE)].

Definition subjectModes : list (string * string) :=
  [(SubjectModeHashedUserID, SUBMODEENUM_HASHED_USER_ID);
   (SubjectModeUserID, SUBMODEENUM_USER_ID);
   (SubjectModeUserUUID, SUBMODEENUM_USER_UUID);
   (SubjectModeUserUsername, SUBMODEENUM_USER_USERNAME);
   (SubjectModeUserEmail, SUBMODEENUM_USER_EMAIL);
   (SubjectModeUserUPN, SUBMODEENUM_USER_UPN)].

Definition issuerModes : list (string * string) :=
  [(IssuerModeGlobal, ISSUERMODEENUM_GLOBAL); (IssuerModePerProvider, ISSUERMODEENUM_PER_PROVIDER)].

Definition logoutMethods : list (string * string) :=
  [(LogoutMethodBackChannel, LOGOUTMETHODENUM_BACKCHANNEL); (LogoutMethodFrontChannel, LOGOUTMETHODENUM_FRONTCHANNEL)].

Definition matchingModes : list (string * string) :=
  [(MatchingModeStrict, MATCHINGMODEENUM_STRICT); (MatchingModeRegex, MATCHINGMODEENUM_REGEX)].

Definition redirectURITypes : list (string * string) :=
  [(RedirectURITypeAuthorization, REDIRECTURITYPEENUM_AUTHORIZATION);
   (RedirectURITypePostLogout, REDIRECTURITYPEENUM_LOGOUT)].

(** [table[key]]: the zero value of a string when the key is missing. *)
Fixpoint table_get (table : list (string * string)) (key : string) : string :=
  match table with
  | [] => ""
  | (k, v) :: rest => if decide (k = key) then v else table_get rest key
  end.

Definition mapEnum (table : list (string * string)) (value : option string) : option string :=
  match value with
  | None => None
  | Some value => Some (table_get table value)
  end.

Definition nullableString (value : option string) : Nullable string :=
  match value with
  | None => Unset
  | Some v => SetTo (Some v)
  end.

(** ** The Application *)

Definition desiredApplication (spec : AuthentikApplicationSpec) (providerPK : option Z) : PatchedApplicationRequest := {|
  PatchedApplication_Name := Some spec.(Spec_Name);
  PatchedApplication_Slug := None;
  PatchedApplication_Provider := match providerPK with None => Unset | Some pk => SetTo (Some pk) end;
  PatchedApplication_OpenInNewTab := spec.(Spec_OpenInNewTab);
  PatchedApplication_MetaLaunchUrl := spec.(Spec_LaunchURL);
  PatchedApplication_MetaIcon := spec.(Spec_Icon);
  PatchedApplication_MetaDescription := spec.(Spec_Description);
  PatchedApplication_MetaPublisher := spec.(Spec_Publisher);
  PatchedApplication_PolicyEngineMode := mapEnum policyEngineModes spec.(Spec_Access).(Access_Mode);
  PatchedApplication_Group := spec.(Spec_Group);
  PatchedApplication_MetaHide := spec.(Spec_HideFromApplicationDashboard);
|}.

Definition createApplicationRequest (slug : string) (desired : PatchedApplicationRequest) : option ApplicationRequest :=
  name ← desired.(PatchedApplication_Name);
  Some {|
    ApplicationRequest_Name := name;
    ApplicationRequest_Slug := slug;
    ApplicationRequest_Provider := desired.(PatchedApplication_Provider);
    ApplicationRequest_OpenInNewTab := desired.(PatchedApplication_OpenInNewTab);
    ApplicationRequest_MetaLaunchUrl := desired.(PatchedApplication_MetaLaunchUrl);
    ApplicationRequest_MetaIcon := desired.(PatchedApplication_MetaIcon);
    ApplicationRequest_MetaDescription := desired.(PatchedApplication_MetaDescription);
    ApplicationRequest_MetaPublisher := desired.(PatchedApplication_MetaPublisher);
    ApplicationRequest_PolicyEngineMode := desired.(PatchedApplication_PolicyEngineMode);
    ApplicationRequest_Group := desired.(PatchedApplication_Group);
    ApplicationRequest_MetaHide := desired.(PatchedApplication_MetaHide);
  |}.

(** [spec.Provider] is dereferenced. *)
Definition providerName (spec : AuthentikApplicationSpec) : option string :=
  provider ← spec.(Spec_Provider);
  match provider.(Provider_Name) with
  | Some name => Some name
  | None => Some spec.(Spec_Slug)
  end.

(** ** The Proxy Provider *)

Definition newline : string := String (Ascii.ascii_of_nat 10) "".

(** The fields that the [switch] on the mode sets: mode, external host, internal host, its SSL validation and the
    cookie domain. *)
Record proxy_mode_fields : Type := mkProxyModeFields {
  pm_mode : option string;
  pm_external : option string;
  pm_internal : option string;
  pm_ssl : option bool;
  pm_cookie : option string;
}.

Definition desired_mode (proxy : ProxyProviderSpec) : proxy_mode_fields :=
  match proxy.(Proxy_Proxy), proxy.(Proxy_ForwardAuthSingle), proxy.(Proxy_ForwardAuthDomain) with
  | Some m, _, _ =>
      mkProxyModeFields (Some PROXYMODE_PROXY) (Some m.(ProxyMode_ExternalHost)) (Some m.(ProxyMode_InternalHost))
        m.(ProxyMode_InternalHostSSLValidation) None
  | None, Some m, _ =>
      mkProxyModeFields (Some PROXYMODE_FORWARD_SINGLE) (Some m.(ForwardAuthSingle_ExternalHost)) None None None
  | None, None, Some m =>
      mkProxyModeFields (Some PROXYMODE_FORWARD_DOMAIN) (Some m.(ForwardAuthDomain_AuthenticationURL)) None None
        (Some m.(ForwardAuthDomain_CookieDomain))
  | None, None, None => mkProxyModeFields None None None None None
  end.

(** [provider.Proxy] is the argument [proxy]. *)
Definition desiredProxyProvider (provider : ProviderSpec) (proxy : ProxyProviderSpec) (flows : Flows)
    (refs : ProxyReferences) : PatchedProxyProviderRequest :=
  let m := desired_mode proxy in {|
  PatchedProxy_Name := provider.(Provider_Name);
  PatchedProxy_AuthenticationFlow := nullableString flows.(Resolved_Authentication);
  PatchedProxy_AuthorizationFlow := Some flows.(Resolved_Authorization);
  PatchedProxy_InvalidationFlow := Some flows.(Resolved_Invalidation);
  PatchedProxy_PropertyMappings := None;
  PatchedProxy_InternalHost := m.(pm_internal);
  PatchedProxy_ExternalHost := m.(pm_external);
  PatchedProxy_InternalHostSslValidation := m.(pm_ssl);
  PatchedProxy_Certificate := nullableString refs.(ProxyReferences_Certificate);
  PatchedProxy_SkipPathRegex := strings_join newline <$> proxy.(Proxy_UnauthenticatedPaths);
  PatchedProxy_BasicAuthEnabled := (fun _ => true) <$> proxy.(Proxy_BasicAuth);
  PatchedProxy_BasicAuthPasswordAttribute := BasicAuth_PasswordAttribute <$> proxy.(Proxy_BasicAuth);
  PatchedProxy_BasicAuthUserAttribute := BasicAuth_UserAttribute <$> proxy.(Proxy_BasicAuth);
  PatchedProxy_Mode := m.(pm_mode);
  PatchedProxy_InterceptHeaderAuth := proxy.(Proxy_InterceptHeaderAuth);
  PatchedProxy_CookieDomain := m.(pm_cookie);
  PatchedProxy_AccessTokenValidity := proxy.(Proxy_AccessTokenValidity);
  PatchedProxy_RefreshTokenValidity := proxy.(Proxy_RefreshTokenValidity);
|}.

Definition createProxyProviderRequest (name : string) (desired : PatchedProxyProviderRequest)
    : option ProxyProviderRequest :=
  authorization ← desired.(PatchedProxy_AuthorizationFlow);
  invalidation ← desired.(PatchedProxy_InvalidationFlow);
  Some {|
    ProxyProviderRequest_Name := name;
    ProxyProviderRequest_AuthenticationFlow := desired.(PatchedProxy_AuthenticationFlow);
    ProxyProviderRequest_AuthorizationFlow := authorization;
    ProxyProviderRequest_InvalidationFlow := invalidation;
    ProxyProviderRequest_InternalHost := desired.(PatchedProxy_InternalHost);
    ProxyProviderRequest_ExternalHost := default "" desired.(PatchedProxy_ExternalHost);
    ProxyProviderRequest_InternalHostSslValidation := desired.(PatchedProxy_InternalHostSslValidation);
    ProxyProviderRequest_Certificate := desired.(PatchedProxy_Certificate);
    ProxyProviderRequest_SkipPathRegex := desired.(PatchedProxy_SkipPathRegex);
    ProxyProviderRequest_BasicAuthEnabled := desired.(PatchedProxy_BasicAuthEnabled);
    ProxyProviderRequest_BasicAuthPasswordAttribute := desired.(PatchedProxy_BasicAuthPasswordAttribute);
    ProxyProviderRequest_BasicAuthUserAttribute := desired.(PatchedProxy_BasicAuthUserAttribute);
    ProxyProviderRequest_Mode := desired.(PatchedProxy_Mode);
    ProxyProviderRequest_InterceptHeaderAuth := desired.(PatchedProxy_InterceptHeaderAuth);
    ProxyProviderRequest_CookieDomain := desired.(PatchedProxy_CookieDomain);
    ProxyProviderRequest_AccessTokenValidity := desired.(PatchedProxy_AccessTokenValidity);
    ProxyProviderRequest_RefreshTokenValidity := desired.(PatchedProxy_RefreshTokenValidity);
  |}.

(** ** The OAuth2 Provider *)

Definition desired_redirect_uri (uri : RedirectURISpec) : RedirectURIRequest := {|
  RedirectURIRequest_MatchingMode :=
    table_get matchingModes (default MatchingModeStrict uri.(RedirectURISpec_MatchingMode));
  RedirectURIRequest_Url := uri.(RedirectURISpec_URL);
  RedirectURIRequest_RedirectUriType :=
    mapEnum redirectURITypes (or_else uri.(RedirectURISpec_Type) (Some RedirectURITypeAuthorization));
|}.

(** The client ID and the client secret that the credentials manage. *)
Definition desired_client_id (credentials : option Credentials) : option string :=
  c ← credentials;
  if decide (c.(Credentials_ClientID) <> "") then Some c.(Credentials_ClientID) else None.

Definition desired_client_secret (credentials : option Credentials) : option string :=
  c ← credentials;
  if c.(Credentials_SecretExists) then Some c.(Credentials_ClientSecret) else None.

(** [provider.OAuth2] is the argument [oauth2]. *)
Definition desiredOAuth2Provider (provider : ProviderSpec) (oauth2 : OAuth2ProviderSpec) (flows : Flows)
    (refs : OAuth2References) : PatchedOAuth2ProviderRequest := {|
  PatchedOAuth2_Name := provider.(Provider_Name);
  PatchedOAuth2_AuthenticationFlow := nullableString flows.(Resolved_Authentication);
  PatchedOAuth2_AuthorizationFlow := Some flows.(Resolved_Authorization);
  PatchedOAuth2_InvalidationFlow := Some flows.(Resolved_Invalidation);
  PatchedOAuth2_PropertyMappings := refs.(OAuth2References_Scopes);
  PatchedOAuth2_ClientType := mapEnum clientTypes oauth2.(OAuth2_ClientType);
  PatchedOAuth2_GrantTypes := option_map (map (table_get grantTypes)) oauth2.(OAuth2_GrantTypes);
  PatchedOAuth2_ClientId := desired_client_id refs.(OAuth2References_Credentials);
  PatchedOAuth2_ClientSecret := desired_client_secret refs.(OAuth2References_Credentials);
  PatchedOAuth2_AccessCodeValidity := oauth2.(OAuth2_AccessCodeValidity);
  PatchedOAuth2_AccessTokenValidity := oauth2.(OAuth2_AccessTokenValidity);
  PatchedOAuth2_RefreshTokenValidity := oauth2.(OAuth2_RefreshTokenValidity);
  PatchedOAuth2_RefreshTokenThreshold := oauth2.(OAuth2_RefreshTokenThreshold);
  PatchedOAuth2_IncludeClaimsInIdToken := oauth2.(OAuth2_IncludeClaimsInIDToken);
  PatchedOAuth2_SigningKey := nullableString refs.(OAuth2References_SigningKey);
  PatchedOAuth2_EncryptionKey := nullableString refs.(OAuth2References_EncryptionKey);
  PatchedOAuth2_RedirectUris := option_map (map desired_redirect_uri) oauth2.(OAuth2_RedirectURIs);
  PatchedOAuth2_LogoutUri := oauth2.(OAuth2_LogoutURI);
  PatchedOAuth2_LogoutMethod := mapEnum logoutMethods oauth2.(OAuth2_LogoutMethod);
  PatchedOAuth2_SubMode := mapEnum subjectModes oauth2.(OAuth2_SubjectMode);
  PatchedOAuth2_IssuerMode := mapEnum issuerModes oauth2.(OAuth2_IssuerMode);
|}.

Definition createOAuth2ProviderRequest (name : string) (desired : PatchedOAuth2ProviderRequest)
    (defaults : CreationDefaults) : option OAuth2ProviderRequest :=
  authorization ← desired.(PatchedOAuth2_AuthorizationFlow);
  invalidation ← desired.(PatchedOAuth2_InvalidationFlow);
  Some {|
    OAuth2ProviderRequest_Name := name;
    OAuth2ProviderRequest_AuthenticationFlow := desired.(PatchedOAuth2_AuthenticationFlow);
    OAuth2ProviderRequest_AuthorizationFlow := authorization;
    OAuth2ProviderRequest_InvalidationFlow := invalidation;
    OAuth2ProviderRequest_PropertyMappings :=
      or_else desired.(PatchedOAuth2_PropertyMappings) defaults.(CreationDefaults_Scopes);
    OAuth2ProviderRequest_ClientType := desired.(PatchedOAuth2_ClientType);
    OAuth2ProviderRequest_GrantTypes := desired.(PatchedOAuth2_GrantTypes);
    OAuth2ProviderRequest_ClientId := desired.(PatchedOAuth2_ClientId);
    OAuth2ProviderRequest_ClientSecret := desired.(PatchedOAuth2_ClientSecret);
    OAuth2ProviderRequest_AccessCodeValidity := desired.(PatchedOAuth2_AccessCodeValidity);
    OAuth2ProviderRequest_AccessTokenValidity := desired.(PatchedOAuth2_AccessTokenValidity);
    OAuth2ProviderRequest_RefreshTokenValidity := desired.(PatchedOAuth2_RefreshTokenValidity);
    OAuth2ProviderRequest_RefreshTokenThreshold := desired.(PatchedOAuth2_RefreshTokenThreshold);
    OAuth2ProviderRequest_IncludeClaimsInIdToken := desired.(PatchedOAuth2_IncludeClaimsInIdToken);
    OAuth2ProviderRequest_SigningKey :=
      if Nullable_IsSet desired.(PatchedOAuth2_SigningKey) then desired.(PatchedOAuth2_SigningKey)
      else nullableString defaults.(CreationDefaults_SigningKey);
    OAuth2ProviderRequest_EncryptionKey := desired.(PatchedOAuth2_EncryptionKey);
    OAuth2ProviderRequest_RedirectUris := or_else desired.(PatchedOAuth2_RedirectUris) (Some []);
    OAuth2ProviderRequest_LogoutUri := desired.(PatchedOAuth2_LogoutUri);
    OAuth2ProviderRequest_LogoutMethod := desired.(PatchedOAuth2_LogoutMethod);
    OAuth2ProviderRequest_SubMode := desired.(PatchedOAuth2_SubMode);
    OAuth2ProviderRequest_IssuerMode := desired.(PatchedOAuth2_IssuerMode);
  |}.

(** ** Bindings *)

Record bindingSubject : Type := mkBindingSubject {
  subject_group : string;
  subject_user : Z;
  subject_policy : string;
}.

#[export] Instance bindingSubject_eq_dec : EqDecision bindingSubject.
Proof. solve_decision. Defined.

Definition ruleSubject (rule : Rule) : option bindingSubject :=
  match rule.(Rule_Group), rule.(Rule_User) with
  | Some group, _ => Some (mkBindingSubject group 0 "")
  | None, Some user => Some (mkBindingSubject "" user "")
  | None, None => policy ← rule.(Rule_Policy); Some (mkBindingSubject "" 0 policy)
  end.

Definition nonempty (s : option string) : option string :=
  match s with Some s => if decide (s = "") then None else Some s | None => None end.

Definition observedSubject (binding : PolicyBinding) : bindingSubject :=
  match nonempty (Nullable_Get binding.(PolicyBinding_Group)),
        Nullable_Get binding.(PolicyBinding_User), Nullable_Get binding.(PolicyBinding_Policy) with
  | Some group, _, _ => mkBindingSubject group 0 ""
  | None, Some user, _ => mkBindingSubject "" user ""
  | None, None, Some policy => mkBindingSubject "" 0 policy
  | None, None, None => mkBindingSubject "" 0 ""
  end.

Definition desiredBinding (target : string) (rule : Rule) : PatchedPolicyBindingRequest :=
  let '(policy, group, user) :=
    match rule.(Rule_Group), rule.(Rule_User) with
    | Some group, _ => (Unset, SetTo (Some group), Unset)
    | None, Some user => (Unset, Unset, SetTo (Some user))
    | None, None => (SetTo rule.(Rule_Policy), Unset, Unset)
    end in {|
  PatchedBinding_Policy := policy;
  PatchedBinding_Group := group;
  PatchedBinding_User := user;
  PatchedBinding_Target := Some target;
  PatchedBinding_Negate := Some rule.(Rule_Negate);
  PatchedBinding_Enabled := None;
  PatchedBinding_Order := None;
  PatchedBinding_Timeout := None;
  PatchedBinding_FailureResult := None;
|}.

Definition createBindingRequest (desired : PatchedPolicyBindingRequest) (order : Z) : option PolicyBindingRequest :=
  target ← desired.(PatchedBinding_Target);
  Some {|
    PolicyBindingRequest_Policy := desired.(PatchedBinding_Policy);
    PolicyBindingRequest_Group := desired.(PatchedBinding_Group);
    PolicyBindingRequest_User := desired.(PatchedBinding_User);
    PolicyBindingRequest_Target := target;
    PolicyBindingRequest_Negate := desired.(PatchedBinding_Negate);
    PolicyBindingRequest_Enabled := None;
    PolicyBindingRequest_Order := order;
    PolicyBindingRequest_Timeout := None;
    PolicyBindingRequest_FailureResult := None;
  |}.
