(* ===== verification/Convergence.v ===== *)
(** * Drift repair converges

    A PATCH built by a Diff function ([Patch]) is applied by the server ([Fake]). The theorems show that sending the
    difference has the same effect as sending the whole desired state, up to the equivalences by which the Diff
    functions compare (unordered lists, and an unset nullable field being null), that one repair is enough, and
    which requests the server accepts. *)
From S2P Require Import Prelude Errors Api Crd Patch Interface Fake Reference Desired.

(** ** Equivalence of objects *)

Definition set_eq {T} (l k : list T) : Prop := forall x, x ∈ l <-> x ∈ k.

Definition nullable_eq {T} (n m : Nullable T) : Prop := Nullable_Get n = Nullable_Get m.

#[export] Instance set_eq_equivalence {T} : Equivalence (@set_eq T).
Proof. unfold set_eq. split; [by intros ?|intros ? ?; naive_solver|intros ? ? ?; naive_solver]. Qed.

#[export] Instance nullable_eq_equivalence {T} : Equivalence (@nullable_eq T).
Proof. unfold nullable_eq. split; [by intros ?|by intros ? ?|intros ? ? ?; congruence]. Qed.

(** Records compared field by field. *)
Definition application_equiv (a b : Application) : Prop :=
  a.(Application_Pk) = b.(Application_Pk) /\ a.(Application_PbmUuid) = b.(Application_PbmUuid) /\
  a.(Application_Name) = b.(Application_Name) /\ a.(Application_Slug) = b.(Application_Slug) /\
  nullable_eq a.(Application_Provider) b.(Application_Provider) /\
  a.(Application_OpenInNewTab) = b.(Application_OpenInNewTab) /\
  a.(Application_MetaLaunchUrl) = b.(Application_MetaLaunchUrl) /\
  a.(Application_MetaIcon) = b.(Application_MetaIcon) /\
  a.(Application_MetaDescription) = b.(Application_MetaDescription) /\
  a.(Application_MetaPublisher) = b.(Application_MetaPublisher) /\
  a.(Application_PolicyEngineMode) = b.(Application_PolicyEngineMode) /\
  a.(Application_Group) = b.(Application_Group) /\ a.(Application_MetaHide) = b.(Application_MetaHide).

Definition proxy_equiv (a b : ProxyProvider) : Prop :=
  a.(ProxyProvider_Pk) = b.(ProxyProvider_Pk) /\ a.(ProxyProvider_Name) = b.(ProxyProvider_Name) /\
  nullable_eq a.(ProxyProvider_AuthenticationFlow) b.(ProxyProvider_AuthenticationFlow) /\
  a.(ProxyProvider_AuthorizationFlow) = b.(ProxyProvider_AuthorizationFlow) /\
  a.(ProxyProvider_InvalidationFlow) = b.(ProxyProvider_InvalidationFlow) /\
  set_eq a.(ProxyProvider_PropertyMappings) b.(ProxyProvider_PropertyMappings) /\
  a.(ProxyProvider_InternalHost) = b.(ProxyProvider_InternalHost) /\
  a.(ProxyProvider_ExternalHost) = b.(ProxyProvider_ExternalHost) /\
  a.(ProxyProvider_InternalHostSslValidation) = b.(ProxyProvider_InternalHostSslValidation) /\
  nullable_eq a.(ProxyProvider_Certificate) b.(ProxyProvider_Certificate) /\
  a.(ProxyProvider_SkipPathRegex) = b.(ProxyProvider_SkipPathRegex) /\
  a.(ProxyProvider_BasicAuthEnabled) = b.(ProxyProvider_BasicAuthEnabled) /\
  a.(ProxyProvider_BasicAuthPasswordAttribute) = b.(ProxyProvider_BasicAuthPasswordAttribute) /\
  a.(ProxyProvider_BasicAuthUserAttribute) = b.(ProxyProvider_BasicAuthUserAttribute) /\
  a.(ProxyProvider_Mode) = b.(ProxyProvider_Mode) /\
  a.(ProxyProvider_InterceptHeaderAuth) = b.(ProxyProvider_InterceptHeaderAuth) /\
  a.(ProxyProvider_CookieDomain) = b.(ProxyProvider_CookieDomain) /\
  a.(ProxyProvider_AccessTokenValidity) = b.(ProxyProvider_AccessTokenValidity) /\
  a.(ProxyProvider_RefreshTokenValidity) = b.(ProxyProvider_RefreshTokenValidity).

Definition oauth2_equiv (a b : OAuth2Provider) : Prop :=
  a.(OAuth2Provider_Pk) = b.(OAuth2Provider_Pk) /\ a.(OAuth2Provider_Name) = b.(OAuth2Provider_Name) /\
  nullable_eq a.(OAuth2Provider_AuthenticationFlow) b.(OAuth2Provider_AuthenticationFlow) /\
  a.(OAuth2Provider_AuthorizationFlow) = b.(OAuth2Provider_AuthorizationFlow) /\
  a.(OAuth2Provider_InvalidationFlow) = b.(OAuth2Provider_InvalidationFlow) /\
  set_eq a.(OAuth2Provider_PropertyMappings) b.(OAuth2Provider_PropertyMappings) /\
  a.(OAuth2Provider_ClientType) = b.(OAuth2Provider_ClientType) /\
  set_eq a.(OAuth2Provider_GrantTypes) b.(OAuth2Provider_GrantTypes) /\
  a.(OAuth2Provider_ClientId) = b.(OAuth2Provider_ClientId) /\
  a.(OAuth2Provider_ClientSecret) = b.(OAuth2Provider_ClientSecret) /\
  a.(OAuth2Provider_AccessCodeValidity) = b.(OAuth2Provider_AccessCodeValidity) /\
  a.(OAuth2Provider_AccessTokenValidity) = b.(OAuth2Provider_AccessTokenValidity) /\
  a.(OAuth2Provider_RefreshTokenValidity) = b.(OAuth2Provider_RefreshTokenValidity) /\
  a.(OAuth2Provider_RefreshTokenThreshold) = b.(OAuth2Provider_RefreshTokenThreshold) /\
  a.(OAuth2Provider_IncludeClaimsInIdToken) = b.(OAuth2Provider_IncludeClaimsInIdToken) /\
  nullable_eq a.(OAuth2Provider_SigningKey) b.(OAuth2Provider_SigningKey) /\
  nullable_eq a.(OAuth2Provider_EncryptionKey) b.(OAuth2Provider_EncryptionKey) /\
  set_eq (observed_key <$> a.(OAuth2Provider_RedirectUris)) (observed_key <$> b.(OAuth2Provider_RedirectUris)) /\
  a.(OAuth2Provider_LogoutUri) = b.(OAuth2Provider_LogoutUri) /\
  a.(OAuth2Provider_LogoutMethod) = b.(OAuth2Provider_LogoutMethod) /\
  a.(OAuth2Provider_SubMode) = b.(OAuth2Provider_SubMode) /\
  a.(OAuth2Provider_IssuerMode) = b.(OAuth2Provider_IssuerMode).

Definition binding_equiv (a b : PolicyBinding) : Prop :=
  a.(PolicyBinding_Pk) = b.(PolicyBinding_Pk) /\
  nullable_eq a.(PolicyBinding_Policy) b.(PolicyBinding_Policy) /\
  nullable_eq a.(PolicyBinding_Group) b.(PolicyBinding_Group) /\
  nullable_eq a.(PolicyBinding_User) b.(PolicyBinding_User) /\
  a.(PolicyBinding_Target) = b.(PolicyBinding_Target) /\ a.(PolicyBinding_Negate) = b.(PolicyBinding_Negate) /\
  a.(PolicyBinding_Enabled) = b.(PolicyBinding_Enabled) /\ a.(PolicyBinding_Order) = b.(PolicyBinding_Order) /\
  a.(PolicyBinding_Timeout) = b.(PolicyBinding_Timeout) /\
  a.(PolicyBinding_FailureResult) = b.(PolicyBinding_FailureResult).

(** A conjunction of equivalences is one. *)
Ltac conj_equivalence :=
  split;
  [ intros x; repeat match goal with |- _ /\ _ => split end; reflexivity
  | intros x y H; repeat match goal with H : _ /\ _ |- _ => destruct H | |- _ /\ _ => split end; by symmetry
  | intros x y z H1 H2;
    repeat match goal with H : _ /\ _ |- _ => destruct H | |- _ /\ _ => split end; by etransitivity ].

#[export] Instance application_equiv_equivalence : Equivalence application_equiv.
Proof. unfold application_equiv. conj_equivalence. Qed.
#[export] Instance proxy_equiv_equivalence : Equivalence proxy_equiv.
Proof. unfold proxy_equiv. conj_equivalence. Qed.
#[export] Instance oauth2_equiv_equivalence : Equivalence oauth2_equiv.
Proof. unfold oauth2_equiv. conj_equivalence. Qed.
#[export] Instance binding_equiv_equivalence : Equivalence binding_equiv.
Proof. unfold binding_equiv. conj_equivalence. Qed.

(** ** The field specifications respect the equivalences *)

Lemma nullable_ok_eq {T} (d o o' : Nullable T) : nullable_eq o o' -> nullable_ok d o -> nullable_ok d o'.
Proof. unfold nullable_eq, nullable_ok. intros <-. done. Qed.

Lemma set_ok_eq {T} (d : option (list T)) o o' : set_eq o o' -> set_ok d o -> set_ok d o'.
Proof. unfold set_eq, set_ok. intros He H l Hl x. rewrite <- He. by apply H. Qed.

Lemma redirects_ok_eq d o o' :
  set_eq (observed_key <$> o) (observed_key <$> o') -> redirects_ok d o -> redirects_ok d o'.
Proof. apply set_ok_eq. Qed.

(** Moves a conjunction of field specifications along an equivalence. *)
Ltac matches_equiv :=
  intros He Hm; repeat match goal with
  | H : _ /\ _ |- _ => destruct H
  | H : ?f _ = ?f _ |- _ => rewrite H in *; clear H
  end; repeat match goal with |- _ /\ _ => split end; eauto using nullable_ok_eq, set_ok_eq, redirects_ok_eq.

Lemma application_matches_equiv d a b : application_equiv a b -> application_matches d a -> application_matches d b.
Proof. unfold application_equiv, application_matches. matches_equiv. Qed.

Lemma proxy_matches_equiv d a b : proxy_equiv a b -> proxy_matches d a -> proxy_matches d b.
Proof. unfold proxy_equiv, proxy_matches. matches_equiv. Qed.

Lemma oauth2_matches_equiv d a b : oauth2_equiv a b -> oauth2_matches d a -> oauth2_matches d b.
Proof. unfold oauth2_equiv, oauth2_matches. matches_equiv. Qed.

Lemma binding_matches_equiv d a b : binding_equiv a b -> binding_matches d a -> binding_matches d b.
Proof. unfold binding_equiv, binding_matches. matches_equiv. Qed.

#[export] Instance application_matches_proper d : Proper (application_equiv ==> iff) (application_matches d).
Proof. intros a b He. by split; apply application_matches_equiv. Qed.
#[export] Instance proxy_matches_proper d : Proper (proxy_equiv ==> iff) (proxy_matches d).
Proof. intros a b He. by split; apply proxy_matches_equiv. Qed.
#[export] Instance oauth2_matches_proper d : Proper (oauth2_equiv ==> iff) (oauth2_matches d).
Proof. intros a b He. by split; apply oauth2_matches_equiv. Qed.
#[export] Instance binding_matches_proper d : Proper (binding_equiv ==> iff) (binding_matches d).
Proof. intros a b He. by split; apply binding_matches_equiv. Qed.

(** ** One field of a PATCH *)

Section fields.
Context {T : Type} `{EqDecision T}.

Lemma patch_diffValue (d : option T) o : patch_value (diffValue d o) o = patch_value d o.
Proof. destruct d as [d|]; simpl; [|done]. by case_decide. Qed.

Lemma patch_diffPointer (d o : option T) : patch_pointer (diffPointer d o) o = patch_pointer d o.
Proof. destruct d as [d|], o as [o|]; simpl; try done. case_decide; by subst. Qed.

Lemma patch_or_else (d o : option T) : patch_pointer (or_else d o) o = patch_pointer d o.
Proof. by destruct d, o. Qed.

Lemma patch_diffNullable (d o : Nullable T) :
  nullable_eq (patch_nullable (diffNullable d o) o) (patch_nullable d o).
Proof.
  unfold nullable_eq, patch_nullable, diffNullable, equalPointers.
  destruct d as [|[d|]]; simpl; destruct (Nullable_Get o) as [v|] eqn:E; simpl;
    try case_bool_decide; simpl; congruence.
Qed.

Lemma patch_diffSet (d : option (list T)) o : set_eq (patch_value (diffSet d o) o) (patch_value d o).
Proof.
  destruct d as [d|]; simpl; [|done]. destruct (sameSet d o) eqn:E; simpl; [|done].
  rewrite sameSet_spec in E. intros x. by rewrite E.
Qed.

(** A sent value is the desired one. *)
Lemma value_ok_patch (d : option T) o : value_ok d (patch_value d o).
Proof. by intros ? ->. Qed.

Lemma pointer_ok_patch (d o : option T) : pointer_ok d (patch_pointer d o).
Proof. by intros ? ->. Qed.

Lemma nullable_ok_patch (d o : Nullable T) : nullable_ok d (patch_nullable d o).
Proof. by intros ? ->. Qed.

Lemma set_ok_patch (d : option (list T)) o : set_ok d (patch_value d o).
Proof. by intros ? ->. Qed.
End fields.

(** The redirect URIs after a PATCH. *)
Definition patch_redirects (d : option (list RedirectURIRequest)) (o : list RedirectURI) : list RedirectURI :=
  match d with Some uris => toRedirectURIs (Some uris) | None => o end.

Lemma observed_key_toRedirectURIs uris : observed_key <$> toRedirectURIs (Some uris) = request_key <$> uris.
Proof. unfold toRedirectURIs. simpl. rewrite <- list_fmap_compose. by apply list_fmap_ext. Qed.

Lemma patch_diffRedirectURIs d o :
  set_eq (observed_key <$> patch_redirects (diffRedirectURIs d o) o) (observed_key <$> patch_redirects d o).
Proof.
  destruct d as [d|]; simpl; [|done]. destruct (sameSet _ _) eqn:E; simpl; [|done].
  rewrite sameSet_spec in E. intros x. rewrite observed_key_toRedirectURIs. by rewrite E.
Qed.

Lemma redirects_ok_patch d o : redirects_ok d (patch_redirects d o).
Proof.
  intros k Hk x. destruct d as [d|]; [|done]. injection Hk as <-. simpl.
  by rewrite observed_key_toRedirectURIs.
Qed.

#[export] Hint Resolve value_ok_patch pointer_ok_patch nullable_ok_patch set_ok_patch redirects_ok_patch : go.
#[export] Hint Resolve patch_diffValue patch_diffPointer patch_or_else patch_diffNullable patch_diffSet
  patch_diffRedirectURIs : go.

(** ** Sending the difference is sending the desired state *)

Ltac conj_auto := repeat match goal with |- _ /\ _ => split end; try reflexivity; eauto with go.

Ltac invert_diff H :=
  match type of H with
  | (if ?c then None else Some _) = Some _ => destruct c; [discriminate H|injection H as <-]
  end.

Lemma apply_DiffApplication d o p :
  DiffApplication d o = Some p -> application_equiv (apply_application_patch p o) (apply_application_patch d o).
Proof.
  unfold DiffApplication. cbv zeta. intros H. invert_diff H.
  unfold application_equiv. simpl. conj_auto.
Qed.

Lemma apply_DiffProxyProvider d o p :
  DiffProxyProvider d o = Some p -> proxy_equiv (apply_proxy_patch p o) (apply_proxy_patch d o).
Proof.
  unfold DiffProxyProvider. cbv zeta. intros H. invert_diff H. unfold proxy_equiv. simpl. conj_auto.
Qed.

Lemma apply_DiffOAuth2Provider d o p :
  DiffOAuth2Provider d o = Some p -> oauth2_equiv (apply_oauth2_patch p o) (apply_oauth2_patch d o).
Proof.
  unfold DiffOAuth2Provider. cbv zeta. intros H. invert_diff H.
  unfold oauth2_equiv. cbn -[diffValue diffPointer diffNullable diffSet diffRedirectURIs toRedirectURIs].
  conj_auto.
Qed.

Lemma matches_apply_application d o : application_matches d (apply_application_patch d o).
Proof. unfold application_matches. simpl. conj_auto. Qed.

Lemma matches_apply_proxy d o :
  d.(PatchedProxy_PropertyMappings) = None -> proxy_matches d (apply_proxy_patch d o).
Proof. intros Hp. unfold proxy_matches. simpl. conj_auto. by rewrite Hp. Qed.

Lemma matches_apply_oauth2 d o : oauth2_matches d (apply_oauth2_patch d o).
Proof.
  unfold oauth2_matches. cbn -[toRedirectURIs]. conj_auto.
Qed.

Lemma proxy_equiv_copy c p q : proxy_equiv p q -> proxy_equiv (copyProxyProvider c p) q.
Proof. done. Qed.

Lemma oauth2_equiv_copy c p q : oauth2_equiv p q -> oauth2_equiv (copyOAuth2Provider c p) q.
Proof. done. Qed.

Lemma DiffApplication_Slug d o p :
  DiffApplication d o = Some p -> d.(PatchedApplication_Slug) = None -> p.(PatchedApplication_Slug) = None.
Proof. unfold DiffApplication. cbv zeta. intros H Hs. invert_diff H. simpl. by rewrite Hs. Qed.

(** ** Answers of the server *)

(** A field of the difference is a field of the desired state. *)
Lemma diffValue_Some {T} `{EqDecision T} (d : option T) o v : diffValue d o = Some v -> d = Some v.
Proof. destruct d; simpl; [|done]. by case_decide. Qed.

Lemma diffPointer_Some {T} `{EqDecision T} (d o : option T) v : diffPointer d o = Some v -> d = Some v.
Proof. destruct d, o; simpl; try done. by case_decide. Qed.

Lemma diffNullable_SetTo {T} `{EqDecision T} (d o : Nullable T) v : diffNullable d o = SetTo v -> d = SetTo v.
Proof. unfold diffNullable. by destruct (_ || _). Qed.

Lemma fake_PatchApplication_accepts c slug p o :
  c.(fk_applications) !! slug = Some o -> p.(PatchedApplication_Slug) = None ->
  (forall v, p.(PatchedApplication_Provider) = SetTo v ->
     checkApplicationProvider c "PatchApplication" v slug = None) ->
  let o' := apply_application_patch p o in
  fake_PatchApplication c slug p = (set_applications (<[slug := o']> c.(fk_applications)) c, inl o').
Proof.
  unfold fake_PatchApplication. intros -> Hs Hp. rewrite Hs. simpl.
  destruct p.(PatchedApplication_Provider) as [|v] eqn:E; simpl; [done|]. by rewrite (Hp v eq_refl).
Qed.

Lemma fake_PatchProxyProvider_accepts c pk p o :
  c.(fk_proxyProviders) !! pk = Some o ->
  checkProxyMode "PatchProxyProvider" p.(PatchedProxy_Mode) p.(PatchedProxy_InternalHost) = None ->
  (forall n, p.(PatchedProxy_Name) = Some n -> providerNameTaken c n pk = false) ->
  let c' := set_proxyProviders (<[pk := apply_proxy_patch p o]> c.(fk_proxyProviders)) c in
  fake_PatchProxyProvider c pk p = (c', inl (copyProxyProvider c' (apply_proxy_patch p o))).
Proof.
  unfold fake_PatchProxyProvider. intros -> -> Hn.
  destruct p.(PatchedProxy_Name) as [n|] eqn:E; [|done]. by rewrite (Hn n eq_refl).
Qed.

Lemma fake_PatchOAuth2Provider_accepts c pk p o :
  c.(fk_oauth2Providers) !! pk = Some o ->
  (forall n, p.(PatchedOAuth2_Name) = Some n -> providerNameTaken c n pk = false) ->
  (forall i, p.(PatchedOAuth2_ClientId) = Some i -> clientIDTaken c i pk = false) ->
  let c' := set_oauth2Providers (<[pk := apply_oauth2_patch p o]> c.(fk_oauth2Providers)) c in
  fake_PatchOAuth2Provider c pk p = (c', inl (copyOAuth2Provider c' (apply_oauth2_patch p o))).
Proof.
  unfold fake_PatchOAuth2Provider. intros -> Hn Hi.
  destruct p.(PatchedOAuth2_Name) as [n|]; [rewrite (Hn n eq_refl)|];
    (destruct p.(PatchedOAuth2_ClientId) as [i|]; [by rewrite (Hi i eq_refl)|done]).
Qed.

(** ** Repair of the objects *)

(** C4: The repair of an Application succeeds and converges in one PATCH. When the fetched Application differs from
    the spec and its desired Provider exists and belongs to no other Application, the server accepts the PATCH of
    [DiffApplication]; afterwards every managed field has its desired value, every other field is unchanged, and
    there is no further difference. *)
Theorem application_repair_converges c slug spec pk o p :
  c.(fk_applications) !! slug = Some o ->
  (forall k, pk = Some k -> checkApplicationProvider c "PatchApplication" (Some k) slug = None) ->
  DiffApplication (desiredApplication spec pk) o = Some p ->
  exists c' o',
    fake_PatchApplication c slug p = (c', inl o') /\ fake_GetApplication c' slug = inl o' /\
    application_equiv o' (apply_application_patch (desiredApplication spec pk) o) /\
    DiffApplication (desiredApplication spec pk) o' = None.
Proof.
  intros Ho Hk Hd. pose proof (apply_DiffApplication _ _ _ Hd) as He.
  eexists _, _. split; [apply fake_PatchApplication_accepts; [done| |]|split; [|split; [done|]]].
  - by eapply DiffApplication_Slug.
  - intros v Hv. revert Hd. unfold DiffApplication. cbv zeta. intros H. invert_diff H. simpl in Hv.
    apply diffNullable_SetTo in Hv. destruct pk; simplify_eq. by apply Hk.
  - unfold fake_GetApplication. simpl. by rewrite lookup_insert_eq.
  - apply DiffApplication_None. rewrite He. apply matches_apply_application.
Qed.

(** C16: The repair of a forward-auth Proxy Provider succeeds and converges in one PATCH: in the modes
    [forwardAuthSingle] and [forwardAuthDomain], a PATCH of [DiffProxyProvider] whose name is free is accepted,
    every managed field gets its desired value, the others are unchanged, and there is no further difference. *)
Theorem proxy_repair_converges c pk provider proxy flows refs o p :
  c.(fk_proxyProviders) !! pk = Some o ->
  proxy.(Proxy_Proxy) = None ->
  has proxy.(Proxy_ForwardAuthSingle) || has proxy.(Proxy_ForwardAuthDomain) = true ->
  (forall n, provider.(Provider_Name) = Some n -> providerNameTaken c n pk = false) ->
  let d := desiredProxyProvider provider proxy flows refs in
  DiffProxyProvider d o = Some p ->
  exists c' o',
    fake_PatchProxyProvider c pk p = (c', inl o') /\ fake_GetProxyProvider c' pk = inl o' /\
    proxy_equiv o' (apply_proxy_patch d o) /\ DiffProxyProvider d o' = None.
Proof.
  intros Ho Hp Hm Hn d Hd. pose proof (apply_DiffProxyProvider _ _ _ Hd) as He.
  eexists _, _. split; [apply fake_PatchProxyProvider_accepts; [done| |]|split; [|split; [done|]]].
  - revert Hd. unfold DiffProxyProvider. cbv zeta. intros H. invert_diff H.
    subst d. unfold desiredProxyProvider, desired_mode, checkProxyMode. simpl. rewrite Hp.
    by destruct proxy.(Proxy_ForwardAuthSingle), proxy.(Proxy_ForwardAuthDomain).
  - intros n Hv. revert Hd. unfold DiffProxyProvider. cbv zeta. intros H. invert_diff H.
    apply Hn. by apply diffValue_Some in Hv.
  - unfold fake_GetProxyProvider. simpl. by rewrite lookup_insert_eq.
  - apply DiffProxyProvider_None. rewrite (proxy_equiv_copy _ _ _ He). by apply matches_apply_proxy.
Qed.

(** C13: The repair of an OAuth2 Provider succeeds and converges in one PATCH: when its name and its client ID are
    free, the PATCH of [DiffOAuth2Provider] is accepted, every managed field gets its desired value, with the lists
    compared as sets, the others are unchanged, and there is no further difference. *)
Theorem oauth2_repair_converges c pk provider oauth2 flows refs o p :
  let d := desiredOAuth2Provider provider oauth2 flows refs in
  c.(fk_oauth2Providers) !! pk = Some o ->
  (forall n, provider.(Provider_Name) = Some n -> providerNameTaken c n pk = false) ->
  (forall i, desired_client_id refs.(OAuth2References_Credentials) = Some i -> clientIDTaken c i pk = false) ->
  DiffOAuth2Provider d o = Some p ->
  exists c' o',
    fake_PatchOAuth2Provider c pk p = (c', inl o') /\ fake_GetOAuth2Provider c' pk = inl o' /\
    oauth2_equiv o' (apply_oauth2_patch d o) /\ DiffOAuth2Provider d o' = None.
Proof.
  intros d Ho Hn Hi Hd. pose proof (apply_DiffOAuth2Provider _ _ _ Hd) as He.
  eexists _, _. split; [apply fake_PatchOAuth2Provider_accepts; [done| |]|split; [|split; [done|]]].
  - intros n Hv. revert Hd. unfold DiffOAuth2Provider. cbv zeta. intros H. invert_diff H.
    apply Hn. by apply diffValue_Some in Hv.
  - intros i Hv. revert Hd. unfold DiffOAuth2Provider. cbv zeta. intros H. invert_diff H.
    apply Hi. by apply diffPointer_Some in Hv.
  - unfold fake_GetOAuth2Provider. simpl. by rewrite lookup_insert_eq.
  - apply DiffOAuth2Provider_None. rewrite (oauth2_equiv_copy _ _ _ He). apply matches_apply_oauth2.
Qed.

(** C23: Drift of a Proxy Provider in the mode [proxy] cannot be repaired. When the internal host is the desired one
    and any other managed field differs, [DiffProxyProvider] sends the mode without the internal host, and the
    server rejects the request with 400 and changes nothing. *)
Theorem proxy_mode_drift_is_rejected c pk provider proxy m flows refs o p :
  c.(fk_proxyProviders) !! pk = Some o ->
  proxy.(Proxy_Proxy) = Some m ->
  o.(ProxyProvider_InternalHost) = Some m.(ProxyMode_InternalHost) ->
  DiffProxyProvider (desiredProxyProvider provider proxy flows refs) (copyProxyProvider c o) = Some p ->
  exists body, fake_PatchProxyProvider c pk p = (c, inr (APIError "PatchProxyProvider" StatusBadRequest body)).
Proof.
  intros Ho Hp Hi. unfold DiffProxyProvider. cbv zeta. intros H. invert_diff H.
  unfold fake_PatchProxyProvider, checkProxyMode. rewrite Ho.
  simpl. rewrite Hi. unfold desired_mode. rewrite Hp. simpl. rewrite decide_True by done. simpl. by eexists.
Qed.

(** ** Concrete instances *)

(** A server with an Application and an OAuth2 Provider, and one with a Proxy Provider. *)
Definition example_app : Application :=
  mkApplication "app-pk" "target" "Old name" "wiki" (SetTo None) None None None None None (Some "any") None None.

Definition example_proxy (mode : string) (internal : option string) : ProxyProvider :=
  mkProxyProvider 7 "wiki" Unset "flow-a" "flow-old" [] Unset internal "https://wiki.example" None Unset None None None
    None (Some mode) None None None None.

Definition example_oauth2 : OAuth2Provider :=
  mkOAuth2Provider 9 "wiki" Unset "flow-a" "flow-i" ["b"; "a"] Unset (Some "public") [] (Some "id") (Some "secret") None
    None None None None Unset Unset [] None None None None.

Definition example_server : Client :=
  set_applications {["wiki" := example_app]}
    (set_oauth2Providers {[9 := example_oauth2]} (New (fun _ _ => []))).

Definition example_proxy_server (mode : string) (internal : option string) : Client :=
  set_proxyProviders {[7 := example_proxy mode internal]} (New (fun _ _ => [])).

Definition example_access : AccessSpec := mkAccessSpec (Some AccessModeAll) [] (Some true) None.

Definition example_flow_ref : FlowReference := mkFlowReference (Some "flow") None.

Definition example_provider (proxy : option ProxyProviderSpec) (oauth2 : option OAuth2ProviderSpec) : ProviderSpec :=
  mkProviderSpec (Some "wiki") (mkProviderFlows example_flow_ref example_flow_ref None) proxy oauth2.

Definition example_spec (provider : option ProviderSpec) : AuthentikApplicationSpec :=
  mkSpec "wiki" "Wiki" None None None None None None None None None provider example_access.

Definition example_flows : Flows := mkFlows "flow-a" "flow-i" None.

Definition example_forward : ProxyProviderSpec :=
  mkProxyProviderSpec None (Some (mkForwardAuthSingleSpec "https://wiki.example")) None None None None None None None None.

Definition example_proxy_mode : ProxyProviderSpec :=
  mkProxyProviderSpec (Some (mkProxyModeSpec "https://wiki.example" "http://wiki" None)) None None None None None None None
    None None.

Definition example_oauth2_spec : OAuth2ProviderSpec :=
  mkOAuth2ProviderSpec (Some ClientTypeConfidential) None None None None None None None None None None None None None None
    None.

Lemma application_repair_converges_witness :
  exists p c' o',
    DiffApplication (desiredApplication (example_spec None) (Some 9)) example_app = Some p /\
    fake_PatchApplication example_server "wiki" p = (c', inl o') /\ o'.(Application_Name) = "Wiki".
Proof.
  destruct (DiffApplication (desiredApplication (example_spec None) (Some 9)) example_app) as [p|] eqn:Hd;
    [|vm_compute in Hd; discriminate Hd].
  destruct (application_repair_converges example_server "wiki" (example_spec None) (Some 9) example_app p)
    as (c' & o' & Hp & _ & He & _); [reflexivity| |exact Hd|].
  - intros k [= <-]. vm_compute. reflexivity.
  - exists p, c', o'. destruct He as (_ & _ & He & _). split; [reflexivity|split; [exact Hp|exact He]].
Defined.

Lemma proxy_repair_converges_witness :
  exists p c' o',
    DiffProxyProvider
      (desiredProxyProvider (example_provider (Some example_forward) None) example_forward example_flows
         (mkProxyReferences None "outpost")) (example_proxy PROXYMODE_FORWARD_SINGLE None) = Some p /\
    fake_PatchProxyProvider (example_proxy_server PROXYMODE_FORWARD_SINGLE None) 7 p = (c', inl o') /\ o'.(ProxyProvider_InvalidationFlow) = "flow-i".
Proof.
  destruct (DiffProxyProvider
      (desiredProxyProvider (example_provider (Some example_forward) None) example_forward example_flows
         (mkProxyReferences None "outpost")) (example_proxy PROXYMODE_FORWARD_SINGLE None)) as [p|] eqn:Hd;
    [|vm_compute in Hd; discriminate Hd].
  destruct (proxy_repair_converges (example_proxy_server PROXYMODE_FORWARD_SINGLE None) 7 (example_provider (Some example_forward) None) example_forward
              example_flows (mkProxyReferences None "outpost") (example_proxy PROXYMODE_FORWARD_SINGLE None) p)
    as (c' & o' & Hp & _ & He & _); [reflexivity|reflexivity|reflexivity| |exact Hd|].
  - intros n [= <-]. vm_compute. reflexivity.
  - exists p, c', o'. destruct He as (_ & _ & _ & _ & He & _). split; [reflexivity|split; [exact Hp|exact He]].
Defined.

Lemma oauth2_repair_converges_witness :
  exists p c' o',
    DiffOAuth2Provider
      (desiredOAuth2Provider (example_provider None (Some example_oauth2_spec)) example_oauth2_spec example_flows
         (mkOAuth2References (Some ["a"; "b"]) None None None)) example_oauth2 = Some p /\
    p.(PatchedOAuth2_PropertyMappings) = None /\
    fake_PatchOAuth2Provider example_server 9 p = (c', inl o') /\ o'.(OAuth2Provider_ClientType) = Some "confidential".
Proof.
  destruct (DiffOAuth2Provider
      (desiredOAuth2Provider (example_provider None (Some example_oauth2_spec)) example_oauth2_spec example_flows
         (mkOAuth2References (Some ["a"; "b"]) None None None)) example_oauth2) as [p|] eqn:Hd;
    [|vm_compute in Hd; discriminate Hd].
  destruct (oauth2_repair_converges example_server 9 (example_provider None (Some example_oauth2_spec))
              example_oauth2_spec example_flows (mkOAuth2References (Some ["a"; "b"]) None None None) example_oauth2 p)
    as (c' & o' & Hp & _ & He & _); [reflexivity| | |exact Hd|].
  - intros n Hn. vm_compute. vm_compute in Hn. injection Hn as <-. reflexivity.
  - intros i Hi. vm_compute in Hi. discriminate Hi.
  - exists p, c', o'. destruct He as (_ & _ & _ & _ & _ & _ & He & _).
    split; [reflexivity|split; [|split; [exact Hp|exact He]]]. vm_compute in Hd. injection Hd as <-. reflexivity.
Defined.

Lemma proxy_mode_drift_is_rejected_witness :
  exists p body,
    DiffProxyProvider
      (desiredProxyProvider (example_provider (Some example_proxy_mode) None) example_proxy_mode example_flows
         (mkProxyReferences None "outpost"))
      (copyProxyProvider (example_proxy_server PROXYMODE_PROXY (Some "http://wiki")) (example_proxy PROXYMODE_PROXY (Some "http://wiki"))) = Some p /\
    fake_PatchProxyProvider (example_proxy_server PROXYMODE_PROXY (Some "http://wiki")) 7 p =
      ((example_proxy_server PROXYMODE_PROXY (Some "http://wiki")), inr (APIError "PatchProxyProvider" StatusBadRequest body)).
Proof.
  destruct (DiffProxyProvider
      (desiredProxyProvider (example_provider (Some example_proxy_mode) None) example_proxy_mode example_flows
         (mkProxyReferences None "outpost"))
      (copyProxyProvider (example_proxy_server PROXYMODE_PROXY (Some "http://wiki")) (example_proxy PROXYMODE_PROXY (Some "http://wiki")))) as [p|] eqn:Hd;
    [|vm_compute in Hd; discriminate Hd].
  destruct (proxy_mode_drift_is_rejected (example_proxy_server PROXYMODE_PROXY (Some "http://wiki")) 7 (example_provider (Some example_proxy_mode) None)
              example_proxy_mode (mkProxyModeSpec "https://wiki.example" "http://wiki" None) example_flows
              (mkProxyReferences None "outpost") (example_proxy PROXYMODE_PROXY (Some "http://wiki")) p)
    as (body & Hp); [reflexivity|reflexivity|reflexivity|exact Hd|].
  exists p, body. split; [reflexivity|exact Hp].
Defined.
