(* ===== verification/BindingStore.v ===== *)
(** * The Bindings of the server

    The invariant of the PolicyBindings in the in-memory authentik ([Fake]): every Binding has exactly one subject,
    and two Bindings of the same policy and target never share their order. Every operation on Bindings preserves
    it, and under it the repair of a matched Binding is always accepted. *)
From S2P Require Import Prelude Errors Api Crd Patch Interface Fake Reference Desired Convergence.

(** ** The invariant *)

Definition one_subject (b : PolicyBinding) : Prop :=
  subject_count b.(PolicyBinding_Policy) b.(PolicyBinding_Group) b.(PolicyBinding_User) = 1%nat.

(** The key of the unique constraint; Bindings without a policy are not constrained. *)
Definition order_key (b : PolicyBinding) : option (string * string * Z) :=
  policy ← nonempty (Nullable_Get b.(PolicyBinding_Policy));
  Some (policy, b.(PolicyBinding_Target), b.(PolicyBinding_Order)).

Record bindings_ok (m : gmap string PolicyBinding) : Prop := {
  bindings_one_subject : forall uuid b, m !! uuid = Some b -> one_subject b;
  bindings_unique : forall u1 u2 b1 b2 key,
    m !! u1 = Some b1 -> m !! u2 = Some b2 -> order_key b1 = Some key -> order_key b2 = Some key -> u1 = u2;
  bindings_named : m !! "" = None;
}.

(** ** The checks of the server *)

Lemma checkBindingSubject_None op policy group user :
  checkBindingSubject op policy group user = None <-> subject_count policy group user = 1%nat.
Proof. unfold checkBindingSubject. repeat case_bool_decide; split; intros; try done; lia. Qed.

Lemma nullableStringSet_nonempty v : nullableStringSet v = true <-> exists s, nonempty (Nullable_Get v) = Some s.
Proof.
  unfold nullableStringSet, nonempty. destruct (Nullable_Get v) as [s|]; [|naive_solver].
  rewrite bool_decide_eq_true. case_decide; naive_solver.
Qed.

Lemma nonempty_Some s v : nonempty s = Some v <-> s = Some v /\ v <> "".
Proof. unfold nonempty. destruct s; [case_decide|]; naive_solver. Qed.

Lemma nonempty_None s : nonempty s = None <-> s = None \/ s = Some "".
Proof. unfold nonempty. destruct s; [case_decide|]; naive_solver. Qed.

(** The order of a Binding is free when no other Binding has its key. *)
Lemma bindingOrderTaken_false c b uuid :
  bindingOrderTaken c b.(PolicyBinding_Policy) b.(PolicyBinding_Target) b.(PolicyBinding_Order) uuid = false <->
  forall u b' key, c.(fk_bindings) !! u = Some b' -> order_key b = Some key -> order_key b' = Some key -> u = uuid.
Proof.
  unfold bindingOrderTaken. rewrite andb_false_iff, <- !not_true_iff_false, existsb_elem_of.
  rewrite nullableStringSet_nonempty. unfold order_key. split.
  - intros [Hn|Hn] u b' key Hu Hk Hk'.
    + destruct (nonempty (Nullable_Get b.(PolicyBinding_Policy))) eqn:E; [naive_solver|done].
    + destruct (decide (u = uuid)) as [|Hne]; [done|]. destruct Hn. exists (u, b').
      split; [by apply elem_of_map_to_list|].
      destruct (nonempty (Nullable_Get b.(PolicyBinding_Policy))) eqn:E; [|done].
      destruct (nonempty (Nullable_Get b'.(PolicyBinding_Policy))) eqn:E'; simplify_eq/=.
      assert (nullableStringSet b'.(PolicyBinding_Policy) = true) as -> by (apply nullableStringSet_nonempty; eauto).
      apply nonempty_Some in E as [-> ?], E' as [-> ?].
      rewrite !andb_true_iff, !bool_decide_eq_true. naive_solver.
  - intros H. destruct (nonempty (Nullable_Get b.(PolicyBinding_Policy))) as [p|] eqn:E; [right|left; naive_solver].
    intros ([u b'] & Hu & Hb). apply elem_of_map_to_list in Hu.
    rewrite !andb_true_iff, !bool_decide_eq_true in Hb. destruct Hb as [[[[Hne Hs] Hp] Ht] Ho].
    apply Hne. eapply H; [done|done|]. apply nonempty_Some in E as [E ?].
    rewrite Hp, E, Ht, Ho. simpl. by rewrite decide_False.
Qed.

Lemma bindings_ok_insert m uuid b :
  bindings_ok m -> uuid <> "" -> one_subject b ->
  (forall u b' key, m !! u = Some b' -> order_key b = Some key -> order_key b' = Some key -> u = uuid) ->
  bindings_ok (<[uuid := b]> m).
Proof.
  intros [H1 H2 H3] Hne Hb Hu. split; [| |by rewrite lookup_insert_ne].
  - intros u b'. rewrite lookup_insert_Some. naive_solver.
  - intros u1 u2 b1 b2 key. rewrite !lookup_insert_Some. intros [[<- <-]|[? ?]] [[<- <-]|[? ?]] ? ?; [done|..].
    + symmetry. by eapply Hu.
    + by eapply Hu.
    + by eapply H2.
Qed.

Lemma bindings_ok_subset m m' : m' ⊆ m -> bindings_ok m -> bindings_ok m'.
Proof.
  intros Hsub [H1 H2 H3]. split; [| |by eapply lookup_weaken_None].
  - intros u b Hu. eapply H1, lookup_weaken; eauto.
  - intros u1 u2 b1 b2 key Hu1 Hu2. eapply H2; eapply lookup_weaken; eauto.
Qed.

Lemma bindings_ok_empty : bindings_ok ∅.
Proof. split; intros *; by rewrite ?lookup_empty. Qed.

(** ** The operations on Bindings *)

Lemma uuid_of_nonempty pk : uuid_of pk <> "".
Proof. done. Qed.

Lemma create_binding_ok c request :
  bindings_ok c.(fk_bindings) -> bindings_ok (fake_CreatePolicyBinding c request).1.(fk_bindings).
Proof.
  intros Hok. unfold fake_CreatePolicyBinding.
  destruct (checkBindingSubject _ _ _ _) eqn:Hs; [done|].
  destruct (bindingOrderTaken _ _ _ _ _) eqn:Ho; [done|]. simpl.
  apply bindings_ok_insert; [done|apply uuid_of_nonempty|by eapply checkBindingSubject_None|].
  intros u b' key Hu Hk Hk'. exfalso.
  destruct (order_key b') as [key'|] eqn:E; [|done]. simplify_eq.
  set (b := mkPolicyBinding "" request.(PolicyBindingRequest_Policy) Unset Unset
              request.(PolicyBindingRequest_Target) None None request.(PolicyBindingRequest_Order) None None).
  assert (u = "") as -> by (eapply (proj1 (bindingOrderTaken_false c b "")); eauto).
  pose proof (bindings_named _ Hok). congruence.
Qed.

Lemma patch_binding_ok c uuid request :
  bindings_ok c.(fk_bindings) ->
  (forall b, c.(fk_bindings) !! uuid = Some b -> one_subject (apply_binding_patch request b)) ->
  bindings_ok (fake_PatchPolicyBinding c uuid request).1.(fk_bindings).
Proof.
  intros Hok Hs. unfold fake_PatchPolicyBinding.
  destruct (c.(fk_bindings) !! uuid) as [b|] eqn:Hb; [|done].
  destruct request.(PatchedBinding_Target) as [target|] eqn:Ht; [|done].
  destruct (checkBindingSubject _ _ _ _); [done|].
  destruct (bindingOrderTaken _ _ _ _ _) eqn:Ho; [done|]. simpl.
  apply bindings_ok_insert; [done| |by apply Hs|].
  - intros ->. pose proof (bindings_named _ Hok). congruence.
  - eapply bindingOrderTaken_false. simpl. rewrite Ht. exact Ho.
Qed.

(** ** Repair of a matched Binding *)

(** The subject of a rule whose references were resolved. *)
Definition no_subject : bindingSubject := mkBindingSubject "" 0 "".

(** The subject fields of a Binding, with the empty string as null, determine [observedSubject]. *)
Lemma observedSubject_cases b s :
  observedSubject b = s -> s <> no_subject -> one_subject b ->
  (exists g, g <> "" /\ s = mkBindingSubject g 0 "" /\ nonempty (Nullable_Get b.(PolicyBinding_Group)) = Some g /\
     Nullable_Get b.(PolicyBinding_User) = None /\ nonempty (Nullable_Get b.(PolicyBinding_Policy)) = None) \/
  (exists u, u <> 0 /\ s = mkBindingSubject "" u "" /\ nonempty (Nullable_Get b.(PolicyBinding_Group)) = None /\
     Nullable_Get b.(PolicyBinding_User) = Some u /\ nonempty (Nullable_Get b.(PolicyBinding_Policy)) = None) \/
  (exists p, p <> "" /\ s = mkBindingSubject "" 0 p /\ nonempty (Nullable_Get b.(PolicyBinding_Group)) = None /\
     Nullable_Get b.(PolicyBinding_User) = None /\ Nullable_Get b.(PolicyBinding_Policy) = Some p).
Proof.
  unfold observedSubject, one_subject, subject_count, nullableStringSet, nullableInt32Set, no_subject.
  intros <- Hs. unfold nonempty in *.
  destruct (Nullable_Get b.(PolicyBinding_Group)) as [g|]; [case_decide|];
    destruct (Nullable_Get b.(PolicyBinding_User)) as [u|];
    destruct (Nullable_Get b.(PolicyBinding_Policy)) as [p|]; subst; simpl;
    repeat case_bool_decide; repeat case_decide; simplify_eq/=; try done; intros _.
  all: first [left; by eexists | right; left; eexists; split_and!; try done; congruence
             | right; right; eexists; split_and!; done].
Qed.

(** Nothing but the negation differs between the Binding and its repair, up to null and empty subject fields. *)
Definition binding_repaired (rule : Rule) (o o' : PolicyBinding) : Prop :=
  observedSubject o' = observedSubject o /\ one_subject o' /\ order_key o' = order_key o /\
  o'.(PolicyBinding_Pk) = o.(PolicyBinding_Pk) /\ o'.(PolicyBinding_Target) = o.(PolicyBinding_Target) /\
  o'.(PolicyBinding_Order) = o.(PolicyBinding_Order) /\ o'.(PolicyBinding_Enabled) = o.(PolicyBinding_Enabled) /\
  o'.(PolicyBinding_Timeout) = o.(PolicyBinding_Timeout) /\
  o'.(PolicyBinding_FailureResult) = o.(PolicyBinding_FailureResult) /\
  o'.(PolicyBinding_Negate) = Some rule.(Rule_Negate).

(** The three shapes of a rule with the subject. *)
Lemma desiredBinding_subject target rule s :
  ruleSubject rule = Some s -> s <> no_subject ->
  let d := desiredBinding target rule in
  d.(PatchedBinding_Target) = Some target /\ d.(PatchedBinding_Negate) = Some rule.(Rule_Negate) /\
  (forall g, s = mkBindingSubject g 0 "" -> g <> "" ->
     d.(PatchedBinding_Group) = SetTo (Some g) /\ d.(PatchedBinding_User) = Unset /\ d.(PatchedBinding_Policy) = Unset) /\
  (forall u, s = mkBindingSubject "" u "" -> u <> 0 ->
     d.(PatchedBinding_Group) = Unset /\ d.(PatchedBinding_User) = SetTo (Some u) /\ d.(PatchedBinding_Policy) = Unset) /\
  (forall p, s = mkBindingSubject "" 0 p -> p <> "" ->
     d.(PatchedBinding_Group) = Unset /\ d.(PatchedBinding_User) = Unset /\ d.(PatchedBinding_Policy) = SetTo (Some p)).
Proof.
  unfold ruleSubject, desiredBinding, no_subject.
  destruct rule as [[g|] [u|] [p|] n]; simpl; intros ? ?; simplify_eq/=; split_and!; naive_solver.
Qed.

(** The PATCH of a Binding, up to the fields that are sent unchanged. *)
Lemma DiffPolicyBinding_apply d o p :
  DiffPolicyBinding d o = Some p ->
  (p.(PatchedBinding_Policy), p.(PatchedBinding_Group), p.(PatchedBinding_User)) = binding_subject_patch d o /\
  p.(PatchedBinding_Target) = or_else d.(PatchedBinding_Target) (Some o.(PolicyBinding_Target)) /\
  let o' := apply_binding_patch p o in
  o'.(PolicyBinding_Pk) = o.(PolicyBinding_Pk) /\
  o'.(PolicyBinding_Target) = patch_value d.(PatchedBinding_Target) o.(PolicyBinding_Target) /\
  o'.(PolicyBinding_Negate) = patch_pointer d.(PatchedBinding_Negate) o.(PolicyBinding_Negate) /\
  o'.(PolicyBinding_Enabled) = patch_pointer d.(PatchedBinding_Enabled) o.(PolicyBinding_Enabled) /\
  o'.(PolicyBinding_Order) = patch_value d.(PatchedBinding_Order) o.(PolicyBinding_Order) /\
  o'.(PolicyBinding_Timeout) = patch_pointer d.(PatchedBinding_Timeout) o.(PolicyBinding_Timeout) /\
  o'.(PolicyBinding_FailureResult) = patch_pointer d.(PatchedBinding_FailureResult) o.(PolicyBinding_FailureResult) /\
  o'.(PolicyBinding_Policy) = patch_nullable p.(PatchedBinding_Policy) o.(PolicyBinding_Policy) /\
  o'.(PolicyBinding_Group) = patch_nullable p.(PatchedBinding_Group) o.(PolicyBinding_Group) /\
  o'.(PolicyBinding_User) = patch_nullable p.(PatchedBinding_User) o.(PolicyBinding_User).
Proof.
  unfold DiffPolicyBinding. cbv zeta. destruct (binding_subject_patch d o) as [[pp pg] pu]. intros H. invert_diff H.
  cbn -[diffValue diffPointer]. rewrite !patch_diffPointer, patch_diffValue. split_and!; try done.
  by destruct d.(PatchedBinding_Target).
Qed.

(** [desiredBinding] only manages the subject, the target and the negation. *)
Lemma desiredBinding_unmanaged target rule :
  let d := desiredBinding target rule in
  d.(PatchedBinding_Enabled) = None /\ d.(PatchedBinding_Order) = None /\ d.(PatchedBinding_Timeout) = None /\
  d.(PatchedBinding_FailureResult) = None.
Proof. unfold desiredBinding. by destruct rule as [[] [] ? ?]. Qed.

(** The PATCH of a matched Binding. *)
Lemma DiffPolicyBinding_matched rule o s p :
  one_subject o -> ruleSubject rule = Some s -> s <> no_subject -> observedSubject o = s ->
  DiffPolicyBinding (desiredBinding o.(PolicyBinding_Target) rule) o = Some p ->
  p.(PatchedBinding_Target) = Some o.(PolicyBinding_Target) /\
  subject_count p.(PatchedBinding_Policy) p.(PatchedBinding_Group) p.(PatchedBinding_User) = 1%nat /\
  binding_repaired rule o (apply_binding_patch p o) /\
  binding_matches (desiredBinding o.(PolicyBinding_Target) rule) (apply_binding_patch p o).
Proof.
  intros H1 Hr Hs Ho Hdiff. pose proof (desiredBinding_subject o.(PolicyBinding_Target) rule s Hr Hs) as Hd.
  pose proof (desiredBinding_unmanaged o.(PolicyBinding_Target) rule) as (Hd1 & Hd2 & Hd3 & Hd4).
  apply DiffPolicyBinding_apply in Hdiff as (E & Et & F). cbv zeta in Hd, F. revert Hd Hd1 Hd2 Hd3 Hd4 E Et F.
  generalize (desiredBinding o.(PolicyBinding_Target) rule) as d.
  generalize (apply_binding_patch p o) as o'. intros o' d (Ht & Hn & Hg & Hu & Hp) Hd1 Hd2 Hd3 Hd4 E Et F.
  rewrite Ht, Hn, Hd1, Hd2, Hd3, Hd4 in F. destruct F as (F1 & F2 & F3 & F4 & F5 & F6 & F7 & F8 & F9 & F10).
  rewrite Ht in Et. simpl in *.
  unfold binding_repaired, binding_matches, order_key, one_subject, observedSubject at 1.
  rewrite F1, F2, F3, F4, F5, F6, F7, F8, F9, F10, Ht, Hn, Hd1, Hd2, Hd3, Hd4.
  unfold binding_subject_patch in E.
  destruct (observedSubject_cases _ _ Ho Hs H1)
    as [(g & ? & -> & Og & Ou & Op)|[(u & ? & -> & Og & Ou & Op)|(q & ? & -> & Og & Ou & Op)]].
  - destruct (Hg g) as (Eg & Eu & Ep); try done. rewrite Eg, Eu, Ep in E |- *. injection E as E1 E2 E3.
    rewrite E1, E2, E3, Op, Ho. unfold subject_count, nullableStringSet, nonempty. simpl.
    rewrite decide_False, bool_decide_true by done. split_and!; try done; by intros ? [= <-].
  - destruct (Hu u) as (Eg & Eu & Ep); try done. rewrite Eg, Eu, Ep in E |- *. injection E as E1 E2 E3.
    rewrite E1, E2, E3, Op, Ho. split_and!; try done; by intros ? [= <-].
  - destruct (Hp q) as (Eg & Eu & Ep); try done. rewrite Eg, Eu, Ep in E |- *. injection E as E1 E2 E3.
    rewrite E1, E2, E3, Op, Ho. unfold subject_count, nullableStringSet, nonempty. simpl.
    rewrite decide_False, bool_decide_true by done. split_and!; try done; by intros ? [= <-].
Qed.

(** The PATCH of a matched Binding is accepted and repairs the stored Binding. *)
Lemma patch_matched_binding c uuid rule o s p :
  bindings_ok c.(fk_bindings) ->
  c.(fk_bindings) !! uuid = Some o ->
  ruleSubject rule = Some s -> s <> no_subject -> observedSubject o = s ->
  DiffPolicyBinding (desiredBinding o.(PolicyBinding_Target) rule) o = Some p ->
  let o' := apply_binding_patch p o in
  let c' := set_bindings (<[uuid := o']> c.(fk_bindings)) c in
  fake_PatchPolicyBinding c uuid p = (c', inl o') /\ binding_repaired rule o o' /\
  binding_matches (desiredBinding o.(PolicyBinding_Target) rule) o' /\ bindings_ok c'.(fk_bindings).
Proof.
  intros Hok Hu Hr Hs Ho Hd o' c'. pose proof (bindings_one_subject _ Hok _ _ Hu) as H1.
  destruct (DiffPolicyBinding_matched _ _ _ _ H1 Hr Hs Ho Hd) as (Ht & Hc & Hrep & Hm). fold o' in Hrep, Hm.
  assert (Hfree : forall u b key, c.(fk_bindings) !! u = Some b -> order_key o' = Some key ->
    order_key b = Some key -> u = uuid).
  { intros u b key Hb. destruct Hrep as (_ & _ & -> & _). intros. by eapply (bindings_unique _ Hok u uuid). }
  split_and!; try done.
  - unfold fake_PatchPolicyBinding. rewrite Hu, Ht. rewrite (proj2 (checkBindingSubject_None _ _ _ _) Hc).
    fold o'. destruct Hrep as (_ & _ & _ & _ & <- & _). by rewrite (proj2 (bindingOrderTaken_false c o' uuid) Hfree).
  - apply bindings_ok_insert; [done| |by destruct Hrep as (_ & ? & _)|done].
    intros ->. pose proof (bindings_named _ Hok). congruence.
Qed.

(** C14: The repair of a matched Binding is always accepted and converges in one PATCH. When the subject of a stored
    Binding is the subject of the rule, the server accepts the PATCH of [DiffPolicyBinding]; the negation becomes
    that of the rule, the subject, the target, the order and every unmanaged field are unchanged, there is no
    further difference, and the invariant of the Bindings is preserved. *)
Theorem binding_repair_converges c uuid rule o s p :
  bindings_ok c.(fk_bindings) ->
  c.(fk_bindings) !! uuid = Some o ->
  ruleSubject rule = Some s -> s <> no_subject -> observedSubject o = s ->
  let d := desiredBinding o.(PolicyBinding_Target) rule in
  DiffPolicyBinding d o = Some p ->
  exists c' o',
    fake_PatchPolicyBinding c uuid p = (c', inl o') /\ fake_GetPolicyBinding c' uuid = inl o' /\
    binding_repaired rule o o' /\ DiffPolicyBinding d o' = None /\ bindings_ok c'.(fk_bindings).
Proof.
  intros Hok Hu Hr Hs Ho d Hd. destruct (patch_matched_binding c uuid rule o s p) as (Hp & Hrep & Hm & Hok'); try done.
  eexists _, _. split_and!; [exact Hp| |done|by apply DiffPolicyBinding_None|done].
  unfold fake_GetPolicyBinding. simpl. by rewrite lookup_insert_eq.
Qed.

(** A server with one group, and a Binding of it with the other negation. *)
Definition example_group_rule : Rule := mkRule (Some "group-1") None None false.

Definition example_create_binding : PolicyBindingRequest :=
  mkPolicyBindingRequest Unset (SetTo (Some "group-1")) Unset "target" (Some true) None 0 None None.

Definition example_bindings : Client := (fake_CreatePolicyBinding (New (fun _ _ => [])) example_create_binding).1.

Lemma example_bindings_ok : bindings_ok example_bindings.(fk_bindings).
Proof. apply create_binding_ok, bindings_ok_empty. Qed.

Lemma binding_repair_converges_witness :
  exists o p c' o',
    example_bindings.(fk_bindings) !! uuid_of 1 = Some o /\
    DiffPolicyBinding (desiredBinding "target" example_group_rule) o = Some p /\
    fake_PatchPolicyBinding example_bindings (uuid_of 1) p = (c', inl o') /\ o'.(PolicyBinding_Negate) = Some false.
Proof.
  destruct (binding_repair_converges example_bindings (uuid_of 1) example_group_rule
    (mkPolicyBinding (uuid_of 1) Unset (SetTo (Some "group-1")) Unset "target" (Some true) (Some true) 0 (Some 30)
       (Some false))
    (mkBindingSubject "group-1" 0 "")
    (mkPatchedPolicyBindingRequest (SetTo None) (SetTo (Some "group-1")) (SetTo None) (Some "target") (Some false) None None
       None None) example_bindings_ok)
    as (c' & o' & Hp & _ & Hr & _); try (vm_compute; reflexivity); try (vm_compute; discriminate).
  eexists _, _, c', o'. split_and!; [vm_compute; reflexivity|vm_compute; reflexivity|exact Hp|apply Hr].
Defined.
