(* ===== verification/ServerInvariant.v ===== *)
(** * The invariant of the in-memory authentik

    What every reachable state of [Fake] satisfies: the keys of its maps are the primary keys of the objects, primary
    keys are allocated once, the Provider of an Application and of an Outpost exists, a Provider belongs to one
    Application, and the unique constraints of the server hold. States are reached by the calls of the client, by the
    set-up functions and by the deletion of a role outside the client. *)
From S2P Require Import Prelude Errors Api Interface Strconv Fake BindingStore.

(** ** Primary keys *)

Lemma digits_value_zeros n s : digits_value 0 (zeros n +:+ s) = digits_value 0 s.
Proof. induction n as [|n IH]; [done|]. exact IH. Qed.

Lemma fmt_012d_value z : 0 <= z -> digits_value 0 (fmt_012d z) = Some z.
Proof.
  intros Hz. unfold fmt_012d. rewrite decide_False, digits_value_zeros, Z.abs_eq by lia.
  destruct z as [|p|p]; [done| |done]. apply (digits_value_pretty (N.pos p)).
Qed.

Lemma uuid_of_inj z z' : 0 <= z -> 0 <= z' -> uuid_of z = uuid_of z' -> z = z'.
Proof.
  unfold uuid_of. intros Hz Hz' Heq. assert (Happ : forall s t u, s +:+ t = s +:+ u -> t = u).
  { intros s t u. induction s as [|c s IH]; [done|]. intros H. injection H as H. by apply IH. }
  apply Happ, (f_equal (digits_value 0)) in Heq. rewrite !fmt_012d_value in Heq by done. by injection Heq.
Qed.

(** The keys handed out up to a sequence number. *)
Definition allocated (seq pk : Z) : Prop := 0 < pk <= seq.
Definition uuid_allocated (seq : Z) (uuid : string) : Prop := exists k, allocated seq k /\ uuid = uuid_of k.

Lemma allocated_mono seq seq' pk : seq <= seq' -> allocated seq pk -> allocated seq' pk.
Proof. unfold allocated. lia. Qed.

Lemma uuid_allocated_mono seq seq' uuid : seq <= seq' -> uuid_allocated seq uuid -> uuid_allocated seq' uuid.
Proof. intros Hle (k & Hk & ->). exists k. split; [by eapply allocated_mono|done]. Qed.

Lemma uuid_allocated_fresh seq : 0 <= seq -> ~ uuid_allocated seq (uuid_of (seq + 1)).
Proof. unfold allocated. intros Hs (k & Hk & Heq). unfold allocated in Hk. apply uuid_of_inj in Heq; lia. Qed.

Lemma uuid_allocated_nonempty seq uuid : uuid_allocated seq uuid -> uuid <> "".
Proof. intros (k & _ & ->). apply uuid_of_nonempty. Qed.

(** ** The parts of the invariant *)

(** The objects of a map are stored under their primary keys, which are allocated. *)
Definition keyed {A} (pk : A -> string) (seq : Z) (m : gmap string A) : Prop :=
  forall uuid a, m !! uuid = Some a -> pk a = uuid /\ uuid_allocated seq uuid.

Record applications_ok (apps : gmap string Application) (live : Z -> Prop) (seq : Z) : Prop := {
  app_slug slug app : apps !! slug = Some app -> app.(Application_Slug) = slug;
  app_pk slug app : apps !! slug = Some app ->
    app.(Application_Pk) = app.(Application_PbmUuid) /\ uuid_allocated seq app.(Application_Pk);
  app_pk_once s1 s2 a1 a2 : apps !! s1 = Some a1 -> apps !! s2 = Some a2 ->
    a1.(Application_Pk) = a2.(Application_Pk) -> s1 = s2;
  app_live slug app pk : apps !! slug = Some app -> Nullable_Get app.(Application_Provider) = Some pk -> live pk;
  app_once s1 s2 a1 a2 pk : apps !! s1 = Some a1 -> apps !! s2 = Some a2 ->
    Nullable_Get a1.(Application_Provider) = Some pk -> Nullable_Get a2.(Application_Provider) = Some pk -> s1 = s2;
}.

(** The name of a Provider of either type. *)
Definition provider_name (proxies : gmap Z ProxyProvider) (oauth2s : gmap Z OAuth2Provider) (pk : Z) (name : string)
    : Prop :=
  (exists p, proxies !! pk = Some p /\ p.(ProxyProvider_Name) = name) \/
  (exists p, oauth2s !! pk = Some p /\ p.(OAuth2Provider_Name) = name).

Record providers_ok (proxies : gmap Z ProxyProvider) (oauth2s : gmap Z OAuth2Provider) (seq : Z) : Prop := {
  proxy_pk pk p : proxies !! pk = Some p -> p.(ProxyProvider_Pk) = pk /\ allocated seq pk;
  oauth2_pk pk p : oauth2s !! pk = Some p -> p.(OAuth2Provider_Pk) = pk /\ allocated seq pk;
  one_type pk : is_Some (proxies !! pk) -> oauth2s !! pk = None;
  name_once pk1 pk2 name :
    provider_name proxies oauth2s pk1 name -> provider_name proxies oauth2s pk2 name -> pk1 = pk2;
  client_id_once pk1 pk2 p1 p2 id : oauth2s !! pk1 = Some p1 -> oauth2s !! pk2 = Some p2 ->
    p1.(OAuth2Provider_ClientId) = Some id -> p2.(OAuth2Provider_ClientId) = Some id -> pk1 = pk2;
}.

Record outposts_ok (outposts : gmap string Outpost) (live : Z -> Prop) (seq : Z) : Prop := {
  outpost_keyed : keyed Outpost_Pk seq outposts;
  outpost_live uuid o pk : outposts !! uuid = Some o -> pk ∈ o.(Outpost_Providers) -> live pk;
}.

(** Two Bindings of one policy and target never have the same order. *)
Record binding_store_ok (bindings : gmap string PolicyBinding) (seq : Z) : Prop := {
  binding_keyed : keyed PolicyBinding_Pk seq bindings;
  binding_order_once u1 u2 b1 b2 key : bindings !! u1 = Some b1 -> bindings !! u2 = Some b2 ->
    order_key b1 = Some key -> order_key b2 = Some key -> u1 = u2;
}.

Record roles_ok (roles : gmap string Role) (seq : Z) : Prop := {
  role_keyed : keyed Role_Pk seq roles;
  role_name_once u1 u2 r1 r2 : roles !! u1 = Some r1 -> roles !! u2 = Some r2 ->
    r1.(Role_Name) = r2.(Role_Name) -> u1 = u2;
}.

Definition permission_key (p : objectPermission) : string * string * string * string :=
  (p.(op_role), p.(op_model), p.(op_objectPK), p.(op_permission)).

Record permissions_ok (permissions : list objectPermission) (roles : gmap string Role) : Prop := {
  permission_role p : p ∈ permissions -> is_Some (roles !! p.(op_role));
  permission_once : NoDup (permission_key <$> permissions);
}.

(** The Provider with the primary key exists. *)
Definition live_in (proxies : gmap Z ProxyProvider) (oauth2s : gmap Z OAuth2Provider) (pk : Z) : Prop :=
  is_Some (proxies !! pk) \/ is_Some (oauth2s !! pk).

Record server_ok (c : Client) : Prop := {
  server_sequence : 0 <= c.(fk_sequence);
  server_applications :
    applications_ok c.(fk_applications) (live_in c.(fk_proxyProviders) c.(fk_oauth2Providers)) c.(fk_sequence);
  server_providers : providers_ok c.(fk_proxyProviders) c.(fk_oauth2Providers) c.(fk_sequence);
  server_outposts :
    outposts_ok c.(fk_outposts) (live_in c.(fk_proxyProviders) c.(fk_oauth2Providers)) c.(fk_sequence);
  server_bindings : binding_store_ok c.(fk_bindings) c.(fk_sequence);
  server_roles : roles_ok c.(fk_roles) c.(fk_sequence);
  server_permissions : permissions_ok c.(fk_objectPermissions) c.(fk_roles);
}.

(** ** Monotonicity in the sequence *)

Lemma keyed_mono {A} (pk : A -> string) seq seq' m : seq <= seq' -> keyed pk seq m -> keyed pk seq' m.
Proof. intros Hle Hk uuid a Ha. destruct (Hk _ _ Ha). split; [done|by eapply uuid_allocated_mono]. Qed.

Lemma applications_mono apps (live live' : Z -> Prop) seq seq' :
  seq <= seq' -> (forall pk, live pk -> live' pk) -> applications_ok apps live seq -> applications_ok apps live' seq'.
Proof.
  intros Hle Hlive [H1 H2 H3 H4 H5]. split; eauto. intros slug app Ha. destruct (H2 _ _ Ha).
  split; [done|by eapply uuid_allocated_mono].
Qed.

Lemma providers_mono proxies oauth2s seq seq' :
  seq <= seq' -> providers_ok proxies oauth2s seq -> providers_ok proxies oauth2s seq'.
Proof.
  intros Hle [H1 H2 H3 H4 H5]. split; eauto.
  - intros pk p Hp. destruct (H1 _ _ Hp). split; [done|by eapply allocated_mono].
  - intros pk p Hp. destruct (H2 _ _ Hp). split; [done|by eapply allocated_mono].
Qed.

Lemma outposts_mono outposts (live live' : Z -> Prop) seq seq' :
  seq <= seq' -> (forall pk, live pk -> live' pk) -> outposts_ok outposts live seq -> outposts_ok outposts live' seq'.
Proof. intros Hle Hlive [H1 H2]. split; [by eapply keyed_mono|eauto]. Qed.

Lemma binding_store_mono bindings seq seq' :
  seq <= seq' -> binding_store_ok bindings seq -> binding_store_ok bindings seq'.
Proof. intros Hle [H1 H2]. split; [by eapply keyed_mono|done]. Qed.

Lemma roles_mono roles seq seq' : seq <= seq' -> roles_ok roles seq -> roles_ok roles seq'.
Proof. intros Hle [H1 H2]. split; [by eapply keyed_mono|done]. Qed.

#[export] Hint Resolve applications_mono providers_mono outposts_mono binding_store_mono roles_mono : go.

Lemma keyed_insert {A} (pk : A -> string) seq m uuid a :
  keyed pk seq m -> pk a = uuid -> uuid_allocated seq uuid -> keyed pk seq (<[uuid := a]> m).
Proof. intros Hk Ha Hu u b [[<- <-]|[_ Hb]]%lookup_insert_Some; [done|by apply Hk]. Qed.

Lemma keyed_subset {A} (pk : A -> string) seq m m' : m' ⊆ m -> keyed pk seq m -> keyed pk seq m'.
Proof. intros Hsub Hk u b Hb. by eapply Hk, lookup_weaken. Qed.

(** ** Providers *)

Lemma existsb_map_to_list_false {K A} `{Countable K} (f : K * A -> bool) (m : gmap K A) :
  existsb f (map_to_list m) = false <-> forall k a, m !! k = Some a -> f (k, a) = false.
Proof.
  rewrite <- not_true_iff_false, existsb_elem_of. split.
  - intros Hn k a Ha. apply not_true_iff_false. intros Hf. apply Hn. exists (k, a). by rewrite elem_of_map_to_list.
  - intros Hf ([k a] & Ha%elem_of_map_to_list & Hk). by rewrite Hf in Hk.
Qed.

Lemma providerNameTaken_false c name pk :
  providerNameTaken c name pk = false <->
  forall pk', provider_name c.(fk_proxyProviders) c.(fk_oauth2Providers) pk' name -> pk' = pk.
Proof.
  unfold providerNameTaken, provider_name. rewrite orb_false_iff, !existsb_map_to_list_false.
  setoid_rewrite andb_false_iff. setoid_rewrite bool_decide_eq_false. split.
  - intros [Hp Ho] pk' [(p & Hk & Hn)|(p & Hk & Hn)].
    + destruct (Hp _ _ Hk); destruct (decide (pk' = pk)); tauto.
    + destruct (Ho _ _ Hk); destruct (decide (pk' = pk)); tauto.
  - intros Hu. split; intros k p Hk; destruct (decide (k = pk)) as [->|]; [tauto| |tauto|].
    + right. intros Hn. apply n, Hu. left. eauto.
    + right. intros Hn. apply n, Hu. right. eauto.
Qed.

Lemma clientIDTaken_false c id pk :
  clientIDTaken c id pk = false <->
  forall pk' p, c.(fk_oauth2Providers) !! pk' = Some p -> p.(OAuth2Provider_ClientId) = Some id -> pk' = pk.
Proof.
  unfold clientIDTaken. rewrite existsb_map_to_list_false. setoid_rewrite andb_false_iff.
  setoid_rewrite bool_decide_eq_false. split.
  - intros Hf pk' p Hp Hid. destruct (Hf _ _ Hp); destruct (decide (pk' = pk)); tauto.
  - intros Hu k p Hp. destruct (decide (k = pk)); [tauto|]. right. naive_solver.
Qed.

(** Storing a Provider under its key. *)
Lemma insert_proxy_ok proxies oauth2s seq pk p :
  providers_ok proxies oauth2s seq -> p.(ProxyProvider_Pk) = pk -> allocated seq pk -> oauth2s !! pk = None ->
  (forall pk', provider_name proxies oauth2s pk' p.(ProxyProvider_Name) -> pk' = pk) ->
  providers_ok (<[pk := p]> proxies) oauth2s seq.
Proof.
  intros [H1 H2 H3 H4 H5] Hpk Ha Ho Hname. split; try done.
  - intros k q [[<- <-]|[_ Hq]]%lookup_insert_Some; [done|by apply H1].
  - intros k [q [[<- <-]|[_ Hq]]%lookup_insert_Some]; [done|apply H3; eauto].
  - assert (Hinv : forall k name, provider_name (<[pk := p]> proxies) oauth2s k name ->
      k = pk /\ name = p.(ProxyProvider_Name) \/ k <> pk /\ provider_name proxies oauth2s k name).
    { unfold provider_name. intros k name [(q & [[<- <-]|[Hne Hq]]%lookup_insert_Some & <-)|(q & Hq & <-)].
      - by left.
      - right. split; [done|eauto].
      - right. split; [congruence|eauto]. }
    intros k1 k2 name [[-> ->]|[? Hn1]]%Hinv [[-> Hn]|[? Hn2]]%Hinv; [done| | |by eapply H4].
    + symmetry. by apply Hname.
    + subst. by apply Hname.
Qed.

Lemma insert_oauth2_ok proxies oauth2s seq pk p :
  providers_ok proxies oauth2s seq -> p.(OAuth2Provider_Pk) = pk -> allocated seq pk -> proxies !! pk = None ->
  (forall pk', provider_name proxies oauth2s pk' p.(OAuth2Provider_Name) -> pk' = pk) ->
  (forall pk' q id, oauth2s !! pk' = Some q -> p.(OAuth2Provider_ClientId) = Some id ->
     q.(OAuth2Provider_ClientId) = Some id -> pk' = pk) ->
  providers_ok proxies (<[pk := p]> oauth2s) seq.
Proof.
  intros [H1 H2 H3 H4 H5] Hpk Ha Hp Hname Hid. split; try done.
  - intros k q [[<- <-]|[_ Hq]]%lookup_insert_Some; [done|by apply H2].
  - intros k Hk. rewrite lookup_insert_ne; [by apply H3|]. intros <-. rewrite Hp in Hk. by destruct Hk.
  - assert (Hinv : forall k name, provider_name proxies (<[pk := p]> oauth2s) k name ->
      k = pk /\ name = p.(OAuth2Provider_Name) \/ k <> pk /\ provider_name proxies oauth2s k name).
    { unfold provider_name. intros k name [(q & Hq & <-)|(q & [[<- <-]|[Hne Hq]]%lookup_insert_Some & <-)].
      - right. split; [congruence|eauto].
      - by left.
      - right. split; [done|eauto]. }
    intros k1 k2 name [[-> ->]|[? Hn1]]%Hinv [[-> Hn]|[? Hn2]]%Hinv; [done| | |by eapply H4].
    + symmetry. by apply Hname.
    + subst. by apply Hname.
  - intros k1 k2 q1 q2 id. rewrite !lookup_insert_Some.
    intros [[<- <-]|[? Hq1]] [[<- <-]|[? Hq2]] Hi1 Hi2; [done| | |by eapply H5].
    + symmetry. by eapply Hid.
    + by eapply Hid.
Qed.

Lemma providers_subset proxies proxies' oauth2s oauth2s' seq :
  proxies' ⊆ proxies -> oauth2s' ⊆ oauth2s -> providers_ok proxies oauth2s seq -> providers_ok proxies' oauth2s' seq.
Proof.
  intros Hp Ho [H1 H2 H3 H4 H5].
  assert (Hname : forall k name, provider_name proxies' oauth2s' k name -> provider_name proxies oauth2s k name).
  { intros k name [(q & Hq & <-)|(q & Hq & <-)]; [left|right]; eauto using lookup_weaken. }
  split; eauto using lookup_weaken.
  intros pk [p Hpk]. apply (lookup_weaken_None oauth2s' oauth2s); [|done]. apply H3. eauto using lookup_weaken.
Qed.

Lemma live_insert_proxy proxies oauth2s k p pk :
  live_in proxies oauth2s pk -> live_in (<[k := p]> proxies) oauth2s pk.
Proof. intros [Hp|Ho]; [left|by right]. by apply lookup_insert_is_Some'; right. Qed.

Lemma live_insert_oauth2 proxies oauth2s k p pk :
  live_in proxies oauth2s pk -> live_in proxies (<[k := p]> oauth2s) pk.
Proof. intros [Hp|Ho]; [by left|right]. by apply lookup_insert_is_Some'; right. Qed.

(** A Provider that is gone is detached from its Application and from the Outposts. *)
Lemma detach_applications_ok apps (live live' : Z -> Prop) seq pk :
  (forall pk', live pk' -> pk' <> pk -> live' pk') ->
  applications_ok apps live seq -> applications_ok (detach_application pk <$> apps) live' seq.
Proof.
  intros Hlive [H1 H2 H3 H4 H5].
  assert (Hinv : forall slug a, (detach_application pk <$> apps) !! slug = Some a ->
    exists a0, apps !! slug = Some a0 /\ a.(Application_Slug) = a0.(Application_Slug) /\
      a.(Application_Pk) = a0.(Application_Pk) /\ a.(Application_PbmUuid) = a0.(Application_PbmUuid) /\
      forall k, Nullable_Get a.(Application_Provider) = Some k ->
        Nullable_Get a0.(Application_Provider) = Some k /\ k <> pk).
  { intros slug a. rewrite lookup_fmap_Some. intros (a0 & <- & Ha). exists a0. unfold detach_application, uses_provider.
    case_bool_decide as Hu; simpl; split_and!; try done. intros k Hk. split; [done|congruence]. }
  split.
  - intros slug a (a0 & Ha & -> & _)%Hinv. by apply H1.
  - intros slug a (a0 & Ha & _ & -> & -> & _)%Hinv. by eapply H2.
  - intros s1 s2 a1 a2 (b1 & ? & _ & -> & _)%Hinv (b2 & ? & _ & -> & _)%Hinv. by apply H3.
  - intros slug a k (a0 & Ha & _ & _ & _ & Hk)%Hinv [Hk' Hne]%Hk. eauto.
  - intros s1 s2 a1 a2 k (b1 & ? & _ & _ & _ & Hk1)%Hinv (b2 & ? & _ & _ & _ & Hk2)%Hinv [? _]%Hk1 [? _]%Hk2. eauto.
Qed.

Lemma detach_outposts_ok outposts (live live' : Z -> Prop) seq pk :
  (forall pk', live pk' -> pk' <> pk -> live' pk') ->
  outposts_ok outposts live seq -> outposts_ok (detach_outpost pk <$> outposts) live' seq.
Proof.
  intros Hlive [H1 H2]. split.
  - intros uuid o. rewrite lookup_fmap_Some. intros (o0 & <- & Ho). exact (H1 _ _ Ho).
  - intros uuid o k. rewrite lookup_fmap_Some. intros (o0 & <- & Ho). simpl. rewrite list_elem_of_filter. intros [? ?].
    eauto.
Qed.

(** ** Applications *)

Lemma providerExists_live c pk :
  providerExists c pk = true <-> live_in c.(fk_proxyProviders) c.(fk_oauth2Providers) pk.
Proof. unfold providerExists, live_in. by rewrite orb_true_iff, !bool_decide_eq_true. Qed.

Lemma checkApplicationProvider_None c operation provider slug :
  checkApplicationProvider c operation provider slug = None <->
  forall pk, provider = Some pk -> live_in c.(fk_proxyProviders) c.(fk_oauth2Providers) pk /\
    forall s app, c.(fk_applications) !! s = Some app -> Nullable_Get app.(Application_Provider) = Some pk -> s = slug.
Proof.
  unfold checkApplicationProvider. destruct provider as [pk|]; [|naive_solver].
  setoid_rewrite <- providerExists_live. destruct (providerExists c pk) eqn:He; simpl;
    [|split; [done|intros H; destruct (H pk eq_refl); congruence]].
  destruct (existsb _ _) eqn:Hu; (split; [try done|]).
  - intros H. destruct (H pk eq_refl) as [_ Hs].
    apply existsb_elem_of in Hu as ([s app] & Ha%elem_of_map_to_list & [Hne Hp]%andb_true_iff).
    unfold uses_provider in Hp. apply bool_decide_eq_true in Hne, Hp. destruct Hne. by eapply Hs.
  - intros _ pk' [= <-]. split; [done|]. intros s app Ha Hp.
    pose proof (proj1 (existsb_map_to_list_false _ _) Hu _ _ Ha) as [Hf|Hf]%andb_false_iff.
    + apply bool_decide_eq_false in Hf. by destruct (decide (s = slug)).
    + unfold uses_provider in Hf. by apply bool_decide_eq_false in Hf.
  - done.
Qed.

Lemma applications_subset apps apps' live seq : apps' ⊆ apps -> applications_ok apps live seq -> applications_ok apps' live seq.
Proof. intros Hsub [H1 H2 H3 H4 H5]. split; eauto using lookup_weaken. Qed.

(** Storing an Application under its slug. *)
Lemma insert_application_ok apps live seq slug app :
  applications_ok apps live seq -> app.(Application_Slug) = slug -> app.(Application_Pk) = app.(Application_PbmUuid) ->
  uuid_allocated seq app.(Application_Pk) ->
  (forall s a, apps !! s = Some a -> a.(Application_Pk) = app.(Application_Pk) -> s = slug) ->
  (forall pk, Nullable_Get app.(Application_Provider) = Some pk -> live pk /\
     forall s a, apps !! s = Some a -> Nullable_Get a.(Application_Provider) = Some pk -> s = slug) ->
  applications_ok (<[slug := app]> apps) live seq.
Proof.
  intros [H1 H2 H3 H4 H5] Hs Hpk Ha Hu Hp. split.
  - intros s a [[<- <-]|[_ Hl]]%lookup_insert_Some; [done|by apply H1].
  - intros s a [[<- <-]|[_ Hl]]%lookup_insert_Some; [done|by eapply H2].
  - intros s1 s2 a1 a2. rewrite !lookup_insert_Some. intros [[<- <-]|[? L1]] [[<- <-]|[? L2]] Heq; eauto.
    symmetry. by eapply Hu.
  - intros s a k [[<- <-]|[_ Hl]]%lookup_insert_Some Hk; [by apply Hp|by eapply H4].
  - intros s1 s2 a1 a2 k. rewrite !lookup_insert_Some. intros [[<- <-]|[? L1]] [[<- <-]|[? L2]] K1 K2; eauto.
    + symmetry. by eapply Hp.
    + by eapply Hp.
Qed.

(** The calls that give an Application the empty slug, which the validation of the resource excludes. *)
Definition names_slug {R} (q : call R) : Prop :=
  match q with
  | CreateApplication request => request.(ApplicationRequest_Slug) <> ""
  | PatchApplication _ request => request.(PatchedApplication_Slug) <> Some ""
  | _ => True
  end.

Definition no_empty_slug (c : Client) : Prop := c.(fk_applications) !! "" = None.

(** ** The sequence *)

Lemma nextPK_step c :
  0 <= c.(fk_sequence) < max_int32 -> nextPK c = (set_sequence (c.(fk_sequence) + 1) c, c.(fk_sequence) + 1).
Proof. intros Hs. unfold nextPK. rewrite int32_wrap_id; [done|]. unfold is_int32, max_int32 in *. lia. Qed.

Lemma nextUUID_step c :
  0 <= c.(fk_sequence) < max_int32 -> nextUUID c = (set_sequence (c.(fk_sequence) + 1) c, uuid_of (c.(fk_sequence) + 1)).
Proof. intros Hs. unfold nextUUID. by rewrite nextPK_step. Qed.

(** A step may hand out one primary key. *)
Definition step_ok (c c' : Client) : Prop :=
  server_ok c' /\ no_empty_slug c' /\ c.(fk_sequence) <= c'.(fk_sequence) <= c.(fk_sequence) + 1.

Lemma step_ok_refl c : server_ok c -> no_empty_slug c -> step_ok c c.
Proof. intros. split_and!; [done|done|lia|lia]. Qed.

(** The key that a step hands out is allocated afterwards and not before. *)
Lemma next_allocated c : 0 <= c.(fk_sequence) -> allocated (c.(fk_sequence) + 1) (c.(fk_sequence) + 1).
Proof. unfold allocated. lia. Qed.

Lemma next_uuid_allocated c :
  0 <= c.(fk_sequence) -> uuid_allocated (c.(fk_sequence) + 1) (uuid_of (c.(fk_sequence) + 1)).
Proof. intros Hs. eexists. split; [by apply next_allocated|done]. Qed.

#[export] Hint Resolve step_ok_refl next_allocated next_uuid_allocated Z.le_refl : go.

Lemma sublist_fmap {A B} (f : A -> B) l1 l2 : sublist l1 l2 -> sublist (f <$> l1) (f <$> l2).
Proof. induction 1; csimpl; by constructor. Qed.

Section operations.
Context (c : Client) (Hok : server_ok c) (Hslug : no_empty_slug c) (Hseq : c.(fk_sequence) < max_int32).

Let Hpos : 0 <= c.(fk_sequence) < max_int32.
Proof. split; [apply Hok|done]. Qed.

(** An object that is stored after a key was handed out: the other parts of the invariant only see a larger sequence. *)
Lemma step_after_next c' :
  c'.(fk_sequence) = c.(fk_sequence) + 1 ->
  (forall pk, live_in c.(fk_proxyProviders) c.(fk_oauth2Providers) pk ->
     live_in c'.(fk_proxyProviders) c'.(fk_oauth2Providers) pk) ->
  (c'.(fk_applications) = c.(fk_applications) \/
   applications_ok c'.(fk_applications) (live_in c'.(fk_proxyProviders) c'.(fk_oauth2Providers)) c'.(fk_sequence)) ->
  (c'.(fk_proxyProviders) = c.(fk_proxyProviders) /\ c'.(fk_oauth2Providers) = c.(fk_oauth2Providers) \/
   providers_ok c'.(fk_proxyProviders) c'.(fk_oauth2Providers) c'.(fk_sequence)) ->
  (c'.(fk_outposts) = c.(fk_outposts) \/
   outposts_ok c'.(fk_outposts) (live_in c'.(fk_proxyProviders) c'.(fk_oauth2Providers)) c'.(fk_sequence)) ->
  (c'.(fk_bindings) = c.(fk_bindings) \/ binding_store_ok c'.(fk_bindings) c'.(fk_sequence)) ->
  (c'.(fk_roles) = c.(fk_roles) \/ roles_ok c'.(fk_roles) c'.(fk_sequence)) ->
  (c'.(fk_objectPermissions) = c.(fk_objectPermissions) /\ c'.(fk_roles) = c.(fk_roles) \/
   permissions_ok c'.(fk_objectPermissions) c'.(fk_roles)) ->
  no_empty_slug c' -> step_ok c c'.
Proof.
  destruct Hok as [H1 H2 H3 H4 H5 H6 H7]. intros Hs Hl Ha Hp Ho Hb Hr Hperm Hn. split_and!; [|done|lia|lia].
  assert (Hle : c.(fk_sequence) <= c'.(fk_sequence)) by lia. split; [lia|..].
  - destruct Ha as [->|]; eauto with go.
  - destruct Hp as [[-> ->]|]; eauto with go.
  - destruct Ho as [->|]; eauto with go.
  - destruct Hb as [->|]; eauto with go.
  - destruct Hr as [->|]; eauto with go.
  - by destruct Hperm as [[-> ->]|].
Qed.

(** ** The operations *)

Lemma create_application_step request :
  request.(ApplicationRequest_Slug) <> "" -> step_ok c (fake_CreateApplication c request).1.
Proof.
  intros Hne. unfold fake_CreateApplication. destruct (_ !! _) eqn:Hnone; [auto with go|].
  destruct (checkApplicationProvider _ _ _ _) eqn:Hc; [auto with go|].
  rewrite nextUUID_step by done. simpl. apply step_after_next; simpl; auto 3.
  - right. apply insert_application_ok; simpl; [| | |apply next_uuid_allocated, Hpos| |]; try done.
    + eapply applications_mono; [|done|apply Hok]. lia.
    + intros s a Ha Hpk. exfalso. destruct (app_pk _ _ _ (server_applications _ Hok) _ _ Ha) as [_ Hal].
      rewrite Hpk in Hal. eapply uuid_allocated_fresh; [apply Hpos|exact Hal].
    + intros pk Hpk. destruct (proj1 (checkApplicationProvider_None _ _ _ _) Hc pk Hpk) as [Hl Hu].
      split; [done|]. intros s a Ha Hp. unfold no_empty_slug in Hslug. rewrite (Hu _ _ Ha Hp) in Ha. congruence.
  - unfold no_empty_slug. simpl. by rewrite lookup_insert_ne.
Qed.

Lemma patch_application_step slug request :
  request.(PatchedApplication_Slug) <> Some "" -> step_ok c (fake_PatchApplication c slug request).1.
Proof.
  intros Hne. unfold fake_PatchApplication. destruct (_ !! slug) as [app|] eqn:Happ; [|auto with go].
  destruct (_ && _) eqn:Hr; [auto with go|].
  destruct (if Nullable_IsSet _ then _ else _) as [|] eqn:Hc; [auto with go|]. simpl.
  set (app' := apply_application_patch request app).
  pose proof (server_applications _ Hok) as Ha. pose proof (app_slug _ _ _ Ha _ _ Happ) as Hs.
  assert (Hne' : slug <> "") by (intros ->; unfold no_empty_slug in Hslug; congruence).
  assert (Hprov : forall pk, Nullable_Get app'.(Application_Provider) = Some pk ->
    live_in c.(fk_proxyProviders) c.(fk_oauth2Providers) pk /\
    forall s a, c.(fk_applications) !! s = Some a -> Nullable_Get a.(Application_Provider) = Some pk -> s = slug).
  { unfold app'. simpl. unfold patch_nullable. intros pk Hpk. destruct (Nullable_IsSet _).
    - by apply (proj1 (checkApplicationProvider_None _ _ _ _) Hc).
    - split; [by eapply (app_live _ _ _ Ha)|]. intros s a Hl Hp. by eapply (app_once _ _ _ Ha). }
  assert (Hpk : forall s a, c.(fk_applications) !! s = Some a -> a.(Application_Pk) = app'.(Application_Pk) -> s = slug).
  { intros s a Hl Heq. by eapply (app_pk_once _ _ _ Ha). }
  assert (Hstep : forall apps, apps !! "" = None ->
    applications_ok apps (live_in c.(fk_proxyProviders) c.(fk_oauth2Providers)) c.(fk_sequence) ->
    step_ok c (set_applications apps c)).
  { intros apps Hn Happs. split_and!; simpl; [|done|lia|lia]. destruct Hok. by split. }
  destruct (app_pk _ _ _ Ha _ _ Happ) as [Heq Hal]. unfold no_empty_slug in Hslug.
  destruct (match request.(PatchedApplication_Slug) with Some s => bool_decide (s <> slug) | None => false end) eqn:Hren.
  - destruct request.(PatchedApplication_Slug) as [new|] eqn:Hnew; [|done]. apply bool_decide_eq_true in Hren.
    simpl in Hr |- *. apply bool_decide_eq_false, eq_None_not_Some in Hr. apply Hstep.
    + rewrite lookup_insert_ne by congruence. by rewrite lookup_delete_ne.
    + assert (Hgone : forall s a, delete slug c.(fk_applications) !! s = Some a ->
        s <> slug /\ c.(fk_applications) !! s = Some a) by (intros s a [? ?]%lookup_delete_Some; done).
      apply insert_application_ok; try done.
      * eapply applications_subset; [apply delete_subseteq|done].
      * unfold app'. simpl. by rewrite Hnew.
      * intros s a [Hn Hl]%Hgone Hk. by destruct Hn; eapply Hpk.
      * intros pk Hk. destruct (Hprov _ Hk) as [? Hu]. split; [done|]. intros s a [Hn Hl]%Hgone Hk'.
        by destruct Hn; eapply Hu.
  - apply Hstep; [by rewrite lookup_insert_ne|]. apply insert_application_ok; try done.
    unfold app'. simpl. destruct request.(PatchedApplication_Slug) as [new|]; [|done].
    apply bool_decide_eq_false in Hren. simpl. by destruct (decide (new = slug)).
Qed.

Lemma filter_bindings_ok (P : string * PolicyBinding -> Prop) `{!forall x, Decision (P x)} :
  binding_store_ok (filter P c.(fk_bindings)) c.(fk_sequence).
Proof.
  destruct (server_bindings _ Hok) as [H1 H2]. split.
  - eapply keyed_subset; [apply map_filter_subseteq|done].
  - intros u1 u2 b1 b2 key [? _]%map_lookup_filter_Some [? _]%map_lookup_filter_Some. eauto.
Qed.

Lemma delete_application_step slug : step_ok c (fake_DeleteApplication c slug).1.
Proof.
  unfold fake_DeleteApplication. destruct (_ !! slug) as [app|]; [|auto with go]. split_and!; simpl; [|..|lia|lia].
  - destruct Hok. split; try done; simpl; [|by apply filter_bindings_ok].
    eapply applications_subset; [apply delete_subseteq|done].
  - unfold no_empty_slug in *. simpl. apply lookup_delete_None. by right.
Qed.

(** An update that hands out no key. *)
Lemma step_in_place c' :
  c'.(fk_sequence) = c.(fk_sequence) -> server_ok c' -> no_empty_slug c' -> step_ok c c'.
Proof. intros Hs H1 H2. split_and!; [done|done|lia|lia]. Qed.

(** The key handed out next has no Provider. *)
Lemma next_pk_free :
  c.(fk_proxyProviders) !! (c.(fk_sequence) + 1) = None /\ c.(fk_oauth2Providers) !! (c.(fk_sequence) + 1) = None.
Proof.
  split; apply eq_None_not_Some; intros [p Hp].
  - apply (proxy_pk _ _ _ (server_providers _ Hok)) in Hp as [_ Hp]. unfold allocated in Hp. lia.
  - apply (oauth2_pk _ _ _ (server_providers _ Hok)) in Hp as [_ Hp]. unfold allocated in Hp. lia.
Qed.

(** The names and the client IDs are checked against the key 0, which is never handed out. *)
Lemma name_free name pk :
  providerNameTaken c name 0 = false -> provider_name c.(fk_proxyProviders) c.(fk_oauth2Providers) pk name -> False.
Proof.
  rewrite providerNameTaken_false. intros Hf Hn. pose proof (Hf _ Hn) as ->.
  destruct Hn as [(p & Hp & _)|(p & Hp & _)].
  - apply (proxy_pk _ _ _ (server_providers _ Hok)) in Hp as [_ [? _]]. lia.
  - apply (oauth2_pk _ _ _ (server_providers _ Hok)) in Hp as [_ [? _]]. lia.
Qed.

Lemma create_proxy_step request : step_ok c (fake_CreateProxyProvider c request).1.
Proof.
  unfold fake_CreateProxyProvider. destruct (checkProxyMode _ _ _); [auto with go|].
  destruct (providerNameTaken _ _ _) eqn:Hn; [auto with go|]. rewrite nextPK_step by done. simpl.
  destruct next_pk_free as [Hp Ho]. apply step_after_next; simpl; auto 3.
  - intros pk. apply live_insert_proxy.
  - right. apply insert_proxy_ok; simpl; [|done|apply next_allocated, Hpos|done|].
    + eapply providers_mono; [|apply Hok]. lia.
    + intros pk Hpk. by destruct (name_free _ _ Hn Hpk).
Qed.

Lemma create_oauth2_step request : step_ok c (fake_CreateOAuth2Provider c request).1.
Proof.
  unfold fake_CreateOAuth2Provider. destruct (providerNameTaken _ _ _) eqn:Hn; [auto with go|].
  destruct (clientIDTaken _ _ _) eqn:Hi; [auto with go|]. rewrite nextPK_step by done. simpl.
  destruct next_pk_free as [Hp Ho]. apply step_after_next; simpl; auto 3.
  - intros pk. apply live_insert_oauth2.
  - right. apply insert_oauth2_ok; simpl; [|done|apply next_allocated, Hpos|done| |].
    + eapply providers_mono; [|apply Hok]. lia.
    + intros pk Hpk. by destruct (name_free _ _ Hn Hpk).
    + intros pk q id Hq [= <-] Hid. exfalso. pose proof (proj1 (clientIDTaken_false _ _ _) Hi _ _ Hq Hid) as ->.
      apply (oauth2_pk _ _ _ (server_providers _ Hok)) in Hq as [_ [? _]]. lia.
Qed.

(** A Provider that is replaced by one with a free name keeps the rest of the invariant. *)
Lemma update_proxy_step pk p p' :
  c.(fk_proxyProviders) !! pk = Some p -> p'.(ProxyProvider_Pk) = p.(ProxyProvider_Pk) ->
  (p'.(ProxyProvider_Name) = p.(ProxyProvider_Name) \/ providerNameTaken c p'.(ProxyProvider_Name) pk = false) ->
  step_ok c (set_proxyProviders (<[pk := p']> c.(fk_proxyProviders)) c).
Proof.
  intros Hp Hpk Hname. pose proof (server_providers _ Hok) as Hprov. destruct (proxy_pk _ _ _ Hprov _ _ Hp) as [Hk Ha].
  apply step_in_place; simpl; [done| |done]. destruct Hok as [H1 H2 H3 H4 H5 H6 H7]. split; simpl; try done.
  - eapply applications_mono; [| |exact H2]; [lia|]. intros k. apply live_insert_proxy.
  - apply insert_proxy_ok; try done; [congruence|apply (one_type _ _ _ Hprov); eauto|].
    intros k Hn. destruct Hname as [Heq|Hf].
    + rewrite Heq in Hn. eapply (name_once _ _ _ Hprov); [exact Hn|left; eauto].
    + by eapply providerNameTaken_false.
  - eapply outposts_mono; [| |exact H4]; [lia|]. intros k. apply live_insert_proxy.
Qed.

Lemma patch_proxy_step pk request : step_ok c (fake_PatchProxyProvider c pk request).1.
Proof.
  unfold fake_PatchProxyProvider. destruct (_ !! pk) as [p|] eqn:Hp; [|auto with go].
  destruct (checkProxyMode _ _ _); [auto with go|].
  destruct (match request.(PatchedProxy_Name) with Some _ => _ | None => _ end) eqn:Hn; [auto with go|].
  eapply update_proxy_step; [done|done|]. simpl. destruct request.(PatchedProxy_Name); [by right|by left].
Qed.

Lemma patch_oauth2_step pk request : step_ok c (fake_PatchOAuth2Provider c pk request).1.
Proof.
  unfold fake_PatchOAuth2Provider. destruct (_ !! pk) as [p|] eqn:Hp; [|auto with go].
  destruct (match request.(PatchedOAuth2_Name) with Some _ => _ | None => _ end) eqn:Hn; [auto with go|].
  destruct (match request.(PatchedOAuth2_ClientId) with Some _ => _ | None => _ end) eqn:Hi; [auto with go|].
  set (p' := apply_oauth2_patch request p). cbn [fst].
  pose proof (server_providers _ Hok) as Hprov. destruct (oauth2_pk _ _ _ Hprov _ _ Hp) as [Hk Ha].
  apply step_in_place; simpl; [done| |done]. destruct Hok as [H1 H2 H3 H4 H5 H6 H7]. split; simpl; try done.
  - eapply applications_mono; [| |exact H2]; [lia|]. intros k. apply live_insert_oauth2.
  - apply insert_oauth2_ok; try done.
    + apply eq_None_not_Some. intros Hproxy. pose proof (one_type _ _ _ Hprov _ Hproxy). congruence.
    + unfold p'. simpl. destruct request.(PatchedOAuth2_Name) as [name|]; simpl; intros k Hname.
      * by eapply providerNameTaken_false.
      * eapply (name_once _ _ _ Hprov); [exact Hname|right; eauto].
    + unfold p'. simpl. destruct request.(PatchedOAuth2_ClientId) as [id'|]; simpl; intros k q id Hq Hid Hq'.
      * injection Hid as ->. by eapply clientIDTaken_false.
      * by eapply (client_id_once _ _ _ Hprov).
  - eapply outposts_mono; [| |exact H4]; [lia|]. intros k. apply live_insert_oauth2.
Qed.

(** A Provider leaves the maps, its Application and the Outposts. *)
Lemma delete_provider_step proxies oauth2s pk :
  proxies ⊆ c.(fk_proxyProviders) -> oauth2s ⊆ c.(fk_oauth2Providers) ->
  (forall k, live_in c.(fk_proxyProviders) c.(fk_oauth2Providers) k -> k <> pk -> live_in proxies oauth2s k) ->
  step_ok c (deleteProvider (set_proxyProviders proxies (set_oauth2Providers oauth2s c)) pk).
Proof.
  intros Hp Ho Hl. apply step_in_place; simpl; [done| |].
  - destruct Hok as [H1 H2 H3 H4 H5 H6 H7]. split; simpl; try done.
    + eapply detach_applications_ok; [|exact H2]. done.
    + by eapply providers_subset.
    + eapply detach_outposts_ok; [|exact H4]. done.
  - unfold no_empty_slug in *. simpl. by rewrite lookup_fmap, Hslug.
Qed.

Lemma delete_proxy_step pk : step_ok c (fake_DeleteProxyProvider c pk).1.
Proof.
  unfold fake_DeleteProxyProvider. destruct (_ !! pk) as [p|] eqn:Hp; [|auto with go].
  assert (Hsub : delete pk c.(fk_proxyProviders) ⊆ c.(fk_proxyProviders)) by apply delete_subseteq.
  apply (delete_provider_step _ c.(fk_oauth2Providers) pk Hsub (reflexivity _)).
  intros k [Hk|Hk] Hne; [left|by right]. by rewrite lookup_delete_ne.
Qed.

Lemma delete_oauth2_step pk : step_ok c (fake_DeleteOAuth2Provider c pk).1.
Proof.
  unfold fake_DeleteOAuth2Provider. destruct (_ !! pk) as [p|] eqn:Hp; [|auto with go].
  assert (Hsub : delete pk c.(fk_oauth2Providers) ⊆ c.(fk_oauth2Providers)) by apply delete_subseteq.
  apply (delete_provider_step c.(fk_proxyProviders) _ pk (reflexivity _) Hsub).
  intros k [Hk|Hk] Hne; [by left|right]. by rewrite lookup_delete_ne.
Qed.

(** The key handed out next is not in a map of keyed objects. *)
Lemma keyed_free {A} (pk : A -> string) (m : gmap string A) :
  keyed pk c.(fk_sequence) m -> m !! uuid_of (c.(fk_sequence) + 1) = None.
Proof.
  intros Hk. apply eq_None_not_Some. intros [a Ha]. apply Hk in Ha as [_ Ha].
  eapply uuid_allocated_fresh; [apply Hpos|exact Ha].
Qed.

Lemma keyed_insert_next {A} (pk : A -> string) (m : gmap string A) a :
  keyed pk c.(fk_sequence) m -> pk a = uuid_of (c.(fk_sequence) + 1) ->
  keyed pk (c.(fk_sequence) + 1) (<[uuid_of (c.(fk_sequence) + 1) := a]> m).
Proof.
  intros Hk Ha. apply keyed_insert; [|done|apply next_uuid_allocated, Hpos]. eapply keyed_mono; [|done]. lia.
Qed.

Lemma set_outpost_step uuid providers : step_ok c (fake_SetOutpostProviders c uuid providers).1.
Proof.
  unfold fake_SetOutpostProviders. destruct (_ !! uuid) as [o|] eqn:Ho; [|auto with go].
  destruct (find _ providers) eqn:Hf; [auto with go|]. apply step_in_place; simpl; [done| |done].
  destruct Hok as [H1 H2 H3 H4 H5 H6 H7]. split; simpl; try done. destruct H4 as [Hk Hl].
  destruct (Hk _ _ Ho) as [Hpk Ha]. split; [by apply keyed_insert|].
  intros u o' pk [[<- <-]|[_ Hu]]%lookup_insert_Some Hin; [|by eapply Hl].
  apply providerExists_live, not_false_iff_true. intros He.
  assert (Hin' : In pk providers) by by apply list_elem_of_In.
  pose proof (find_none _ _ Hf pk Hin') as Hn. simpl in Hn. by rewrite He in Hn.
Qed.

Lemma create_binding_step request : step_ok c (fake_CreatePolicyBinding c request).1.
Proof.
  unfold fake_CreatePolicyBinding. destruct (checkBindingSubject _ _ _ _); [auto with go|].
  destruct (bindingOrderTaken _ _ _ _ _) eqn:Ho; [auto with go|]. rewrite nextUUID_step by done. simpl.
  apply step_after_next; simpl; auto 3. right. destruct (server_bindings _ Hok) as [Hk Hu].
  split; [by apply keyed_insert_next|].
  set (b0 := mkPolicyBinding "" request.(PolicyBindingRequest_Policy) Unset Unset
               request.(PolicyBindingRequest_Target) None None request.(PolicyBindingRequest_Order) None None).
  assert (Hfree : forall u b key, c.(fk_bindings) !! u = Some b -> order_key b0 = Some key -> order_key b <> Some key).
  { intros u b key Hb Hk0 Hkb. assert (u = "") as -> by (eapply (proj1 (bindingOrderTaken_false c b0 "")); eauto).
    apply Hk in Hb as [_ Ha]. by apply uuid_allocated_nonempty in Ha. }
  intros u1 u2 b1 b2 key. rewrite !lookup_insert_Some. intros [[<- <-]|[? L1]] [[<- <-]|[? L2]] K1 K2; [done| | |by eapply Hu].
  - by destruct (Hfree _ _ _ L2 K1).
  - by destruct (Hfree _ _ _ L1 K2).
Qed.

Lemma patch_binding_step uuid request : step_ok c (fake_PatchPolicyBinding c uuid request).1.
Proof.
  unfold fake_PatchPolicyBinding. destruct (_ !! uuid) as [b|] eqn:Hb; [|auto with go].
  destruct request.(PatchedBinding_Target) as [target|] eqn:Ht; [|auto with go].
  destruct (checkBindingSubject _ _ _ _); [auto with go|].
  destruct (bindingOrderTaken _ _ _ _ _) eqn:Ho; [auto with go|]. set (b' := apply_binding_patch request b) in *.
  apply step_in_place; simpl; [done| |done]. destruct Hok as [H1 H2 H3 H4 H5 H6 H7]. split; simpl; try done.
  destruct H5 as [Hk Hu]. destruct (Hk _ _ Hb) as [Hpk Ha]. split; [by apply keyed_insert|].
  replace target with b'.(PolicyBinding_Target) in Ho by (unfold b'; simpl; by rewrite Ht).
  pose proof (proj1 (bindingOrderTaken_false _ _ _) Ho) as Hfree.
  intros u1 u2 b1 b2 key. rewrite !lookup_insert_Some. intros [[<- <-]|[? L1]] [[<- <-]|[? L2]] K1 K2; [done| | |by eapply Hu].
  - symmetry. by eapply Hfree.
  - by eapply Hfree.
Qed.

Lemma delete_binding_step uuid : step_ok c (fake_DeletePolicyBinding c uuid).1.
Proof.
  unfold fake_DeletePolicyBinding. destruct (_ !! uuid) as [b|]; [|auto with go]. apply step_in_place; simpl; [done| |done].
  destruct Hok as [H1 H2 H3 H4 [Hk Hu] H6 H7]. split; simpl; try done. split.
  - eapply keyed_subset; [apply delete_subseteq|done].
  - intros u1 u2 b1 b2 key [_ ?]%lookup_delete_Some [_ ?]%lookup_delete_Some. eauto.
Qed.

Lemma create_role_step name : step_ok c (fake_CreateRole c name).1.
Proof.
  unfold fake_CreateRole. destruct (existsb _ _) eqn:He; [auto with go|]. rewrite nextUUID_step by done. simpl.
  rewrite existsb_map_to_list_false in He. destruct (server_roles _ Hok) as [Hk Hu].
  apply step_after_next; simpl; auto 3; right; split; simpl.
  - by apply keyed_insert_next.
  - assert (Hfree : forall u r, c.(fk_roles) !! u = Some r -> r.(Role_Name) <> name).
    { intros u r Hr. exact (proj1 (bool_decide_eq_false _) (He u r Hr)). }
    intros u1 u2 r1 r2. rewrite !lookup_insert_Some. intros [[<- <-]|[? L1]] [[<- <-]|[? L2]] Hn; [done| | |by eapply Hu].
    + by destruct (Hfree _ _ L2).
    + by destruct (Hfree _ _ L1).
  - intros p Hp. apply lookup_insert_is_Some'. right. by apply (permission_role _ _ (server_permissions _ Hok)).
  - apply Hok.
Qed.

Lemma assign_step role model pk permission : step_ok c (fake_AssignObjectPermission c role model pk permission).1.
Proof.
  unfold fake_AssignObjectPermission. destruct (_ !! role) eqn:Hr; [|auto with go].
  destruct (negb _); [auto with go|]. destruct (existsb _ _) eqn:He; [auto with go|]. rewrite nextPK_step by done. simpl.
  apply step_after_next; simpl; auto 3. right. destruct (server_permissions _ Hok) as [Hk Hu]. split.
  - intros p [Hp| ->%list_elem_of_singleton]%elem_of_app; [by apply Hk|by eexists].
  - rewrite fmap_app. apply NoDup_app. split_and!; [done| |apply NoDup_singleton].
    intros key (p & -> & Hp)%list_elem_of_fmap Heq%list_elem_of_singleton. injection Heq as H1 H2 H3 H4.
    assert (He' : existsb (same_permission role model pk permission) c.(fk_objectPermissions) = true); [|congruence].
    apply existsb_elem_of. exists p. split; [done|]. unfold same_permission. by rewrite !bool_decide_true.
Qed.

Lemma filter_permissions_ok (P : objectPermission -> Prop) `{!forall x, Decision (P x)} roles :
  (forall p, P p -> p ∈ c.(fk_objectPermissions) -> is_Some (roles !! p.(op_role))) ->
  permissions_ok (filter P c.(fk_objectPermissions)) roles.
Proof.
  intros Hr. destruct (server_permissions _ Hok) as [_ Hu]. split.
  - intros p [? ?]%list_elem_of_filter. auto.
  - eapply sublist_NoDup; [exact Hu|]. apply sublist_fmap, sublist_filter.
Qed.

Lemma unassign_step role model pk permission : step_ok c (fake_UnassignObjectPermission c role model pk permission).1.
Proof.
  unfold fake_UnassignObjectPermission. destruct (_ !! role) eqn:Hr; [|auto with go]. apply step_in_place; simpl; [done| |done].
  pose proof Hok as [H1 H2 H3 H4 H5 H6 H7]. split; simpl; try done. apply filter_permissions_ok. intros p _. apply H7.
Qed.

(** The deletion of a role by an administrator. *)
Lemma delete_role_step role : step_ok c (DeleteRole c role).
Proof.
  apply step_in_place; simpl; [done| |done]. pose proof Hok as [H1 H2 H3 H4 H5 [Hk Hu] H7]. split; simpl; try done.
  - split; [eapply keyed_subset; [apply delete_subseteq|done]|].
    intros u1 u2 r1 r2 [_ ?]%lookup_delete_Some [_ ?]%lookup_delete_Some. eauto.
  - apply filter_permissions_ok. intros p Hne Hp. rewrite lookup_delete_ne by done. by apply H7.
Qed.

(** A call of the client. *)
Lemma call_step R (q : call R) c' r : names_slug q -> fake_handle R q c = Some (c', r) -> step_ok c c'.
Proof.
  destruct q; simpl; intros Hq [= H]; try (subst; by auto with go);
    apply (f_equal fst) in H; simpl in H; subst c';
    eauto using create_application_step, patch_application_step, delete_application_step, create_proxy_step,
      patch_proxy_step, delete_proxy_step, create_oauth2_step, patch_oauth2_step, delete_oauth2_step,
      create_binding_step, patch_binding_step, delete_binding_step, set_outpost_step, create_role_step, assign_step,
      unassign_step.
Qed.

End operations.

(** ** Reachable states *)

Inductive server_step (c : Client) : Client -> Prop :=
  | step_call R (q : call R) c' r : names_slug q -> fake_handle R q c = Some (c', r) -> server_step c c'
  | step_group name : server_step c (AddGroup c name).1
  | step_user username : server_step c (AddUser c username).1
  | step_policy name : server_step c (AddPolicy c name).1
  | step_flow slug : server_step c (AddFlow c slug).1
  | step_key_pair name : server_step c (AddCertificateKeyPair c name).1
  | step_scope_mapping name scopeName : server_step c (AddScopeMapping c name scopeName).1
  | step_managed_scope_mapping name scopeName managed : server_step c (AddManagedScopeMapping c name scopeName managed).1
  | step_outpost name : server_step c (AddOutpost c name).1
  | step_version version : server_step c (SetVersion c version)
  | step_delete_role role : server_step c (DeleteRole c role).

(** The states reached in [n] steps from an empty server. *)
Inductive reachable : nat -> Client -> Prop :=
  | reachable_new rand : reachable O (New rand)
  | reachable_step n c c' : reachable n c -> server_step c c' -> reachable (S n) c'.

Lemma New_ok rand : server_ok (New rand).
Proof.
  split; simpl; [lia|..].
  - by split; intros *; rewrite ?lookup_empty.
  - split; try by intros *; rewrite ?lookup_empty.
    intros k1 k2 name [(p & Hp & _)|(p & Hp & _)]; by rewrite lookup_empty in Hp.
  - by split; [intros u o|intros u o pk]; rewrite lookup_empty.
  - by split; [intros u b|intros *]; rewrite ?lookup_empty.
  - by split; [intros u r|intros *]; rewrite ?lookup_empty.
  - split; [by intros p ?%not_elem_of_nil|constructor].
Qed.

Lemma add_outpost_step c name :
  server_ok c -> no_empty_slug c -> c.(fk_sequence) < max_int32 -> step_ok c (AddOutpost c name).1.
Proof.
  intros Hok Hn Hs. pose proof (server_sequence _ Hok) as Hpos. unfold AddOutpost. rewrite nextUUID_step by done. simpl.
  apply step_after_next; simpl; auto 3. right. destruct (server_outposts _ Hok) as [Hk Hl]. split.
  - by apply keyed_insert_next.
  - intros u o pk [[<- <-]|[_ Hu]]%lookup_insert_Some Hin; [by apply not_elem_of_nil in Hin|by eapply Hl].
Qed.

Lemma server_step_ok c c' :
  server_ok c -> no_empty_slug c -> c.(fk_sequence) < max_int32 -> server_step c c' -> step_ok c c'.
Proof.
  intros Hok Hn Hs Hstep. pose proof (server_sequence _ Hok) as Hpos.
  destruct Hstep; eauto using call_step, add_outpost_step, delete_role_step;
    unfold AddGroup, AddUser, AddPolicy, AddFlow, AddCertificateKeyPair, AddScopeMapping, AddManagedScopeMapping;
    rewrite ?nextUUID_step, ?nextPK_step by done;
    try (apply step_after_next; simpl; auto 3; done).
  apply step_in_place; [done| |done]. destruct Hok. by split.
Qed.

Lemma server_reachable_ok n c :
  reachable n c -> Z.of_nat n <= max_int32 -> server_ok c /\ no_empty_slug c /\ c.(fk_sequence) <= Z.of_nat n.
Proof.
  induction 1 as [rand|n c c' Hr IH Hstep]; intros Hn; [split_and!; [apply New_ok|done|done]|].
  destruct IH as (Hok & Hs & Hle); [lia|].
  destruct (server_step_ok c c') as (Hok' & Hs' & Hle'); [done|done|lia|done|]. split_and!; [done|done|lia].
Qed.

(** C27: Every reachable state of the server satisfies its invariant. After up to 2^31 - 1 steps from the empty
    server, where a step is any call of the client that gives no Application the empty slug, any set-up function, or
    the deletion of a role: the objects are stored under their primary keys and each key was handed out once; an
    Application and an Outpost only refer to Providers that exist, and a Provider belongs to at most one Application;
    no two Providers of any type share their name, no two OAuth2 Providers their client ID, no two Applications their
    slug, no two roles their name, no two Bindings their policy, target and order; and every object permission
    belongs to an existing role and is recorded once. *)
Theorem reachable_server_ok n c :
  reachable n c -> Z.of_nat n <= max_int32 -> server_ok c.
Proof. intros Hr Hn. by apply (server_reachable_ok n c). Qed.

(** A Provider is created, assigned to an Application and deleted: the Application has no Provider any more. *)
Definition example_provider_request : OAuth2ProviderRequest :=
  mkOAuth2ProviderRequest "app" Unset "flow" "flow" None None None None None None None None None None Unset Unset None
    None None None None.

Definition example_application_request : ApplicationRequest :=
  mkApplicationRequest "App" "app" (SetTo (Some 1)) None None None None None None None None.

Definition example_created : Client :=
  (fake_CreateOAuth2Provider (New (fun _ _ => [])) example_provider_request).1.

Definition example_assigned : Client := (fake_CreateApplication example_created example_application_request).1.

Definition example_detached : Client := (fake_DeleteOAuth2Provider example_assigned 1).1.

(** A call on a state leads to the state of its handler. *)
Lemma call_server_step c R (q : call R) answer :
  names_slug q -> fake_handle R q c = Some answer -> server_step c answer.1.
Proof. destruct answer as [c' r]. apply step_call. Qed.

Lemma reachable_server_ok_witness :
  (exists app, example_assigned.(fk_applications) !! "app" = Some app /\ app.(Application_Provider) = SetTo (Some 1)) /\
  (exists app, example_detached.(fk_applications) !! "app" = Some app /\ app.(Application_Provider) = SetTo None) /\
  server_ok example_detached.
Proof.
  split_and!.
  - eexists. split; vm_compute; reflexivity.
  - eexists. split; vm_compute; reflexivity.
  - apply (reachable_server_ok 3); [|unfold max_int32; lia].
    apply (reachable_step 2 example_assigned); [apply (reachable_step 1 example_created);
      [apply (reachable_step 0 (New (fun _ _ => []))); [apply reachable_new|]|]|].
    + exact (call_server_step _ _ (CreateOAuth2Provider example_provider_request) _ I eq_refl).
    + refine (call_server_step _ _ (CreateApplication example_application_request) _ _ eq_refl). discriminate.
    + exact (call_server_step _ _ (DeleteOAuth2Provider 1) _ I eq_refl).
Defined.
