(* ===== verification/Creation.v ===== *)
(** * Created objects

    The requests that create objects ([Desired]): for a valid spec they exist, every value is in the vocabulary of the API, and an
    object that the server ([Fake]) creates from a request is read back without a difference from the desired state. *)
From S2P Require Import Prelude Errors Api Crd Patch Interface Fake Reference Desired Convergence BindingStore.

(** ** The vocabulary of the API

    The values of the enumerations of client-go, and what the server requires of a desired state. *)

Definition api_policy_engine_modes : list string := [POLICYENGINEMODE_ANY; POLICYENGINEMODE_ALL].
Definition api_client_types : list string := [CLIENTTYPEENUM_CONFIDENTIAL; CLIENTTYPEENUM_PUBLIC].
Definition api_grant_types : list string :=
  [GRANTTYPEENUM_AUTHORIZATION_CODE; GRANTTYPEENUM_IMPLICIT; GRANTTYPEENUM_HYBRID; GRANTTYPEENUM_REFRESH_TOKEN;
   GRANTTYPEENUM_CLIENT_CREDENTIALS; GRANTTYPEENUM_PASSWORD; GRANTTYPEENUM_DEVICE_CODE; GRANTTYPEENUM_TOKEN_EXCHANGE].
Definition api_subject_modes : list string :=
  [SUBMODEENUM_HASHED_USER_ID; SUBMODEENUM_USER_ID; SUBMODEENUM_USER_UUID; SUBMODEENUM_USER_USERNAME;
   SUBMODEENUM_USER_EMAIL; SUBMODEENUM_USER_UPN].
Definition api_issuer_modes : list string := [ISSUERMODEENUM_GLOBAL; ISSUERMODEENUM_PER_PROVIDER].
Definition api_logout_methods : list string := [LOGOUTMETHODENUM_BACKCHANNEL; LOGOUTMETHODENUM_FRONTCHANNEL].
Definition api_matching_modes : list string := [MATCHINGMODEENUM_STRICT; MATCHINGMODEENUM_REGEX].
Definition api_redirect_uri_types : list string := [REDIRECTURITYPEENUM_AUTHORIZATION; REDIRECTURITYPEENUM_LOGOUT].

(** An optional field holds a value of the enumeration. *)
Definition typed (values : list string) (v : option string) : Prop := forall s, v = Some s -> s ∈ values.

Definition redirect_typed (r : RedirectURIRequest) : Prop :=
  r.(RedirectURIRequest_MatchingMode) ∈ api_matching_modes /\
  exists t, r.(RedirectURIRequest_RedirectUriType) = Some t /\ t ∈ api_redirect_uri_types.

Record oauth2_typed (d : PatchedOAuth2ProviderRequest) : Prop := {
  typed_client_type : typed api_client_types d.(PatchedOAuth2_ClientType);
  typed_grant_types gs : d.(PatchedOAuth2_GrantTypes) = Some gs -> Forall (.∈ api_grant_types) gs /\ NoDup gs;
  typed_subject_mode : typed api_subject_modes d.(PatchedOAuth2_SubMode);
  typed_issuer_mode : typed api_issuer_modes d.(PatchedOAuth2_IssuerMode);
  typed_logout_method : typed api_logout_methods d.(PatchedOAuth2_LogoutMethod);
  typed_redirect_uris us : d.(PatchedOAuth2_RedirectUris) = Some us -> Forall redirect_typed us;
}.

(** The mode decides which of the hosts and the cookie domain are set; the server accepts its internal host. *)
Record proxy_typed (d : PatchedProxyProviderRequest) : Prop := {
  typed_external_host : exists h, d.(PatchedProxy_ExternalHost) = Some h /\ h <> "";
  typed_mode :
    d.(PatchedProxy_Mode) = Some PROXYMODE_PROXY /\ is_Some d.(PatchedProxy_InternalHost) /\
      d.(PatchedProxy_CookieDomain) = None \/
    d.(PatchedProxy_Mode) = Some PROXYMODE_FORWARD_SINGLE /\ d.(PatchedProxy_InternalHost) = None /\
      d.(PatchedProxy_CookieDomain) = None \/
    d.(PatchedProxy_Mode) = Some PROXYMODE_FORWARD_DOMAIN /\ d.(PatchedProxy_InternalHost) = None /\
      is_Some d.(PatchedProxy_CookieDomain);
  typed_accepted op : checkProxyMode op d.(PatchedProxy_Mode) d.(PatchedProxy_InternalHost) = None;
}.

(** ** Enumerations *)

(** Every key of the enumeration of the CRD is in the table, with different values of the API. *)
Definition table_ok (table : list (string * string)) (keys values : list string) : Prop :=
  map fst table = keys /\ map snd table = values /\ NoDup keys /\ NoDup values.

Lemma table_get_typed table keys values k :
  table_ok table keys values -> k ∈ keys -> table_get table k ∈ values.
Proof.
  intros (<- & <- & _). induction table as [|[k' v] table IH]; simpl; [by intros ?%not_elem_of_nil|].
  rewrite elem_of_cons. intros Hk. case_decide; [by left|right]. apply IH. destruct Hk; [by subst|done].
Qed.

Lemma table_get_inj table keys values k1 k2 :
  table_ok table keys values -> k1 ∈ keys -> k2 ∈ keys -> table_get table k1 = table_get table k2 -> k1 = k2.
Proof.
  intros (<- & <- & Hk & Hv). revert Hk Hv. induction table as [|[k v] table IH]; simpl; [by intros _ _ ?%not_elem_of_nil|].
  intros [Hk Hks]%NoDup_cons [Hv Hvs]%NoDup_cons H1 H2.
  assert (Hmem : forall k', k' ∈ map fst table -> table_get table k' ∈ map snd table).
  { intros k'. by apply table_get_typed with (keys := map fst table). }
  rewrite elem_of_cons in H1, H2. repeat case_decide; subst; try done.
  - intros Heq. destruct H2 as [->|H2]; [done|]. destruct Hv. rewrite Heq. by apply Hmem.
  - intros Heq. destruct H1 as [->|H1]; [done|]. destruct Hv. rewrite <- Heq. by apply Hmem.
  - destruct H1, H2; subst; try done. by apply IH.
Qed.

Lemma mapEnum_typed table keys values v :
  table_ok table keys values -> optional (enum keys) v = true -> typed values (mapEnum table v).
Proof.
  intros Ht Hv s Hs. destruct v as [k|]; [|done]. injection Hs as <-. eapply table_get_typed; [done|].
  by apply bool_decide_eq_true in Hv.
Qed.

Lemma NoDup_table_get table keys values ks :
  table_ok table keys values -> Forall (.∈ keys) ks -> NoDup ks -> NoDup (map (table_get table) ks).
Proof.
  intros Ht Hks Hnd. induction Hnd as [|k ks Hk Hnd IH]; simpl; [constructor|].
  apply Forall_cons in Hks as [Hin Hks]. constructor; [|by apply IH].
  intros (k' & Heq & Hk')%list_elem_of_fmap. rewrite Forall_forall in Hks.
  by rewrite (table_get_inj _ _ _ k k' Ht Hin (Hks _ Hk') Heq) in Hk.
Qed.

Ltac solve_table := repeat split; vm_compute; repeat constructor; set_solver.

Lemma policyEngineModes_ok : table_ok policyEngineModes [AccessModeAny; AccessModeAll] api_policy_engine_modes.
Proof. solve_table. Qed.
Lemma clientTypes_ok : table_ok clientTypes [ClientTypeConfidential; ClientTypePublic] api_client_types.
Proof. solve_table. Qed.
Lemma grantTypes_ok : table_ok grantTypes all_grant_types api_grant_types.
Proof. solve_table. Qed.
Lemma subjectModes_ok : table_ok subjectModes all_subject_modes api_subject_modes.
Proof. solve_table. Qed.
Lemma issuerModes_ok : table_ok issuerModes [IssuerModeGlobal; IssuerModePerProvider] api_issuer_modes.
Proof. solve_table. Qed.
Lemma logoutMethods_ok : table_ok logoutMethods [LogoutMethodBackChannel; LogoutMethodFrontChannel] api_logout_methods.
Proof. solve_table. Qed.
Lemma matchingModes_ok : table_ok matchingModes [MatchingModeStrict; MatchingModeRegex] api_matching_modes.
Proof. solve_table. Qed.
Lemma redirectURITypes_ok :
  table_ok redirectURITypes [RedirectURITypeAuthorization; RedirectURITypePostLogout] api_redirect_uri_types.
Proof. solve_table. Qed.

#[export] Hint Resolve policyEngineModes_ok clientTypes_ok grantTypes_ok subjectModes_ok issuerModes_ok
  logoutMethods_ok matchingModes_ok redirectURITypes_ok : go.

Lemma desired_redirect_uri_typed u : valid_redirect_uri u = true -> redirect_typed (desired_redirect_uri u).
Proof.
  unfold valid_redirect_uri. rewrite !andb_true_iff. intros [[_ Hm] Ht]. split; cbn [desired_redirect_uri RedirectURIRequest_MatchingMode RedirectURIRequest_RedirectUriType].
  - apply table_get_typed with [MatchingModeStrict; MatchingModeRegex]; [auto with go|].
    destruct u.(RedirectURISpec_MatchingMode); [by apply bool_decide_eq_true in Hm|by left].
  - destruct u.(RedirectURISpec_Type) as [t|]; (eexists; split; [reflexivity|]);
      (apply table_get_typed with [RedirectURITypeAuthorization; RedirectURITypePostLogout]; [auto with go|]);
      [by apply bool_decide_eq_true in Ht|by left].
Qed.

(** ** The desired state of a valid spec *)

Lemma desired_proxy_typed provider proxy flows refs :
  valid_proxy proxy = true -> proxy_typed (desiredProxyProvider provider proxy flows refs).
Proof.
  unfold valid_proxy, desiredProxyProvider, desired_mode. rewrite !andb_true_iff, bool_decide_eq_true.
  intros [[[[[[Hc Hp] Hs] Hd] _] _] _].
  destruct proxy.(Proxy_Proxy) as [m|], proxy.(Proxy_ForwardAuthSingle) as [m'|], proxy.(Proxy_ForwardAuthDomain) as [m''|];
    try (vm_compute in Hc; discriminate Hc); simpl in Hp, Hs, Hd;
    repeat match goal with H : _ && _ = true |- _ => apply andb_true_iff in H as [? ?] end;
    unfold min_length_1 in *;
    repeat match goal with H : bool_decide _ = true |- _ => apply bool_decide_eq_true in H end.
  - split; simpl; [eauto|left; eauto|]. intros op. unfold checkProxyMode. cbv zeta iota.
    by rewrite (bool_decide_false (_ = "")), andb_false_r.
  - split; simpl; [eauto|right; left; eauto|reflexivity].
  - split; simpl; [eauto|right; right; eauto|reflexivity].
Qed.

Lemma desired_oauth2_typed provider oauth2 flows refs :
  valid_oauth2 oauth2 = true -> oauth2_typed (desiredOAuth2Provider provider oauth2 flows refs).
Proof.
  unfold valid_oauth2. rewrite !andb_true_iff.
  intros [[[[[[[[[Hct Hru] _] _] _] Hgt] Hsm] Him] Hlm] _].
  split; unfold desiredOAuth2Provider; cbn -[mapEnum map].
  - eapply mapEnum_typed; [apply clientTypes_ok|done].
  - intros gs Hgs. destruct oauth2.(OAuth2_GrantTypes) as [ks|]; [|done]. injection Hgs as <-.
    simpl in Hgt. apply andb_true_iff in Hgt as [Hk Hnd%bool_decide_eq_true].
    assert (Hks : Forall (.∈ all_grant_types) ks).
    { apply Forall_forall. intros k Hin. rewrite forallb_elem_of in Hk. specialize (Hk k Hin).
      by apply bool_decide_eq_true in Hk. }
    split; [|exact (NoDup_table_get grantTypes _ _ ks grantTypes_ok Hks Hnd)].
    apply Forall_forall. intros v (k & -> & Hin)%list_elem_of_fmap. rewrite Forall_forall in Hks.
    exact (table_get_typed grantTypes _ _ k grantTypes_ok (Hks _ Hin)).
  - eapply mapEnum_typed; [apply subjectModes_ok|done].
  - eapply mapEnum_typed; [apply issuerModes_ok|done].
  - eapply mapEnum_typed; [apply logoutMethods_ok|done].
  - intros us Hus. destruct oauth2.(OAuth2_RedirectURIs) as [uris|]; [|done]. injection Hus as <-.
    apply Forall_forall. intros r (u & -> & Hin)%list_elem_of_fmap. apply desired_redirect_uri_typed.
    simpl in Hru. rewrite forallb_elem_of in Hru. by apply Hru.
Qed.

(** A rule whose references were resolved. *)
Definition rule_ok (rule : Rule) : Prop := exists s, ruleSubject rule = Some s /\ s <> no_subject.

(** The request of a rule has one subject, the rule's. *)
Lemma desired_one_subject target rule :
  rule_ok rule -> let d := desiredBinding target rule in
  subject_count d.(PatchedBinding_Policy) d.(PatchedBinding_Group) d.(PatchedBinding_User) = 1%nat /\
  forall b, b.(PolicyBinding_Policy) = d.(PatchedBinding_Policy) -> b.(PolicyBinding_Group) = d.(PatchedBinding_Group) ->
    b.(PolicyBinding_User) = d.(PatchedBinding_User) -> ruleSubject rule = Some (observedSubject b).
Proof.
  intros (s & Hs & Hne). unfold ruleSubject, no_subject in *.
  destruct rule as [[g|] [u|] [p|] n]; simpl in *; simplify_eq; unfold subject_count, nullableStringSet; simpl;
    try rewrite bool_decide_true by congruence; split; try reflexivity;
    intros b Hp Hg Hu; unfold observedSubject, nonempty; rewrite ?Hp, ?Hg, ?Hu; simpl;
    try rewrite decide_False by congruence; done.
Qed.

(** ** Creation of objects *)

Lemma fake_CreateApplication_stores c r c' o :
  fake_CreateApplication c r = (c', inl o) ->
  fake_GetApplication c' r.(ApplicationRequest_Slug) = inl o /\ o.(Application_Slug) = r.(ApplicationRequest_Slug) /\
  o.(Application_Name) = r.(ApplicationRequest_Name) /\ o.(Application_Provider) = r.(ApplicationRequest_Provider) /\
  o.(Application_OpenInNewTab) = r.(ApplicationRequest_OpenInNewTab) /\
  o.(Application_MetaLaunchUrl) = r.(ApplicationRequest_MetaLaunchUrl) /\
  o.(Application_MetaIcon) = r.(ApplicationRequest_MetaIcon) /\
  o.(Application_MetaDescription) = r.(ApplicationRequest_MetaDescription) /\
  o.(Application_MetaPublisher) = r.(ApplicationRequest_MetaPublisher) /\
  o.(Application_PolicyEngineMode) = or_else r.(ApplicationRequest_PolicyEngineMode) (Some POLICYENGINEMODE_ANY) /\
  o.(Application_Group) = r.(ApplicationRequest_Group) /\ o.(Application_MetaHide) = r.(ApplicationRequest_MetaHide).
Proof.
  unfold fake_CreateApplication. destruct (_ !! _); [done|]. destruct (checkApplicationProvider _ _ _ _); [done|].
  destruct (nextUUID c) as [c1 pk]. intros [= <- <-]. unfold fake_GetApplication. cbn. by rewrite lookup_insert_eq.
Qed.

Lemma pointer_ok_or_else {T} (d : option T) v : pointer_ok d (or_else d (Some v)).
Proof. by intros ? ->. Qed.

Lemma pointer_ok_same {T} (d : option T) : pointer_ok d d.
Proof. by intros ? ->. Qed.

Lemma nullable_ok_same {T} (d : Nullable T) : nullable_ok d d.
Proof. by intros ? ->. Qed.

Lemma set_ok_cloneOrEmpty {T} (d e : option (list T)) : set_ok d (cloneOrEmpty (or_else d e)).
Proof. by intros ? ->. Qed.

Lemma redirects_ok_created d e : redirects_ok d (toRedirectURIs (or_else d e)).
Proof.
  intros k Hk x. destruct d as [d|]; [|done]. injection Hk as <-.
  cbn [or_else]. by rewrite observed_key_toRedirectURIs.
Qed.

#[export] Hint Resolve pointer_ok_or_else pointer_ok_same nullable_ok_same set_ok_cloneOrEmpty redirects_ok_created : go.

Lemma value_ok_same {T} (d : T) v : d = v -> value_ok (Some d) v.
Proof. by intros -> ? [= <-]. Qed.

Lemma value_ok_None {T} (v : T) : value_ok None v.
Proof. by intros ?. Qed.

Lemma pointer_ok_generated {T} (d : option T) v : pointer_ok d (Some (match d with Some x => x | None => v end)).
Proof. by intros ? ->. Qed.

Lemma set_ok_None {T} (l : list T) : set_ok None l.
Proof. by intros ?. Qed.

#[export] Hint Resolve value_ok_same value_ok_None set_ok_None pointer_ok_generated : go.

Lemma application_roundtrip c slug spec pk r c' o :
  createApplicationRequest slug (desiredApplication spec pk) = Some r -> fake_CreateApplication c r = (c', inl o) ->
  fake_GetApplication c' slug = inl o /\ DiffApplication (desiredApplication spec pk) o = None.
Proof.
  intros [= <-] Hc. apply fake_CreateApplication_stores in Hc as (Hg & _ & H). split; [exact Hg|].
  apply DiffApplication_None. unfold application_matches. cbn -[mapEnum] in *.
  destruct H as (-> & -> & -> & -> & -> & -> & -> & -> & -> & ->). conj_auto.
Qed.

Lemma proxy_roundtrip c name provider proxy flows refs r c' o :
  let d := desiredProxyProvider provider proxy flows refs in
  (forall n, provider.(Provider_Name) = Some n -> name = n) -> is_Some d.(PatchedProxy_ExternalHost) ->
  createProxyProviderRequest name d = Some r -> fake_CreateProxyProvider c r = (c', inl o) ->
  fake_GetProxyProvider c' o.(ProxyProvider_Pk) = inl o /\ DiffProxyProvider d o = None.
Proof.
  intros d Hn [h Hh] [= <-]. unfold fake_CreateProxyProvider. destruct (checkProxyMode _ _ _); [done|].
  destruct (providerNameTaken _ _ _); [done|]. destruct (nextPK c) as [c1 pk]. intros [= <- <-]. split.
  - unfold fake_GetProxyProvider. cbn. by rewrite lookup_insert_eq.
  - apply DiffProxyProvider_None. unfold proxy_matches. cbn -[desired_mode] in *. rewrite Hh. conj_auto; try exact Hn.
Qed.

Lemma oauth2_roundtrip c name provider oauth2 flows refs defaults r c' o :
  let d := desiredOAuth2Provider provider oauth2 flows refs in
  (forall n, provider.(Provider_Name) = Some n -> name = n) ->
  createOAuth2ProviderRequest name d defaults = Some r -> fake_CreateOAuth2Provider c r = (c', inl o) ->
  fake_GetOAuth2Provider c' o.(OAuth2Provider_Pk) = inl o /\ DiffOAuth2Provider d o = None.
Proof.
  intros d Hn [= <-]. unfold fake_CreateOAuth2Provider. destruct (providerNameTaken _ _ _); [done|].
  destruct (clientIDTaken _ _ _); [done|]. destruct (nextPK c) as [c1 pk]. intros [= <- <-]. split.
  - unfold fake_GetOAuth2Provider. cbn. by rewrite lookup_insert_eq.
  - apply DiffOAuth2Provider_None. unfold oauth2_matches.
    cbn -[mapEnum toRedirectURIs cloneOrEmpty or_else random_chars desired_client_id desired_client_secret Nullable_IsSet]. conj_auto; try exact Hn.
Qed.

Lemma binding_roundtrip c target rule order r c' o :
  createBindingRequest (desiredBinding target rule) order = Some r -> fake_CreatePolicyBinding c r = (c', inl o) ->
  fake_GetPolicyBinding c' o.(PolicyBinding_Pk) = inl o /\ DiffPolicyBinding (desiredBinding target rule) o = None /\
  o.(PolicyBinding_Target) = target /\ o.(PolicyBinding_Order) = order /\ o.(PolicyBinding_Enabled) = Some true /\
  o.(PolicyBinding_Negate) = Some rule.(Rule_Negate).
Proof.
  intros Hr. unfold fake_CreatePolicyBinding. destruct (checkBindingSubject _ _ _ _); [done|].
  destruct (bindingOrderTaken _ _ _ _ _); [done|]. destruct (nextUUID c) as [c1 pk]. intros [= <- <-].
  assert (Ht : (desiredBinding target rule).(PatchedBinding_Target) = Some target) by by destruct rule as [[] [] ? ?].
  unfold createBindingRequest in Hr. rewrite Ht in Hr. injection Hr as <-. split.
  { unfold fake_GetPolicyBinding. cbn. by rewrite lookup_insert_eq. }
  assert (Hn : (desiredBinding target rule).(PatchedBinding_Negate) = Some rule.(Rule_Negate)) by by destruct rule as [[] [] ? ?].
  pose proof (desiredBinding_unmanaged target rule) as (H1 & H2 & H3 & H4). split.
  - apply DiffPolicyBinding_None. unfold binding_matches. cbn -[desiredBinding]. rewrite Ht, Hn, H1, H2, H3, H4. conj_auto.
    all: by intros ?.
  - cbn -[desiredBinding]. by rewrite Hn.
Qed.

(** ** The properties *)

(** C28: What is created is what was desired. When the server accepts the request that the operator builds for a new
    Application, Proxy Provider, OAuth2 Provider or Binding, the created object is stored, and reading it back shows
    no difference from the desired state, also for the fields that a default was sent for: no repair follows a
    creation. *)
Theorem creation_roundtrip c c' :
  (forall slug spec pk r o,
     createApplicationRequest slug (desiredApplication spec pk) = Some r -> fake_CreateApplication c r = (c', inl o) ->
     fake_GetApplication c' slug = inl o /\ DiffApplication (desiredApplication spec pk) o = None) /\
  (forall spec name provider proxy flows refs r o,
     spec.(Spec_Provider) = Some provider -> providerName spec = Some name -> valid_proxy proxy = true ->
     let d := desiredProxyProvider provider proxy flows refs in
     createProxyProviderRequest name d = Some r -> fake_CreateProxyProvider c r = (c', inl o) ->
     fake_GetProxyProvider c' o.(ProxyProvider_Pk) = inl o /\ DiffProxyProvider d o = None) /\
  (forall spec name provider oauth2 flows refs defaults r o,
     spec.(Spec_Provider) = Some provider -> providerName spec = Some name ->
     let d := desiredOAuth2Provider provider oauth2 flows refs in
     createOAuth2ProviderRequest name d defaults = Some r -> fake_CreateOAuth2Provider c r = (c', inl o) ->
     fake_GetOAuth2Provider c' o.(OAuth2Provider_Pk) = inl o /\ DiffOAuth2Provider d o = None) /\
  (forall target rule order r o,
     createBindingRequest (desiredBinding target rule) order = Some r -> fake_CreatePolicyBinding c r = (c', inl o) ->
     fake_GetPolicyBinding c' o.(PolicyBinding_Pk) = inl o /\ DiffPolicyBinding (desiredBinding target rule) o = None).
Proof.
  assert (Hname : forall spec name provider, spec.(Spec_Provider) = Some provider -> providerName spec = Some name ->
    forall n, provider.(Provider_Name) = Some n -> name = n).
  { intros spec name provider Hs Hp n Hn. unfold providerName in Hp. rewrite Hs in Hp. simpl in Hp. rewrite Hn in Hp.
    by injection Hp. }
  split_and!.
  - intros *. apply application_roundtrip.
  - intros spec name provider proxy flows refs r o Hs Hp Hv. apply proxy_roundtrip; [by eapply Hname|].
    destruct (typed_external_host _ (desired_proxy_typed provider proxy flows refs Hv)) as (h & Hh & _). by exists h.
  - intros spec name provider oauth2 flows refs defaults r o Hs Hp. apply oauth2_roundtrip. by eapply Hname.
  - intros target rule order r o Hr Hc. by destruct (binding_roundtrip _ _ _ _ _ _ _ Hr Hc) as (? & ? & _).
Qed.

(** The requests that create the objects of a desired state never dereference a nil pointer: the pointers that they
    dereference are set. *)
Lemma application_request spec pk slug :
  exists r, createApplicationRequest slug (desiredApplication spec pk) = Some r /\
    r.(ApplicationRequest_Slug) = slug /\ r.(ApplicationRequest_Name) = spec.(Spec_Name).
Proof. by eexists. Qed.

Lemma oauth2_request provider oauth2 flows refs name defaults :
  exists r, createOAuth2ProviderRequest name (desiredOAuth2Provider provider oauth2 flows refs) defaults = Some r /\
    r.(OAuth2ProviderRequest_AuthorizationFlow) = flows.(Resolved_Authorization) /\
    r.(OAuth2ProviderRequest_InvalidationFlow) = flows.(Resolved_Invalidation).
Proof. by eexists. Qed.

Lemma proxy_request provider proxy flows refs name :
  valid_proxy proxy = true ->
  exists r, createProxyProviderRequest name (desiredProxyProvider provider proxy flows refs) = Some r /\
    r.(ProxyProviderRequest_AuthorizationFlow) = flows.(Resolved_Authorization) /\
    r.(ProxyProviderRequest_InvalidationFlow) = flows.(Resolved_Invalidation) /\ r.(ProxyProviderRequest_ExternalHost) <> "".
Proof.
  intros Hv. destruct (typed_external_host _ (desired_proxy_typed provider proxy flows refs Hv)) as (h & Hh & Hne).
  eexists. split_and!; [reflexivity|done|done|]. cbn [ProxyProviderRequest_ExternalHost]. by rewrite Hh.
Qed.

Lemma binding_request target rule order :
  rule_ok rule ->
  exists r, createBindingRequest (desiredBinding target rule) order = Some r /\
    r.(PolicyBindingRequest_Target) = target /\ r.(PolicyBindingRequest_Order) = order /\
    checkBindingSubject "create" r.(PolicyBindingRequest_Policy) r.(PolicyBindingRequest_Group) r.(PolicyBindingRequest_User) = None.
Proof.
  intros Hr. destruct (desired_one_subject target rule Hr) as [Hc _]. unfold createBindingRequest.
  assert (Ht : (desiredBinding target rule).(PatchedBinding_Target) = Some target) by by destruct rule as [[] [] ? ?].
  rewrite Ht. eexists. split_and!; [reflexivity|done|done|]. by apply checkBindingSubject_None.
Qed.

(** C30: The requests of a valid resource are complete and speak the vocabulary of the API. For a spec that passes the
    validation of the CRD the builders of the creation requests dereference no nil pointer, and the requests have
    their required fields: the slug and a name, the resolved flows of a Provider, the external host of a Proxy
    Provider, the target, the order and the one subject of the Binding of a resolved rule. The policy engine mode of the
    Application, every enumeration, grant type and redirect URI of an OAuth2 Provider, and the mode of a Proxy Provider
    are values of client-go, no grant type is sent twice, the hosts and the cookie domain are set exactly for their
    mode, and the server accepts the mode of a created Proxy Provider. *)
Theorem desired_state_is_well_typed spec pk :
  valid_spec spec = true ->
  (typed api_policy_engine_modes (desiredApplication spec pk).(PatchedApplication_PolicyEngineMode) /\
   forall slug, exists r, createApplicationRequest slug (desiredApplication spec pk) = Some r /\
     r.(ApplicationRequest_Slug) = slug /\ r.(ApplicationRequest_Name) = spec.(Spec_Name) /\ r.(ApplicationRequest_Name) <> "") /\
  (forall provider flows, spec.(Spec_Provider) = Some provider ->
    (forall oauth2 refs, provider.(Provider_OAuth2) = Some oauth2 ->
       let d := desiredOAuth2Provider provider oauth2 flows refs in
       oauth2_typed d /\
       forall name defaults, exists r, createOAuth2ProviderRequest name d defaults = Some r /\
         r.(OAuth2ProviderRequest_AuthorizationFlow) = flows.(Resolved_Authorization) /\
         r.(OAuth2ProviderRequest_InvalidationFlow) = flows.(Resolved_Invalidation)) /\
    (forall proxy refs, provider.(Provider_Proxy) = Some proxy ->
       let d := desiredProxyProvider provider proxy flows refs in
       proxy_typed d /\
       forall name, exists r, createProxyProviderRequest name d = Some r /\
         r.(ProxyProviderRequest_AuthorizationFlow) = flows.(Resolved_Authorization) /\
         r.(ProxyProviderRequest_InvalidationFlow) = flows.(Resolved_Invalidation) /\
         r.(ProxyProviderRequest_ExternalHost) <> "")) /\
  (forall target rule order, rule_ok rule ->
    exists r, createBindingRequest (desiredBinding target rule) order = Some r /\
      r.(PolicyBindingRequest_Target) = target /\ r.(PolicyBindingRequest_Order) = order /\
      checkBindingSubject "create" r.(PolicyBindingRequest_Policy) r.(PolicyBindingRequest_Group) r.(PolicyBindingRequest_User) = None).
Proof.
  unfold valid_spec, valid_access. rewrite !andb_true_iff. intros [[[[[_ Hn%bool_decide_eq_true] _] _] Hp] [[_ Hm] _]].
  split_and!.
  - eapply mapEnum_typed; [apply policyEngineModes_ok|done].
  - intros slug. destruct (application_request spec pk slug) as (r & Hr & Hs & Hname). exists r. by rewrite Hname.
  - intros provider flows Hprov. rewrite Hprov in Hp. simpl in Hp. unfold valid_provider in Hp.
    rewrite !andb_true_iff in Hp. destruct Hp as [[[_ _] Hproxy] Hoauth2]. split.
    + intros oauth2 refs Ho. rewrite Ho in Hoauth2. split; [by apply desired_oauth2_typed|intros; apply oauth2_request].
    + intros proxy refs Ho. rewrite Ho in Hproxy. split; [by apply desired_proxy_typed|intros; by apply proxy_request].
  - intros target rule order. apply binding_request.
Qed.

(** ** Instances *)

(** An Application whose access mode is set, created on a server with its Provider. *)
Lemma creation_roundtrip_witness :
  exists r c' o,
    createApplicationRequest "new" (desiredApplication (example_spec None) (Some 9)) = Some r /\
    fake_CreateApplication example_server r = (c', inl o) /\ fake_GetApplication c' "new" = inl o /\
    DiffApplication (desiredApplication (example_spec None) (Some 9)) o = None.
Proof.
  destruct (createApplicationRequest "new" (desiredApplication (example_spec None) (Some 9))) as [r|] eqn:Hr;
    [|discriminate Hr].
  destruct (fake_CreateApplication example_server r) as [c' [o|e]] eqn:Hc.
  - destruct (creation_roundtrip example_server c') as [H _]. specialize (H _ _ _ _ _ Hr Hc).
    exists r, c', o. split; [reflexivity|split; [exact Hc|exact H]].
  - exfalso. injection Hr as <-. vm_compute in Hc. discriminate Hc.
Defined.

Definition example_grants : OAuth2ProviderSpec :=
  mkOAuth2ProviderSpec (Some ClientTypeConfidential) (Some [mkRedirectURISpec "https://wiki.example/cb" None None])
    None None None (Some [GrantTypeAuthorizationCode; GrantTypeRefreshToken]) (Some SubjectModeUserEmail) None None None
    None None None None None None.

Definition example_public_spec : AuthentikApplicationSpec :=
  mkSpec "wiki" "Wiki" None None None None None None None None None (Some (example_provider None (Some example_grants)))
    example_access.

Lemma desired_state_is_well_typed_witness :
  valid_spec example_public_spec = true /\
  let d := desiredOAuth2Provider (example_provider None (Some example_grants)) example_grants example_flows
             (mkOAuth2References None None None None) in
  oauth2_typed d /\ is_Some (createOAuth2ProviderRequest "Wiki" d (mkCreationDefaults None None)) /\
  exists r, createBindingRequest (desiredBinding "target" (mkRule (Some "group") None None false)) 10 = Some r /\
    r.(PolicyBindingRequest_Order) = 10.
Proof.
  split; [vm_compute; reflexivity|].
  destruct (desired_state_is_well_typed example_public_spec None) as (_ & H & Hb); [vm_compute; reflexivity|].
  destruct (H _ example_flows eq_refl) as [Ho _].
  destruct (Ho _ (mkOAuth2References None None None None) eq_refl) as [Ht Hr]. split; [exact Ht|]. split.
  - destruct (Hr "Wiki" (mkCreationDefaults None None)) as (r & Er & _). exists r. exact Er.
  - destruct (Hb "target" (mkRule (Some "group") None None false) 10) as (r & Er & _ & Eo & _).
    + exists (mkBindingSubject "group" 0 ""). split; [reflexivity|discriminate].
    + exists r. split; [exact Er|exact Eo].
Defined.
