(* ===== verification/State.v ===== *)
(** * The state of a reconcile

    [internal/controller/authentikapplication_controller.go]: the [reconcileState], the conditions and the status
    patches. The memory of a method of the reconciler is the [reconcileState] with the shared marker cache. The
    helpers of the Kubernetes libraries are an interface, [KubeLib], with the laws that their documentation states. *)
From S2P Require Import Prelude Errors Effects Api Crd Interface Marker MarkerCache Reference.

(** ** The Kubernetes libraries *)

(** [meta.FindStatusCondition], [meta.SetStatusCondition], [meta.RemoveStatusCondition] of apimachinery,
    [controllerutil.AddFinalizer], [RemoveFinalizer], [ContainsFinalizer] and [SetControllerReference] of
    controller-runtime. [None] is the error of [SetControllerReference]. [marshal_spec] is [json.Marshal] on a spec,
    [sha256_hex] the hexadecimal SHA-256 of its result. *)
Class KubeLib : Type := {
  FindStatusCondition : list Condition -> string -> option Condition;
  SetStatusCondition : list Condition -> Condition -> list Condition;
  RemoveStatusCondition : list Condition -> string -> list Condition;
  AddFinalizer : list string -> string -> list string * bool;
  RemoveFinalizer : list string -> string -> list string;
  ContainsFinalizer : list string -> string -> bool;
  SetControllerReference : AuthentikApplication -> Secret -> option Secret;
  marshal_spec : AuthentikApplicationSpec -> string;
  sha256_hex : string -> string;
}.

(** What their documentation promises. *)
Class KubeLibLaws `{KubeLib} : Prop := {
  find_set_same cs c : FindStatusCondition (SetStatusCondition cs c) c.(Condition_Type) = Some c;
  find_set_other cs c t : t <> c.(Condition_Type) ->
    FindStatusCondition (SetStatusCondition cs c) t = FindStatusCondition cs t;
  find_remove_same cs t : FindStatusCondition (RemoveStatusCondition cs t) t = None;
  find_remove_other cs t t' : t' <> t -> FindStatusCondition (RemoveStatusCondition cs t) t' = FindStatusCondition cs t';
  contains_spec fs f : ContainsFinalizer fs f = true <-> f ∈ fs;
  add_finalizer_spec fs f : forall f', f' ∈ (AddFinalizer fs f).1 <-> f' ∈ fs \/ f' = f;
  add_finalizer_changed fs f : (AddFinalizer fs f).2 = true <-> f ∉ fs;
  add_finalizer_same fs f : f ∈ fs -> (AddFinalizer fs f).1 = fs;
  remove_finalizer_spec fs f : forall f', f' ∈ RemoveFinalizer fs f <-> f' ∈ fs /\ f' <> f;
  set_controller_reference_data a s s' :
    SetControllerReference a s = Some s' ->
    s'.(Secret_Namespace) = s.(Secret_Namespace) /\ s'.(Secret_Name) = s.(Secret_Name) /\
    s'.(Secret_Data) = s.(Secret_Data) /\ s'.(Secret_Owner) = Some a.(App_UID);
}.

(** ** The state *)

(** [rs_resolved] is nil until the references are resolved. *)
Record reconcileState : Type := mkReconcileState {
  rs_app : AuthentikApplication;
  rs_base : AuthentikApplication;
  rs_resolved : option Resolved;
  rs_markers : markerCache;
}.

Definition set_app app s := mkReconcileState app s.(rs_base) s.(rs_resolved) s.(rs_markers).
Definition set_base base s := mkReconcileState s.(rs_app) base s.(rs_resolved) s.(rs_markers).
Definition set_resolved r s := mkReconcileState s.(rs_app) s.(rs_base) r s.(rs_markers).
Definition set_markers m s := mkReconcileState s.(rs_app) s.(rs_base) s.(rs_resolved) m.

(** Event reasons that are not condition reasons. *)
Definition eventReasonCreated : string := "Created".
Definition eventReasonRecreated : string := "Recreated".

Section methods.
Context `{KubeLib}.
Abbreviation method A := (M call reconcileState A) (only parsing).

(** [s.app]. *)
Definition get_app : method AuthentikApplication := let* s := mget in mret s.(rs_app).

(** [s.resolved], which is dereferenced by its users. *)
Definition get_resolved : method Resolved := let* s := mget in mderef s.(rs_resolved).

(** An assignment to fields of [s.app.Status]. *)
Definition update_status (f : AuthentikApplicationStatus -> AuthentikApplicationStatus) : method () :=
  mmodify (fun s => set_app (set_status f s.(rs_app)) s).

(** [r.Recorder.Eventf]. *)
Definition record_event (warning : bool) (reason message : string) : method () :=
  mcall (Eventf (mkEvent warning reason message)).

(** [r.markers()]: the methods of the marker cache. *)
Definition markers {A} (m : M call markerCache A) : method A := mzoom rs_markers set_markers m.

(** The answer of the API server replaces [s.app]. *)
Definition patchStatus : method () :=
  let* s := mget in
  if decide (s.(rs_base).(App_Status) = s.(rs_app).(App_Status)) then mret ()
  else
    let* app := mwrap "failed to update the status" (kubecall (KubePatchStatus s.(rs_app) s.(rs_base))) in
    mmodify (fun s => set_base app (set_app app s)).

Definition condition_changed (previous : option Condition) (status : bool) (reason : string) : bool :=
  match previous with
  | None => true
  | Some c => negb (eqb c.(Condition_Status) status) || negb (bool_decide (c.(Condition_Reason) = reason))
  end.

Definition setCondition (conditionType : string) (status : bool) (reason message : string) : method () :=
  let* app := get_app in
  let previous := FindStatusCondition app.(App_Status).(Status_Conditions) conditionType in
  update_status (fun st => with_conditions
    (SetStatusCondition st.(Status_Conditions)
       (mkCondition conditionType status reason message app.(App_Generation))) st) ;;
  if negb (condition_changed previous status reason) then mret ()
  else record_event (negb (bool_decide (conditionType = ConditionTypeReady) && status)) reason message.

Definition setReady (status : bool) (reason message : string) : method () :=
  setCondition ConditionTypeReady status reason message.

Definition specHash (spec : AuthentikApplicationSpec) : string := sha256_hex (marshal_spec spec).
End methods.

(** [ignoreNotFound], applied to the error of a call. *)
Definition ignoreNotFound {S} (m : M call S ()) : M call S () :=
  let* r := mtry m in
  match r with
  | Ok _ => mret ()
  | Err err => if is_not_found err then mret () else mfail err
  end.
