(* ===== verification/Conflict.v ===== *)
(** * Slug conflicts

    [internal/controller/conflict.go]: among the resources that share a slug exactly one manages it. The comparison
    of [conflictWinner] is a total order on the candidates whose namespaces and names differ, so every resource
    computes the same winner whatever the order in which the API server lists them. *)
From S2P Require Import Prelude Errors Effects Api Crd Interface Marker MarkerCache Reference State.

(** [IndexSlug]: the keys of the field index. *)
Definition index_slug (app : AuthentikApplication) : list string := [app.(App_Spec).(Spec_Slug)].

(** [cmp.Compare] on strings compares their bytes; on instants it is [Time.Compare]. *)
Definition compare_strings (a b : string) : Z := cmp_int (String.compare a b).
Definition compare_times (a b : Z) : Z := cmp_int (a ?= b).

Definition recorded (a : AuthentikApplication) : bool :=
  negb (bool_decide (a.(App_Status).(Status_ApplicationPK) = "")).

(** The comparison function of [conflictWinner]. *)
Definition conflict_compare (a b : AuthentikApplication) : Z :=
  if negb (eqb (recorded a) (recorded b)) then (if recorded a then -1 else 1)
  else cmp_or (compare_times a.(App_CreationTimestamp) b.(App_CreationTimestamp))
         (cmp_or (compare_strings a.(App_Namespace) b.(App_Namespace)) (compare_strings a.(App_Name) b.(App_Name))).

(** [slices.MinFunc]: the first of the minimal elements. *)
Definition min_step (m x : AuthentikApplication) : AuthentikApplication :=
  if bool_decide (conflict_compare x m < 0) then x else m.

Definition conflictWinner (candidates : list AuthentikApplication) : option AuthentikApplication :=
  match candidates with
  | [] => None
  | a :: rest => Some (fold_left min_step rest a)
  end.

(** The candidates of [checkConflict]: the fetched resource and the others that are not being deleted. *)
Definition conflict_candidates (app : AuthentikApplication) (items : list AuthentikApplication)
    : list AuthentikApplication :=
  app :: filter (fun other => other.(App_UID) <> app.(App_UID) /\ other.(App_DeletionTimestamp) = None) items.

Definition checkConflict : M call reconcileState () :=
  let* app := get_app in
  let slug := app.(App_Spec).(Spec_Slug) in
  let* items := mwrap ("failed to list resources with slug " +:+ fmt_q slug) (kubecall (KubeListBySlug slug)) in
  let* winner := mderef (conflictWinner (conflict_candidates app items)) in
  if decide (winner.(App_UID) = app.(App_UID)) then mret ()
  else mfail (StopError ReasonConflict
         ("slug " +:+ fmt_q slug +:+ " is managed by " +:+ winner.(App_Namespace) +:+ "/" +:+ winner.(App_Name))).

(** The namespaces and names of the other resources with the slug; nothing when the list fails. *)
Definition sameSlugRequests (app : AuthentikApplication) : M call reconcileState (list (string * string)) :=
  let* r := mtry (kubecall (KubeListBySlug app.(App_Spec).(Spec_Slug))) in
  match r with
  | Err _ => mret []
  | Ok items =>
      mret ((fun other => (other.(App_Namespace), other.(App_Name))) <$>
        filter (fun other => other.(App_UID) <> app.(App_UID)) items)
  end.

Definition is_deleting (a : AuthentikApplication) : bool :=
  match a.(App_DeletionTimestamp) with None => false | Some _ => true end.

(** [conflictPredicate] on an update; its other events pass, generic ones excepted. *)
Definition conflictPredicate_update (oldApp newApp : AuthentikApplication) : bool :=
  negb (bool_decide (oldApp.(App_Status).(Status_ApplicationPK) = newApp.(App_Status).(Status_ApplicationPK))) ||
  negb (eqb (is_deleting oldApp) (is_deleting newApp)).

(** [deletionStarted] on an update. *)
Definition deletionStarted_update (oldApp newApp : AuthentikApplication) : bool :=
  negb (is_deleting oldApp) && is_deleting newApp.

(** ** Comparison functions *)

(** A comparison function: negative, zero or positive as the key of [a] is before, at or after that of [b]. *)
Class Comparison {A K} (key : A -> K) (f : A -> A -> Z) : Prop := {
  comparison_eq a b : f a b = 0 <-> key a = key b;
  comparison_antisym a b : f b a = - f a b;
  comparison_trans a b c : f a b < 0 -> f b c < 0 -> f a c < 0;
  comparison_congruence a b c : key a = key b -> f a c = f b c;
}.

(** [cmp.Or] of two comparisons is their lexicographic product. *)
#[export] Instance comparison_lex {A K L} (k : A -> K) (l : A -> L) f g `{!Comparison k f} `{!Comparison l g} :
  Comparison (fun a => (k a, l a)) (fun a b => cmp_or (f a b) (g a b)).
Proof.
  split; unfold cmp_or.
  - intros a b. case_decide as H; [|split; [done|]].
    + apply (comparison_eq a b) in H. rewrite (comparison_eq (f := g) a b). split; [congruence|by intros [=]].
    + intros [= E _]. by apply (comparison_eq (f := f)) in E.
  - intros a b. rewrite (comparison_antisym (f := f) a b), (comparison_antisym (f := g) a b).
    repeat case_decide; lia.
  - intros a b c. destruct (decide (f a b = 0)) as [E1|N1].
    + apply (comparison_eq (f := f)) in E1. rewrite <- (comparison_congruence (f := f) a b c E1).
      case_decide; [|done]. apply comparison_trans.
    + intros Hab. destruct (decide (f b c = 0)) as [E2|N2].
      * assert (f a c = f a b) as ->; [|by rewrite decide_False].
        apply (comparison_eq (f := f)) in E2.
        rewrite (comparison_antisym (f := f) c a), (comparison_antisym (f := f) b a).
        by rewrite (comparison_congruence (f := f) b c a E2).
      * intros Hbc. pose proof (comparison_trans (f := f) a b c Hab Hbc). rewrite decide_False by lia. done.
  - intros a b c [= Ek El]. by rewrite (comparison_congruence (f := f) a b c Ek), (comparison_congruence (f := g) a b c El).
Qed.

(** A comparison of a component. *)
#[export] Instance comparison_on {A B K} (h : A -> B) (k : B -> K) f `{!Comparison k f} :
  Comparison (fun a => k (h a)) (fun a b => f (h a) (h b)).
Proof.
  split; intros *; [apply comparison_eq|apply comparison_antisym|apply comparison_trans|apply comparison_congruence].
Qed.

Lemma string_compare_refl s : String.compare s s = Eq.
Proof. pose proof (String.compare_antisym s s) as H. by destruct (String.compare s s). Qed.

Lemma ascii_compare_refl c : Ascii.compare c c = Eq.
Proof. pose proof (Ascii.compare_antisym c c) as H. by destruct (Ascii.compare c c). Qed.

Lemma ascii_compare_lt_trans (a b c : ascii) :
  Ascii.compare a b = Lt -> Ascii.compare b c = Lt -> Ascii.compare a c = Lt.
Proof. unfold Ascii.compare. rewrite !N.compare_lt_iff. lia. Qed.

Lemma string_compare_lt_trans a b c :
  String.compare a b = Lt -> String.compare b c = Lt -> String.compare a c = Lt.
Proof.
  revert b c. induction a as [|x a IH]; intros [|y b] [|z c]; simpl; try done.
  destruct (Ascii.compare x y) eqn:E1; try done; destruct (Ascii.compare y z) eqn:E2; try done; intros H1 H2.
  - apply Ascii.compare_eq_iff in E1, E2. subst. rewrite ascii_compare_refl. by eapply IH.
  - apply Ascii.compare_eq_iff in E1. subst. by rewrite E2.
  - apply Ascii.compare_eq_iff in E2. subst. by rewrite E1.
  - by rewrite (ascii_compare_lt_trans _ _ _ E1 E2).
Qed.

#[export] Instance compare_strings_comparison : Comparison id compare_strings.
Proof.
  unfold compare_strings. split; simpl.
  - intros a b. split; [|intros ->; by rewrite string_compare_refl].
    intros H. apply String.compare_eq_iff. by destruct (String.compare a b).
  - intros a b. rewrite String.compare_antisym. by destruct (String.compare a b).
  - intros a b c. destruct (String.compare a b) eqn:E1; simpl; try lia.
    destruct (String.compare b c) eqn:E2; simpl; try lia. by rewrite (string_compare_lt_trans _ _ _ E1 E2).
  - by intros a b c ->.
Qed.

#[export] Instance compare_times_comparison : Comparison id compare_times.
Proof.
  unfold compare_times. split; simpl; intros a b *;
    repeat match goal with |- context [?x ?= ?y] => destruct (Z.compare_spec x y) end; simpl; lia.
Qed.

(** The first case of [conflictWinner]: a recorded Application first. *)
Definition compare_recorded (a b : bool) : Z := if eqb a b then 0 else if a then -1 else 1.

#[export] Instance compare_recorded_comparison : Comparison id compare_recorded.
Proof.
  unfold compare_recorded. split; [intros [] []|intros [] []|intros [] [] []|intros [] [] []]; simpl; try done; lia.
Qed.

(** ** The order of the candidates *)

(** The fields that [conflict_compare] reads. *)
Definition conflict_key (a : AuthentikApplication) : bool * (Z * (string * string)) :=
  (recorded a, (a.(App_CreationTimestamp), (a.(App_Namespace), a.(App_Name)))).

#[export] Instance conflict_compare_comparison : Comparison conflict_key conflict_compare.
Proof.
  assert (H : Comparison conflict_key (fun a b => cmp_or (compare_recorded (recorded a) (recorded b))
    (cmp_or (compare_times a.(App_CreationTimestamp) b.(App_CreationTimestamp))
      (cmp_or (compare_strings a.(App_Namespace) b.(App_Namespace)) (compare_strings a.(App_Name) b.(App_Name)))))).
  { apply comparison_lex; [apply (comparison_on recorded id compare_recorded)|].
    apply comparison_lex; [apply (comparison_on App_CreationTimestamp id compare_times)|].
    apply comparison_lex; [apply (comparison_on App_Namespace id compare_strings)|apply (comparison_on App_Name id compare_strings)]. }
  assert (E : forall a b, conflict_compare a b = cmp_or (compare_recorded (recorded a) (recorded b))
    (cmp_or (compare_times a.(App_CreationTimestamp) b.(App_CreationTimestamp))
      (cmp_or (compare_strings a.(App_Namespace) b.(App_Namespace)) (compare_strings a.(App_Name) b.(App_Name))))).
  { intros a b. unfold conflict_compare, compare_recorded. by destruct (recorded a), (recorded b). }
  destruct H as [H1 H2 H3 H4]. split; intros *; rewrite ?E; eauto.
Qed.

(** ** The winner *)

Lemma min_step_cases m x :
  (min_step m x = x /\ conflict_compare x m < 0) \/ (min_step m x = m /\ 0 <= conflict_compare x m).
Proof. unfold min_step. case_bool_decide; [left|right]; split; try done; lia. Qed.

Lemma conflict_compare_refl a : conflict_compare a a = 0.
Proof. by apply comparison_eq. Qed.

(** [a] is not after [b]. *)
Lemma not_after_trans a b c :
  conflict_compare a b <= 0 -> conflict_compare b c <= 0 -> conflict_compare a c <= 0.
Proof.
  intros Hab Hbc. destruct (decide (conflict_compare a b = 0)) as [E|N].
  - apply comparison_eq in E. by rewrite (comparison_congruence a b c E).
  - destruct (decide (conflict_compare b c = 0)) as [E|N'].
    + apply comparison_eq in E. symmetry in E.
      rewrite comparison_antisym, (comparison_congruence c b a E), <- comparison_antisym. done.
    + assert (conflict_compare a c < 0); [|lia]. apply (comparison_trans a b c); lia.
Qed.

Lemma fold_min_step rest a :
  let w := fold_left min_step rest a in
  (w = a \/ w ∈ rest) /\ conflict_compare w a <= 0 /\ forall x, x ∈ rest -> conflict_compare w x <= 0.
Proof.
  revert a. induction rest as [|y rest IH]; intros a; simpl.
  - rewrite conflict_compare_refl. split; [by left|split; [lia|]]. intros x Hx. by apply elem_of_nil in Hx.
  - destruct (IH (min_step a y)) as (Hin & Hle & Hall). cbv zeta in *.
    destruct (min_step_cases a y) as [[E Hlt]|[E Hge]]; rewrite E in *.
    + split; [right; set_solver|split; [apply (not_after_trans _ y); lia|]]. set_solver.
    + split; [set_solver|split; [done|]]. intros x [->|Hx]%elem_of_cons; [|by apply Hall].
      apply (not_after_trans _ a); [done|]. rewrite comparison_antisym. lia.
Qed.

Lemma conflictWinner_spec l w :
  conflictWinner l = Some w -> w ∈ l /\ forall x, x ∈ l -> conflict_compare w x <= 0.
Proof.
  unfold conflictWinner. destruct l as [|a rest]; [done|]. intros [= <-].
  destruct (fold_min_step rest a) as (Hin & Hle & Hall). cbv zeta in *.
  split; [set_solver|]. intros x [->|Hx]%elem_of_cons; auto.
Qed.

Lemma conflictWinner_is_Some a l : is_Some (conflictWinner (a :: l)).
Proof. by eexists. Qed.

(** Namespaces and names identify resources, and so do UIDs. *)
Record identified (items : list AuthentikApplication) : Prop := {
  identified_names : forall a b, a ∈ items -> b ∈ items ->
    a.(App_Namespace) = b.(App_Namespace) -> a.(App_Name) = b.(App_Name) -> a = b;
  identified_uids : forall a b, a ∈ items -> b ∈ items -> a.(App_UID) = b.(App_UID) -> a = b;
}.

(** The resources that are not being deleted. *)
Definition live (items : list AuthentikApplication) : list AuthentikApplication :=
  filter (fun a => a.(App_DeletionTimestamp) = None) items.

Lemma candidates_live app items l :
  identified items -> app ∈ live items -> l ≡ₚ items ->
  forall x, x ∈ conflict_candidates app l <-> x ∈ live items.
Proof.
  intros Hid Happ Hl x. unfold conflict_candidates, live in *. rewrite list_elem_of_filter in *.
  rewrite elem_of_cons, list_elem_of_filter. rewrite Hl. split; [naive_solver|].
  intros [Hx1 Hx2]. destruct (decide (x.(App_UID) = app.(App_UID))) as [E|Hne]; [left|right; naive_solver].
  apply (identified_uids _ Hid); naive_solver.
Qed.

(** The best of the live resources. *)
Definition is_winner (items : list AuthentikApplication) (w : AuthentikApplication) : Prop :=
  w ∈ live items /\ forall x, x ∈ live items -> x <> w -> conflict_compare w x < 0.

Lemma winner_of_candidates app items l w :
  identified items -> app ∈ live items -> l ≡ₚ items ->
  conflictWinner (conflict_candidates app l) = Some w -> is_winner items w.
Proof.
  intros Hid Happ Hl [Hw Hall]%conflictWinner_spec.
  pose proof (candidates_live app items l Hid Happ Hl) as Hc. split; [by apply Hc|].
  intros x Hx Hne. assert (conflict_compare w x <= 0) by by apply Hall, Hc.
  destruct (decide (conflict_compare w x = 0)) as [E|]; [|lia].
  apply comparison_eq in E. unfold conflict_key in E. simplify_eq. destruct Hne.
  apply Hc in Hw. unfold live in *. rewrite list_elem_of_filter in *. symmetry.
  apply (identified_names _ Hid); naive_solver.
Qed.

Lemma is_winner_unique items w w' : identified items -> is_winner items w -> is_winner items w' -> w = w'.
Proof.
  intros Hid [Hw Hall] [Hw' Hall'].
  destruct (decide (w.(App_UID) = w'.(App_UID))) as [E|N].
  - unfold live in *. rewrite list_elem_of_filter in *. apply (identified_uids _ Hid); naive_solver.
  - assert (w <> w') by congruence. pose proof (Hall w' Hw' (not_eq_sym H)). pose proof (Hall' w Hw H).
    rewrite (comparison_antisym w w') in *. lia.
Qed.

(** The API server lists the resources with the slug in some order. *)
Definition list_env (items : list AuthentikApplication) : environment call () :=
  mkEnv (fun _ _ _ => True)
    (fun R c _ r _ =>
       match c in call R return R -> Prop with
       | KubeListBySlug _ => fun r => exists l, r = inl l /\ l ≡ₚ items
       | _ => fun _ => False
       end r) False.

(** C7: A slug is managed by exactly one resource. Among the live resources with the slug there is one winner, it is
    preferred to every other one, and whatever the order in which the API server lists them, the check of a resource
    passes when it is the winner and stops with [Conflict] otherwise. *)
Theorem checkConflict_mutual_exclusion items :
  identified items -> live items <> [] ->
  exists w, is_winner items w /\
    forall s, s.(rs_app) ∈ live items ->
      mwp (list_env items) checkConflict s () (fun s' r _ =>
        s' = s /\
        (s.(rs_app) = w -> r = Ok ()) /\
        (s.(rs_app) <> w -> exists message, r = Err (StopError ReasonConflict message))).
Proof.
  intros Hid Hne. destruct (live items) as [|a rest] eqn:E; [done|]. clear Hne.
  assert (Ha : a ∈ live items) by (rewrite E; by left). rewrite <- E. clear E.
  destruct (conflictWinner (conflict_candidates a items)) as [w|] eqn:Ew; [|done].
  assert (Hw : is_winner items w) by by eapply (winner_of_candidates a items items).
  exists w. split; [done|]. intros s Hs. unfold checkConflict, get_app.
  repeat go_step.
  match goal with H : env_step _ _ _ _ _ _ |- _ => destruct H as (l & -> & Hl) end.
  repeat go_step. apply mwp_deref.
  destruct (conflictWinner_is_Some s.(rs_app) (filter (fun other => other.(App_UID) <> s.(rs_app).(App_UID) /\
    other.(App_DeletionTimestamp) = None) l)) as [v Hv].
  exists v. split; [done|]. assert (Heq : v = w).
  { eapply is_winner_unique; [done| |done]. by eapply (winner_of_candidates s.(rs_app) items l). }
  subst v. destruct Hw as [Hw _]. unfold live in *. rewrite list_elem_of_filter in *.
  case_decide as Huid; repeat go_step; split_and!; try done.
  - intros Hn. destruct Hn. symmetry. apply (identified_uids _ Hid); naive_solver.
  - intros Hn. by rewrite Hn in Huid.
  - eauto.
Qed.

(** ** The watch on the resources with the slug *)

(** An update keeps the fields that identify a resource. *)
Definition same_resource (a b : AuthentikApplication) : Prop :=
  a.(App_Namespace) = b.(App_Namespace) /\ a.(App_Name) = b.(App_Name) /\ a.(App_UID) = b.(App_UID) /\
  a.(App_CreationTimestamp) = b.(App_CreationTimestamp).

(** An update that the predicate drops changes nothing that decides about the winner. *)
Lemma dropped_update old new :
  same_resource old new -> conflictPredicate_update old new = false ->
  conflict_key old = conflict_key new /\ (old.(App_DeletionTimestamp) = None <-> new.(App_DeletionTimestamp) = None).
Proof.
  intros (Hns & Hn & _ & Hc). unfold conflictPredicate_update. rewrite orb_false_iff, !negb_false_iff.
  intros [Hpk%bool_decide_eq_true Hdel%eqb_prop]. unfold conflict_key, recorded. rewrite Hpk, Hns, Hn, Hc. split; [done|].
  unfold is_deleting in Hdel. destruct (App_DeletionTimestamp old), (App_DeletionTimestamp new); naive_solver.
Qed.

Lemma dropped_winner pre old new post w :
  identified (pre ++ old :: post) -> identified (pre ++ new :: post) -> same_resource old new ->
  conflictPredicate_update old new = false -> is_winner (pre ++ old :: post) w ->
  exists w', is_winner (pre ++ new :: post) w' /\ w'.(App_UID) = w.(App_UID).
Proof.
  intros Hid0 Hid Hsame Hdrop [Hw Hall]. destruct (dropped_update _ _ Hsame Hdrop) as [Hkey Hdel].
  pose proof Hsame as (Hns & Hn & Huid & _).
  assert (forall x, x ∈ live (pre ++ new :: post) -> x <> new -> x ∈ live (pre ++ old :: post)) as Hback.
  { intros x. unfold live. rewrite !list_elem_of_filter. set_solver. }
  unfold is_winner. unfold live in Hw. apply list_elem_of_filter in Hw as [Hlive Hin].
  destruct (decide (w.(App_UID) = old.(App_UID))) as [Heq|Hne].
  - assert (w = old) as -> by (apply (identified_uids _ Hid0); [done|set_solver|done]). exists new. split; [|done]. split; [apply list_elem_of_filter; set_solver|]. intros x Hx Hxn.
    rewrite <- (comparison_congruence old new x Hkey). apply Hall; [by apply Hback|]. intros ->. destruct Hxn.
    unfold live in Hx. apply list_elem_of_filter in Hx as [_ Hx]. apply (identified_names _ Hid); [done|set_solver|done..].
  - exists w. split; [|done]. split; [apply list_elem_of_filter; set_solver|]. intros x Hx Hxw.
    assert (w <> old) as Hwo by by intros ->.
    destruct (decide (x.(App_UID) = new.(App_UID))) as [Heq|Hxn]; [|apply Hall; [|done]; apply Hback; [done|by intros ->]].
    assert (x = new) as -> by (unfold live in Hx; apply list_elem_of_filter in Hx as [_ Hx];
      apply (identified_uids _ Hid); [done|set_solver|done]).
    rewrite comparison_antisym, <- (comparison_congruence old new w Hkey), <- comparison_antisym.
    apply Hall; [|done]. unfold live in *. rewrite list_elem_of_filter in *. set_solver.
Qed.

(** C37: A change of the winner reaches every resource that shares the slug. When an update of one resource, which
    keeps what identifies it, changes which of the resources with the slug wins, the update passes the predicate of
    the watch, and the requests it leads to name every other resource with the slug: the loser that now wins and the
    winner that lost are reconciled again. *)
Theorem winner_change_is_observed pre old new post w w' s :
  let before := pre ++ old :: post in
  let after := pre ++ new :: post in
  identified before -> identified after -> same_resource old new ->
  is_winner before w -> is_winner after w' -> w.(App_UID) <> w'.(App_UID) ->
  conflictPredicate_update old new = true /\
  mwp (list_env after) (sameSlugRequests new) s () (fun s' r _ => s' = s /\ exists requests, r = Ok requests /\
    forall x, x ∈ after -> x.(App_UID) <> new.(App_UID) -> (x.(App_Namespace), x.(App_Name)) ∈ requests).
Proof.
  intros before after Hid Hid' Hsame Hw Hw' Hne. split.
  - destruct (conflictPredicate_update old new) eqn:Hp; [done|].
    destruct (dropped_winner pre old new post w Hid Hid' Hsame Hp Hw) as (v & Hv & Huid).
    by rewrite (is_winner_unique after v w' Hid' Hv Hw') in Huid.
  - unfold sameSlugRequests. repeat go_step.
    match goal with H : env_step _ _ _ _ _ _ |- _ => destruct H as (l & -> & Hl) end.
    go_step. split; [done|]. eexists. split; [done|]. intros x Hx Hxu. apply list_elem_of_fmap. exists x. split; [done|].
    apply list_elem_of_filter. split; [done|]. by rewrite Hl.
Qed.

(** Two resources that share the slug; the younger one has recorded an Application. *)
Definition example_resource (name uid : string) (created : Z) (pk : string) : AuthentikApplication :=
  mkResource "default" name uid 1 created None []
    (mkSpec "wiki" "Wiki" None None None None None None None None None None (mkAccessSpec None [] (Some true) None))
    (mkStatus 0 "" pk None "" [] "" [] [] []).

Definition example_items : list AuthentikApplication :=
  [example_resource "a" "uid-a" 10 ""; example_resource "b" "uid-b" 20 "pk"].

Lemma checkConflict_mutual_exclusion_witness :
  exists w, is_winner example_items w /\ w.(App_Name) = "b".
Proof.
  destruct (checkConflict_mutual_exclusion example_items) as (w & Hw & _).
  - split; intros a b Ha Hb; unfold example_items in Ha, Hb; rewrite !elem_of_cons, elem_of_nil in Ha, Hb;
      destruct Ha as [->|[->|[]]]; destruct Hb as [->|[->|[]]]; vm_compute; intros; first [reflexivity|discriminate].
  - unfold live, example_items. rewrite !filter_cons_True by done. done.
  - exists w. split; [done|]. destruct Hw as [Hw Hall].
    unfold live, example_items in *. rewrite !filter_cons_True, filter_nil in * by done.
    rewrite !elem_of_cons, elem_of_nil in Hw. destruct Hw as [->|[->|[]]]; [|done]. exfalso.
    assert (conflict_compare (example_resource "a" "uid-a" 10 "") (example_resource "b" "uid-b" 20 "pk") < 0) as Hlt.
    { apply Hall; [right; left|done]. }
    vm_compute in Hlt. discriminate Hlt.
Defined.

Lemma example_identified pk :
  identified [example_resource "a" "uid-a" 10 ""; example_resource "b" "uid-b" 20 pk].
Proof.
  split; intros a b Ha Hb; rewrite !elem_of_cons, elem_of_nil in Ha, Hb;
    destruct Ha as [->|[->|[]]]; destruct Hb as [->|[->|[]]]; simpl; intros; first [reflexivity|discriminate].
Qed.

(** The winner of two live resources. *)
Lemma example_winner a b w :
  a.(App_DeletionTimestamp) = None -> b.(App_DeletionTimestamp) = None ->
  (w = a /\ conflict_compare w b < 0) \/ (w = b /\ conflict_compare w a < 0) -> is_winner [a; b] w.
Proof.
  intros Ha Hb Hw. unfold is_winner, live. rewrite !filter_cons_True, filter_nil by done.
  split; [destruct Hw as [[-> _]|[-> _]]; set_solver|]. intros x Hx Hne.
  rewrite !elem_of_cons, elem_of_nil in Hx. destruct Hx as [->|[->|[]]]; naive_solver.
Qed.

Definition example_slug_state : reconcileState :=
  mkReconcileState (example_resource "b" "uid-b" 20 "pk") (example_resource "b" "uid-b" 20 "pk") None
    (newMarkerCache (NewMarker "operator") 60 true).

(** The younger resource records an Application and wins. *)
Lemma winner_change_is_observed_witness :
  let old := example_resource "b" "uid-b" 20 "" in
  let new := example_resource "b" "uid-b" 20 "pk" in
  conflictPredicate_update old new = true /\
    mwp (list_env [example_resource "a" "uid-a" 10 ""; new]) (sameSlugRequests new) example_slug_state ()
      (fun _ r _ => exists requests, r = Ok requests /\ ("default", "a") ∈ requests).
Proof.
  intros old new.
  destruct (winner_change_is_observed [example_resource "a" "uid-a" 10 ""] old new [] (example_resource "a" "uid-a" 10 "")
    new example_slug_state) as [Hp Hr].
  - apply example_identified.
  - apply example_identified.
  - split_and!; reflexivity.
  - apply example_winner; [done|done|]. left. split; [done|]. vm_compute. reflexivity.
  - apply example_winner; [done|done|]. right. split; [done|]. vm_compute. reflexivity.
  - discriminate.
  - split; [exact Hp|]. eapply mwp_mono; [exact Hr|]. intros s' r w (_ & requests & -> & Hall). exists requests.
    split; [done|]. apply (Hall (example_resource "a" "uid-a" 10 "")); [by left|discriminate].
Defined.
