(* ===== verification/FieldDiffs.v ===== *)
(** * Adoption diffs

    The first half of [internal/controller/adoption.go]: the differences between a PATCH request and the observed
    object, as they are shown to the user, with the confidential values redacted. The JSON encoding of the client-go
    models is an interface, [ModelJSON]. *)
From stdpp Require Import sorting.
From S2P Require Import Prelude Errors Api Crd Patch Conflict.

(** [toFields] on the models of client-go, whose [MarshalJSON] methods are part of client-go, and [json.Marshal] on
    decoded values. *)
Class ModelJSON : Type := {
  patched_application_fields : PatchedApplicationRequest -> gmap string json;
  application_fields : Application -> gmap string json;
  patched_proxy_fields : PatchedProxyProviderRequest -> gmap string json;
  proxy_fields : ProxyProvider -> gmap string json;
  patched_oauth2_fields : PatchedOAuth2ProviderRequest -> gmap string json;
  oauth2_fields : OAuth2Provider -> gmap string json;
  marshal_json : json -> string;
}.

Definition eventReasonAdopted : string := "Adopted".
Definition nameField : string := "name".

Definition applicationFieldPaths : gmap string string := list_to_map [
  (nameField, nameField);
  ("meta_launch_url", "launchURL");
  ("meta_icon", "icon");
  ("meta_description", "description");
  ("meta_publisher", "publisher");
  ("group", "group");
  ("open_in_new_tab", "openInNewTab");
  ("meta_hide", "hideFromApplicationDashboard");
  ("policy_engine_mode", "access.mode")].

Definition providerFieldPaths : gmap string string := list_to_map [
  (nameField, "provider.name");
  ("authorization_flow", "provider.flows.authorization");
  ("invalidation_flow", "provider.flows.invalidation");
  ("authentication_flow", "provider.flows.authentication")].

Definition proxyFieldPaths : gmap string string := list_to_map [
  ("mode", "provider.proxy");
  ("internal_host", "provider.proxy.proxy.internalHost");
  ("internal_host_ssl_validation", "provider.proxy.proxy.internalHostSSLValidation");
  ("cookie_domain", "provider.proxy.forwardAuthDomain.cookieDomain");
  ("skip_path_regex", "provider.proxy.unauthenticatedPaths");
  ("basic_auth_enabled", "provider.proxy.basicAuth");
  ("basic_auth_user_attribute", "provider.proxy.basicAuth.userAttribute");
  ("basic_auth_password_attribute", "provider.proxy.basicAuth.passwordAttribute");
  ("intercept_header_auth", "provider.proxy.interceptHeaderAuth");
  ("access_token_validity", "provider.proxy.accessTokenValidity");
  ("refresh_token_validity", "provider.proxy.refreshTokenValidity");
  ("certificate", "provider.proxy.certificate")].

Definition oauth2FieldPaths : gmap string string := list_to_map [
  ("property_mappings", "provider.oauth2.scopes");
  ("client_type", "provider.oauth2.clientType");
  ("grant_types", "provider.oauth2.grantTypes");
  ("client_id", "provider.oauth2.credentials.clientID");
  ("client_secret", "provider.oauth2.credentials.secretRef.clientSecretKey");
  ("access_code_validity", "provider.oauth2.accessCodeValidity");
  ("access_token_validity", "provider.oauth2.accessTokenValidity");
  ("refresh_token_validity", "provider.oauth2.refreshTokenValidity");
  ("refresh_token_threshold", "provider.oauth2.refreshTokenThreshold");
  ("include_claims_in_id_token", "provider.oauth2.includeClaimsInIDToken");
  ("signing_key", "provider.oauth2.signingKey");
  ("encryption_key", "provider.oauth2.encryptionKey");
  ("redirect_uris", "provider.oauth2.redirectURIs");
  ("logout_uri", "provider.oauth2.logoutURI");
  ("logout_method", "provider.oauth2.logoutMethod");
  ("sub_mode", "provider.oauth2.subjectMode");
  ("issuer_mode", "provider.oauth2.issuerMode")].

(** [maps.Copy] overwrites; the left argument of the union of maps wins. *)
Definition proxyFieldPathsFor (proxy : ProxyProviderSpec) : gmap string string :=
  let paths := proxyFieldPaths ∪ providerFieldPaths in
  match proxy.(Proxy_Proxy), proxy.(Proxy_ForwardAuthSingle), proxy.(Proxy_ForwardAuthDomain) with
  | Some _, _, _ => <["external_host" := "provider.proxy.proxy.externalHost"]> paths
  | None, Some _, _ => <["external_host" := "provider.proxy.forwardAuthSingle.externalHost"]> paths
  | None, None, Some _ => <["external_host" := "provider.proxy.forwardAuthDomain.authenticationURL"]> paths
  | None, None, None => paths
  end.

Definition oauth2FieldPathsFor : gmap string string := oauth2FieldPaths ∪ providerFieldPaths.

(** [slices.Sorted(maps.Keys(m))]. *)
Definition key_le (a b : string) : Prop := compare_strings a b <= 0.

#[export] Instance key_le_dec a b : Decision (key_le a b).
Proof. unfold key_le. apply _. Defined.

Definition sorted_keys (m : gmap string json) : list string := merge_sort key_le (fst <$> map_to_list m).

(** The value of a key that is not in the map is nil, like a JSON null. *)
Definition field_value (fields : gmap string json) (key : string) : json := default JNull (fields !! key).

Section diffs.
Context `{ModelJSON}.

Definition formatValue (value : json) : string :=
  match value with
  | JNull => ""
  | JString s => s
  | _ => marshal_json value
  end.

Definition field_diff (paths : gmap string string) (desired observed : gmap string json) (key : string) : FieldDiff :=
  let path := default key (paths !! key) in
  if decide (key ∈ ConfidentialFields) then mkFieldDiff path Redacted Redacted
  else mkFieldDiff path (formatValue (field_value desired key)) (formatValue (field_value observed key)).

Definition fieldDiffs (paths : gmap string string) (desired observed : gmap string json) : list FieldDiff :=
  field_diff paths desired observed <$>
    filter (fun key => field_value desired key <> field_value observed key) (sorted_keys desired).

(** The [diffs] closures of the handlers and the Application part of [adoptApplication]. *)
Definition application_diffs (desired : PatchedApplicationRequest) (observed : Application) : list FieldDiff :=
  match DiffApplication desired observed with
  | None => []
  | Some patch => fieldDiffs applicationFieldPaths (patched_application_fields patch) (application_fields observed)
  end.

Definition proxy_diffs (spec : ProxyProviderSpec) (desired : PatchedProxyProviderRequest) (observed : ProxyProvider)
    : list FieldDiff :=
  match DiffProxyProvider desired observed with
  | None => []
  | Some patch => fieldDiffs (proxyFieldPathsFor spec) (patched_proxy_fields patch) (proxy_fields observed)
  end.

Definition oauth2_diffs (desired : PatchedOAuth2ProviderRequest) (observed : OAuth2Provider) : list FieldDiff :=
  match DiffOAuth2Provider desired observed with
  | None => []
  | Some patch => fieldDiffs oauth2FieldPathsFor (patched_oauth2_fields patch) (oauth2_fields observed)
  end.
End diffs.

(** ** Lemmas *)

Lemma sorted_keys_elem m key : key ∈ sorted_keys m <-> is_Some (m !! key).
Proof.
  unfold sorted_keys. rewrite merge_sort_Permutation, list_elem_of_fmap. split.
  - intros ([k v] & -> & Hk). apply elem_of_map_to_list in Hk. eauto.
  - intros [v Hv]. exists (key, v). split; [done|]. by apply elem_of_map_to_list.
Qed.

Lemma sorted_keys_NoDup m : NoDup (sorted_keys m).
Proof. unfold sorted_keys. rewrite merge_sort_Permutation. apply NoDup_fst_map_to_list. Qed.

(** The differences of an adoption, by the differing keys. *)
Lemma fieldDiffs_elem `{ModelJSON} paths desired observed d :
  d ∈ fieldDiffs paths desired observed <->
  exists key v, desired !! key = Some v /\ v <> field_value observed key /\ d = field_diff paths desired observed key.
Proof.
  unfold fieldDiffs. rewrite list_elem_of_fmap. setoid_rewrite list_elem_of_filter. setoid_rewrite sorted_keys_elem.
  split.
  - intros (key & -> & Hne & [v Hv]). exists key, v. split_and!; [done| |done].
    unfold field_value at 1 in Hne. by rewrite Hv in Hne.
  - intros (key & v & Hv & Hne & ->). exists key. split_and!; [done| |eauto]. unfold field_value at 1. by rewrite Hv.
Qed.

(** C21: Adoption diffs list exactly the differing fields and never show a confidential value. Each entry belongs to a
    key of the request whose value differs from the observed one and names its path in the spec; every differing key
    has an entry; the values of [client_secret], [password] and [token] are replaced on both sides. *)
Theorem fieldDiffs_exact `{ModelJSON} paths desired observed :
  (forall d, d ∈ fieldDiffs paths desired observed ->
     exists key v, desired !! key = Some v /\ v <> field_value observed key /\
       d.(FieldDiff_Field) = default key (paths !! key) /\
       (key ∈ ConfidentialFields -> d.(FieldDiff_Desired) = Redacted /\ d.(FieldDiff_Actual) = Redacted) /\
       (key ∉ ConfidentialFields -> d.(FieldDiff_Desired) = formatValue v /\
          d.(FieldDiff_Actual) = formatValue (field_value observed key))) /\
  (forall key v, desired !! key = Some v -> v <> field_value observed key ->
     exists d, d ∈ fieldDiffs paths desired observed /\ d.(FieldDiff_Field) = default key (paths !! key)) /\
  (fieldDiffs paths desired observed = [] <->
     forall key v, desired !! key = Some v -> v = field_value observed key).
Proof.
  assert (Hd : forall key v, desired !! key = Some v -> field_value desired key = v).
  { intros key v Hv. unfold field_value. by rewrite Hv. }
  split_and!.
  - intros d (key & v & Hv & Hne & ->)%fieldDiffs_elem. exists key, v. unfold field_diff.
    rewrite (Hd _ _ Hv). case_decide; split_and!; naive_solver.
  - intros key v Hv Hne. exists (field_diff paths desired observed key). split; [apply fieldDiffs_elem; eauto|].
    unfold field_diff. by case_decide.
  - split.
    + intros E key v Hv. destruct (decide (v = field_value observed key)) as [|Hne]; [done|].
      assert (Hin : field_diff paths desired observed key ∈ fieldDiffs paths desired observed)
        by (apply fieldDiffs_elem; eauto).
      rewrite E in Hin. by apply elem_of_nil in Hin.
    + intros E. destruct (fieldDiffs paths desired observed) as [|d l] eqn:Ed; [done|].
      assert (Hin : d ∈ fieldDiffs paths desired observed) by (rewrite Ed; by left).
      apply fieldDiffs_elem in Hin as (key & v & Hv & Hne & _). naive_solver.
Qed.
