(* ===== verification/KubeExample.v ===== *)
(** * Instances of the library interfaces

    The laws that the development assumes of the Kubernetes libraries hold of a plain implementation over lists. The
    instance is only used to evaluate the theorems that depend on the laws at concrete inputs. *)
From S2P Require Import Prelude Errors Effects Api Crd Interface Marker MarkerCache Reference State.
From S2P Require Import FieldDiffs.

Fixpoint find_condition (cs : list Condition) (t : string) : option Condition :=
  match cs with
  | [] => None
  | c :: rest => if decide (c.(Condition_Type) = t) then Some c else find_condition rest t
  end.

Fixpoint set_condition (cs : list Condition) (c : Condition) : list Condition :=
  match cs with
  | [] => [c]
  | c' :: rest => if decide (c'.(Condition_Type) = c.(Condition_Type)) then c :: rest else c' :: set_condition rest c
  end.

Definition remove_condition (cs : list Condition) (t : string) : list Condition :=
  filter (fun c => c.(Condition_Type) <> t) cs.

Definition list_KubeLib : KubeLib := {|
  FindStatusCondition := find_condition;
  SetStatusCondition := set_condition;
  RemoveStatusCondition := remove_condition;
  AddFinalizer fs f := if decide (f ∈ fs) then (fs, false) else (fs ++ [f], true);
  RemoveFinalizer fs f := filter (fun f' => f' <> f) fs;
  ContainsFinalizer fs f := bool_decide (f ∈ fs);
  SetControllerReference app s :=
    Some (mkSecret s.(Secret_Namespace) s.(Secret_Name) (Some app.(App_UID)) s.(Secret_Data));
  marshal_spec spec := spec.(Spec_Slug);
  sha256_hex s := s;
|}.

Lemma list_KubeLibLaws : @KubeLibLaws list_KubeLib.
Proof.
  split; simpl.
  - intros cs c. induction cs as [|c' cs IH]; simpl; [by rewrite decide_True|].
    case_decide as Hc; simpl; [by rewrite decide_True|by rewrite decide_False].
  - intros cs c t Ht. induction cs as [|c' cs IH]; simpl; [by rewrite decide_False|].
    case_decide as Hc; simpl.
    + by rewrite !decide_False by congruence.
    + by case_decide.
  - intros cs t. unfold remove_condition. induction cs as [|c cs IH]; [done|].
    rewrite filter_cons. case_decide as Hc; simpl; [by rewrite decide_False|done].
  - intros cs t t' Ht. unfold remove_condition. induction cs as [|c cs IH]; [done|].
    rewrite filter_cons. case_decide as Hc; simpl; [by rewrite IH|]. by rewrite decide_False by congruence.
  - intros fs f. apply bool_decide_eq_true.
  - intros fs f f'. case_decide; simpl; [naive_solver|]. rewrite elem_of_app, list_elem_of_singleton. done.
  - intros fs f. by case_decide.
  - intros fs f Hf. by rewrite decide_True.
  - intros fs f f'. rewrite list_elem_of_filter. tauto.
  - intros a s s' [= <-]. done.
Qed.

(** An encoding of the models that only has their names. *)
Definition example_ModelJSON : ModelJSON := {|
  patched_application_fields r := from_option (fun name => {["name" := JString name]}) ∅ r.(PatchedApplication_Name);
  application_fields a := {["name" := JString a.(Application_Name)]};
  patched_proxy_fields r := from_option (fun name => {["name" := JString name]}) ∅ r.(PatchedProxy_Name);
  proxy_fields p := {["name" := JString p.(ProxyProvider_Name)]};
  patched_oauth2_fields r := from_option (fun name => {["name" := JString name]}) ∅ r.(PatchedOAuth2_Name);
  oauth2_fields p := {["name" := JString p.(OAuth2Provider_Name)]};
  marshal_json _ := "";
|}.
