(* ===== verification/Provider.v ===== *)
(** * Providers and Outposts

    [internal/controller/provider.go] and [outpost.go], with the Outpost helpers of [deletion.go]: the Provider of
    an Application is found, created or repaired through a handler for its type, and a Proxy Provider is attached to
    its Outpost. The interface [providerHandler] is a record of operations, and an observed Provider carries its
    [sync] and [diffs] closures. *)
From S2P Require Import Prelude Errors Effects Api Crd Patch Interface Marker MarkerCache Reference Desired.
From S2P Require Import State FieldDiffs.

Section methods.
Context `{KubeLib} `{ModelJSON}.
Abbreviation method A := (M call reconcileState A) (only parsing).

Record observedProvider : Type := mkObservedProvider {
  observed_pk : Z;
  observed_assignedApplication : option string;
  observed_sync : method ();
  observed_diffs : list FieldDiff;
}.

Record providerHandler : Type := mkProviderHandler {
  handler_kind : string;
  handler_model : string;
  handler_get : Z -> method observedProvider;
  handler_findByName : string -> method (list observedProvider);
  handler_create : string -> method Z;
  handler_existsAsOtherType : Z -> method bool;
}.

(** [exists]. *)
Definition exists_object {T} (get : method T) : method bool :=
  let* r := mtry get in
  match r with
  | Ok _ => mret true
  | Err err => if is_not_found err then mret false else mfail err
  end.

(** ** Proxy Providers *)

Definition proxy_observe (spec : ProxyProviderSpec) (desired : PatchedProxyProviderRequest) (provider : ProxyProvider)
    : observedProvider := {|
  observed_pk := provider.(ProxyProvider_Pk);
  observed_assignedApplication := Nullable_Get provider.(ProxyProvider_AssignedApplicationSlug);
  observed_sync :=
    match DiffProxyProvider desired provider with
    | None => mret ()
    | Some patch => let* _ := akcall (PatchProxyProvider provider.(ProxyProvider_Pk) patch) in mret ()
    end;
  observed_diffs := proxy_diffs spec desired provider;
|}.

Definition proxyProviderHandler (spec : ProxyProviderSpec) (desired : PatchedProxyProviderRequest) : providerHandler := {|
  handler_kind := "Proxy";
  handler_model := ModelProxyProvider;
  handler_get pk :=
    let* provider := akcall (GetProxyProvider pk) in
    mret (proxy_observe spec desired provider);
  handler_findByName name :=
    let* providers := akcall (FindProxyProvidersByName name) in
    mret (map (proxy_observe spec desired) providers);
  handler_create name :=
    let* request := mderef (createProxyProviderRequest name desired) in
    let* provider := akcall (CreateProxyProvider request) in
    mret provider.(ProxyProvider_Pk);
  handler_existsAsOtherType pk := exists_object (akcall (GetOAuth2Provider pk));
|}.

(** ** OAuth2 Providers *)

Definition oauth2_observe (desired : PatchedOAuth2ProviderRequest) (provider : OAuth2Provider) : observedProvider := {|
  observed_pk := provider.(OAuth2Provider_Pk);
  observed_assignedApplication := Nullable_Get provider.(OAuth2Provider_AssignedApplicationSlug);
  observed_sync :=
    match DiffOAuth2Provider desired provider with
    | None => mret ()
    | Some patch => let* _ := akcall (PatchOAuth2Provider provider.(OAuth2Provider_Pk) patch) in mret ()
    end;
  observed_diffs := oauth2_diffs desired provider;
|}.

(** The handler keeps a pointer to the resource, whose spec is read when the Provider is created. *)
Definition oauth2ProviderHandler (desired : PatchedOAuth2ProviderRequest) : providerHandler := {|
  handler_kind := "OAuth2";
  handler_model := ModelOAuth2Provider;
  handler_get pk :=
    let* provider := akcall (GetOAuth2Provider pk) in
    mret (oauth2_observe desired provider);
  handler_findByName name :=
    let* providers := akcall (FindOAuth2ProvidersByName name) in
    mret (map (oauth2_observe desired) providers);
  handler_create name :=
    let* app := get_app in
    let* defaults := ResolveCreationDefaults app in
    let* request := mderef (createOAuth2ProviderRequest name desired defaults) in
    let* provider := akcall (CreateOAuth2Provider request) in
    mret provider.(OAuth2Provider_Pk);
  handler_existsAsOtherType pk := exists_object (akcall (GetProxyProvider pk));
|}.

(** [r.providerHandler(s)]. *)
Definition get_providerHandler : method providerHandler :=
  let* app := get_app in
  let* provider := mderef app.(App_Spec).(Spec_Provider) in
  let* resolved := get_resolved in
  match provider.(Provider_Proxy) with
  | Some proxy =>
      let* flows := mderef resolved.(Resolved_Flows) in
      let* refs := mderef resolved.(Resolved_Proxy) in
      mret (proxyProviderHandler proxy (desiredProxyProvider provider proxy flows refs))
  | None =>
      let* oauth2 := mderef provider.(Provider_OAuth2) in
      let* flows := mderef resolved.(Resolved_Flows) in
      let* refs := mderef resolved.(Resolved_OAuth2) in
      mret (oauth2ProviderHandler (desiredOAuth2Provider provider oauth2 flows refs))
  end.

Definition providerTypeMismatch (slug : string) (pk : Z) (kind : string) : error :=
  StopError ReasonProviderTypeMismatch
    ("Application " +:+ fmt_q slug +:+ " has a Provider " +:+ fmt_d pk +:+ " that is not a " +:+ kind +:+ " Provider").

(** [provider, err := handler.get(ctx, pk)] up to the test of [ErrNotFound]: [None] when the Provider is not found. *)
Definition get_if_found (handler : providerHandler) (pk : Z) : method (option observedProvider) :=
  let* r := mtry (handler.(handler_get) pk) in
  match r with
  | Ok provider => mret (Some provider)
  | Err err => if is_not_found err then mret None else mfail err
  end.

(** The Provider attached to an Application, shared by [findProvider] and [attachedProvider]: the other type is a
    mismatch. *)
Definition get_attached (handler : providerHandler) (application : Application) (pk : Z)
    : method (option observedProvider) :=
  let* found := get_if_found handler pk in
  match found with
  | Some provider => mret (Some provider)
  | None =>
      let* otherType := handler.(handler_existsAsOtherType) pk in
      if otherType then mfail (providerTypeMismatch application.(Application_Slug) pk handler.(handler_kind))
      else mret None
  end.

(** The candidate has no Application, or the one with the slug. *)
Definition reusable (slug : string) (candidate : observedProvider) : bool :=
  match candidate.(observed_assignedApplication) with
  | None => true
  | Some s => bool_decide (s = slug)
  end.

(** The last part of [findProvider]. *)
Definition find_by_name (handler : providerHandler) : method (option observedProvider) :=
  let* app := get_app in
  let* name := mderef (providerName app.(App_Spec)) in
  let* candidates := handler.(handler_findByName) name in
  let* app := get_app in
  mret (find (reusable app.(App_Spec).(Spec_Slug)) candidates).

Definition find_attached_or_named (handler : providerHandler) (application : option Application)
    : method (option observedProvider) :=
  match application ≫= (fun a => pk ← Nullable_Get a.(Application_Provider); Some (a, pk)) with
  | None => find_by_name handler
  | Some (a, pk) =>
      let* attached := get_attached handler a pk in
      match attached with
      | Some provider => mret (Some provider)
      | None => find_by_name handler
      end
  end.

Definition findProvider (handler : providerHandler) (application : option Application)
    : method (option observedProvider) :=
  let* app := get_app in
  match app.(App_Status).(Status_ProviderPK) with
  | None => find_attached_or_named handler application
  | Some recorded =>
      let pk := int32_wrap recorded in
      let* found := get_if_found handler pk in
      match found with
      | Some provider => mret (Some provider)
      | None =>
          record_event true eventReasonRecreated
            (handler.(handler_kind) +:+ " Provider " +:+ fmt_d pk +:+
             " was deleted outside the operator and is recreated") ;;
          update_status (with_provider_pk None) ;;
          find_attached_or_named handler application
      end
  end.

Definition reconcileProvider (application : option Application) : method Z :=
  let* handler := get_providerHandler in
  let* provider := findProvider handler application in
  let* pk :=
    match provider with
    | Some provider => mret provider.(observed_pk)
    | None =>
        let* app := get_app in
        let* name := mderef (providerName app.(App_Spec)) in
        let* pk := handler.(handler_create) name in
        record_event false eventReasonCreated
          ("Created " +:+ handler.(handler_kind) +:+ " Provider " +:+ fmt_q name) ;;
        mret pk
    end in
  let* app := get_app in
  (if decide (app.(App_Status).(Status_ProviderPK) = Some pk) then mret ()
   else update_status (with_provider_pk (Some pk)) ;; patchStatus) ;;
  markers (ensure (mkObject handler.(handler_model) (fmt_d pk))) ;;
  match provider with
  | None => mret pk
  | Some provider => provider.(observed_sync) ;; mret pk
  end.

(** ** Outposts *)

Definition removeProviderFromOutpost {S} (outpost : Outpost) (pk : Z) : M call S () :=
  if decide (pk ∈ outpost.(Outpost_Providers)) then
    ignoreNotFound
      (let* _ := akcall (SetOutpostProviders outpost.(Outpost_Pk)
                           (filter (fun p => p <> pk) outpost.(Outpost_Providers))) in mret ())
  else mret ().

Definition leaveOutpostByUUID {S} (uuid : string) (pk : Z) : M call S () :=
  let* r := mtry (akcall (GetOutpost uuid)) in
  match r with
  | Err err => if is_not_found err then mret () else mfail err
  | Ok outpost => removeProviderFromOutpost outpost pk
  end.

Definition leaveOutpost {S} (ref : option NamedReference) (pk : Z) : M call S () :=
  let ref := default (mkNamedReference (Some EmbeddedOutpostName) None) ref in
  match ref.(NamedReference_UUID) with
  | Some uuid => leaveOutpostByUUID uuid pk
  | None =>
      let* name := mderef ref.(NamedReference_Name) in
      let* found := akcall (FindOutpostsByName name) in
      match found with
      | [outpost] => removeProviderFromOutpost outpost pk
      | _ => mret ()
      end
  end.

Definition reconcileOutpost (providerPK : Z) : method () :=
  let* resolved := get_resolved in
  let* proxy := mderef resolved.(Resolved_Proxy) in
  let uuid := proxy.(ProxyReferences_Outpost) in
  let* outpost := akcall (GetOutpost uuid) in
  (if decide (providerPK ∈ outpost.(Outpost_Providers)) then mret ()
   else let* _ := akcall (SetOutpostProviders uuid (outpost.(Outpost_Providers) ++ [providerPK])) in mret ()) ;;
  let* app := get_app in
  let previous := app.(App_Status).(Status_OutpostUUID) in
  (if decide (previous <> "" /\ previous <> uuid) then leaveOutpostByUUID previous providerPK else mret ()) ;;
  update_status (with_outpost_uuid uuid).

End methods.
