(* ===== verification/Bindings.v ===== *)
(** * Bindings

    [internal/controller/bindings.go]: the PolicyBindings of the access rules are matched to the existing ones,
    repaired, created and, last of all, deleted. [matchBindings] is a pure function; [None] is the panic of
    [ruleSubject] on a rule without a subject. *)
From S2P Require Import Prelude Errors Effects Api Crd Patch Interface Marker MarkerCache Reference Desired.
From S2P Require Import State.

Definition subjectKindGroup : string := "group".
Definition subjectKindUser : string := "user".
Definition subjectKindPolicy : string := "policy".

Definition orderStep : Z := 10.

Definition bindingObject (uuid : string) : Object := mkObject ModelPolicyBinding uuid.

(** ** Matching *)

(** [binding.Negate != nil && *binding.Negate]. *)
Definition observed_negate (b : PolicyBinding) : bool := default false b.(PolicyBinding_Negate).

(** The binding is assigned to a rule with the subject: the negated condition of the [continue]. *)
Definition assignable (exactNegate : bool) (used : gset string) (subject : bindingSubject) (negate : bool)
    (b : PolicyBinding) : bool :=
  negb (bool_decide (b.(PolicyBinding_Pk) ∈ used) || negb (bool_decide (observedSubject b = subject)) ||
        exactNegate && negb (eqb (observed_negate b) negate)).

(** The closure [assign]: [matched] and [used] are updated rule by rule. *)
Fixpoint assign (exactNegate : bool) (bindings : list PolicyBinding) (rules : list Rule)
    (matched : list (option PolicyBinding)) (used : gset string)
    : option (list (option PolicyBinding) * gset string) :=
  match rules, matched with
  | rule :: rules, Some b :: matched =>
      '(matched, used) ← assign exactNegate bindings rules matched used;
      Some (Some b :: matched, used)
  | rule :: rules, None :: matched =>
      subject ← ruleSubject rule;
      match find (assignable exactNegate used subject rule.(Rule_Negate)) bindings with
      | Some b =>
          '(matched, used) ← assign exactNegate bindings rules matched ({[b.(PolicyBinding_Pk)]} ∪ used);
          Some (Some b :: matched, used)
      | None =>
          '(matched, used) ← assign exactNegate bindings rules matched used;
          Some (None :: matched, used)
      end
  | _, _ => Some ([], used)
  end.

Definition matchBindings (rules : list Rule) (bindings : list PolicyBinding) (exactOnly : bool)
    : option (list (option PolicyBinding)) :=
  '(matched, used) ← assign true bindings rules (replicate (length rules) None) ∅;
  if exactOnly then Some matched
  else '(matched, _) ← assign false bindings rules matched used; Some matched.

(** [union]. *)
Definition union_uuid (values : list string) (value : string) : list string :=
  if decide (value ∈ values) then values else values ++ [value].

(** [unmanagedBindingsMessage]. *)
Definition slash : ascii := Ascii.ascii_of_nat 47.

Definition unmanagedBindingsMessage (bindings : list UnmanagedBinding) : string :=
  let targets := map (fun b => strings_replace1 b.(UnmanagedBinding_Target) slash "=") bindings in
  let noun := if decide (length bindings = 1%nat) then "binding" else "bindings" in
  fmt_d (Z.of_nat (length bindings)) +:+ " " +:+ noun +:+ " (" +:+ strings_join ", " targets +:+ ")".

(** ** The methods *)

Section methods.
Context `{KubeLib}.
Abbreviation method A := (M call reconcileState A) (only parsing).

(** [managedBindings]: the managed Bindings, the unmanaged ones and the largest order. *)
Definition managedBindings (existing : list PolicyBinding) : method (list PolicyBinding * list PolicyBinding * Z) :=
  mfold existing ([], [], 0) (fun '(managed, unmanaged, maxOrder) binding =>
    let maxOrder := Z.max maxOrder binding.(PolicyBinding_Order) in
    let object := bindingObject binding.(PolicyBinding_Pk) in
    let* app := get_app in
    if decide (binding.(PolicyBinding_Pk) ∈ app.(App_Status).(Status_BindingUUIDs)) then
      markers (ensure object) ;;
      mret (managed ++ [binding], unmanaged, maxOrder)
    else
      let* marked := markers (contains object) in
      if marked then mret (managed ++ [binding], unmanaged, maxOrder)
      else mret (managed, unmanaged ++ [binding], maxOrder)).

Definition syncBinding (desired : PatchedPolicyBindingRequest) (binding : PolicyBinding) : method () :=
  match DiffPolicyBinding desired binding with
  | None => mret ()
  | Some patch => let* _ := akcall (PatchPolicyBinding binding.(PolicyBinding_Pk) patch) in mret ()
  end.

Definition deleteBinding (uuid : string) : method () :=
  ignoreNotFound (akcall (DeletePolicyBinding uuid)) ;;
  markers (remove (bindingObject uuid)).

(** The adoption loop of [reconcileBindings]: [matched] with the adopted Bindings. *)
Fixpoint adopt_bindings (matched adopted : list (option PolicyBinding)) : method (list (option PolicyBinding)) :=
  match matched, adopted with
  | None :: matched, Some binding :: adopted =>
      markers (ensure (bindingObject binding.(PolicyBinding_Pk))) ;;
      let* rest := adopt_bindings matched adopted in
      mret (Some binding :: rest)
  | m :: matched, _ :: adopted =>
      let* rest := adopt_bindings matched adopted in
      mret (m :: rest)
  | _, _ => mret matched
  end.

(** The body of the loop over the rules: the Binding of the rule is repaired or created. *)
Definition sync_rule (target : string) (acc : list string * Z) (item : Rule * option PolicyBinding)
    : method (list string * Z) :=
  let '(kept, maxOrder) := acc in
  let '(rule, matched) := item in
  let desired := desiredBinding target rule in
  match matched with
  | Some binding =>
      syncBinding desired binding ;;
      mret (kept ++ [binding.(PolicyBinding_Pk)], maxOrder)
  | None =>
      let maxOrder := int32_wrap (maxOrder + orderStep) in
      let* request := mderef (createBindingRequest desired maxOrder) in
      let* created := akcall (CreatePolicyBinding request) in
      update_status (fun st => with_binding_uuids (union_uuid st.(Status_BindingUUIDs) created.(PolicyBinding_Pk)) st) ;;
      patchStatus ;;
      markers (ensure (bindingObject created.(PolicyBinding_Pk))) ;;
      mret (kept ++ [created.(PolicyBinding_Pk)], maxOrder)
  end.

(** The loop that deletes the managed Bindings that no rule needs. *)
Definition delete_obsolete (kept : list string) (managed : list PolicyBinding) : method () :=
  mfor managed (fun binding =>
    if decide (binding.(PolicyBinding_Pk) ∈ kept) then mret () else deleteBinding binding.(PolicyBinding_Pk)).

Definition describe_as {T} (kind id : string) (get : method T) (name : T -> string) : method string :=
  let* r := mtry get in
  match r with
  | Ok object => mret (kind +:+ "/" +:+ name object)
  | Err err => if is_not_found err then mret (kind +:+ "/" +:+ id) else mfail err
  end.

Definition describeSubject (binding : PolicyBinding) : method string :=
  let subject := observedSubject binding in
  if decide (subject.(subject_group) <> "") then
    describe_as subjectKindGroup subject.(subject_group) (akcall (GetGroup subject.(subject_group))) Group_Name
  else if decide (subject.(subject_policy) <> "") then
    describe_as subjectKindPolicy subject.(subject_policy) (akcall (GetPolicy subject.(subject_policy))) Policy_Name
  else
    describe_as subjectKindUser (fmt_d subject.(subject_user)) (akcall (GetUser subject.(subject_user))) User_Username.

Definition handleUnmanagedBindings (unmanaged : list PolicyBinding) : method () :=
  let* app := get_app in
  let access := app.(App_Spec).(Spec_Access) in
  let prune := default false access.(Access_Prune) in
  (if prune then
     mfor unmanaged (fun binding => ignoreNotFound (akcall (DeletePolicyBinding binding.(PolicyBinding_Pk))))
   else mret ()) ;;
  let unmanaged := if prune then [] else unmanaged in
  let* reported := mfold unmanaged [] (fun reported binding =>
    let* target := describeSubject binding in
    mret (reported ++ [mkUnmanagedBinding binding.(PolicyBinding_Pk) target])) in
  update_status (with_unmanaged_bindings reported) ;;
  let public := default false access.(Access_Public) in
  let message := unmanagedBindingsMessage reported in
  let remove_condition := update_status (fun st =>
    with_conditions (RemoveStatusCondition st.(Status_Conditions) ConditionTypeUnmanagedBindings) st) in
  match reported with
  | [] => remove_condition
  | _ =>
      if (public : bool) then
        remove_condition ;;
        mfail (StopError ReasonUnmanagedBindings
          (message +:+ " keep the Application from being public; set access.prune or delete them"))
      else setCondition ConditionTypeUnmanagedBindings true ReasonUnmanagedBindings message
  end.

Definition reconcileBindings (application : Application) : method () :=
  let target := application.(Application_PbmUuid) in
  let* existing := akcall (ListPolicyBindings target) in
  let* split := managedBindings existing in
  let '(managed, unmanaged, maxOrder) := split in
  let* resolved := get_resolved in
  let rules := resolved.(Resolved_Rules) in
  let* matched := mderef (matchBindings rules managed false) in
  let* adopted := mderef (matchBindings rules unmanaged true) in
  let* matched := adopt_bindings matched adopted in
  let* synced := mfold (zip rules matched) ([], maxOrder) (sync_rule target) in
  let '(kept, _) := synced in
  delete_obsolete kept managed ;;
  update_status (with_binding_uuids kept) ;;
  patchStatus ;;
  handleUnmanagedBindings (filter (fun b => b.(PolicyBinding_Pk) ∉ kept) unmanaged).

End methods.
