(* ===== verification/Application.v ===== *)
(** * Applications

    [internal/controller/application.go], the second half of [adoption.go] and [credentials.go]: the Application is
    observed, adopted, created or repaired, and the credentials of an OAuth2 Provider are exported to a Secret. *)
From S2P Require Import Prelude Errors Effects Api Crd Patch Interface Marker MarkerCache Reference Desired.
From S2P Require Import State FieldDiffs Provider.

(** [IndexCredentialsSecret]: the keys of the field index. *)
Definition index_credentials_secret (app : AuthentikApplication) : list string :=
  let credentials : option OAuth2CredentialsSpec :=
    provider ← app.(App_Spec).(Spec_Provider); oauth2 ← provider.(Provider_OAuth2); oauth2.(OAuth2_Credentials) in
  match credentials with
  | None => []
  | Some credentials => [credentials.(CredentialsSpec_SecretRef).(SecretRef_Name)]
  end.

Definition applicationObject (application : Application) : Object :=
  mkObject ModelApplication application.(Application_Pk).

Section methods.
Context `{KubeLib} `{ModelJSON}.
Abbreviation method A := (M call reconcileState A) (only parsing).

(** ** Adoption *)

Definition attachedProvider (application : Application) : method (option observedProvider) :=
  let* app := get_app in
  match app.(App_Spec).(Spec_Provider), Nullable_Get application.(Application_Provider) with
  | Some _, Some pk =>
      let* handler := get_providerHandler in
      get_attached handler application pk
  | _, _ => mret None
  end.

(** The differences of an Application and its attached Provider from the spec. *)
Definition adoption_diffs (spec : AuthentikApplicationSpec) (observed : Application) (provider : option observedProvider)
    : list FieldDiff :=
  application_diffs (desiredApplication spec None) observed ++
  match provider with None => [] | Some provider => provider.(observed_diffs) end.

Definition adoptApplication (observed : Application) : method () :=
  let* app := get_app in
  let policy := default AdoptionPolicyNever app.(App_Spec).(Spec_Adopt) in
  if decide (policy = AdoptionPolicyNever) then
    mfail (StopError ReasonUnmanaged
      ("Application " +:+ fmt_q observed.(Application_Slug) +:+
       " exists in authentik and is not managed by the operator; set spec.adopt to adopt it"))
  else
    let* provider := attachedProvider observed in
    let* app := get_app in
    let diffs := if decide (policy = AdoptionPolicyIfMatch)
                 then adoption_diffs app.(App_Spec) observed provider else [] in
    match diffs with
    | [] =>
        record_event false eventReasonAdopted
          ("Adopted Application " +:+ fmt_q observed.(Application_Slug) +:+ " with adopt " +:+ policy)
    | _ =>
        update_status (with_adoption_diff diffs) ;;
        mfail (StopError ReasonAdoptionDiff (fmt_d (Z.of_nat (length diffs)) +:+ " fields differ"))
    end.

(** ** The Application *)

(** The last statements of [observeApplication]: the marker is attached again. *)
Definition ensure_application_marker (application : Application) : method () :=
  markers (ensure (applicationObject application)).

(** Record the slug and the pk and write the status. *)
Definition record_application (application : Application) : method () :=
  update_status (with_application application.(Application_Slug) application.(Application_Pk)) ;;
  patchStatus.

Definition observeApplication : method (option Application) :=
  let* app := get_app in
  let slug := app.(App_Spec).(Spec_Slug) in
  let* r := mtry (akcall (GetApplication slug)) in
  match r with
  | Err err =>
      if is_not_found err then
        (if decide (app.(App_Status).(Status_ApplicationPK) <> "") then
           record_event true eventReasonRecreated
             ("Application " +:+ fmt_q slug +:+ " was deleted outside the operator and is recreated") ;;
           update_status (with_application "" "")
         else mret ()) ;;
        mret None
      else mfail err
  | Ok observed =>
      if decide (app.(App_Status).(Status_ApplicationPK) = observed.(Application_Pk)) then
        ensure_application_marker observed ;;
        mret (Some observed)
      else
        let* managed := markers (isManaged (applicationObject observed)) in
        (if (managed : bool) then mret () else adoptApplication observed) ;;
        record_application observed ;;
        ensure_application_marker observed ;;
        mret (Some observed)
  end.

Definition reconcileApplication (observed : option Application) (providerPK : option Z) : method Application :=
  let* app := get_app in
  let desired := desiredApplication app.(App_Spec) providerPK in
  match observed with
  | None =>
      let* request := mderef (createApplicationRequest app.(App_Spec).(Spec_Slug) desired) in
      let* created := akcall (CreateApplication request) in
      record_application created ;;
      ensure_application_marker created ;;
      record_event false eventReasonCreated ("Created Application " +:+ fmt_q created.(Application_Slug)) ;;
      mret created
  | Some observed =>
      match DiffApplication desired observed with
      | None => mret observed
      | Some patch => akcall (PatchApplication observed.(Application_Slug) patch)
      end
  end.

(** ** Credentials *)

(** The data of the Secret that [exportCredentials] creates. *)
Definition credentials_data (spec : OAuth2CredentialsSpec) (provider : OAuth2Provider) : gmap string string :=
  let ref := spec.(CredentialsSpec_SecretRef) in
  let clientID : gmap string string :=
    match spec.(CredentialsSpec_ClientID), provider.(OAuth2Provider_ClientId) with
    | None, Some id => {[default DefaultClientIDKey ref.(SecretRef_ClientIDKey) := id]}
    | _, _ => ∅
    end in
  match provider.(OAuth2Provider_ClientSecret) with
  | None => clientID
  | Some secret => <[default DefaultClientSecretKey ref.(SecretRef_ClientSecretKey) := secret]> clientID
  end.

Definition exportCredentials (providerPK : Z) : method () :=
  let* app := get_app in
  let* providerSpec := mderef app.(App_Spec).(Spec_Provider) in
  let* oauth2 := mderef providerSpec.(Provider_OAuth2) in
  let spec := oauth2.(OAuth2_Credentials) in
  let* provider := akcall (GetOAuth2Provider providerPK) in
  let* spec := mderef spec in
  let name := spec.(CredentialsSpec_SecretRef).(SecretRef_Name) in
  let secret := mkSecret app.(App_Namespace) name None (credentials_data spec provider) in
  match SetControllerReference app secret with
  | None => mfail (Wrapped ("failed to set the owner of Secret " +:+ name) (ErrorString "SetControllerReference"))
  | Some secret =>
      mwrap ("failed to create Secret " +:+ app.(App_Namespace) +:+ "/" +:+ name) (kubecall (KubeCreateSecret secret)) ;;
      record_event false eventReasonCreated
        ("Created Secret " +:+ fmt_q name +:+ " with the credentials of the OAuth2 Provider")
  end.

(** The namespaces and names of the resources whose credentials refer to the Secret. *)
Definition credentialsSecretRequests (namespace name : string) : method (list (string * string)) :=
  let* r := mtry (kubecall (KubeListBySecret namespace name)) in
  match r with
  | Err _ => mret []
  | Ok items => mret (map (fun app => (app.(App_Namespace), app.(App_Name))) items)
  end.
End methods.
