(* ===== verification/Credentials.v ===== *)
(** * Credentials of OAuth2 Providers

    The round trip of [exportCredentials] ([internal/controller/credentials.go]) and of the resolution of the Secret
    by the next reconcile ([internal/reference/resolver.go]), against a Kubernetes API that stores Secrets, and what
    happens when both credentials have the same key. *)
From S2P Require Import Prelude Errors Effects Api Crd Patch Interface Config Fake Marker MarkerCache Reference Desired Convergence State FieldDiffs KubeExample Provider Application.

(** ** Secrets *)

Abbreviation secrets := (gmap (string * string) Secret) (only parsing).

Definition secret_key (s : Secret) : string * string := (s.(Secret_Namespace), s.(Secret_Name)).

(** The API server stores Secrets under their names: it never creates one that exists, and it may fail. authentik
    has the Provider [provider]. *)
Definition secret_env (provider : OAuth2Provider) : environment call secrets :=
  mkEnv (fun _ _ _ => True)
    (fun R q w r w' =>
       match q in call R return R -> Prop with
       | GetOAuth2Provider _ => fun r => r = inl provider /\ w' = w
       | KubeGetSecret namespace name => fun r =>
           w' = w /\ r = match w !! (namespace, name) with
                         | Some secret => inl secret
                         | None => inr (KubeError true "not found")
                         end
       | KubeCreateSecret secret => fun r =>
           (r = inl () /\ w !! secret_key secret = None /\ w' = <[secret_key secret := secret]> w) \/
           ((exists err, r = inr err) /\ w' = w)
       | Eventf _ => fun _ => w' = w
       | _ => fun _ => False
       end r) False.

(** The credentials of a spec, and of the spec of a resource. *)
Definition credentials_of (spec : AuthentikApplicationSpec) : option OAuth2CredentialsSpec :=
  provider ← spec.(Spec_Provider); oauth2 ← provider.(Provider_OAuth2); oauth2.(OAuth2_Credentials).

Definition spec_credentials (app : AuthentikApplication) : option OAuth2CredentialsSpec := credentials_of app.(App_Spec).

Definition client_id_key (spec : OAuth2CredentialsSpec) : string :=
  default DefaultClientIDKey spec.(CredentialsSpec_SecretRef).(SecretRef_ClientIDKey).

Definition client_secret_key (spec : OAuth2CredentialsSpec) : string :=
  default DefaultClientSecretKey spec.(CredentialsSpec_SecretRef).(SecretRef_ClientSecretKey).

(** ** Specs with one key for both credentials *)

(** The credentials without an own client ID whose client ID has the key of the client secret. *)
Definition share_key (c : OAuth2CredentialsSpec) : OAuth2CredentialsSpec :=
  let ref := c.(CredentialsSpec_SecretRef) in
  mkOAuth2CredentialsSpec None
    (mkSecretReference ref.(SecretRef_Name) (Some (client_secret_key c)) ref.(SecretRef_ClientSecretKey)).

(** A spec with other credentials and nothing else changed. *)
Definition map_credentials (f : OAuth2CredentialsSpec -> OAuth2CredentialsSpec) (s : AuthentikApplicationSpec)
    : AuthentikApplicationSpec :=
  let map_oauth2 (o : OAuth2ProviderSpec) : OAuth2ProviderSpec :=
    mkOAuth2ProviderSpec o.(OAuth2_ClientType) o.(OAuth2_RedirectURIs) o.(OAuth2_Scopes) o.(OAuth2_SigningKey)
      o.(OAuth2_EncryptionKey) o.(OAuth2_GrantTypes) o.(OAuth2_SubjectMode) o.(OAuth2_IssuerMode)
      o.(OAuth2_IncludeClaimsInIDToken) o.(OAuth2_AccessCodeValidity) o.(OAuth2_AccessTokenValidity)
      o.(OAuth2_RefreshTokenValidity) o.(OAuth2_RefreshTokenThreshold) o.(OAuth2_LogoutURI) o.(OAuth2_LogoutMethod)
      (f <$> o.(OAuth2_Credentials)) in
  let map_provider (p : ProviderSpec) : ProviderSpec :=
    mkProviderSpec p.(Provider_Name) p.(Provider_Flows) p.(Provider_Proxy) (map_oauth2 <$> p.(Provider_OAuth2)) in
  mkSpec s.(Spec_Slug) s.(Spec_Name) s.(Spec_LaunchURL) s.(Spec_Icon) s.(Spec_Description) s.(Spec_Publisher)
    s.(Spec_Group) s.(Spec_OpenInNewTab) s.(Spec_HideFromApplicationDashboard) s.(Spec_DeletionPolicy) s.(Spec_Adopt)
    (map_provider <$> s.(Spec_Provider)) s.(Spec_Access).

Lemma share_key_keys c : client_id_key (share_key c) = client_secret_key (share_key c).
Proof. by destruct c as [? [? ? []]]. Qed.

Lemma valid_share_key c : valid_credentials c = true -> valid_credentials (share_key c) = true.
Proof.
  destruct c as [id [name idKey secretKey]]. unfold valid_credentials, share_key, client_secret_key. simpl.
  rewrite !andb_true_iff. intros [[[[[_ _] Hn] Hm] _] Hk]. split_and!; try done. by destruct secretKey.
Qed.

Lemma valid_map_credentials f s :
  (forall c, valid_credentials c = true -> valid_credentials (f c) = true) -> valid_spec s = true ->
  valid_spec (map_credentials f s) = true.
Proof.
  intros Hf. unfold valid_spec, map_credentials. simpl. rewrite !andb_true_iff. intros [[[[[H1 H2] H3] H4] Hp] H5].
  split_and!; try done. destruct (Spec_Provider s) as [p|]; [|done]. simpl in *. unfold valid_provider in *. simpl in *.
  rewrite !andb_true_iff in *. destruct Hp as [[[[[[Hx Hn] H6] H7] H8] H9] Ho]. split_and!; try done.
  - by destruct (Provider_OAuth2 p).
  - destruct (Provider_OAuth2 p) as [o|]; [|done]. simpl in *. unfold valid_oauth2 in *. simpl in *.
    rewrite !andb_true_iff in *. destruct Ho as [Hrest Hc]. split; [done|]. destruct (OAuth2_Credentials o); [by apply Hf|done].
Qed.

Lemma credentials_of_map f s : credentials_of (map_credentials f s) = f <$> credentials_of s.
Proof. unfold credentials_of, map_credentials. simpl. destruct (Spec_Provider s) as [p|]; [|done]. simpl. by destruct (Provider_OAuth2 p). Qed.

(** ** The round trip *)

Section roundtrip.
Context `{KubeLibLaws} `{ModelJSON}.
Context (provider : OAuth2Provider) (id secret : string).
Context (provider_id : provider.(OAuth2Provider_ClientId) = Some id).
Context (provider_secret : provider.(OAuth2Provider_ClientSecret) = Some secret).

(** The entries of the exported Secret. *)
Lemma credentials_data_secret spec : credentials_data spec provider !! client_secret_key spec = Some secret.
Proof. unfold credentials_data. rewrite provider_secret. apply lookup_insert_eq. Qed.

Lemma credentials_data_id spec :
  spec.(CredentialsSpec_ClientID) = None ->
  credentials_data spec provider !! client_id_key spec =
    Some (if decide (client_id_key spec = client_secret_key spec) then secret else id).
Proof.
  intros Hnone. unfold credentials_data. rewrite provider_secret, provider_id, Hnone. case_decide as Hk.
  - rewrite Hk. apply lookup_insert_eq.
  - rewrite lookup_insert_ne by done. apply lookup_singleton_eq.
Qed.

(** [readKey] of a key that exists. *)
Lemma readKey_found {W} (E : environment call W) s name path key defaultKey value c w (Q : collector -> result string -> W -> Prop) :
  s.(Secret_Data) !! default defaultKey key = Some value -> Q c (Ok value) w -> mwp E (readKey s name path key defaultKey) c w Q.
Proof. intros Hk HQ. unfold readKey. by rewrite Hk. Qed.

(** What the next reconcile resolves from the exported Secret. *)
Definition resolved_from_export (spec : OAuth2CredentialsSpec) : Credentials :=
  mkCredentials true
    (match spec.(CredentialsSpec_ClientID) with
     | Some own => own
     | None => if decide (client_id_key spec = client_secret_key spec) then secret else id
     end) secret.

Lemma resolve_exported (spec : OAuth2CredentialsSpec) (namespace : string) (s : Secret) (w : secrets) (Q : collector -> result Credentials -> secrets -> Prop) :
  w !! (namespace, spec.(CredentialsSpec_SecretRef).(SecretRef_Name)) = Some s ->
  s.(Secret_Data) = credentials_data spec provider ->
  Q [] (Ok (resolved_from_export spec)) w ->
  mwp (secret_env provider) (resolveCredentials namespace spec) [] w Q.
Proof.
  intros Hw Hdata HQ. unfold resolveCredentials, resolved_from_export in *. go_step. go_step. go_step.
  match goal with Hs : env_step _ _ _ _ _ _ |- _ => destruct Hs as [-> ->] end. rewrite Hw. cbv beta iota. go_step.
  destruct (CredentialsSpec_ClientID spec) as [own|] eqn:Hown.
  - go_step. go_step. apply readKey_found with secret; [rewrite Hdata; apply credentials_data_secret|]. by go_step.
  - apply readKey_found with (if decide (client_id_key spec = client_secret_key spec) then secret else id).
    { rewrite Hdata. by apply credentials_data_id. }
    go_step. apply readKey_found with secret; [rewrite Hdata; apply credentials_data_secret|]. by go_step.
Qed.

(** The CRD requires a client ID that is not empty. *)
Lemma valid_own_id spec own :
  valid_credentials spec = true -> spec.(CredentialsSpec_ClientID) = Some own -> own <> "".
Proof.
  unfold valid_credentials. intros Hv Hown ->. rewrite Hown in Hv. simpl in Hv. by rewrite andb_false_r in Hv.
Qed.

(** The export creates the Secret, or changes nothing. *)
Lemma exportCredentials_spec (pk : Z) (s : reconcileState) (w : secrets) (spec : OAuth2CredentialsSpec) :
  spec_credentials s.(rs_app) = Some spec ->
  let key := (s.(rs_app).(App_Namespace), spec.(CredentialsSpec_SecretRef).(SecretRef_Name)) in
  mwp (secret_env provider) (exportCredentials pk) s w (fun s' r w' => s' = s /\
    match r with
    | Ok _ => w !! key = None /\ exists created, w' = <[key := created]> w /\
                created.(Secret_Owner) = Some s.(rs_app).(App_UID) /\ created.(Secret_Data) = credentials_data spec provider
    | Err _ => w' = w
    end).
Proof.
  intros Hspec key. unfold spec_credentials, credentials_of in Hspec.
  destruct (Spec_Provider _) as [p|] eqn:Ep; [|done]. simpl in Hspec.
  destruct (Provider_OAuth2 p) as [o|] eqn:Eo; [|done]. simpl in Hspec.
  unfold exportCredentials, get_app. repeat go_step. apply mwp_deref. exists p. split; [done|].
  go_step. apply mwp_deref. exists o. split; [done|]. repeat go_step.
  match goal with Hs : env_step _ _ _ _ _ _ |- _ => destruct Hs as [-> ->] end. cbv beta iota.
  go_step. apply mwp_deref. exists spec. split; [done|].
  destruct (SetControllerReference _ _) as [created|] eqn:Ec; [|by go_step].
  destruct (set_controller_reference_data _ _ _ Ec) as (Hns & Hn & Hd & Ho). simpl in Hns, Hn, Hd.
  go_step. go_step. go_step.
  assert (secret_key created = key) as Hkey by (unfold secret_key; by rewrite Hns, Hn).
  match goal with Hs : env_step _ _ _ _ _ _ |- _ => destruct Hs as [(-> & Hnone & ->)|([err ->] & ->)] end; cbv beta iota.
  - go_step. unfold record_event. go_step.
    match goal with Hs : env_step _ _ _ _ _ _ |- _ => simpl in Hs; subst end.
    rewrite Hkey in *. split; [done|]. eauto 6.
  - by go_step.
Qed.

(** C29: Exported credentials come back unchanged. [exportCredentials] creates a Secret that the resource owns, or
    fails and changes nothing; a Secret that exists is never overwritten. After a success the next reconcile resolves
    the Secret without a failure, and, when the client ID is in the spec or the two keys of the Secret differ, to the
    credentials that the Provider has: the client secret is not rotated, and neither is a client ID that the spec
    leaves open. *)
Theorem exported_credentials_resolve (pk : Z) (s : reconcileState) (w : secrets) (spec : OAuth2CredentialsSpec) :
  spec_credentials s.(rs_app) = Some spec -> valid_credentials spec = true -> id <> "" ->
  (spec.(CredentialsSpec_ClientID) = None -> client_id_key spec <> client_secret_key spec) ->
  let key := (s.(rs_app).(App_Namespace), spec.(CredentialsSpec_SecretRef).(SecretRef_Name)) in
  mwp (secret_env provider) (exportCredentials pk) s w (fun s' r w' => s' = s /\
    (forall k, k <> key -> w' !! k = w !! k) /\ (forall old, w !! key = Some old -> w' = w /\ is_ok r = false) /\
    (r = Ok () ->
      (exists created, w' !! key = Some created /\ created.(Secret_Owner) = Some s.(rs_app).(App_UID)) /\
      mwp (secret_env provider) (resolveCredentials s.(rs_app).(App_Namespace) spec) [] w' (fun failures r' w'' =>
        w'' = w' /\ failures = [] /\ exists c, r' = Ok c /\ c.(Credentials_SecretExists) = true /\
          desired_client_secret (Some c) = provider.(OAuth2Provider_ClientSecret) /\
          desired_client_id (Some c) = or_else spec.(CredentialsSpec_ClientID) provider.(OAuth2Provider_ClientId)))).
Proof.
  intros Hspec Hvalid Hid Hkeys key. eapply mwp_mono; [by apply exportCredentials_spec|]. fold key.
  intros s' [[]|e] w' [-> Hr]; [|by subst].
  destruct Hr as (Hnone & created & -> & Ho & Hd). split; [done|].
  split; [intros k Hk; by rewrite lookup_insert_ne|]. split; [intros old Hold; by rewrite Hold in Hnone|].
  intros _. split; [exists created; by rewrite lookup_insert_eq|].
  apply resolve_exported with created; [apply lookup_insert_eq|done|]. split; [done|]. split; [done|].
  eexists. split; [done|]. split; [done|]. rewrite provider_secret, provider_id. split; [done|].
  unfold resolved_from_export, desired_client_id. simpl. destruct (CredentialsSpec_ClientID spec) as [own|] eqn:Hown.
  - rewrite decide_True; [done|]. by apply (valid_own_id spec).
  - rewrite (decide_False (P := client_id_key spec = client_secret_key spec)) by auto. by rewrite decide_True.
Qed.

(** Without an own client ID in the spec, the Secret of shared keys has the client secret as its only entry. *)
Lemma credentials_data_shared spec :
  spec.(CredentialsSpec_ClientID) = None -> client_id_key spec = client_secret_key spec ->
  credentials_data spec provider = {[client_secret_key spec := secret]}.
Proof.
  intros Hnone Hk. unfold credentials_data. rewrite provider_secret, provider_id, Hnone. unfold client_id_key in Hk. rewrite Hk.
  fold (client_secret_key spec). by rewrite insert_singleton_eq.
Qed.

(** A client ID that differs is sent by the repair of the Provider. *)
Lemma sync_sends_client_id desired new s w :
  diffPointer desired.(PatchedOAuth2_ClientId) provider.(OAuth2Provider_ClientId) = Some new ->
  mwp any_env (observed_sync (oauth2_observe desired provider)) s w (fun _ _ w' => exists patch answer,
    w' = w ++ [mkLogged (PatchOAuth2Provider provider.(OAuth2Provider_Pk) patch) answer] /\
    patch.(PatchedOAuth2_ClientId) = Some new).
Proof.
  intros Hd. simpl. unfold DiffOAuth2Provider. cbv zeta.
  match goal with |- context [if ?b then _ else _] => assert (b = false) as -> end.
  { simpl. rewrite Hd. simpl. by rewrite !orb_true_r. }
  repeat go_step. match goal with Hs : env_step _ _ _ _ _ _ |- _ => destruct Hs as [_ ->] end.
  destruct r; repeat go_step; eexists _, _; (split; [reflexivity|exact Hd]).
Qed.

(** C24: Equal keys disclose the client secret. The validation of the CRD does not keep the keys apart: every valid spec
    with credentials stays valid when the client ID is left open and gets the key of the client secret. For such
    credentials, given or by their defaults, the exported Secret has a single entry, the client secret; the next reconcile
    resolves it to the client ID too, and the repair of the Provider then sends authentik a PATCH whose client ID is the
    client secret, although a client ID is public. *)
Theorem equal_keys_disclose_secret :
  (forall spec c, valid_spec spec = true -> credentials_of spec = Some c ->
     valid_spec (map_credentials share_key spec) = true /\
     exists c', credentials_of (map_credentials share_key spec) = Some c' /\
       c'.(CredentialsSpec_ClientID) = None /\ client_id_key c' = client_secret_key c') /\
  (forall (pk : Z) (s : reconcileState) (w : secrets) (spec : OAuth2CredentialsSpec),
     spec_credentials s.(rs_app) = Some spec -> spec.(CredentialsSpec_ClientID) = None ->
     client_id_key spec = client_secret_key spec -> secret <> "" -> id <> secret ->
     mwp (secret_env provider) (exportCredentials pk) s w (fun s' r w' => r = Ok () ->
       (exists created, w' !! (s.(rs_app).(App_Namespace), spec.(CredentialsSpec_SecretRef).(SecretRef_Name)) = Some created /\
          created.(Secret_Data) = {[client_secret_key spec := secret]}) /\
       mwp (secret_env provider) (resolveCredentials s.(rs_app).(App_Namespace) spec) [] w' (fun failures r' w'' =>
         failures = [] /\ exists c, r' = Ok c /\
           forall providerSpec oauth2 flows refs t log, refs.(OAuth2References_Credentials) = Some c ->
             mwp any_env (observed_sync (oauth2_observe (desiredOAuth2Provider providerSpec oauth2 flows refs) provider)) t log
               (fun _ _ log' => exists patch answer,
                  log' = log ++ [mkLogged (PatchOAuth2Provider provider.(OAuth2Provider_Pk) patch) answer] /\
                  patch.(PatchedOAuth2_ClientId) = Some secret)))).
Proof.
  split.
  - intros spec c Hv Hc. split; [by apply valid_map_credentials; [apply valid_share_key|]|].
    exists (share_key c). rewrite credentials_of_map, Hc. split_and!; [done|done|apply share_key_keys].
  - intros pk s w spec Hspec Hnone Hkeys Hsecret Hne. eapply mwp_mono; [by apply exportCredentials_spec|].
    intros s' [[]|e] w' [-> Hr]; [|done]. intros _. destruct Hr as (_ & created & -> & _ & Hd). split.
    { exists created. by rewrite lookup_insert_eq, Hd, credentials_data_shared. }
    apply resolve_exported with created; [apply lookup_insert_eq|done|]. split; [done|]. eexists. split; [done|].
    intros providerSpec oauth2 flows refs t log Hrefs. apply sync_sends_client_id.
    unfold desiredOAuth2Provider, resolved_from_export in *. cbn [PatchedOAuth2_ClientId]. rewrite Hrefs.
    unfold desired_client_id. simpl. rewrite Hnone, (decide_True (P := client_id_key spec = _)) by done.
    rewrite decide_True by done. simpl. rewrite provider_id, decide_False by congruence. done.
Qed.
End roundtrip.

(** ** Instances

    A resource whose Secret does not exist, with the default keys, and one whose client ID is read from the key of
    the client secret. *)
Definition example_credentials (clientIDKey : option string) : OAuth2CredentialsSpec :=
  mkOAuth2CredentialsSpec None (mkSecretReference "wiki-oauth2" clientIDKey None).

Definition example_exporting (clientIDKey : option string) : reconcileState :=
  let oauth2 := mkOAuth2ProviderSpec (Some ClientTypeConfidential) None None None None None None None None None None None
                  None None None (Some (example_credentials clientIDKey)) in
  let app := mkResource "default" "wiki" "uid-1" 1 10 None [] (example_spec (Some (example_provider None (Some oauth2))))
               empty_status in
  mkReconcileState app app None (newMarkerCache (NewMarker "operator") 60 true).

Lemma exported_credentials_resolve_witness :
  valid_credentials (example_credentials None) = true /\
  mwp (secret_env example_oauth2) (@exportCredentials list_KubeLib 9) (example_exporting None) ∅ (fun _ r w' => r = Ok () ->
    exists created, w' !! ("default", "wiki-oauth2") = Some created /\ created.(Secret_Owner) = Some "uid-1").
Proof.
  split; [vm_compute; reflexivity|]. eapply mwp_mono.
  - apply (exported_credentials_resolve (H := list_KubeLib) (H0 := list_KubeLibLaws) example_oauth2 "id" "secret"
      ltac:(reflexivity) ltac:(reflexivity) 9 (example_exporting None) ∅ (example_credentials None));
      [reflexivity|vm_compute; reflexivity|discriminate|intros _; discriminate].
  - intros s' r w' (_ & _ & _ & Hr) Hok. exact (proj1 (Hr Hok)).
Defined.

(** Both a spec whose keys were apart, and the export and the repair for one key. *)
Lemma equal_keys_disclose_secret_witness :
  valid_spec (example_exporting None).(rs_app).(App_Spec) = true /\
  valid_spec (map_credentials share_key (example_exporting None).(rs_app).(App_Spec)) = true /\
  mwp (secret_env example_oauth2) (@exportCredentials list_KubeLib 9) (example_exporting (Some "client-secret")) ∅
    (fun _ r w' => r = Ok () ->
      exists created, w' !! ("default", "wiki-oauth2") = Some created /\ created.(Secret_Data) = {["client-secret" := "secret"]}).
Proof.
  split; [vm_compute; reflexivity|].
  destruct (equal_keys_disclose_secret (H := list_KubeLib) (H0 := list_KubeLibLaws) (H1 := example_ModelJSON) example_oauth2
    "id" "secret" ltac:(reflexivity) ltac:(reflexivity)) as [Hv Hsend]. split.
  - apply (Hv _ (example_credentials None)); [vm_compute; reflexivity|reflexivity].
  - eapply mwp_mono.
    + apply (Hsend 9 (example_exporting (Some "client-secret")) ∅ (example_credentials (Some "client-secret")));
        first [reflexivity|discriminate].
    + intros s' r w' Hr Hok. exact (proj1 (Hr Hok)).
Defined.
