(* ===== verification/Membership.v ===== *)
(** * Moving a Provider between Outposts

    [reconcileOutpost] of [internal/controller/outpost.go] against the in-memory authentik: the Provider joins the
    Outpost of the spec before it leaves the one that the status records. *)
From S2P Require Import Prelude Errors Effects Api Crd Interface Config Fake Marker MarkerCache MarkerSpec ServerInvariant Reference Desired Convergence State FieldDiffs KubeExample Provider Application.

(** The in-memory authentik, with a condition on the calls: a call that takes the Provider [pk] out of an Outpost
    finds it in another one. *)
Definition join_first_env (pk : Z) : environment call Client :=
  mkEnv (fun R q c =>
      match q with
      | SetOutpostProviders uuid providers =>
          pk ∉ providers ->
          exists uuid' o, uuid' <> uuid /\ c.(fk_outposts) !! uuid' = Some o /\ pk ∈ o.(Outpost_Providers)
      | _ => True
      end)
    (env_step fake_env) False.

(** The Outposts after the Provider moved from [previous] to [uuid]. *)
Definition join_outpost (pk : Z) (o : Outpost) : Outpost :=
  if decide (pk ∈ o.(Outpost_Providers)) then o else set_outpost_providers (o.(Outpost_Providers) ++ [pk]) o.

Definition moved (pk : Z) (uuid previous : string) (outposts : gmap string Outpost) : gmap string Outpost :=
  let joined := alter (join_outpost pk) uuid outposts in
  if decide (previous <> "" /\ previous <> uuid) then alter (detach_outpost pk) previous joined else joined.

Lemma join_outpost_member pk o : pk ∈ (join_outpost pk o).(Outpost_Providers).
Proof. unfold join_outpost. case_decide; [done|]. simpl. set_solver. Qed.

Lemma filter_absent (pk : Z) (pks : list Z) : pk ∉ pks -> filter (fun p => p <> pk) pks = pks.
Proof.
  induction pks as [|p pks IH]; intros Hn; [done|]. apply not_elem_of_cons in Hn as [Hp Hn].
  rewrite filter_cons_True by congruence. by rewrite IH.
Qed.

Section move.
Context `{ModelJSON}.

(** Setting existing Providers. *)
Lemma set_providers_accepted c uuid o providers :
  c.(fk_outposts) !! uuid = Some o -> (forall pk, pk ∈ providers -> providerExists c pk = true) ->
  fake_SetOutpostProviders c uuid providers =
    (set_outposts (<[uuid := set_outpost_providers providers o]> c.(fk_outposts)) c, inl (set_outpost_providers providers o)).
Proof.
  intros Ho Hlive. unfold fake_SetOutpostProviders. rewrite Ho.
  destruct (find _ providers) as [pk|] eqn:Hf; [|done].
  apply find_some in Hf as [Hin%list_elem_of_In Hn]. by rewrite (Hlive pk Hin) in Hn.
Qed.

Lemma alter_lookup {A} (f : A -> A) (m : gmap string A) k a : m !! k = Some a -> alter f k m = <[k := f a]> m.
Proof.
  intros Hk. apply map_eq. intros i. destruct (decide (i = k)) as [->|].
  - by rewrite lookup_alter_eq, lookup_insert_eq, Hk.
  - by rewrite lookup_alter_ne, lookup_insert_ne.
Qed.

Lemma set_outposts_same c : set_outposts c.(fk_outposts) c = c.
Proof. by destruct c. Qed.

(** The members of the Outposts exist. *)
Definition members_live (c : Client) : Prop :=
  forall uuid o, c.(fk_outposts) !! uuid = Some o ->
    o.(Outpost_Pk) = uuid /\ forall pk, pk ∈ o.(Outpost_Providers) -> providerExists c pk = true.

Lemma server_members_live c : server_ok c -> members_live c.
Proof.
  intros Hok uuid o Ho. destruct (server_outposts _ Hok) as [Hk Hl]. split; [by apply (Hk _ _ Ho)|].
  intros pk Hin. apply providerExists_live. by eapply Hl.
Qed.

Lemma members_live_join c pk uuid :
  members_live c -> providerExists c pk = true ->
  members_live (set_outposts (alter (join_outpost pk) uuid c.(fk_outposts)) c).
Proof.
  intros Hm Hpk u o Ho. simpl in Ho. destruct (decide (u = uuid)) as [->|Hne].
  - rewrite lookup_alter_eq in Ho. destruct (fk_outposts c !! uuid) as [o'|] eqn:Eo; [|done]. simplify_eq/=.
    destruct (Hm _ _ Eo) as [Hk Hl]. unfold join_outpost. case_decide; [by split|]. split; [done|].
    intros pk' [Hin| ->%list_elem_of_singleton]%elem_of_app; [by apply Hl|done].
  - rewrite lookup_alter_ne in Ho by done. exact (Hm _ _ Ho).
Qed.

(** [leaveOutpostByUUID], when the Provider is in another Outpost. *)
Lemma leave_spec {S} uuid pk (s : S) c uuid' o' (Q : S -> result () -> Client -> Prop) :
  members_live c -> uuid' <> uuid -> c.(fk_outposts) !! uuid' = Some o' -> pk ∈ o'.(Outpost_Providers) ->
  Q s (Ok ()) (set_outposts (alter (detach_outpost pk) uuid c.(fk_outposts)) c) ->
  mwp (join_first_env pk) (leaveOutpostByUUID uuid pk) s c Q.
Proof.
  intros Hm Hne Ho' Hpk HQ. unfold leaveOutpostByUUID. go_step. go_step. go_step.
  match goal with Hs : env_step _ _ _ _ _ _ |- _ => destruct Hs as [-> ->] end. cbn [snd].
  unfold fake_GetOutpost. destruct (c.(fk_outposts) !! uuid) as [o|] eqn:Ho; simpl.
  - destruct (Hm _ _ Ho) as [Hk Hl]. unfold removeProviderFromOutpost. case_decide as Hin.
    + unfold ignoreNotFound. do 3 go_step. unfold akcall. rewrite Hk. apply mwp_invoke.
      { intros _. eauto. }
      intros r c' Hs. cbn [join_first_env env_step fake_env fake_handle] in Hs. destruct Hs as [-> ->].
      rewrite (set_providers_accepted _ _ o) by (try done; intros ? [_ ?]%list_elem_of_filter; auto). cbn [fst snd].
      repeat go_step. by rewrite (alter_lookup _ _ _ _ Ho) in HQ.
    + go_step. rewrite (alter_lookup _ _ _ _ Ho) in HQ.
      assert (detach_outpost pk o = o) as Hd.
      { unfold detach_outpost, set_outpost_providers. rewrite filter_absent by done. by destruct o. }
      by rewrite Hd, insert_id, set_outposts_same in HQ.
  - go_step. rewrite alter_id in HQ; [|by intros ? ?; congruence]. by rewrite set_outposts_same in HQ.
Qed.

(** [reconcileOutpost], when the members of the Outposts exist. *)
Lemma reconcileOutpost_spec pk s c resolved proxy :
  members_live c -> providerExists c pk = true ->
  s.(rs_resolved) = Some resolved -> resolved.(Resolved_Proxy) = Some proxy ->
  let uuid := proxy.(ProxyReferences_Outpost) in
  let previous := s.(rs_app).(App_Status).(Status_OutpostUUID) in
  mwp (join_first_env pk) (reconcileOutpost pk) s c (fun s' r c' =>
    match c.(fk_outposts) !! uuid with
    | Some _ =>
        r = Ok () /\ s' = set_app (set_status (with_outpost_uuid uuid) s.(rs_app)) s /\
        c' = set_outposts (moved pk uuid previous c.(fk_outposts)) c /\
        (exists o, c'.(fk_outposts) !! uuid = Some o /\ pk ∈ o.(Outpost_Providers))
    | None => (exists e, r = Err e) /\ s' = s /\ c' = c
    end).
Proof.
  intros Hm Hpk Hres Hproxy uuid previous.
  unfold reconcileOutpost, get_resolved, get_app. do 3 go_step. apply mwp_deref. exists resolved. split; [done|].
  go_step. apply mwp_deref. exists proxy. split; [done|]. go_step. go_step.
  match goal with Hs : env_step _ _ _ _ _ _ |- _ => destruct Hs as [-> ->] end. cbn [snd]. fold uuid.
  unfold fake_GetOutpost. destruct (c.(fk_outposts) !! uuid) as [o|] eqn:Ho; simpl; [|eauto].
  go_step. set (joined := alter (join_outpost pk) uuid c.(fk_outposts)).
  assert (Hj : forall Q, Q s (Ok ()) (set_outposts joined c) -> mwp (join_first_env pk)
    (if decide (pk ∈ o.(Outpost_Providers)) then mret ()
     else let* _ := akcall (SetOutpostProviders uuid (o.(Outpost_Providers) ++ [pk])) in mret ()) s c Q).
  { intros Q HQ. unfold joined in HQ. rewrite (alter_lookup _ _ _ _ Ho) in HQ. unfold join_outpost in HQ. case_decide as Hin.
    - go_step. by rewrite insert_id, set_outposts_same in HQ.
    - go_step. unfold akcall. apply mwp_invoke; [simpl; intros []; set_solver|].
      intros r c' Hs. cbn [join_first_env env_step fake_env fake_handle] in Hs. destruct Hs as [-> ->].
      rewrite (set_providers_accepted _ _ o); [by repeat go_step|done|].
      intros pk' [Hin'| ->%list_elem_of_singleton]%elem_of_app; [|done]. by apply (Hm _ _ Ho). }
  apply Hj. repeat go_step.
  assert (joined !! uuid = Some (join_outpost pk o)) as Hjo by (unfold joined; by rewrite lookup_alter_eq, Ho).
  fold previous. unfold moved. fold joined. clear Hj. destruct (decide (previous <> "" /\ previous <> uuid)) as [Hprev|Hprev].
  - apply leave_spec with uuid (join_outpost pk o);
      [by apply members_live_join|by destruct Hprev|done|apply join_outpost_member|].
    repeat go_step. split_and!; [done|done|done|]. simpl. rewrite lookup_alter_ne by by destruct Hprev.
    exists (join_outpost pk o). split; [done|apply join_outpost_member].
  - repeat go_step. unfold update_status. go_step. split_and!; [done|done|done|].
    exists (join_outpost pk o). split; [done|apply join_outpost_member].
Qed.
(** C8: A Provider moves between Outposts without ever being in none of them. When the Provider exists,
    [reconcileOutpost] succeeds exactly if the Outpost of the spec exists. Then the Provider is in that Outpost, is
    no longer in the Outpost that the status recorded before, if that was another one, all other members and Outposts
    are as they were, and the status records the Outpost of the spec. Every call that takes the Provider out of an
    Outpost is made while it is in another one. Otherwise nothing changes. *)
Theorem reconcileOutpost_joins_first pk s c resolved proxy :
  server_ok c -> providerExists c pk = true ->
  s.(rs_resolved) = Some resolved -> resolved.(Resolved_Proxy) = Some proxy ->
  let uuid := proxy.(ProxyReferences_Outpost) in
  let previous := s.(rs_app).(App_Status).(Status_OutpostUUID) in
  mwp (join_first_env pk) (reconcileOutpost pk) s c (fun s' r c' =>
    match c.(fk_outposts) !! uuid with
    | Some _ =>
        r = Ok () /\ s' = set_app (set_status (with_outpost_uuid uuid) s.(rs_app)) s /\
        c' = set_outposts (moved pk uuid previous c.(fk_outposts)) c /\
        (exists o, c'.(fk_outposts) !! uuid = Some o /\ pk ∈ o.(Outpost_Providers))
    | None => (exists e, r = Err e) /\ s' = s /\ c' = c
    end).
Proof. intros Hok. by apply reconcileOutpost_spec, server_members_live. Qed.
End move.

(** ** An instance

    A server with a Provider and two Outposts, of which the first has the Provider, and a resource whose spec now
    names the second. *)
Definition example_outposts : Client := (AddOutpost (AddOutpost example_created "a").1 "b").1.

Definition example_member : Client := (fake_SetOutpostProviders example_outposts (uuid_of 2) [1]).1.

Definition example_joining : Resolved := mkResolved None (Some (mkProxyReferences None (uuid_of 3))) None [].

Definition example_moving : reconcileState :=
  let app := set_status (with_outpost_uuid (uuid_of 2))
    (mkResource "default" "wiki" "uid-1" 1 10 None [] (example_spec (Some (example_provider None None))) empty_status) in
  mkReconcileState app app
    (Some example_joining) (newMarkerCache (NewMarker "operator") 60 true).

Lemma example_member_ok : server_ok example_member.
Proof.
  apply (server_reachable_ok 4); [|unfold max_int32; lia].
  apply (reachable_step 3 example_outposts); [|exact (call_server_step _ _ (SetOutpostProviders (uuid_of 2) [1]) _ I eq_refl)].
  apply (reachable_step 2 (AddOutpost example_created "a").1); [|apply step_outpost].
  apply (reachable_step 1 example_created); [|apply step_outpost].
  apply (reachable_step 0 (New (fun _ _ => []))); [apply reachable_new|].
  exact (call_server_step _ _ (CreateOAuth2Provider example_provider_request) _ I eq_refl).
Qed.

Lemma reconcileOutpost_joins_first_witness :
  (Outpost_Providers <$> example_member.(fk_outposts) !! uuid_of 2) = Some [1] /\
    (Outpost_Providers <$> example_member.(fk_outposts) !! uuid_of 3) = Some [] /\
  mwp (join_first_env 1) (reconcileOutpost 1) example_moving example_member (fun s' r c' =>
    r = Ok () /\ s'.(rs_app).(App_Status).(Status_OutpostUUID) = uuid_of 3 /\
    (Outpost_Providers <$> c'.(fk_outposts) !! uuid_of 2) = Some [] /\
    (Outpost_Providers <$> c'.(fk_outposts) !! uuid_of 3) = Some [1]).
Proof.
  split; [vm_compute; reflexivity|]. split; [vm_compute; reflexivity|]. eapply mwp_mono.
  - apply (reconcileOutpost_joins_first 1 example_moving example_member
      example_joining (mkProxyReferences None (uuid_of 3)) example_member_ok); vm_compute; reflexivity.
  - intros s' r c' H. vm_compute in H. destruct H as (-> & -> & -> & _). repeat split; vm_compute; reflexivity.
Defined.
