(* ===== verification/Reconcile.v ===== *)
(** * Reconcile and finalize

    [internal/controller/authentikapplication_controller.go] and [deletion.go]: the sequence of the steps of a
    reconcile, the outcome recorded in the status, and the release of the objects of a deleted resource. *)
From S2P Require Import Prelude Errors Effects Api Crd Patch Interface Marker MarkerCache Reference Desired.
From S2P Require Import State FieldDiffs Provider Conflict Bindings Application.

(** ** reconcile *)

(** [ctrl.Result]: the delay after which the resource is queued again, if any. *)
Definition Result : Type := option Z.

Section methods.
Context `{KubeLib} `{ModelJSON}.
(** [r.ResyncInterval]. *)
Context (ResyncInterval : Z).
Abbreviation method A := (M call reconcileState A) (only parsing).

(** The credentials of an OAuth2 Provider whose Secret does not exist. *)
Definition secret_missing (resolved : Resolved) : bool :=
  match (refs ← resolved.(Resolved_OAuth2); refs.(OAuth2References_Credentials)) : option Credentials with
  | Some credentials => negb credentials.(Credentials_SecretExists)
  | None => false
  end.

(** The block of [reconcile] under [s.app.Spec.Provider != nil]: nil when the spec has no Provider. *)
Definition reconcile_provider (observed : option Application) : method (option Z) :=
  let* app := get_app in
  match app.(App_Spec).(Spec_Provider) with
  | None => mret None
  | Some _ =>
      let* pk := reconcileProvider observed in
      let* app := get_app in
      let* provider := mderef app.(App_Spec).(Spec_Provider) in
      (match provider.(Provider_Proxy) with Some _ => reconcileOutpost pk | None => mret () end) ;;
      let* resolved := get_resolved in
      (if secret_missing resolved then exportCredentials pk else mret ()) ;;
      mret (Some pk)
  end.

Definition reconcile : method () :=
  checkConflict ;;
  let* app := get_app in
  let* resolved := Resolve app in
  mmodify (set_resolved (Some resolved)) ;;
  let* observed := observeApplication in
  let* providerPK := reconcile_provider observed in
  let* application := reconcileApplication observed providerPK in
  reconcileBindings application.

(** ** finish *)

Definition reconciled_message : string := "The Application, the Provider, and the Bindings match the spec".

(** The status, the reason and the message of the Ready condition. *)
Definition ready_condition (outcome : result ()) : bool * string * string :=
  match outcome with
  | Ok _ => (true, ReasonReconciled, reconciled_message)
  | Err err =>
      match errors_as as_stop_error err with
      | Some (reason, message) => (false, reason, message)
      | None =>
          match errors_as as_reference_error err with
          | Some failures => (false, ReferenceError_Reason failures, ReferenceError_Error failures)
          | None => (false, ReasonAPIError, error_Error err)
          end
      end
  end.

(** The adoption diff is kept only when it stopped the reconcile. *)
Definition keeps_adoption_diff (outcome : result ()) : bool :=
  match outcome with
  | Ok _ => false
  | Err err =>
      match errors_as as_stop_error err with
      | Some (reason, _) => bool_decide (reason = ReasonAdoptionDiff)
      | None => false
      end
  end.

Definition is_stop (outcome : result ()) : bool :=
  match outcome with
  | Ok _ => false
  | Err err => match errors_as as_stop_error err with Some _ => true | None => false end
  end.

Definition finish (outcome : result ()) : method Result :=
  let* app := get_app in
  update_status (with_observed_generation app.(App_Generation)) ;;
  (if keeps_adoption_diff outcome then mret () else update_status (with_adoption_diff [])) ;;
  (match outcome with
   | Ok _ => let* app := get_app in update_status (with_last_applied_hash (specHash app.(App_Spec)))
   | Err _ => mret ()
   end) ;;
  let '(status, reason, message) := ready_condition outcome in
  setReady status reason message ;;
  let* patched := mtry patchStatus in
  match patched, outcome with
  | Err patchErr, Ok _ => mfail (Joined [patchErr])
  | Err patchErr, Err err => mfail (Joined [err; patchErr])
  | Ok _, Ok _ => mret (Some ResyncInterval)
  | Ok _, Err err => if is_stop outcome then mret (Some ResyncInterval) else mfail err
  end.

(** ** Finalizer *)

Definition finalizer : string := "authentik.starry.blue/finalizer".

(** [ensureFinalizer] on [s.app]. *)
Definition ensureFinalizer : method () :=
  let* base := get_app in
  let '(finalizers, added) := AddFinalizer base.(App_Finalizers) finalizer in
  if negb (added : bool) then mret ()
  else
    mmodify (fun s => set_app (set_finalizers finalizers s.(rs_app)) s) ;;
    let* app := get_app in
    let* app := mwrap "failed to add the finalizer" (kubecall (KubePatch app base)) in
    mmodify (set_app app).

(** [cmp.Or] on strings. *)
Definition or_string (a b : string) : string := if decide (a = "") then b else a.

Definition deleteApplication (app : AuthentikApplication) : method () :=
  let slug := or_string app.(App_Status).(Status_ApplicationSlug) app.(App_Spec).(Spec_Slug) in
  let* r := mtry (akcall (GetApplication slug)) in
  match r with
  | Err err => if is_not_found err then mret () else mfail err
  | Ok observed =>
      if decide (observed.(Application_Pk) <> app.(App_Status).(Status_ApplicationPK)) then mret ()
      else ignoreNotFound (akcall (DeleteApplication slug))
  end.

Definition deleteProvider (provider : ProviderSpec) (pk : Z) : method () :=
  match provider.(Provider_Proxy) with
  | Some proxy =>
      leaveOutpost proxy.(Proxy_Outpost) pk ;;
      ignoreNotFound (akcall (DeleteProxyProvider pk))
  | None => ignoreNotFound (akcall (DeleteOAuth2Provider pk))
  end.

Definition deletes (app : AuthentikApplication) : bool :=
  bool_decide (app.(App_Spec).(Spec_DeletionPolicy) = Some DeletionPolicyDelete).

(** The markers of the recorded objects, in the order of their release. *)
Definition recorded_bindings (app : AuthentikApplication) : list string := app.(App_Status).(Status_BindingUUIDs).

Definition provider_model (provider : ProviderSpec) : string :=
  match provider.(Provider_Proxy) with Some _ => ModelProxyProvider | None => ModelOAuth2Provider end.

Definition release (app : AuthentikApplication) : method () :=
  let delete := deletes app in
  let* bindingMarkers := mfold (recorded_bindings app) [] (fun objects uuid =>
    (if delete then ignoreNotFound (akcall (DeletePolicyBinding uuid)) else mret ()) ;;
    mret (objects ++ [bindingObject uuid])) in
  let* applicationMarkers :=
    (if decide (app.(App_Status).(Status_ApplicationPK) <> "") then
       (if delete then deleteApplication app else mret ()) ;;
       mret [mkObject ModelApplication app.(App_Status).(Status_ApplicationPK)]
     else mret []) in
  let* providerMarkers :=
    (match app.(App_Status).(Status_ProviderPK), app.(App_Spec).(Spec_Provider) with
     | Some recorded, Some provider =>
         let pk := int32_wrap recorded in
         (if delete then deleteProvider provider pk else mret ()) ;;
         mret [mkObject (provider_model provider) (fmt_d pk)]
     | _, _ => mret []
     end) in
  mfor (bindingMarkers ++ applicationMarkers ++ providerMarkers) (fun object => markers (remove object)) ;;
  if delete then record_event false "Deleted" "Deleted the objects in authentik" else mret ().

Definition finalize : method Result :=
  let* app := get_app in
  if negb (ContainsFinalizer app.(App_Finalizers) finalizer) then mret None
  else
    let* released := mtry (release app) in
    match released with
    | Err err =>
        mmodify (fun s => set_base s.(rs_app) s) ;;
        let* app := get_app in
        update_status (with_observed_generation app.(App_Generation)) ;;
        setReady false ReasonAPIError ("Failed to release the objects in authentik: " +:+ error_Error err) ;;
        let* patched := mtry patchStatus in
        match patched with
        | Ok _ => mfail (Joined [err])
        | Err patchErr => mfail (Joined [err; patchErr])
        end
    | Ok _ =>
        let* base := get_app in
        mmodify (fun s => set_app (set_finalizers (RemoveFinalizer base.(App_Finalizers) finalizer) s.(rs_app)) s) ;;
        let* app := get_app in
        let* patched := mtry (kubecall (KubePatch app base)) in
        match patched with
        | Ok app => mmodify (set_app app) ;; mret None
        | Err err =>
            let err := Wrapped "failed to remove the finalizer" err in
            if kube_is_not_found err then mret None else mfail err
        end
    end.

(** ** Reconcile *)

(** [Reconcile] of a request. The memory before it only holds the marker cache; the state is made when the resource
    has been read. *)
Definition Reconcile (namespace name : string) : M call markerCache Result := fun cache =>
  Call (KubeGet namespace name) (fun r =>
    match r with
    | inr err => Ret (cache, if kube_is_not_found (KubeAPIError err) then Ok None else Err (KubeAPIError err))
    | inl app =>
        let body : method Result :=
          if is_deleting app then finalize
          else
            ensureFinalizer ;;
            mmodify (fun s => set_base s.(rs_app) s) ;;
            let* outcome := mtry reconcile in
            finish outcome in
        pbind (body (mkReconcileState app app None cache)) (fun '(s, r) => Ret (s.(rs_markers), r))
    end).

End methods.
