(* ===== verification/Startup.v ===== *)
(** * The start of the operator

    [cmd/main.go] and [SetupWithManager] of [internal/controller/authentikapplication_controller.go]: the checks of
    the flags, the contacts with authentik before the manager starts, the options of the manager, and what the
    controller watches. The manager of controller-runtime is a service whose calls extend those of the operator.
    Parsing the command line is left to the package [flag]: the flags are a record, with the defaults of the source.
    The timeouts of the two contacts with authentik and the parts of a log line other than its message are not
    modelled. *)
From S2P Require Import Prelude Errors Effects Api Crd Interface Config RateLimiter Version Marker MarkerCache State Conflict FieldDiffs Application.

(** ** Flags and options *)

Record flags : Type := mkFlags {
  metrics_bind_address : string;
  health_probe_bind_address : string;
  leader_elect : bool;
  metrics_secure : bool;
  webhook_cert_path : string;
  webhook_cert_name : string;
  webhook_cert_key : string;
  metrics_cert_path : string;
  metrics_cert_name : string;
  metrics_cert_key : string;
  enable_http2 : bool;
  authentik_ca_file : string;
  authentik_insecure : bool;
  marker_gc : bool;
  resync_interval : Z;
  cluster_name : string;
  owner_role : string;
}.

(** The defaults of the flags. *)
Definition default_flags : flags := {|
  metrics_bind_address := "0";
  health_probe_bind_address := ":8081";
  leader_elect := true;
  metrics_secure := true;
  webhook_cert_path := "";
  webhook_cert_name := "tls.crt";
  webhook_cert_key := "tls.key";
  metrics_cert_path := "";
  metrics_cert_name := "tls.crt";
  metrics_cert_key := "tls.key";
  enable_http2 := false;
  authentik_ca_file := "";
  authentik_insecure := false;
  marker_gc := true;
  resync_interval := 10 * Minute;
  cluster_name := "";
  owner_role := "";
|}.

(** The environment variables. *)
Record environ : Type := mkEnviron {
  AUTHENTIK_URL : string;
  AUTHENTIK_TOKEN : string;
}.

(** A function on a [tls.Config], here on its [NextProtos]. *)
Definition tls_option : Type := list string -> list string.

Definition disableHTTP2 : tls_option := fun _ => ["http/1.1"].

(** The options of the webhook server and of the metrics server, as far as the program sets them. *)
Record server_options : Type := mkServerOptions {
  so_BindAddress : string;
  so_SecureServing : bool;
  so_TLSOpts : list tls_option;
  so_Authenticated : bool;               (** the [FilterProvider] of the metrics server *)
  so_CertDir : string;
  so_CertName : string;
  so_KeyName : string;
}.

Definition set_certificate (dir name key : string) (o : server_options) : server_options :=
  mkServerOptions o.(so_BindAddress) o.(so_SecureServing) o.(so_TLSOpts) o.(so_Authenticated) dir name key.

Definition tlsOpts (f : flags) : list tls_option := if f.(enable_http2) then [] else [disableHTTP2].

Definition webhookServerOptions (f : flags) : server_options :=
  let options := mkServerOptions "" false (tlsOpts f) false "" "" "" in
  if decide (0 < String.length f.(webhook_cert_path))%nat
  then set_certificate f.(webhook_cert_path) f.(webhook_cert_name) f.(webhook_cert_key) options else options.

Definition metricsServerOptions (f : flags) : server_options :=
  let options := mkServerOptions f.(metrics_bind_address) f.(metrics_secure) (tlsOpts f) f.(metrics_secure) "" "" "" in
  if decide (0 < String.length f.(metrics_cert_path))%nat
  then set_certificate f.(metrics_cert_path) f.(metrics_cert_name) f.(metrics_cert_key) options else options.

Record manager_options : Type := mkManagerOptions {
  mo_Metrics : server_options;
  mo_WebhookServer : server_options;
  mo_HealthProbeBindAddress : string;
  mo_LeaderElection : bool;
  mo_LeaderElectionID : string;
  mo_UncachedSecrets : bool;             (** the client cache is disabled for Secrets *)
}.

Definition managerOptions (f : flags) : manager_options :=
  mkManagerOptions (metricsServerOptions f) (webhookServerOptions f) f.(health_probe_bind_address) f.(leader_elect)
    "9fee2030.starry.blue" true.

(** ** What the controller watches *)

(** [GenerationChangedPredicate] is controller-runtime's; a [Funcs] passes every event it has no function for. *)
Inductive predicate : Type :=
  | GenerationChangedPredicate
  | Funcs (UpdateFunc : AuthentikApplication -> AuthentikApplication -> bool) (Generic : bool)
  | Or (predicates : list predicate).

Definition deletionStarted : predicate := Funcs deletionStarted_update true.
Definition conflictPredicate : predicate := Funcs conflictPredicate_update false.

Abbreviation requests A := (A -> M call reconcileState (list (string * string))) (only parsing).

Inductive watch : Type :=
  | For (p : predicate)                                                       (** the resource itself *)
  | Watches (map : requests AuthentikApplication) (p : predicate)
  | WatchesSecretMetadata (map : requests (string * string))                  (** namespace and name of the Secret *)
  | WatchesRoleEvents.                                                        (** the channel [roleEvents] *)

Record controller_options : Type := mkControllerOptions {
  co_Name : string;
  co_Watches : list watch;
  co_MaxConcurrentReconciles : Z;
  co_maxDelay : Z;                       (** the argument of [retry.NewRateLimiter] *)
}.

(** ** The calls *)

(** What runs beside the controller; [NeedLeaderElection] is a method of both. *)
Inductive runnable : Type :=
  | markerCollector
  | managerLifetime.

Definition NeedLeaderElection (r : runnable) : bool :=
  match r with markerCollector => true | managerLifetime => false end.

(** The calls of the operator, the log, and the manager. An error is its message. *)
Inductive setup_call : Type -> Type :=
  | Operator {R : Type} (c : call R) : setup_call R
  | Log (error : bool) (message : string) : setup_call ()
  | GetConfig : setup_call (() + string)
  | NewManager (options : manager_options) : setup_call (() + string)
  | IndexField (field : string) (extract : AuthentikApplication -> list string) : setup_call (() + string)
  | AddRunnable (r : runnable) : setup_call (() + string)
  | CompleteController (options : controller_options) : setup_call (() + string)
  | AddHealthzCheck (name : string) : setup_call (() + string)
  | AddReadyzCheck (name : string) : setup_call (() + string)
  | StartManager : setup_call (() + string).

(** The memory of the process: the marker, the gauge, and the reconciler's channels. *)
Record process : Type := mkProcess {
  p_marker : Marker;
  p_versionMismatch : versionMismatch;
  p_roleEvents : bool;
  p_managerStopped : bool;
}.

Definition set_p_marker (m : Marker) (p : process) : process :=
  mkProcess m p.(p_versionMismatch) p.(p_roleEvents) p.(p_managerStopped).
Definition set_p_versionMismatch (v : versionMismatch) (p : process) : process :=
  mkProcess p.(p_marker) v p.(p_roleEvents) p.(p_managerStopped).
Definition make_roleEvents (p : process) : process :=
  mkProcess p.(p_marker) p.(p_versionMismatch) true p.(p_managerStopped).
Definition make_managerStopped (p : process) : process :=
  mkProcess p.(p_marker) p.(p_versionMismatch) p.(p_roleEvents) true.

(** A program of the operator as a part of the start. *)
Fixpoint operator {A} (p : prog call A) : prog setup_call A :=
  match p with
  | Ret a => Ret a
  | Call c k => Call (Operator c) (fun r => operator (k r))
  | Crash => Crash
  end.

Section setup.
Context `{KubeLib} `{ModelJSON} `{ClientGo}.
Abbreviation method A := (M setup_call process A) (only parsing).

Definition of_operator {S A} (get : process -> S) (put : S -> process -> process) (m : M call S A) : method A :=
  fun p => pbind (operator (m (get p))) (fun '(s, r) => Ret (put s p, r)).

Definition managed_call (c : setup_call (() + string)) : method () := minvoke ErrorString c.

(** ** SetupWithManager *)

Definition slugIndexField : string := "spec.slug".
Definition credentialsSecretIndexField : string := "spec.provider.oauth2.credentials.secretRef.name".

Definition controllerOptions (resyncInterval : Z) : controller_options := {|
  co_Name := "authentikapplication";
  co_Watches := [
    For (Or [GenerationChangedPredicate; deletionStarted]);
    Watches sameSlugRequests conflictPredicate;
    WatchesSecretMetadata (fun '(namespace, name) => credentialsSecretRequests namespace name);
    WatchesRoleEvents];
  co_MaxConcurrentReconciles := 1;
  co_maxDelay := resyncInterval;
|}.

Definition SetupWithManager (resyncInterval : Z) (markerGC : bool) : method () :=
  mwrap ("failed to index " +:+ slugIndexField) (managed_call (IndexField slugIndexField index_slug)) ;;
  mwrap ("failed to index " +:+ credentialsSecretIndexField)
    (managed_call (IndexField credentialsSecretIndexField index_credentials_secret)) ;;
  (if markerGC
   then mwrap "failed to add the marker collector" (managed_call (AddRunnable markerCollector)) else mret ()) ;;
  mmodify make_roleEvents ;;
  mmodify make_managerStopped ;;
  mwrap "failed to add the manager lifetime signal" (managed_call (AddRunnable managerLifetime)) ;;
  managed_call (CompleteController (controllerOptions resyncInterval)).

(** ** The contacts with authentik before the start *)

Definition log_error (message : string) : method () := mcall (Log true message).
Definition log_info (message : string) : method () := mcall (Log false message).

Definition checkAuthentikVersion (info : option (list BuildModule)) : method () :=
  match SupportedVersion info with
  | Err _ => log_error "Failed to determine the supported authentik version; skipping the version check"
  | Ok supported =>
      let* r := mtry (of_operator p_versionMismatch set_p_versionMismatch (CheckVersion supported)) in
      match r with
      | Err _ => log_error "Failed to check the authentik version"
      | Ok _ => mret ()
      end
  end.

Definition ensureOwnershipRole : method () :=
  let* r := mtry (of_operator p_marker set_p_marker EnsureRole) in
  match r with
  | Err _ => log_error "Failed to ensure the ownership role"
  | Ok _ => log_info "Ensured the ownership role"
  end.

(** ** main *)

(** [setupLog.Error] and [os.Exit(1)]. *)
Definition exit_if {A} (message : string) (r : result A) : method A :=
  match r with
  | Err _ => log_error message ;; mfail (ErrorString message)
  | Ok a => mret a
  end.

Definition exit_if_error {A} (message : string) (m : method A) : method A :=
  let* r := mtry m in exit_if message r.

(** The error says that the process ended with [os.Exit(1)]; the memory at the start has no marker. *)
Definition main (f : flags) (env : environ) (info : option (list BuildModule)) : method () :=
  (if decide (f.(resync_interval) <= 0)
   then log_error "--resync-interval must be positive" ;; mfail (ErrorString "--resync-interval must be positive")
   else mret ()) ;;
  let* roleName := exit_if "Invalid ownership role configuration" (RoleName f.(cluster_name) f.(owner_role)) in
  exit_if "Failed to create the authentik client"
    (NewClient (mkConfig env.(AUTHENTIK_URL) env.(AUTHENTIK_TOKEN) f.(authentik_ca_file) f.(authentik_insecure))) ;;
  checkAuthentikVersion info ;;
  mmodify (set_p_marker (NewMarker roleName)) ;;
  ensureOwnershipRole ;;
  (if decide (0 < String.length f.(webhook_cert_path))%nat
   then log_info "Initializing webhook certificate watcher using provided certificates" else mret ()) ;;
  (if decide (0 < String.length f.(metrics_cert_path))%nat
   then log_info "Initializing metrics certificate watcher using provided certificates" else mret ()) ;;
  managed_call GetConfig ;;
  exit_if_error "Failed to start manager" (managed_call (NewManager (managerOptions f))) ;;
  exit_if_error "Failed to create controller" (SetupWithManager f.(resync_interval) f.(marker_gc)) ;;
  exit_if_error "Failed to set up health check" (managed_call (AddHealthzCheck "healthz")) ;;
  exit_if_error "Failed to set up ready check" (managed_call (AddReadyzCheck "readyz")) ;;
  log_info "Starting manager" ;;
  exit_if_error "Failed to run manager" (managed_call StartManager).
End setup.
