(* ===== verification/Status.v ===== *)
(** * The reported status

    What [setCondition], [patchStatus] and [finish] do to the resource, and the calls they make, against an API server
    that may answer anything. *)
From S2P Require Import Prelude Errors Effects Api Crd Interface Marker MarkerCache Reference State.
From S2P Require Import KubeExample FieldDiffs Provider Conflict Reconcile.

(** ** Rules *)

Definition is_event (e : logged call) : Prop :=
  match e.(log_call) with Eventf _ => True | _ => False end.

Section rules.
Context `{KubeLib} (answers : forall R, call R -> R -> Prop) (crash : Prop).
Implicit Types (s : reconcileState) (w : list (logged call)).

Lemma update_status_spec E f s w (Q : reconcileState -> result () -> list (logged call) -> Prop) :
  Q (set_app (set_status f s.(rs_app)) s) (Ok ()) w -> mwp E (update_status f) s w Q.
Proof. done. Qed.

(** The resource with the Ready condition. *)
Definition with_ready (status : bool) (reason message : string) (app : AuthentikApplication) : AuthentikApplication :=
  set_status (fun st => with_conditions (SetStatusCondition st.(Status_Conditions)
    (mkCondition ConditionTypeReady status reason message app.(App_Generation))) st) app.

Lemma setReady_spec status reason message s w Q :
  (forall l, Forall is_event l -> Q (set_app (with_ready status reason message s.(rs_app)) s) (Ok ()) (w ++ l)) ->
  mwp (log_env answers crash) (setReady status reason message) s w Q.
Proof.
  intros HQ. unfold setReady, setCondition, get_app, record_event. repeat go_step. apply update_status_spec.
  destruct (condition_changed _ _ _); simpl; repeat go_step.
  - match goal with Hs : env_step _ _ _ _ _ _ |- _ => destruct Hs as [_ ->] end.
    match goal with |- Q _ (Ok ?u) _ => destruct u end. apply HQ. by repeat constructor.
  - rewrite <- (app_nil_r w). by apply HQ.
Qed.

Lemma patchStatus_spec s w Q :
  (s.(rs_base).(App_Status) = s.(rs_app).(App_Status) -> Q s (Ok ()) w) ->
  (forall r, s.(rs_base).(App_Status) <> s.(rs_app).(App_Status) -> answers _ (KubePatchStatus s.(rs_app) s.(rs_base)) r ->
     match r with
     | inl app => Q (set_base app (set_app app s)) (Ok ()) (w ++ [mkLogged (KubePatchStatus s.(rs_app) s.(rs_base)) r])
     | inr e => Q s (Err (Wrapped "failed to update the status" (KubeAPIError e)))
                  (w ++ [mkLogged (KubePatchStatus s.(rs_app) s.(rs_base)) r])
     end) ->
  mwp (log_env answers crash) patchStatus s w Q.
Proof.
  intros Hsame HQ. unfold patchStatus. repeat go_step. case_decide as Hd; repeat go_step; [by apply Hsame|].
  match goal with Hs : env_step _ _ _ _ _ _ |- _ => destruct Hs as [Ha ->] end.
  specialize (HQ _ Hd Ha). match type of Ha with answers _ _ ?r => destruct r end; by repeat go_step.
Qed.
End rules.

(** One step of symbolic execution that also knows the assignments to the status, up to the Ready condition. *)
Ltac status_step :=
  lazymatch goal with
  | |- mwp _ (mbind (setReady _ _ _) _) _ _ _ => fail
  | |- mwp _ (update_status _) _ _ _ => apply update_status_spec
  | |- _ => go_step
  end.

(** ** The outcome of a reconcile *)

Section finish.
Context `{KubeLib} (ResyncInterval : Z).

(** What [finish] returns when the status has been written. *)
Definition outcome_result (outcome : result ()) : result Result :=
  match outcome with
  | Ok _ => Ok (Some ResyncInterval)
  | Err err => if is_stop outcome then Ok (Some ResyncInterval) else Err err
  end.

Definition outcome_errors (outcome : result ()) : list error :=
  match outcome with Ok _ => [] | Err err => [err] end.

(** The resource that [finish] reports. *)
Definition finished (outcome : result ()) (app : AuthentikApplication) : AuthentikApplication :=
  let '(status, reason, message) := ready_condition outcome in
  let observed := set_status (with_observed_generation app.(App_Generation)) app in
  let diff := if keeps_adoption_diff outcome then observed else set_status (with_adoption_diff []) observed in
  let hash := match outcome with
              | Ok _ => set_status (with_last_applied_hash (specHash app.(App_Spec))) diff
              | Err _ => diff
              end in
  with_ready status reason message hash.

Lemma ready_status outcome : (ready_condition outcome).1.1 = true <-> outcome = Ok ().
Proof.
  destruct outcome as [[]|e]; [done|]. unfold ready_condition. split; [|done].
  destruct (errors_as as_stop_error e) as [[? ?]|]; [done|]. by destruct (errors_as as_reference_error e).
Qed.

Lemma keeps_reason outcome : keeps_adoption_diff outcome = true -> (ready_condition outcome).1.2 = ReasonAdoptionDiff.
Proof.
  destruct outcome as [|e]; [done|]. unfold keeps_adoption_diff, ready_condition.
  destruct (errors_as as_stop_error e) as [[? ?]|]; [|done]. by rewrite bool_decide_eq_true.
Qed.

(** The tail of [finish], from a state whose resource has everything but the Ready condition. *)
Lemma finish_tail outcome s w :
  let '(status, reason, message) := ready_condition outcome in
  mwp any_env (
    setReady status reason message ;;
    let* patched := mtry patchStatus in
    match patched, outcome with
    | Err patchErr, Ok _ => mfail (Joined [patchErr])
    | Err patchErr, Err err => mfail (Joined [err; patchErr])
    | Ok _, Ok _ => mret (Some ResyncInterval)
    | Ok _, Err err => if is_stop outcome then mret (Some ResyncInterval) else mfail err
    end) s w (fun s' r w' =>
    let reported := with_ready status reason message s.(rs_app) in
    exists l, Forall is_event l /\
    ((s.(rs_base).(App_Status) = reported.(App_Status) /\ w' = w ++ l /\ r = outcome_result outcome) \/
     (s.(rs_base).(App_Status) <> reported.(App_Status) /\ exists answer,
        w' = w ++ l ++ [mkLogged (KubePatchStatus reported s.(rs_base)) answer] /\
        r = match answer with
            | inl _ => outcome_result outcome
            | inr e => Err (Joined (outcome_errors outcome ++
                         [Wrapped "failed to update the status" (KubeAPIError e)]))
            end))).
Proof.
  destruct (ready_condition outcome) as [[status reason] message]. go_step. apply setReady_spec. intros l Hl.
  repeat go_step. apply patchStatus_spec.
  - intros Hsame. unfold outcome_result. destruct outcome as [[]|e]; [|destruct (is_stop _)]; repeat go_step; eauto 10.
  - intros r Hne _. destruct r as [app|e]; destruct outcome as [[]|err]; simpl; try destruct (match _ with Some _ => _ | None => _ end); repeat go_step; exists l; (split; [done|]); right;
      (split; [done|]); rewrite <- app_assoc; eexists; (split; [done|]); done.
Qed.
Lemma finish_spec outcome s w :
  mwp any_env (finish ResyncInterval outcome) s w (fun s' r w' =>
    let reported := finished outcome s.(rs_app) in
    exists l, Forall is_event l /\
    ((s.(rs_base).(App_Status) = reported.(App_Status) /\ w' = w ++ l /\ r = outcome_result outcome) \/
     (s.(rs_base).(App_Status) <> reported.(App_Status) /\ exists answer,
        w' = w ++ l ++ [mkLogged (KubePatchStatus reported s.(rs_base)) answer] /\
        r = match answer with
            | inl _ => outcome_result outcome
            | inr e => Err (Joined (outcome_errors outcome ++
                         [Wrapped "failed to update the status" (KubeAPIError e)]))
            end))).
Proof.
  unfold finish, finished, get_app. repeat go_step. apply update_status_spec.
  pose proof (finish_tail outcome) as Htail. destruct (ready_condition outcome) as [[status reason] message].
  destruct (keeps_adoption_diff outcome), outcome as [[]|e]; repeat status_step;
    (eapply mwp_mono; [apply Htail|]); intros s' r w' (l & Hl & Hcase); cbn [rs_app rs_base set_app] in Hcase;
    exists l; (split; [exact Hl|]); exact Hcase.
Qed.
(** C19: The status reports the outcome. Whatever the services answer, [finish] emits events and makes at most one
    status patch, and makes it unless the status already reads as reported. The reported status has the generation
    and the Ready condition of the outcome, whose status is true exactly for success, and keeps the other conditions;
    the hash of the spec is recorded exactly on success; the adoption diff survives only an AdoptionDiff stop; the
    metadata, the spec and the recorded objects are untouched. A stop counts as a success for the work queue, and an
    error of the outcome or of the patch is never lost. *)
Theorem finish_reports `{!KubeLibLaws} outcome s w :
  mwp any_env (finish ResyncInterval outcome) s w (fun s' r w' => exists reported l,
    let before := s.(rs_app).(App_Status) in
    let after := reported.(App_Status) in
    let '(status, reason, message) := ready_condition outcome in
    reported = set_status (fun _ => after) s.(rs_app) /\
    after.(Status_ObservedGeneration) = s.(rs_app).(App_Generation) /\
    FindStatusCondition after.(Status_Conditions) ConditionTypeReady =
      Some (mkCondition ConditionTypeReady status reason message s.(rs_app).(App_Generation)) /\
    (status = true <-> outcome = Ok ()) /\
    (forall t, t <> ConditionTypeReady ->
      FindStatusCondition after.(Status_Conditions) t = FindStatusCondition before.(Status_Conditions) t) /\
    after.(Status_LastAppliedHash) =
      (if status then specHash s.(rs_app).(App_Spec) else before.(Status_LastAppliedHash)) /\
    (after.(Status_AdoptionDiff) = [] \/
     reason = ReasonAdoptionDiff /\ after.(Status_AdoptionDiff) = before.(Status_AdoptionDiff)) /\
    (after.(Status_ApplicationPK), after.(Status_ApplicationSlug), after.(Status_ProviderPK),
     after.(Status_OutpostUUID), after.(Status_BindingUUIDs), after.(Status_UnmanagedBindings)) =
    (before.(Status_ApplicationPK), before.(Status_ApplicationSlug), before.(Status_ProviderPK),
     before.(Status_OutpostUUID), before.(Status_BindingUUIDs), before.(Status_UnmanagedBindings)) /\
    Forall is_event l /\
    ((s.(rs_base).(App_Status) = after /\ w' = w ++ l /\ r = outcome_result outcome) \/
     (s.(rs_base).(App_Status) <> after /\ exists answer,
        w' = w ++ l ++ [mkLogged (KubePatchStatus reported s.(rs_base)) answer] /\
        r = match answer with
            | inl _ => outcome_result outcome
            | inr e => Err (Joined (outcome_errors outcome ++
                         [Wrapped "failed to update the status" (KubeAPIError e)]))
            end))).
Proof.
  eapply mwp_mono; [apply finish_spec|]. intros s' r w' (l & Hl & Hcase). exists (finished outcome s.(rs_app)), l.
  pose proof (ready_status outcome) as Hstatus. pose proof (keeps_reason outcome) as Hkeeps. revert Hcase Hstatus Hkeeps.
  unfold finished. destruct (ready_condition outcome) as [[status reason] message]. intros Hcase Hstatus Hkeeps.
  simpl in Hstatus, Hkeeps. split_and!; try done.
  all: destruct (keeps_adoption_diff outcome) eqn:Ek, outcome as [[]|e]; cbn; try done.
  all: try apply (find_set_same _ (mkCondition _ _ _ _ _)); try (intros t Ht; by rewrite find_set_other).
  all: try (destruct status; first [done|naive_solver]); eauto.
Qed.
End finish.

Lemma finish_reports_witness :
  let app := example_resource "a" "uid-a" 10 "pk" in
  let s := mkReconcileState app app None (newMarkerCache (mkMarker "operator" "role-1") 60 false) in
  mwp any_env (@finish list_KubeLib 3600 (Ok ())) s [] (fun s' r w' => exists reported l,
    reported.(App_Status).(Status_LastAppliedHash) = "wiki" /\ Forall is_event l /\
    exists answer, w' = l ++ [mkLogged (KubePatchStatus reported app) answer]).
Proof.
  eapply mwp_mono; [exact (@finish_reports list_KubeLib 3600 list_KubeLibLaws (Ok ()) _ _)|].
  intros s' r w' (reported & l & _ & _ & _ & _ & _ & Hhash & _ & _ & Hl & Hcase). exists reported, l.
  cbn in Hhash. split; [exact Hhash|]. split; [exact Hl|].
  destruct Hcase as [(Hsame & _)|(_ & answer & Hw & _)]; [|by exists answer].
  exfalso. rewrite <- Hsame in Hhash. cbn in Hhash. discriminate.
Defined.
