(* ===== verification/MatchSpec.v ===== *)
(** * The matching of the Bindings to the rules

    What [matchBindings] of [internal/controller/bindings.go] promises: a partial assignment of Bindings to rules by
    subject that uses a Binding at most once, leaves no rule unmatched while a Binding for it is free, and prefers
    the Bindings whose negation also matches. *)
From S2P Require Import Prelude Errors Effects Api Crd Patch Interface Marker MarkerCache Reference Desired.
From S2P Require Import State Bindings.

Section matching.
Context (bindings : list PolicyBinding).

(** The Binding may be assigned to the rule. *)
Definition suits (exactNegate : bool) (rule : Rule) (b : PolicyBinding) : Prop :=
  b ∈ bindings /\ ruleSubject rule = Some (observedSubject b) /\
  (exactNegate = true -> observed_negate b = rule.(Rule_Negate)).

Lemma assignable_spec exactNegate used rule subject b :
  ruleSubject rule = Some subject -> b ∈ bindings ->
  (assignable exactNegate used subject rule.(Rule_Negate) b = true <->
   (b.(PolicyBinding_Pk) ∉ used) /\ suits exactNegate rule b).
Proof.
  intros Hs Hb. unfold assignable, suits. rewrite Hs, negb_true_iff, !orb_false_iff, bool_decide_eq_false,
    negb_false_iff, bool_decide_eq_true, andb_false_iff, negb_false_iff, eqb_true_iff.
  destruct exactNegate; naive_solver.
Qed.

(** The UUIDs of the Bindings that a list assigns. *)
Definition assigned (matched : list (option PolicyBinding)) : list string := omap (fmap PolicyBinding_Pk) matched.

(** What one pass does to the entry of a rule, when [used'] are the UUIDs used in the end. *)
Definition entry_after (exactNegate : bool) (used' : gset string) (rule : Rule) (before after : option PolicyBinding)
    : Prop :=
  match before, after with
  | Some b, _ => after = Some b
  | None, Some b => suits exactNegate rule b
  | None, None => forall b, suits exactNegate rule b -> b.(PolicyBinding_Pk) ∈ used'
  end.

Lemma find_Some_spec {A} (f : A -> bool) l x : find f l = Some x -> x ∈ l /\ f x = true.
Proof. intros [Hi Hf]%find_some. by apply list_elem_of_In in Hi. Qed.

Lemma find_None_spec {A} (f : A -> bool) l x : find f l = None -> x ∈ l -> f x = false.
Proof. intros Hf Hx. apply (find_none f l Hf). by apply list_elem_of_In. Qed.

(** One pass over the rules. *)
Lemma assign_spec exactNegate rules matched used :
  length matched = length rules -> Forall (fun rule => is_Some (ruleSubject rule)) rules ->
  exists matched' used' fresh,
    assign exactNegate bindings rules matched used = Some (matched', used') /\
    Forall3 (entry_after exactNegate used') rules matched matched' /\
    assigned matched' ≡ₚ assigned matched ++ fresh /\ NoDup fresh /\ (forall pk, pk ∈ fresh -> pk ∉ used) /\
    used' = list_to_set fresh ∪ used.
Proof.
  revert matched used. induction rules as [|rule rules IH]; intros [|m matched] used Hl Hs; simplify_eq/=.
  { exists [], used, []. split_and!; try done; [constructor|constructor|set_solver|set_solver]. }
  apply Forall_cons in Hs as [[subject Hsub] Hs]. destruct m as [b|].
  { destruct (IH matched used Hl Hs) as (matched' & used' & fresh & -> & HF & HP & Hnd & Hf & ->). simpl.
    eexists _, _, fresh. split_and!; try done. { by constructor. } by simpl; constructor. }
  rewrite Hsub. simpl. destruct (find _ bindings) as [b|] eqn:Ef.
  - apply find_Some_spec in Ef as [Hb Ha]. apply (assignable_spec _ _ _ _ _ Hsub Hb) in Ha as [Hnu Hsuits].
    destruct (IH matched ({[b.(PolicyBinding_Pk)]} ∪ used) Hl Hs) as (matched' & used' & fresh & -> & HF & HP & Hnd & Hf & ->).
    simpl. eexists _, _, (b.(PolicyBinding_Pk) :: fresh). split_and!; try done.
    + by constructor.
    + simpl. rewrite HP. apply Permutation_middle.
    + constructor; [|done]. intros Hin. apply Hf in Hin. set_solver.
    + intros pk. rewrite elem_of_cons. intros [->|Hin]; [done|]. apply Hf in Hin. set_solver.
    + set_solver.
  - destruct (IH matched used Hl Hs) as (matched' & used' & fresh & -> & HF & HP & Hnd & Hf & ->). simpl.
    eexists _, _, fresh. split_and!; try done. constructor; [|done]. simpl. intros b Hsuits.
    pose proof (find_None_spec _ _ b Ef (proj1 Hsuits)) as Hn. rewrite <- not_true_iff_false, (assignable_spec _ _ _ _ _ Hsub (proj1 Hsuits)) in Hn.
    destruct (decide (b.(PolicyBinding_Pk) ∈ used)); [set_solver|tauto].
Qed.

Lemma assigned_elem matched pk :
  pk ∈ assigned matched <-> exists b, Some b ∈ matched /\ b.(PolicyBinding_Pk) = pk.
Proof.
  unfold assigned. rewrite list_elem_of_omap. split.
  - intros ([b|] & Hb & E); [|done]. injection E as <-. eauto.
  - intros (b & Hb & <-). by exists (Some b).
Qed.

Lemma Forall3_entries exactNegate used' rules (matched matched' : list (option PolicyBinding)) i rule :
  Forall3 (entry_after exactNegate used') rules matched matched' -> rules !! i = Some rule ->
  exists before after, matched !! i = Some before /\ matched' !! i = Some after /\
    entry_after exactNegate used' rule before after.
Proof.
  intros HF. revert i. induction HF as [|rule0 m m' rules matched matched' He HF IH]; intros i Hi; [done|].
  destruct i as [|i]; simplify_eq/=; [|by apply IH]. eauto 10.
Qed.

(** The result of [matchBindings], rule by rule. *)
Definition matched_rule (exactOnly : bool) (matched : list (option PolicyBinding)) (rule : Rule)
    (m : option PolicyBinding) : Prop :=
  match m with
  | Some b => suits exactOnly rule b
  | None => forall b, suits exactOnly rule b -> b.(PolicyBinding_Pk) ∈ assigned matched
  end.

(** A rule whose negation is not met by its Binding has no better one that another rule does not need as much. *)
Definition prefers_exact (rules : list Rule) (matched : list (option PolicyBinding)) : Prop :=
  forall i rule b, rules !! i = Some rule -> suits true rule b ->
    (exists b', matched !! i = Some (Some b') /\ suits true rule b') \/
    (exists j rule' b', rules !! j = Some rule' /\ matched !! j = Some (Some b') /\
       b'.(PolicyBinding_Pk) = b.(PolicyBinding_Pk) /\ suits true rule' b').

Lemma suits_weaken rule b : suits true rule b -> forall exactNegate, suits exactNegate rule b.
Proof. intros (H1 & H2 & H3) exactNegate. split_and!; auto. Qed.

Lemma replicate_entry i n (m : option PolicyBinding) : replicate n None !! i = Some m -> m = None.
Proof. intros Hr. by apply lookup_replicate_1 in Hr as [-> _]. Qed.

Lemma assigned_replicate n : assigned (replicate n None) = [].
Proof. by induction n. Qed.
End matching.

(** The match exists, with one entry per rule. *)
Lemma matchBindings_defined rules bindings exactOnly :
  Forall (fun rule => is_Some (ruleSubject rule)) rules ->
  exists matched, matchBindings rules bindings exactOnly = Some matched /\ length matched = length rules.
Proof.
  intros Hs. unfold matchBindings. destruct (assign_spec bindings true rules (replicate (length rules) None) ∅) as
    (m1 & u1 & f1 & -> & HF1 & _); [by rewrite length_replicate|done|]. simpl.
  destruct exactOnly; [exists m1; by rewrite (Forall3_length_lr _ _ _ _ HF1)|].
  destruct (assign_spec bindings false rules m1 u1) as (m2 & u2 & f2 & -> & HF2 & _);
    [by rewrite (Forall3_length_lr _ _ _ _ HF1)|done|]. exists m2. by rewrite (Forall3_length_lr _ _ _ _ HF2).
Qed.

(** The result of the two passes. *)
Lemma matchBindings_result rules bindings exactOnly :
  Forall (fun rule => is_Some (ruleSubject rule)) rules ->
  exists matched, matchBindings rules bindings exactOnly = Some matched /\
    Forall2 (matched_rule bindings exactOnly matched) rules matched /\
    NoDup (assigned matched) /\ prefers_exact bindings rules matched.
Proof.
  intros Hs. unfold matchBindings.
  destruct (assign_spec bindings true rules (replicate (length rules) None) ∅) as
    (m1 & u1 & f1 & -> & HF1 & HP1 & Hnd1 & _ & ->); [by rewrite length_replicate|done|].
  rewrite assigned_replicate in HP1. simpl in HP1. rewrite union_empty_r_L in *. simpl.
  assert (Hu1 : forall pk, pk ∈ (list_to_set f1 : gset string) <-> pk ∈ assigned m1).
  { intros pk. by rewrite elem_of_list_to_set, HP1. }
  assert (Hpref : forall m2, (forall i b, m1 !! i = Some (Some b) -> m2 !! i = Some (Some b)) ->
    prefers_exact bindings rules m2).
  { intros m2 Hkeep i rule b Hi Hb.
    destruct (Forall3_entries _ _ _ _ _ _ _ _ HF1 Hi) as (before & after & Hbefore & Hafter & He).
    apply replicate_entry in Hbefore as ->. destruct after as [b'|]; [left; eauto|right].
    apply He, Hu1, assigned_elem in Hb as (b' & [j Hj]%list_elem_of_lookup & Hpk).
    destruct (lookup_lt_is_Some_2 rules j) as [rule' Hrule'].
    { apply lookup_lt_Some in Hj. by rewrite (Forall3_length_lr _ _ _ _ HF1). }
    destruct (Forall3_entries _ _ _ _ _ _ _ _ HF1 Hrule') as (before & after & Hbefore & Hafter' & He').
    apply replicate_entry in Hbefore as ->. simplify_eq. eauto 10. }
  destruct exactOnly.
  { exists m1. split_and!; [done| |by rewrite HP1|by apply Hpref].
    apply Forall2_same_length_lookup_2; [apply (Forall3_length_lr _ _ _ _ HF1)|]. intros i rule m Hi Hm.
    destruct (Forall3_entries _ _ _ _ _ _ _ _ HF1 Hi) as (before & after & Hbefore & Hafter & He).
    apply replicate_entry in Hbefore as ->. simplify_eq. destruct m; simpl in *; [done|]. intros b Hb. by apply Hu1, He. }
  destruct (assign_spec bindings false rules m1 (list_to_set f1)) as
    (m2 & u2 & f2 & -> & HF2 & HP2 & Hnd2 & Hf2 & ->); [by rewrite (Forall3_length_lr _ _ _ _ HF1)|done|]. simpl.
  assert (Hu2 : forall pk, pk ∈ (list_to_set f2 ∪ list_to_set f1 : gset string) <-> pk ∈ assigned m2).
  { intros pk. rewrite HP2, HP1, elem_of_union, !elem_of_list_to_set, elem_of_app. tauto. }
  exists m2. split_and!; [done| | |].
  - apply Forall2_same_length_lookup_2; [apply (Forall3_length_lr _ _ _ _ HF2)|]. intros i rule m Hi Hm.
    destruct (Forall3_entries _ _ _ _ _ _ _ _ HF2 Hi) as (before & after & Hbefore & Hafter & He). simplify_eq.
    destruct before as [b|]; [|by destruct m; simpl in *; [|intros b Hb; apply Hu2, He]]. simpl in He. subst m.
    destruct (Forall3_entries _ _ _ _ _ _ _ _ HF1 Hi) as (before & after & Hbefore' & Hafter' & He').
    apply replicate_entry in Hbefore' as ->. simplify_eq. by apply (suits_weaken bindings).
  - rewrite HP2, HP1. apply NoDup_app. split_and!; [done| |done]. intros pk H1 H2. apply (Hf2 _ H2). by apply elem_of_list_to_set.
  - apply Hpref. intros i b Hi. destruct (lookup_lt_is_Some_2 rules i) as [rule Hrule].
    { apply lookup_lt_Some in Hi. by rewrite (Forall3_length_lr _ _ _ _ HF1). }
    destruct (Forall3_entries _ _ _ _ _ _ _ _ HF2 Hrule) as (before & after & Hbefore & Hafter & He). simplify_eq. simpl in He.
    by subst.
Qed.

(** C15: [matchBindings] is a maximal matching by subject. On resolved rules it does not panic and answers one entry
    per rule: a Binding of the list with the subject of the rule, and with its negation too when only exact matches
    are wanted; no two entries have the same UUID; a rule without an entry has no such Binding left; and a rule
    gets a Binding with another negation only if every Binding that matches exactly is used by a rule it matches
    exactly. *)
Theorem matchBindings_maximal rules bindings exactOnly :
  Forall (fun rule => is_Some (ruleSubject rule)) rules ->
  exists matched, matchBindings rules bindings exactOnly = Some matched /\
    Forall2 (matched_rule bindings exactOnly matched) rules matched /\
    NoDup (assigned matched) /\ prefers_exact bindings rules matched.
Proof. apply matchBindings_result. Qed.

(** Two rules of one group with both negations, and one Binding that matches the second rule exactly. *)
Lemma matchBindings_maximal_witness :
  let rules := [mkRule (Some "g") None None true; mkRule (Some "g") None None false] in
  let b := mkPolicyBinding "b" Unset (SetTo (Some "g")) Unset "t" (Some false) None 0 None None in
  matchBindings rules [b] false = Some [None; Some b] /\ prefers_exact [b] rules [None; Some b].
Proof.
  intros rules b. assert (Hm : matchBindings rules [b] false = Some [None; Some b]) by (vm_compute; reflexivity).
  split; [exact Hm|]. destruct (matchBindings_maximal rules [b] false) as (matched & Hm' & _ & _ & Hp).
  - repeat constructor; eexists; reflexivity.
  - rewrite Hm in Hm'. injection Hm' as <-. exact Hp.
Defined.
