(* ===== verification/Access.v ===== *)
(** * Who gets access

    [reconcileBindings] of [internal/controller/bindings.go] against the in-memory authentik: what the Bindings of an
    Application grant afterwards is what the rules of the spec say. The Kubernetes API and the clock may answer
    anything, so a status patch may fail. *)
From stdpp Require Import sorting.
From S2P Require Import Prelude Errors Effects Api Crd Patch Interface Fake Marker MarkerCache MarkerSpec.
From S2P Require Import Reference Desired Convergence BindingStore ServerInvariant Creation State KubeExample Bindings MatchSpec.

(** ** The Bindings of the server *)

(** The Binding gives the rule's subject access to the target, negated as the rule says. *)
Definition grants (target : string) (rule : Rule) (b : PolicyBinding) : Prop :=
  b.(PolicyBinding_Target) = target /\ ruleSubject rule = Some (observedSubject b) /\
  b.(PolicyBinding_Negate) = Some rule.(Rule_Negate).

(** What the rules do not manage: a Binding that was there, [before], keeps it, also a Binding that is disabled; a new
    Binding is enabled. *)
Definition unmanaged_kept (before : option PolicyBinding) (b : PolicyBinding) : Prop :=
  match before with
  | Some b0 => b.(PolicyBinding_Enabled) = b0.(PolicyBinding_Enabled) /\ b.(PolicyBinding_Order) = b0.(PolicyBinding_Order) /\
      b.(PolicyBinding_Timeout) = b0.(PolicyBinding_Timeout) /\ b.(PolicyBinding_FailureResult) = b0.(PolicyBinding_FailureResult)
  | None => b.(PolicyBinding_Enabled) = Some true
  end.

(** The Binding of the rule, in the place of the Binding [before] if there was one. *)
Definition serves (target : string) (rule : Rule) (before : option PolicyBinding) (b : PolicyBinding) : Prop :=
  grants target rule b /\ unmanaged_kept before b.

Record store_ok (c : Client) : Prop := {
  store_bindings : bindings_ok c.(fk_bindings);
  store_keyed : keyed PolicyBinding_Pk c.(fk_sequence) c.(fk_bindings);
  store_sequence : 0 <= c.(fk_sequence);
}.

(** [n] primary keys can be handed out. *)
Definition room (c : Client) (n : nat) : Prop := c.(fk_sequence) + Z.of_nat n <= max_int32.

Definition bounded (target : string) (c : Client) (maxOrder : Z) : Prop :=
  forall u b, c.(fk_bindings) !! u = Some b -> b.(PolicyBinding_Target) = target -> b.(PolicyBinding_Order) <= maxOrder.

(** What the marker operations leave alone, and the keys they hand out. *)
Definition marks_only (c c' : Client) (n : nat) : Prop :=
  same_objects c c' /\ c.(fk_sequence) <= c'.(fk_sequence) <= c.(fk_sequence) + Z.of_nat n.

Lemma same_objects_trans c1 c2 c3 : same_objects c1 c2 -> same_objects c2 c3 -> same_objects c1 c3.
Proof. unfold same_objects. intuition congruence. Qed.

Lemma marks_only_refl c n : marks_only c c n.
Proof. split; [auto with go|lia]. Qed.

Lemma marks_only_trans c1 c2 c3 m n : marks_only c1 c2 m -> marks_only c2 c3 n -> marks_only c1 c3 (m + n).
Proof. intros [H1 ?] [H2 ?]. split; [by eapply same_objects_trans|lia]. Qed.

Lemma marks_only_weaken c c' m n : (m <= n)%nat -> marks_only c c' m -> marks_only c c' n.
Proof. intros Hle [H1 ?]. split; [done|lia]. Qed.

Lemma marks_only_bindings c c' n : marks_only c c' n -> c'.(fk_bindings) = c.(fk_bindings).
Proof. by intros [(_ & _ & _ & _ & H & _) _]. Qed.

Lemma sequence_step_marks c c' :
  0 <= c.(fk_sequence) -> room c 1 -> same_objects c c' -> sequence_step c c' -> marks_only c c' 1.
Proof.
  unfold room. intros Hpos Hr Hs [Heq|Heq]; (split; [done|]); [lia|].
  rewrite int32_wrap_id in Heq by (unfold is_int32, max_int32 in *; lia). lia.
Qed.

Lemma store_ok_marks c c' n : store_ok c -> marks_only c c' n -> store_ok c'.
Proof.
  intros [H1 H2 H3] Hm. pose proof (marks_only_bindings _ _ _ Hm) as Hb. destruct Hm as [_ Hseq].
  split; rewrite ?Hb; [done| |lia]. eapply keyed_mono; [|done]. lia.
Qed.

(** The cache only depends on the roles and the object permissions. *)
Lemma cache_ok_frame mc c c' :
  c'.(fk_roles) = c.(fk_roles) -> c'.(fk_objectPermissions) = c.(fk_objectPermissions) -> cache_ok mc c -> cache_ok mc c'.
Proof.
  intros Hr Hp [H1 (r & H2) H3 H4]. split; [done| | |].
  - exists r. by rewrite Hr.
  - unfold markers_ok. by rewrite Hp.
  - intros objects Ho. unfold my_marks, marked. rewrite Hp. by apply H4.
Qed.

Lemma binding_exists c uuid :
  objectExists c ModelPolicyBinding uuid = bool_decide (is_Some (c.(fk_bindings) !! uuid)).
Proof. reflexivity. Qed.

Lemma binding_model_well_formed uuid : well_formed_model (bindingObject uuid).(Object_Model).
Proof. apply marked_models_well_formed. simpl. set_solver. Qed.

(** *** The list of the Bindings of a target *)

Lemma listed_bindings c target b :
  keyed PolicyBinding_Pk c.(fk_sequence) c.(fk_bindings) ->
  b ∈ fake_ListPolicyBindings c target <->
  c.(fk_bindings) !! b.(PolicyBinding_Pk) = Some b /\ b.(PolicyBinding_Target) = target.
Proof.
  intros Hk. unfold fake_ListPolicyBindings, findAll. rewrite (merge_sort_Permutation binding_order_le).
  rewrite list_elem_of_filter, bool_decide_eq_true, list_elem_of_fmap. split.
  - intros [Ht ([u b'] & -> & Hu%elem_of_map_to_list)]. destruct (Hk _ _ Hu) as [Hpk _]. simpl in *. by rewrite Hpk.
  - intros [Hb Ht]. split; [done|]. exists (b.(PolicyBinding_Pk), b). by rewrite elem_of_map_to_list.
Qed.

Lemma listed_bindings_NoDup c target :
  keyed PolicyBinding_Pk c.(fk_sequence) c.(fk_bindings) ->
  NoDup (PolicyBinding_Pk <$> fake_ListPolicyBindings c target).
Proof.
  intros Hk. unfold fake_ListPolicyBindings, findAll. rewrite (merge_sort_Permutation binding_order_le).
  eapply sublist_NoDup; [|apply sublist_fmap, sublist_filter].
  rewrite <- list_fmap_compose. erewrite list_fmap_ext; [apply (NoDup_fst_map_to_list c.(fk_bindings))|].
  intros i [u b] Hi. apply list_elem_of_lookup_2, elem_of_map_to_list in Hi. by destruct (Hk _ _ Hi).
Qed.

Section access.
Context `{KubeLib}.

(** ** The managed Bindings *)

(** The state of the methods that only touch the markers. *)
Definition only_markers (s s' : reconcileState) : Prop :=
  s'.(rs_app) = s.(rs_app) /\ s'.(rs_base) = s.(rs_base) /\ s'.(rs_resolved) = s.(rs_resolved).

Lemma only_markers_set mc s : only_markers s (set_markers mc s).
Proof. done. Qed.

Lemma only_markers_trans s1 s2 s3 : only_markers s1 s2 -> only_markers s2 s3 -> only_markers s1 s3.
Proof. unfold only_markers. intuition congruence. Qed.

(** The markers of existing Bindings are attached. *)
Lemma ensure_binding_spec s c uuid (Q : reconcileState -> result () -> Client -> Prop) :
  cache_ok s.(rs_markers) c -> 0 <= c.(fk_sequence) -> room c 1 -> is_Some (c.(fk_bindings) !! uuid) ->
  (forall s' c', only_markers s s' -> cache_ok s'.(rs_markers) c' -> marks_only c c' 1 -> Q s' (Ok ()) c') ->
  mwp fake_env (markers (ensure (bindingObject uuid))) s c Q.
Proof.
  intros Hok Hpos Hroom Hb HQ. unfold markers. apply mwp_zoom, cache_ensure_spec; [done|apply binding_model_well_formed| |].
  - change (objectExists c ModelPolicyBinding uuid = true). by rewrite binding_exists, bool_decide_true.
  - intros mc' c' Hok' _ Hs Hseq _. apply HQ; [done|done|by apply sequence_step_marks, assigned_sequence].
Qed.

Lemma contains_binding_spec s c o (Q : reconcileState -> result bool -> Client -> Prop) :
  cache_ok s.(rs_markers) c ->
  (forall s' b, only_markers s s' -> cache_ok s'.(rs_markers) c -> Q s' (Ok b) c) ->
  mwp fake_env (markers (contains o)) s c Q.
Proof. intros Hok HQ. unfold markers. apply mwp_zoom, cache_contains_spec; [done|]. intros mc' b Hok' _ _. by apply HQ. Qed.

(** After the Bindings [seen], which are split into managed and unmanaged ones. *)
Definition split_ok (s : reconcileState) (c : Client) (seen : list PolicyBinding)
    (acc : list PolicyBinding * list PolicyBinding * Z) (s' : reconcileState) (c' : Client) : Prop :=
  let '(managed, unmanaged, maxOrder) := acc in
  only_markers s s' /\ cache_ok s'.(rs_markers) c' /\ marks_only c c' (length seen) /\
  managed ++ unmanaged ≡ₚ seen /\ Forall (fun b => b.(PolicyBinding_Order) <= maxOrder) seen /\
  (maxOrder = 0 \/ exists b, b ∈ seen /\ b.(PolicyBinding_Order) = maxOrder) /\ 0 <= maxOrder /\
  Forall (fun b => b.(PolicyBinding_Pk) ∉ s.(rs_app).(App_Status).(Status_BindingUUIDs)) unmanaged.

(** One more Binding, which is managed or not. *)
Lemma split_ok_step s c seen managed unmanaged maxOrder s1 c1 b (mine : bool) s' c' :
  split_ok s c seen (managed, unmanaged, maxOrder) s1 c1 ->
  only_markers s1 s' -> cache_ok s'.(rs_markers) c' -> marks_only c1 c' 1 ->
  (mine = false -> b.(PolicyBinding_Pk) ∉ s.(rs_app).(App_Status).(Status_BindingUUIDs)) ->
  split_ok s c (seen ++ [b])
    (if mine then (managed ++ [b], unmanaged, Z.max maxOrder b.(PolicyBinding_Order))
     else (managed, unmanaged ++ [b], Z.max maxOrder b.(PolicyBinding_Order))) s' c'.
Proof.
  intros (H1 & _ & H3 & H4 & H5 & H6 & H7 & H8) Hs Hok Hm Hun.
  assert (Hmax : Forall (fun b' => b'.(PolicyBinding_Order) <= Z.max maxOrder b.(PolicyBinding_Order)) (seen ++ [b])).
  { apply Forall_app. split; [|constructor; [lia|done]]. eapply Forall_impl; [exact H5|]. intros x Hx. simpl in *. lia. }
  assert (Hwit : Z.max maxOrder b.(PolicyBinding_Order) = 0 \/
    exists b', b' ∈ seen ++ [b] /\ b'.(PolicyBinding_Order) = Z.max maxOrder b.(PolicyBinding_Order)).
  { destruct (Z.max_spec maxOrder b.(PolicyBinding_Order)) as [[_ ->]|[_ ->]].
    - right. exists b. split; [set_solver|done].
    - destruct H6 as [->|(b' & Hb' & <-)]; [by left|right]. exists b'. split; [set_solver|done]. }
  assert (Hmarks : marks_only c c' (length (seen ++ [b]))).
  { rewrite length_app. by eapply marks_only_trans. }
  pose proof (only_markers_trans _ _ _ H1 Hs) as Hos. unfold split_ok. destruct mine; split_and!; try done; try lia.
  - rewrite <- H4, <- !app_assoc. apply Permutation_app_head, Permutation_app_comm.
  - by rewrite app_assoc, H4.
  - apply Forall_app. split; [done|]. constructor; [by apply Hun|done].
Qed.

Lemma managedBindings_spec s c existing (Q : reconcileState -> result _ -> Client -> Prop) :
  cache_ok s.(rs_markers) c -> 0 <= c.(fk_sequence) -> room c (length existing) ->
  (forall b, b ∈ existing -> is_Some (c.(fk_bindings) !! b.(PolicyBinding_Pk))) ->
  (forall acc s' c', split_ok s c existing acc s' c' -> Q s' (Ok acc) c') ->
  mwp fake_env (managedBindings existing) s c Q.
Proof.
  intros Hok Hpos Hroom Hex HQ. eapply mwp_mono.
  - apply (mwp_fold fake_env existing ([], [], 0) _ (fun seen acc s' c' => split_ok s c seen acc s' c') (fun _ _ _ => False)).
    + unfold split_ok. split_and!; try done; [apply marks_only_refl|by left].
    + intros seen b rest [[managed unmanaged] maxOrder] s1 c1 Heq HI. pose proof HI as (H1 & H2 & H3 & _). cbv zeta.
      assert (Hb : is_Some (c1.(fk_bindings) !! b.(PolicyBinding_Pk))).
      { rewrite (marks_only_bindings _ _ _ H3). apply Hex. rewrite Heq. set_solver. }
      assert (Hroom1 : room c1 1).
      { destruct H3 as [_ Hseq]. unfold room in *. rewrite Heq, length_app in Hroom. simpl in Hroom. lia. }
      assert (Hpos1 : 0 <= c1.(fk_sequence)) by (destruct H3; lia).
      unfold get_app. repeat go_step. destruct H1 as (Happ & _). rewrite Happ. case_decide as Hrec.
      * go_step. apply ensure_binding_spec; [done|done|done|done|]. intros s' c' Hs' Hok' Hm'. go_step.
        by apply (split_ok_step _ _ _ _ _ _ _ _ b true _ _ HI Hs' Hok' Hm').
      * go_step. apply contains_binding_spec; [done|]. intros s' mine Hs' Hok'. destruct mine; go_step.
        -- by apply (split_ok_step _ _ _ _ _ _ _ _ b true _ _ HI Hs' Hok' (marks_only_refl _ _)).
        -- by apply (split_ok_step _ _ _ _ _ _ _ _ b false _ _ HI Hs' Hok' (marks_only_refl _ _)).
  - intros s' [acc|e] c' HI; [|done]. by apply HQ.
Qed.

(** ** Adoption *)

Lemma adopt_bindings_spec matched adopted s c (Q : reconcileState -> result _ -> Client -> Prop) :
  length matched = length adopted -> cache_ok s.(rs_markers) c -> 0 <= c.(fk_sequence) -> room c (length matched) ->
  (forall b, Some b ∈ adopted -> is_Some (c.(fk_bindings) !! b.(PolicyBinding_Pk))) ->
  (forall s' c', only_markers s s' -> cache_ok s'.(rs_markers) c' -> marks_only c c' (length matched) ->
     Q s' (Ok (zip_with or_else matched adopted)) c') ->
  mwp fake_env (adopt_bindings matched adopted) s c Q.
Proof.
  revert adopted s c Q. induction matched as [|m matched IH]; intros [|a adopted] s c Q Hl Hok Hpos Hroom Hb HQ;
    simplify_eq/=.
  { go_step. apply HQ; [done|done|apply marks_only_refl]. }
  unfold room in *. simpl length in *. destruct m as [m|]; [|destruct a as [a|]]; simpl.
  - go_step. apply IH; [done|done|done|unfold room; lia|set_solver|]. intros s' c' Hs' Hok' Hm'. go_step.
    apply HQ; [done|done|]. eapply marks_only_weaken; [|done]. lia.
  - go_step. apply ensure_binding_spec; [done|done|unfold room; lia|set_solver|]. intros s1 c1 Hs1 Hok1 Hm1. go_step.
    pose proof (marks_only_bindings _ _ _ Hm1) as Hb1.
    apply IH; [done|done| | |rewrite Hb1; set_solver|]; [destruct Hm1; lia|unfold room; destruct Hm1; lia|].
    intros s' c' Hs' Hok' Hm'. go_step. apply HQ; [by eapply only_markers_trans|done|]. by eapply (marks_only_trans _ _ _ 1).
  - go_step. apply IH; [done|done|done|unfold room; lia|set_solver|]. intros s' c' Hs' Hok' Hm'. go_step.
    apply HQ; [done|done|]. eapply marks_only_weaken; [|done]. lia.
Qed.

(** ** The Bindings of the rules *)

(** Only the Bindings change. *)
Lemma cache_ok_set_bindings mc c m : cache_ok mc c -> cache_ok mc (set_bindings m c).
Proof. by apply cache_ok_frame. Qed.

Lemma store_ok_insert c uuid b :
  store_ok c -> is_Some (c.(fk_bindings) !! uuid) -> b.(PolicyBinding_Pk) = uuid ->
  bindings_ok (<[uuid := b]> c.(fk_bindings)) -> store_ok (set_bindings (<[uuid := b]> c.(fk_bindings)) c).
Proof.
  intros [H1 H2 H3] [b' Hb] Hpk Hok. split; [done| |done]. destruct (H2 _ _ Hb). by apply keyed_insert.
Qed.

(** The errors of a status patch. *)
Definition status_failed (e : error) : Prop :=
  exists k, e = Wrapped "failed to update the status" (KubeAPIError k).

Lemma patchStatus_against_fake s c (Q : reconcileState -> result () -> Client -> Prop) :
  (forall s', s'.(rs_markers) = s.(rs_markers) -> s'.(rs_resolved) = s.(rs_resolved) -> Q s' (Ok ()) c) ->
  (forall e, status_failed e -> Q s (Err e) c) ->
  mwp fake_env patchStatus s c Q.
Proof.
  intros Hok Herr. unfold patchStatus. repeat fake_step. case_decide; [go_step; by apply Hok|].
  unfold kubecall. repeat fake_step. destruct r as [app|k]; repeat go_step; [by apply Hok|]. apply Herr. by exists k.
Qed.

(** The state of the loop over the rules after the items [seen], whose Bindings are [kept]. *)
Record synced (target : string) (c0 c : Client) (max0 : Z) (seen : list (Rule * option PolicyBinding))
    (kept : list string) (maxOrder : Z) : Prop := {
  synced_store : store_ok c;
  synced_sequence : c.(fk_sequence) <= c0.(fk_sequence) + Z.of_nat (2 * length seen);
  synced_grants : Forall2 (fun item u =>
    (exists b, c.(fk_bindings) !! u = Some b /\ serves target item.1 item.2 b) /\
    match item.2 with Some b => u = b.(PolicyBinding_Pk) | None => c0.(fk_bindings) !! u = None end) seen kept;
  synced_once : NoDup kept;
  synced_others u : u ∉ kept -> c.(fk_bindings) !! u = c0.(fk_bindings) !! u;
  synced_bounded : bounded target c maxOrder;
  synced_order : 0 <= maxOrder <= max0 + orderStep * Z.of_nat (length seen);
}.

Lemma grants_mono target (m m' : gmap string PolicyBinding) c0 seen kept uuid :
  uuid ∉ kept -> (forall u, u <> uuid -> m' !! u = m !! u) ->
  Forall2 (fun (item : Rule * option PolicyBinding) u =>
    (exists b, m !! u = Some b /\ serves target item.1 item.2 b) /\
    match item.2 with Some b => u = b.(PolicyBinding_Pk) | None => c0.(fk_bindings) !! u = None end) seen kept ->
  Forall2 (fun (item : Rule * option PolicyBinding) u =>
    (exists b, m' !! u = Some b /\ serves target item.1 item.2 b) /\
    match item.2 with Some b => u = b.(PolicyBinding_Pk) | None => c0.(fk_bindings) !! u = None end) seen kept.
Proof.
  intros Hn Hm HF. induction HF as [|item u seen kept [(b & Hb & Hg) Hi] HF IH]; constructor; [|apply IH; set_solver].
  split; [|done]. exists b. rewrite Hm by set_solver. done.
Qed.

(** One more Binding is kept. *)
Lemma synced_step target c0 c c' max0 seen kept maxOrder maxOrder' item uuid b :
  synced target c0 c max0 seen kept maxOrder -> store_ok c' -> c'.(fk_sequence) <= c.(fk_sequence) + 2 ->
  uuid ∉ kept -> c'.(fk_bindings) !! uuid = Some b -> serves target item.1 item.2 b ->
  match item.2 with Some b => uuid = b.(PolicyBinding_Pk) | None => c0.(fk_bindings) !! uuid = None end ->
  (forall u, u <> uuid -> c'.(fk_bindings) !! u = c.(fk_bindings) !! u) ->
  maxOrder <= maxOrder' <= maxOrder + orderStep -> b.(PolicyBinding_Order) <= maxOrder' ->
  synced target c0 c' max0 (seen ++ [item]) (kept ++ [uuid]) maxOrder'.
Proof.
  intros [H1 H2 H3 H4 H5 H6 H7] Hs Hseq Hn Hb Hg Hi Hsame Hmax Hord. split; [done| | | | | |].
  - rewrite length_app. simpl. lia.
  - apply Forall2_app; [by eapply grants_mono|]. constructor; [eauto|done].
  - apply NoDup_app. split_and!; [done|set_solver|apply NoDup_singleton].
  - intros u Hu. rewrite Hsame by set_solver. apply H5. set_solver.
  - intros u b' Hu Ht. destruct (decide (u = uuid)) as [->|Hne]; [by simplify_eq|].
    rewrite Hsame in Hu by done. etrans; [by eapply H6|lia].
  - rewrite length_app. unfold orderStep in *. simpl. lia.
Qed.

(** A rule with a Binding. *)
Lemma sync_matched target c0 c max0 seen kept maxOrder rule b s (Q : reconcileState -> result _ -> Client -> Prop) :
  synced target c0 c max0 seen kept maxOrder -> cache_ok s.(rs_markers) c -> rule_ok rule ->
  c0.(fk_bindings) !! b.(PolicyBinding_Pk) = Some b -> b.(PolicyBinding_Target) = target ->
  ruleSubject rule = Some (observedSubject b) -> b.(PolicyBinding_Pk) ∉ kept ->
  (forall c', cache_ok s.(rs_markers) c' ->
     synced target c0 c' max0 (seen ++ [(rule, Some b)]) (kept ++ [b.(PolicyBinding_Pk)]) maxOrder ->
     Q s (Ok (kept ++ [b.(PolicyBinding_Pk)], maxOrder)) c') ->
  mwp fake_env (sync_rule target (kept, maxOrder) (rule, Some b)) s c Q.
Proof.
  intros HI Hok (sub & Hsub & Hne) Hb Ht Hm Hn HQ. pose proof (synced_others _ _ _ _ _ _ _ HI _ Hn) as Hc. rewrite Hb in Hc.
  pose proof (synced_store _ _ _ _ _ _ _ HI) as Hstore. pose proof (store_bindings _ Hstore) as Hbs.
  pose proof (synced_bounded _ _ _ _ _ _ _ HI _ _ Hc Ht) as Hord. rewrite Hsub in Hm. injection Hm as ->.
  unfold sync_rule, syncBinding. go_step. destruct (DiffPolicyBinding (desiredBinding target rule) b) as [p|] eqn:Hd.
  - rewrite <- Ht in Hd. destruct (patch_matched_binding c _ rule b _ p Hbs Hc Hsub Hne eq_refl Hd) as (Hp & Hrep & _ & Hok').
    repeat fake_step. rewrite Hp. repeat go_step.
    destruct Hrep as (Hsubj & _ & _ & Hpk & Htarget & Horder & Hen & Hto & Hfr & Hneg).
    apply HQ; [by apply cache_ok_set_bindings|]. eapply synced_step; [exact HI| | |exact Hn| | |done| | |].
    + apply store_ok_insert; [done|eauto|done|done].
    + simpl. lia.
    + simpl. by rewrite lookup_insert_eq.
    + split; [split_and!; [congruence|by rewrite Hsubj|done]|done].
    + intros u Hu. simpl. by rewrite lookup_insert_ne.
    + unfold orderStep. lia.
    + by rewrite Horder.
  - repeat go_step. apply HQ; [done|]. eapply synced_step; [exact HI|done|lia|exact Hn|exact Hc| |done|done| |done].
    + apply DiffPolicyBinding_None in Hd as (_ & _ & _ & _ & Hneg & _).
      split; [|done]. split_and!; [done|done|]. apply Hneg. by destruct rule as [[] [] ? ?].
    + unfold orderStep. lia.
Qed.

(** A Binding that is created after the last order is accepted and gets a key that was not used. *)
Lemma create_binding_accepted target c rule maxOrder order :
  store_ok c -> room c 1 -> rule_ok rule -> bounded target c maxOrder -> maxOrder < order ->
  exists r b, createBindingRequest (desiredBinding target rule) order = Some r /\
    let uuid := uuid_of (c.(fk_sequence) + 1) in
    let c' := set_bindings (<[uuid := b]> c.(fk_bindings)) (set_sequence (c.(fk_sequence) + 1) c) in
    fake_CreatePolicyBinding c r = (c', inl b) /\ c.(fk_bindings) !! uuid = None /\ b.(PolicyBinding_Pk) = uuid /\
    serves target rule None b /\ b.(PolicyBinding_Order) = order /\ store_ok c'.
Proof.
  intros Hstore Hroom Hrule Hb Ho. destruct (desired_one_subject target rule Hrule) as [Hcount Hsub].
  assert (Ht : (desiredBinding target rule).(PatchedBinding_Target) = Some target) by by destruct rule as [[] [] ? ?].
  assert (Hn : (desiredBinding target rule).(PatchedBinding_Negate) = Some rule.(Rule_Negate)) by by destruct rule as [[] [] ? ?].
  pose proof (store_sequence _ Hstore) as Hpos. pose proof (store_keyed _ Hstore) as Hkeyed.
  assert (Hfree : c.(fk_bindings) !! uuid_of (c.(fk_sequence) + 1) = None).
  { apply eq_None_not_Some. intros [b' Hb']. apply Hkeyed in Hb' as [_ Hal]. by eapply uuid_allocated_fresh. }
  destruct (createBindingRequest (desiredBinding target rule) order) as [r|] eqn:Hr.
  2: { unfold createBindingRequest in Hr. by rewrite Ht in Hr. }
  destruct (fake_CreatePolicyBinding c r) as [c' [b|e]] eqn:Hc.
  - exists r, b. split; [done|]. cbv zeta.
    pose proof (binding_roundtrip _ _ _ _ _ _ _ Hr Hc) as (_ & _ & Htb & Hob & Henb & Hnb).
    pose proof (create_binding_ok c r (store_bindings _ Hstore)) as Hok'. rewrite Hc in Hok'. simpl in Hok'.
    revert Hc. unfold fake_CreatePolicyBinding. destruct (checkBindingSubject _ _ _ _); [done|].
    destruct (bindingOrderTaken _ _ _ _ _); [done|].
    rewrite nextUUID_step by (unfold room in Hroom; lia). intros [= <- <-].
    unfold createBindingRequest in Hr. rewrite Ht in Hr. injection Hr as <-. split_and!; try done.
    + split; [split_and!; [done|by apply Hsub|done]|exact Henb].
    + split; simpl; [done| |lia]. apply keyed_insert; [|done|by apply next_uuid_allocated].
      eapply keyed_mono; [|done]. lia.
  - exfalso. unfold createBindingRequest in Hr. rewrite Ht in Hr. injection Hr as <-. revert Hc.
    unfold fake_CreatePolicyBinding. cbn -[desiredBinding checkBindingSubject bindingOrderTaken nextUUID].
    rewrite (proj2 (checkBindingSubject_None _ _ _ _) Hcount).
    assert (bindingOrderTaken c (PatchedBinding_Policy (desiredBinding target rule)) target order "" = false) as ->.
    { set (b0 := mkPolicyBinding "" (PatchedBinding_Policy (desiredBinding target rule)) Unset Unset target None None order None None).
      apply (bindingOrderTaken_false c b0 ""). intros u b' key Hu Hk Hk'. exfalso.
      unfold order_key in Hk, Hk'. apply bind_Some in Hk as (p & _ & [= <-]), Hk' as (p' & _ & [= _ Htarget Horder]).
      pose proof (Hb _ _ Hu Htarget). simpl in *. lia. }
    by destruct (nextUUID c) as [c1 pk].
Qed.

(** A rule without a Binding. *)
Lemma sync_created target c0 c max0 seen kept maxOrder rule s (Q : reconcileState -> result _ -> Client -> Prop) :
  synced target c0 c max0 seen kept maxOrder -> cache_ok s.(rs_markers) c -> rule_ok rule -> room c 2 ->
  maxOrder + orderStep <= max_int32 -> (forall u, u ∈ kept -> is_Some (c.(fk_bindings) !! u)) ->
  (forall s' c' uuid maxOrder', s'.(rs_resolved) = s.(rs_resolved) -> cache_ok s'.(rs_markers) c' ->
     synced target c0 c' max0 (seen ++ [(rule, None)]) (kept ++ [uuid]) maxOrder' ->
     Q s' (Ok (kept ++ [uuid], maxOrder')) c') ->
  (forall s' c' e, status_failed e -> Q s' (Err e) c') ->
  mwp fake_env (sync_rule target (kept, maxOrder) (rule, None)) s c Q.
Proof.
  intros HI Hok Hrule Hroom Hmax Hkept HQ Herr. pose proof (synced_store _ _ _ _ _ _ _ HI) as Hstore.
  pose proof (synced_order _ _ _ _ _ _ _ HI) as Hord.
  unfold sync_rule. rewrite int32_wrap_id by (unfold is_int32, max_int32, orderStep in *; lia).
  destruct (create_binding_accepted target c rule maxOrder (maxOrder + orderStep)) as
    (r & b & Hr & Hc & Hfree & Hpk & Hg & Hob & Hs'); [done|unfold room in *; lia|done|apply HI|unfold orderStep; lia|].
  rewrite Hr. go_step. apply mwp_deref. eexists. split; [done|]. repeat fake_step. rewrite Hc. cbn [fst snd].
  unfold update_status. repeat go_step.
  set (c1 := set_bindings _ _) in *.
  assert (Hbs : forall u, u <> uuid_of (c.(fk_sequence) + 1) -> c1.(fk_bindings) !! u = c.(fk_bindings) !! u).
  { intros u Hu. unfold c1. simpl. by rewrite lookup_insert_ne. }
  assert (Hnew : c1.(fk_bindings) !! uuid_of (c.(fk_sequence) + 1) = Some b) by (unfold c1; simpl; by rewrite lookup_insert_eq).
  assert (Hnk : uuid_of (c.(fk_sequence) + 1) ∉ kept).
  { intros Hin. apply Hkept in Hin. rewrite Hfree in Hin. by destruct Hin. }
  apply patchStatus_against_fake; [|by intros e He; apply Herr]. intros s2 Hm2 Hr2. go_step. rewrite Hpk.
  pose proof (store_sequence _ Hstore) as Hpos.
  apply ensure_binding_spec; [by rewrite Hm2; apply (cache_ok_frame _ c)|simpl; lia|unfold room in *; simpl; lia|eauto|].
  intros s3 c3 Hs3 Hok3 Hm3. go_step. pose proof (marks_only_bindings _ _ _ Hm3) as Hb3.
  apply HQ; [destruct Hs3 as (_ & _ & ->); done|done|].
  eapply synced_step; [exact HI|by eapply store_ok_marks| |exact Hnk|rewrite Hb3; exact Hnew|exact Hg| | | |].
  - destruct Hm3 as [_ Hseq]. simpl in Hseq. lia.
  - simpl. rewrite <- (synced_others _ _ _ _ _ _ _ HI) by done. done.
  - intros u Hu. rewrite Hb3. by apply Hbs.
  - unfold orderStep. lia.
  - by rewrite Hob.
Qed.

(** The Bindings of the items are Bindings of the target with the subject of their rule, each used once. *)
Record items_ok (target : string) (c : Client) (items : list (Rule * option PolicyBinding)) : Prop := {
  items_rules : Forall (fun item => rule_ok item.1) items;
  items_bindings rule b : (rule, Some b) ∈ items ->
    c.(fk_bindings) !! b.(PolicyBinding_Pk) = Some b /\ b.(PolicyBinding_Target) = target /\
    ruleSubject rule = Some (observedSubject b);
  items_once : NoDup (assigned items.*2);
}.

Lemma kept_elem target (m : gmap string PolicyBinding) (c0 : Client) seen kept u :
  Forall2 (fun (item : Rule * option PolicyBinding) u =>
    (exists b, m !! u = Some b /\ serves target item.1 item.2 b) /\
    match item.2 with Some b => u = b.(PolicyBinding_Pk) | None => c0.(fk_bindings) !! u = None end) seen kept ->
  u ∈ kept ->
  (exists b, m !! u = Some b /\ b.(PolicyBinding_Target) = target) /\
  (u ∈ assigned seen.*2 \/ c0.(fk_bindings) !! u = None).
Proof.
  intros HF Hu. apply list_elem_of_lookup in Hu as [i Hi]. destruct (Forall2_lookup_r _ _ _ _ _ HF Hi) as
    ([rule m'] & Hi' & (b & Hb & (Ht & _) & _) & Hm). split; [eauto|]. destruct m' as [b'|]; [left|by right]. simpl in Hm. subst u.
  apply assigned_elem. exists b'. split; [|done]. apply list_elem_of_fmap. exists (rule, Some b'). split; [done|].
  by eapply list_elem_of_lookup_2.
Qed.

Lemma assigned_app l k : assigned (l ++ k) = assigned l ++ assigned k.
Proof. apply omap_app. Qed.

Lemma sync_rules_spec target c0 items max0 s (Q : reconcileState -> result _ -> Client -> Prop) :
  items_ok target c0 items -> store_ok c0 -> cache_ok s.(rs_markers) c0 -> bounded target c0 max0 -> 0 <= max0 ->
  max0 + orderStep * Z.of_nat (length items) <= max_int32 -> room c0 (2 * length items) ->
  (forall s' c' kept maxOrder, s'.(rs_resolved) = s.(rs_resolved) -> cache_ok s'.(rs_markers) c' ->
     synced target c0 c' max0 items kept maxOrder -> Q s' (Ok (kept, maxOrder)) c') ->
  (forall s' c' e, status_failed e -> Q s' (Err e) c') ->
  mwp fake_env (mfold items ([], max0) (sync_rule target)) s c0 Q.
Proof.
  intros [Hrules Hbind Honce] Hstore Hcache Hbounded Hmax Hlimit Hroom HQ Herr. eapply mwp_mono.
  - apply (mwp_fold fake_env items ([], max0) (sync_rule target)
      (fun seen acc s' c' => s'.(rs_resolved) = s.(rs_resolved) /\ cache_ok s'.(rs_markers) c' /\
         synced target c0 c' max0 seen acc.1 acc.2) (fun s' e c' => status_failed e)).
    + split_and!; [done|done|]. split; simpl; try done; [lia|constructor|lia].
    + intros seen [rule m] rest [kept maxOrder] s1 c1 Heq (Hres & Hok & HI). simpl in HI.
      assert (Hrule : rule_ok rule).
      { rewrite Heq, Forall_app in Hrules. by destruct Hrules as [_ [? _]%Forall_cons_1]. }
      assert (Hlen : (S (length seen) <= length items)%nat) by (rewrite Heq, length_app; simpl; lia).
      destruct m as [b|].
      * destruct (Hbind rule b) as (Hb & Ht & Hsub); [rewrite Heq; set_solver|].
        assert (Hn : b.(PolicyBinding_Pk) ∉ kept).
        { intros Hin. destruct (kept_elem _ _ _ _ _ _ (synced_grants _ _ _ _ _ _ _ HI) Hin) as [_ [Ha|Ha]]; [|congruence].
          rewrite Heq, fmap_app, assigned_app in Honce. apply NoDup_app in Honce as (_ & Hd & _).
          apply (Hd _ Ha). simpl. by left. }
        eapply sync_matched; [exact HI|done|done|done|done|done|done|]. intros c' Hok' HI'. split_and!; done.
      * pose proof (synced_order _ _ _ _ _ _ _ HI) as Hord. pose proof (synced_sequence _ _ _ _ _ _ _ HI) as Hseq.
        eapply sync_created; [exact HI|done|done| | | | |done].
        -- unfold room in *. lia.
        -- unfold orderStep in *. lia.
        -- intros u Hu. destruct (kept_elem _ _ _ _ _ _ (synced_grants _ _ _ _ _ _ _ HI) Hu) as [(b & Hb & _) _]. by exists b.
        -- intros s' c' uuid maxOrder' Hr' Hok' HI'. split_and!; [congruence|done|done].
  - intros s' [[kept maxOrder]|e] c' HI; [|by apply Herr]. destruct HI as (? & ? & ?). by eapply HQ.
Qed.

(** ** Deletions *)

(** The Bindings [gone] were deleted. *)
Definition deleted (c c' : Client) (gone : list string) : Prop :=
  c'.(fk_sequence) = c.(fk_sequence) /\
  forall u, c'.(fk_bindings) !! u = if decide (u ∈ gone) then None else c.(fk_bindings) !! u.

Lemma deleted_nil c : deleted c c [].
Proof. split; [done|]. intros u. rewrite decide_False; [done|]. apply not_elem_of_nil. Qed.

Lemma deleted_snoc c c1 c2 gone u :
  deleted c c1 gone -> c2.(fk_sequence) = c1.(fk_sequence) ->
  (forall v, c2.(fk_bindings) !! v = if decide (v = u) then None else c1.(fk_bindings) !! v) -> deleted c c2 (gone ++ [u]).
Proof.
  intros [Hs Hb] Hs' Hb'. split; [congruence|]. intros v. rewrite Hb', Hb. repeat case_decide; set_solver.
Qed.

(** Deleting a Binding succeeds whether or not it exists. *)
Lemma delete_binding_spec s c uuid (Q : reconcileState -> result () -> Client -> Prop) :
  cache_ok s.(rs_markers) c ->
  (forall c', cache_ok s.(rs_markers) c' -> c'.(fk_sequence) = c.(fk_sequence) ->
     (forall v, c'.(fk_bindings) !! v = if decide (v = uuid) then None else c.(fk_bindings) !! v) -> Q s (Ok ()) c') ->
  mwp fake_env (ignoreNotFound (akcall (DeletePolicyBinding uuid))) s c Q.
Proof.
  intros Hok HQ. unfold ignoreNotFound. repeat fake_step. unfold fake_DeletePolicyBinding.
  destruct (c.(fk_bindings) !! uuid) as [b|] eqn:Hb; cbn [fst snd]; repeat go_step.
  - apply HQ; [by apply cache_ok_set_bindings|done|]. intros v. simpl. case_decide; subst; [apply lookup_delete_eq|by rewrite lookup_delete_ne].
  - change (is_not_found _) with true. cbv iota. go_step. apply HQ; [done|done|]. intros v. case_decide; by subst.
Qed.

Lemma delete_obsolete_spec s c kept managed (Q : reconcileState -> result () -> Client -> Prop) :
  cache_ok s.(rs_markers) c ->
  (forall s' c', only_markers s s' -> cache_ok s'.(rs_markers) c' ->
     deleted c c' (filter (.∉ kept) (PolicyBinding_Pk <$> managed)) -> Q s' (Ok ()) c') ->
  mwp fake_env (delete_obsolete kept managed) s c Q.
Proof.
  intros Hok HQ. unfold delete_obsolete. eapply mwp_mono.
  - apply (mwp_for_seen fake_env managed _ (fun seen s' c' => only_markers s s' /\ cache_ok s'.(rs_markers) c' /\
      deleted c c' (filter (.∉ kept) (PolicyBinding_Pk <$> seen))) (fun _ _ _ => False)).
    + split_and!; [done|done|apply deleted_nil].
    + intros seen b rest s1 c1 _ (Hs & Hc & Hd). rewrite fmap_app, filter_app. simpl.
      case_decide as Hk.
      * go_step. rewrite filter_cons_False by tauto. by rewrite app_nil_r.
      * rewrite filter_cons_True by done. unfold deleteBinding. go_step. apply delete_binding_spec; [done|].
        intros c2 Hc2 Hs2 Hb2. unfold markers. apply mwp_zoom, cache_remove_spec; [done|].
        intros mc' c' Hc' _ Hso Hsq _ _. split_and!; [done|done|]. eapply deleted_snoc; [exact Hd|congruence|].
        intros v. destruct Hso as (_ & _ & _ & _ & -> & _). apply Hb2.
  - intros s' [[]|e] c' HI; [|done]. destruct HI as (? & ? & ?). by apply HQ.
Qed.

(** ** Unmanaged Bindings *)

Lemma describe_as_spec {T} kind id (call : call (ak T)) name s c (answer : ak T) (Q : reconcileState -> result string -> Client -> Prop) :
  fake_handle _ call c = Some (c, answer) ->
  match answer with inl _ => True | inr e => is_not_found (ClientError e) = true end ->
  (forall target, Q s (Ok target) c) -> mwp fake_env (describe_as kind id (akcall call) name) s c Q.
Proof.
  intros Hc Ha HQ. unfold describe_as. repeat go_step.
  match goal with H : env_step _ _ _ _ _ _ |- _ => cbn [fake_env env_step] in H; rewrite Hc in H; destruct H as [-> ->] end.
  cbn [fst snd]. destruct answer as [a|e]; repeat go_step; [by apply HQ|]. rewrite Ha. go_step. by apply HQ.
Qed.

Lemma describeSubject_spec b s c (Q : reconcileState -> result string -> Client -> Prop) :
  (forall target, Q s (Ok target) c) -> mwp fake_env (describeSubject b) s c Q.
Proof.
  intros HQ. unfold describeSubject. cbv zeta.
  repeat case_decide; (eapply describe_as_spec; [reflexivity| |done]); unfold get_or_404; by destruct (_ !! _).
Qed.

(** The options of the spec that decide what happens to the unmanaged Bindings. *)
Definition prunes (s : reconcileState) : bool := default false s.(rs_app).(App_Spec).(Spec_Access).(Access_Prune).
Definition is_public (s : reconcileState) : bool := default false s.(rs_app).(App_Spec).(Spec_Access).(Access_Public).

(** The UUIDs of the unmanaged Bindings that the status reports. *)
Definition reported_unmanaged (s : reconcileState) : list string :=
  UnmanagedBinding_UUID <$> s.(rs_app).(App_Status).(Status_UnmanagedBindings).

Definition unmanaged_stop (e : error) : Prop := exists message, e = StopError ReasonUnmanagedBindings message.

Lemma setCondition_spec E ct status reason message (s : reconcileState) (w : Client) (Q : reconcileState -> result () -> Client -> Prop) :
  (forall R (q : call R) w, env_ok E R q w) ->
  (forall w r w', env_step E _ (Eventf (mkEvent (negb (bool_decide (ct = ConditionTypeReady) && status)) reason message)) w r w' -> w' = w) ->
  (forall cs, Q (set_app (set_status (with_conditions cs) s.(rs_app)) s) (Ok ()) w) ->
  mwp E (setCondition ct status reason message) s w Q.
Proof.
  intros Hok Hev HQ. unfold setCondition, get_app, update_status, record_event. repeat go_step.
  destruct (condition_changed _ _ _); simpl; repeat go_step; [|by apply HQ].
  match goal with H : env_step _ _ _ _ _ _ |- _ => apply Hev in H as -> end.
  destruct r. apply HQ.
Qed.

Lemma handleUnmanagedBindings_spec s c unmanaged (Q : reconcileState -> result () -> Client -> Prop) :
  cache_ok s.(rs_markers) c ->
  (forall s' c', prunes s' = prunes s -> is_public s' = is_public s -> s'.(rs_markers) = s.(rs_markers) ->
     cache_ok s'.(rs_markers) c' -> deleted c c' (if prunes s then PolicyBinding_Pk <$> unmanaged else []) ->
     reported_unmanaged s' = (if prunes s then [] else PolicyBinding_Pk <$> unmanaged) ->
     (is_public s = true -> reported_unmanaged s' = []) -> Q s' (Ok ()) c') ->
  (forall s' c' e, unmanaged_stop e -> Q s' (Err e) c') ->
  mwp fake_env (handleUnmanagedBindings unmanaged) s c Q.
Proof.
  intros Hok HQ Herr. unfold handleUnmanagedBindings, get_app. repeat go_step. fold (prunes s) (is_public s).
  eapply mwp_mono with (Q := fun s' r c' => r = Ok () /\ s' = s /\ cache_ok s.(rs_markers) c' /\
    deleted c c' (if prunes s then PolicyBinding_Pk <$> unmanaged else [])).
  { destruct (prunes s); [|go_step; split_and!; [done|done|done|apply deleted_nil]]. eapply mwp_mono.
    - apply (mwp_for_seen fake_env unmanaged _ (fun seen s' c' => s' = s /\ cache_ok s.(rs_markers) c' /\
        deleted c c' (PolicyBinding_Pk <$> seen)) (fun _ _ _ => False)); [split_and!; [done|done|apply deleted_nil]|].
      intros seen b rest s1 c1 _ (-> & Hc & Hd). apply delete_binding_spec; [done|]. intros c2 Hc2 Hs2 Hb2.
      split_and!; [done|done|]. rewrite fmap_app. by eapply deleted_snoc.
    - intros s' [[]|e] c' HI; [|done]. destruct HI as (-> & ? & ?). by split_and!. }
  intros s1 r c1 (-> & -> & Hc1 & Hd1). cbv iota. go_step. eapply mwp_mono.
  { apply (mwp_fold fake_env (if prunes s then [] else unmanaged) [] _ (fun seen reported s' c' =>
      s' = s /\ c' = c1 /\ UnmanagedBinding_UUID <$> reported = PolicyBinding_Pk <$> seen) (fun _ _ _ => False)); [done|].
    intros seen b rest reported s1 c2 _ (-> & -> & Hr). go_step. apply describeSubject_spec. intros target. go_step.
    split_and!; [done|done|]. by rewrite !fmap_app, Hr. }
  intros s1 [reported|e] c2 HI; [|done]. destruct HI as (-> & -> & Hr). unfold update_status. repeat go_step.
  assert (Hrep : UnmanagedBinding_UUID <$> reported = if prunes s then [] else PolicyBinding_Pk <$> unmanaged).
  { rewrite Hr. by destruct (prunes s). }
  destruct reported as [|u reported]; [repeat go_step; by apply HQ|].
  destruct (is_public s) eqn:Hpub.
  - repeat go_step. apply Herr. by eexists.
  - apply setCondition_spec; [done|by intros ? ? ? ?|]. intros cs. by apply HQ.
Qed.

(** ** The whole method *)

(** The Bindings that the two matchings assign. *)
Lemma merged_elem (rules : list Rule) (m1 m2 : list (option PolicyBinding)) managed unmanaged rule b :
  Forall2 (matched_rule managed false m1) rules m1 -> Forall2 (matched_rule unmanaged true m2) rules m2 ->
  (rule, Some b) ∈ zip rules (zip_with or_else m1 m2) ->
  ruleSubject rule = Some (observedSubject b) /\
  (b ∈ managed /\ b.(PolicyBinding_Pk) ∈ assigned m1 \/ b ∈ unmanaged /\ b.(PolicyBinding_Pk) ∈ assigned m2).
Proof.
  intros H1 H2 (i & Hi)%list_elem_of_lookup. apply lookup_zip_with_Some in Hi as (r & o & [= <- <-] & Hr & Ho).
  apply lookup_zip_with_Some in Ho as (x & y & Ho & Hx & Hy).
  pose proof (Forall2_lookup_lr _ _ _ _ _ _ H1 Hr Hx) as Hmx. pose proof (Forall2_lookup_lr _ _ _ _ _ _ H2 Hr Hy) as Hmy.
  apply list_elem_of_lookup_2 in Hx, Hy. destruct x as [x|]; simplify_eq/=.
  - destruct Hmx as (? & ? & _). split; [done|left]. split; [done|]. apply assigned_elem. eauto.
  - destruct Hmy as (? & ? & _). split; [done|right]. split; [done|]. apply assigned_elem. eauto.
Qed.

Lemma assigned_merge (m1 m2 : list (option PolicyBinding)) :
  length m1 = length m2 -> NoDup (assigned m1) -> NoDup (assigned m2) -> (forall u, u ∈ assigned m1 -> u ∉ assigned m2) ->
  NoDup (assigned (zip_with or_else m1 m2)) /\
  forall u, u ∈ assigned (zip_with or_else m1 m2) -> u ∈ assigned m1 \/ u ∈ assigned m2.
Proof.
  revert m2. induction m1 as [|x m1 IH]; intros [|y m2] Hl H1 H2 Hd; simplify_eq/=; [split; [constructor|by left]|].
  assert (HIH : NoDup (assigned (zip_with or_else m1 m2)) /\
    forall u, u ∈ assigned (zip_with or_else m1 m2) -> u ∈ assigned m1 \/ u ∈ assigned m2).
  { apply IH; [done| | |].
    - destruct x; simpl in H1; [by apply NoDup_cons in H1 as [_ ?]|done].
    - destruct y; simpl in H2; [by apply NoDup_cons in H2 as [_ ?]|done].
    - intros u Hu1 Hu2. apply (Hd u); [destruct x|destruct y]; simpl; set_solver. }
  destruct HIH as [Hnd Hin]. destruct x as [x|]; [|destruct y as [y|]]; simpl in *.
  - apply NoDup_cons in H1 as [H1 _]. split; [|destruct y; set_solver]. constructor; [|done].
    intros [Hu|Hu]%Hin; [done|]. apply (Hd x.(PolicyBinding_Pk)); [by left|]. destruct y; simpl; set_solver.
  - apply NoDup_cons in H2 as [H2 _]. split; [|set_solver]. constructor; [|done].
    intros [Hu|Hu]%Hin; [|done]. apply (Hd _ Hu). by left.
  - done.
Qed.

Lemma merged_items_ok target c rules managed unmanaged m1 m2 :
  Forall rule_ok rules -> NoDup (PolicyBinding_Pk <$> managed ++ unmanaged) ->
  (forall b, b ∈ managed ++ unmanaged ->
     c.(fk_bindings) !! b.(PolicyBinding_Pk) = Some b /\ b.(PolicyBinding_Target) = target) ->
  Forall2 (matched_rule managed false m1) rules m1 -> NoDup (assigned m1) ->
  Forall2 (matched_rule unmanaged true m2) rules m2 -> NoDup (assigned m2) ->
  items_ok target c (zip rules (zip_with or_else m1 m2)) /\
  length (zip rules (zip_with or_else m1 m2)) = length rules.
Proof.
  intros Hrules Hnd Hb H1 Hn1 H2 Hn2. pose proof (Forall2_length _ _ _ H1) as L1. pose proof (Forall2_length _ _ _ H2) as L2.
  assert (Hfrom : forall bindings only m u, Forall2 (matched_rule bindings only m) rules m -> u ∈ assigned m ->
    u ∈ PolicyBinding_Pk <$> bindings).
  { intros bindings only m u HF (b & (i & Hi)%list_elem_of_lookup & <-)%assigned_elem.
    destruct (Forall2_lookup_r _ _ _ _ _ HF Hi) as (rule & _ & Hs & _). by apply list_elem_of_fmap_2. }
  assert (Hlen : length (zip_with or_else m1 m2) = length rules) by (rewrite length_zip_with; lia).
  split; [|rewrite length_zip; lia]. split.
  - apply Forall_forall. intros [rule m] (i & Hi)%list_elem_of_lookup.
    apply lookup_zip_with_Some in Hi as (r & o & [= <- <-] & Hr & _). by eapply Forall_lookup_1.
  - intros rule b Hin. destruct (merged_elem _ _ _ _ _ _ _ H1 H2 Hin) as [Hs Hm].
    destruct (Hb b) as [? ?]; [set_solver|done].
  - rewrite snd_zip by lia. apply assigned_merge; [lia|done|done|]. intros u Hu1 Hu2.
    rewrite fmap_app in Hnd. apply NoDup_app in Hnd as (_ & Hd & _).
    by apply (Hd u (Hfrom _ _ _ _ H1 Hu1)), (Hfrom _ _ _ _ H2 Hu2).
Qed.

(** What the Bindings of the target grant after the method, which started at [s] and [c]: every rule has its own
    Binding, which keeps what the rule does not manage, any other Binding was there before, is not managed, neither pruned nor of a public Application, and is
    reported; the Bindings of other targets are the same. *)
Definition access_enforced (target : string) (rules : list Rule) (s : reconcileState) (c : Client)
    (s' : reconcileState) (c' : Client) : Prop :=
  (exists kept, NoDup kept /\
     Forall2 (fun rule u => exists b, c'.(fk_bindings) !! u = Some b /\ serves target rule (c.(fk_bindings) !! u) b)
       rules kept /\
     forall u b, c'.(fk_bindings) !! u = Some b -> b.(PolicyBinding_Target) = target -> u ∉ kept ->
       prunes s' = false /\ is_public s' = false /\ c.(fk_bindings) !! u = Some b /\
       (u ∉ s.(rs_app).(App_Status).(Status_BindingUUIDs)) /\ u ∈ reported_unmanaged s') /\
  forall u b, b.(PolicyBinding_Target) <> target -> c'.(fk_bindings) !! u = Some b <-> c.(fk_bindings) !! u = Some b.

(** The last steps of the proof: the effects of the loops on the map of the Bindings. *)
Lemma access_enforced_intro target rules s c c2 c3 c4 c' s' managed unmanaged items kept max0 maxOrder
    (prune : bool) :
  (forall b, b ∈ managed ++ unmanaged <->
     c.(fk_bindings) !! b.(PolicyBinding_Pk) = Some b /\ b.(PolicyBinding_Target) = target) ->
  store_ok c -> Forall (fun b => b.(PolicyBinding_Pk) ∉ s.(rs_app).(App_Status).(Status_BindingUUIDs)) unmanaged ->
  c2.(fk_bindings) = c.(fk_bindings) -> items_ok target c2 items -> items.*1 = rules ->
  synced target c2 c3 max0 items kept maxOrder ->
  deleted c3 c4 (filter (.∉ kept) (PolicyBinding_Pk <$> managed)) ->
  let remaining := PolicyBinding_Pk <$> filter (fun b => b.(PolicyBinding_Pk) ∉ kept) unmanaged in
  deleted c4 c' (if prune then remaining else []) -> prunes s' = prune ->
  reported_unmanaged s' = (if prune then [] else remaining) -> (is_public s' = true -> reported_unmanaged s' = []) ->
  access_enforced target rules s c s' c'.
Proof.
  intros Hlist Hstore Hrec Hc2 Hitems <- HI [_ H4] remaining [_ H5] Hprune Hrep Hpub.
  pose proof (synced_grants _ _ _ _ _ _ _ HI) as HF.
  assert (Hkeyed : forall u b, c.(fk_bindings) !! u = Some b -> b.(PolicyBinding_Pk) = u).
  { intros u b Hb. by destruct (store_keyed _ Hstore _ _ Hb). }
  assert (Hkept : forall u, u ∈ kept -> c'.(fk_bindings) !! u = c3.(fk_bindings) !! u).
  { intros u Hu. rewrite H5, H4. rewrite !decide_False; [done| |].
    - rewrite list_elem_of_filter. tauto.
    - destruct prune; [|apply not_elem_of_nil]. unfold remaining. rewrite list_elem_of_fmap.
      intros (b & -> & [? _]%list_elem_of_filter). done. }
  assert (Hback : forall u b, c'.(fk_bindings) !! u = Some b -> u ∉ kept ->
    c.(fk_bindings) !! u = Some b /\ (u ∉ if prune then remaining else []) /\ u ∉ PolicyBinding_Pk <$> managed).
  { intros u b Hu Hn. rewrite H5 in Hu. case_decide as D5; [done|]. rewrite H4 in Hu. case_decide as D4; [done|].
    split_and!; [|done|].
    - by rewrite <- Hc2, <- (synced_others _ _ _ _ _ _ _ HI).
    - intros Hm. apply D4. by apply list_elem_of_filter. }
  split.
  - exists kept. split_and!; [apply HI| |].
    + apply Forall2_fmap_l, Forall2_same_length_lookup_2; [by eapply Forall2_length|]. intros i item u Hi Hu.
      destruct (Forall2_lookup_lr _ _ _ _ _ _ HF Hi Hu) as [(b & Hb & Hg) Hm]. exists b.
      rewrite Hkept by by eapply list_elem_of_lookup_2. split; [done|]. destruct item as [rule [b0|]]; simpl in *.
      * subst u. apply list_elem_of_lookup_2 in Hi. destruct (items_bindings _ _ _ Hitems _ _ Hi) as (Hc0 & _).
        by rewrite <- Hc2, Hc0.
      * by rewrite <- Hc2, Hm.
    + intros u b Hu Ht Hn. destruct (Hback _ _ Hu Hn) as (Hc & Hrem & Hman). pose proof (Hkeyed _ _ Hc) as <-.
      assert (Hun : b ∈ unmanaged).
      { assert (b ∈ managed ++ unmanaged) as [Hm|Hm]%elem_of_app by (by apply Hlist); [|done].
        destruct Hman. by apply list_elem_of_fmap_2. }
      assert (Hr : b.(PolicyBinding_Pk) ∈ remaining).
      { unfold remaining. apply list_elem_of_fmap_2. by apply list_elem_of_filter. }
      destruct prune; [done|]. rewrite Forall_forall in Hrec. split_and!; try done; [|by apply Hrec|by rewrite Hrep].
      destruct (is_public s') eqn:Hp; [|done]. rewrite Hrep in Hpub. rewrite Hpub in Hr by done. by apply not_elem_of_nil in Hr.
  - intros u b Ht. split.
    + intros Hu. apply (Hback u b Hu). intros Hk. rewrite Hkept in Hu by done.
      destruct (kept_elem _ _ _ _ _ _ HF Hk) as [(b' & Hb' & Ht') _]. congruence.
    + intros Hu. assert (Hn : u ∉ kept).
      { intros Hk. destruct (kept_elem _ _ _ _ _ _ HF Hk) as [_ [(b' & Hb' & <-)%assigned_elem|Hnone]].
        - apply list_elem_of_fmap in Hb' as ([rule m] & [= <-] & Hin).
          destruct (items_bindings _ _ _ Hitems _ _ Hin) as (Hc & Ht' & _). congruence.
        - congruence. }
      assert (Hout : forall l : list PolicyBinding, (forall b, b ∈ l -> b ∈ managed ++ unmanaged) -> u ∉ PolicyBinding_Pk <$> l).
      { intros l Hl (b' & -> & Hb')%list_elem_of_fmap. apply Hl, Hlist in Hb' as [? ?]. congruence. }
      rewrite H5, H4, !decide_False.
      * by rewrite (synced_others _ _ _ _ _ _ _ HI), Hc2.
      * rewrite list_elem_of_filter. intros [_ Hm]. revert Hm. apply Hout. set_solver.
      * destruct prune; [|apply not_elem_of_nil]. apply Hout. intros b' [_ Hb']%list_elem_of_filter. set_solver.
Qed.

(** The orders of the new Bindings fit into an int32. *)
Definition order_room (target : string) (c : Client) (n : nat) : Prop :=
  orderStep * Z.of_nat n <= max_int32 /\
  forall u b, c.(fk_bindings) !! u = Some b -> b.(PolicyBinding_Target) = target ->
    b.(PolicyBinding_Order) + orderStep * Z.of_nat n <= max_int32.

(** [reconcileBindings] against the in-memory authentik. *)
Lemma reconcileBindings_spec s c application resolved :
  let target := application.(Application_PbmUuid) in
  let rules := resolved.(Resolved_Rules) in
  let existing := length (fake_ListPolicyBindings c target) in
  s.(rs_resolved) = Some resolved -> Forall rule_ok rules -> store_ok c -> cache_ok s.(rs_markers) c ->
  order_room target c (length rules) -> room c (existing + 3 * length rules) ->
  mwp fake_env (reconcileBindings application) s c (fun s' r c' =>
    match r with
    | Ok _ => access_enforced target rules s c s' c'
    | Err e => status_failed e \/ unmanaged_stop e
    end).
Proof.
  intros target rules existing Hres Hrules Hstore Hcache [Hlim Horders] Hroom. subst existing.
  pose proof (store_keyed _ Hstore) as Hkeyed. pose proof (store_sequence _ Hstore) as Hpos.
  pose proof (fun b => listed_bindings c target b Hkeyed) as Hlisted.
  pose proof (listed_bindings_NoDup c target Hkeyed) as Hnd.
  unfold reconcileBindings. cbv zeta. fold target. repeat fake_step.
  set (existing := fake_ListPolicyBindings c target) in *.
  apply managedBindings_spec; [done|done|unfold room in *; lia|intros b [Hb _]%Hlisted; eauto|].
  intros [[managed unmanaged] max0] s1 c1 (Hs1 & Hok1 & Hm1 & Hperm & Hmax & Hwit & Hmax0 & Hrec). cbv iota.
  pose proof Hs1 as (_ & _ & Hres1). pose proof (marks_only_bindings _ _ _ Hm1) as Hb1.
  unfold get_resolved. repeat go_step. apply mwp_deref. exists resolved. split; [by rewrite Hres1|]. fold rules. go_step.
  assert (Hsubs : Forall (fun rule => is_Some (ruleSubject rule)) rules).
  { eapply Forall_impl; [exact Hrules|]. intros rule (sub & Hsub & _). by exists sub. }
  destruct (matchBindings_result rules managed false Hsubs) as (m1 & E1 & HF1 & Hn1 & _).
  destruct (matchBindings_result rules unmanaged true Hsubs) as (m2 & E2 & HF2 & Hn2 & _).
  rewrite E1, E2. apply mwp_deref. exists m1. split; [done|]. go_step. apply mwp_deref. exists m2. split; [done|]. go_step.
  assert (Hin : forall b, b ∈ managed ++ unmanaged <->
    c.(fk_bindings) !! b.(PolicyBinding_Pk) = Some b /\ b.(PolicyBinding_Target) = target).
  { intros b. by rewrite Hperm, Hlisted. }
  pose proof (Forall2_length _ _ _ HF1) as L1. pose proof (Forall2_length _ _ _ HF2) as L2.
  apply adopt_bindings_spec; [lia|done|destruct Hm1; lia|unfold room in *; destruct Hm1; lia| |].
  { intros b Hb. rewrite Hb1. apply list_elem_of_lookup in Hb as [i Hi].
    destruct (Forall2_lookup_r _ _ _ _ _ HF2 Hi) as (rule & _ & Hs & _). exists b. apply Hin. set_solver. }
  intros s2 c2 Hs2 Hok2 Hm2. go_step. pose proof (marks_only_bindings _ _ _ Hm2) as Hb2. rewrite Hb1 in Hb2.
  destruct (merged_items_ok target c2 rules managed unmanaged m1 m2) as [Hitems Hlen]; try done.
  { by rewrite Hperm. }
  { intros b Hb. rewrite Hb2. by apply Hin. }
  eapply sync_rules_spec; [exact Hitems|eapply store_ok_marks; [eapply store_ok_marks; [exact Hstore|exact Hm1]|exact Hm2]|done| |done| | | |].
  - intros u b Hu Ht. rewrite Hb2 in Hu. rewrite Forall_forall in Hmax. apply Hmax, Hlisted.
    by destruct (Hkeyed _ _ Hu) as [-> _].
  - rewrite Hlen. destruct Hwit as [->|(b & Hb & <-)]; [lia|]. apply Hlisted in Hb as [Hb Ht]. by eapply Horders.
  - rewrite Hlen. unfold room in *. destruct Hm1, Hm2. lia.
  - intros s3 c3 kept maxOrder Hres3 Hok3 HI. cbv iota. go_step. apply delete_obsolete_spec; [done|].
    intros s4 c4 Hs4 Hok4 Hd4. unfold update_status. repeat go_step. apply patchStatus_against_fake; [|by left].
    intros s5 Hm5 _. apply handleUnmanagedBindings_spec; [by rewrite Hm5| |by right].
    intros s' c' Hp' Hpub' Hmk' Hok' Hd5 Hrep Hnone. eapply access_enforced_intro with (c2 := c2) (items := zip rules _);
      [exact Hin|exact Hstore|exact Hrec|done|exact Hitems| |exact HI|exact Hd4|exact Hd5|done| |].
    + apply fst_zip. rewrite length_zip_with. lia.
    + exact Hrep.
    + by rewrite Hpub'.
  - intros s' c' e He. by left.
Qed.

(** C2: After a reconcile of the Bindings, access is what the spec says. On a server whose Bindings satisfy their
    invariant, with a sound marker cache, resolved rules, and orders and primary keys that do not overflow an int32,
    [reconcileBindings] does not panic, and no call to authentik fails. It ends with an error only if a status patch
    fails or unmanaged Bindings keep a public Application from being public. When it succeeds, every rule has its own
    Binding with its subject and its negation. A rule says nothing about the other fields: a Binding that was there
    keeps its order, its timeout, its failure result and whether it is enabled, so one that somebody disabled stays
    disabled, and a new one is enabled. Any further Binding of the Application was there before, unchanged, is not
    managed, and is reported in the status; none is left when the spec prunes or is public. The Bindings of the other
    Applications are untouched. *)
Theorem reconcileBindings_enforces_access s c application resolved :
  let target := application.(Application_PbmUuid) in
  let rules := resolved.(Resolved_Rules) in
  let existing := length (fake_ListPolicyBindings c target) in
  s.(rs_resolved) = Some resolved -> Forall rule_ok rules -> store_ok c -> cache_ok s.(rs_markers) c ->
  order_room target c (length rules) -> room c (existing + 3 * length rules) ->
  mwp fake_env (reconcileBindings application) s c (fun s' r c' =>
    match r with
    | Ok _ => access_enforced target rules s c s' c'
    | Err e => status_failed e \/ unmanaged_stop e
    end).
Proof. intros target rules existing. apply reconcileBindings_spec. Qed.

End access.

(** ** An instance *)

(** A recorded Binding of a rule's group with the wrong negation, and an unmanaged Binding; a rule of the group and a
    rule of a user, who has no Binding yet. *)
Definition example_stale : PolicyBinding :=
  mkPolicyBinding (uuid_of 1) Unset (SetTo (Some "group-1")) Unset "target" (Some true) None 0 None None.

Definition example_legacy : PolicyBinding :=
  mkPolicyBinding (uuid_of 2) Unset (SetTo (Some "legacy")) Unset "target" (Some false) None 10 None None.

Definition example_access_server : Client :=
  set_sequence 2 (set_roles {["role-1" := mkRole "role-1" "operator"]}
    (set_bindings (<[uuid_of 2 := example_legacy]> (<[uuid_of 1 := example_stale]> ∅)) (New (fun _ _ => [])))).

Definition example_access_rules : list Rule := [mkRule (Some "group-1") None None false; mkRule None (Some 5) None false].

Definition example_access_resource : AuthentikApplication :=
  mkResource "default" "wiki" "uid" 1 0 None [] (example_spec None) (with_binding_uuids [uuid_of 1] empty_status).

Definition example_access_state : reconcileState :=
  mkReconcileState example_access_resource example_access_resource (Some (mkResolved None None None example_access_rules))
    (newMarkerCache example_marker 60 true).

Lemma example_access_store : store_ok example_access_server.
Proof.
  split; [| |done].
  - apply bindings_ok_insert; [apply bindings_ok_insert; [apply bindings_ok_empty|done|done|]|done|done|].
    + intros u b key Hu. by rewrite lookup_empty in Hu.
    + intros u b key _ Hk. vm_compute in Hk. discriminate Hk.
  - apply keyed_insert; [apply keyed_insert; [by intros u b|done|]|done|].
    + exists 1. split; [unfold allocated; simpl; lia|done].
    + exists 2. split; [unfold allocated; simpl; lia|done].
Qed.

Lemma example_access_cache : cache_ok (newMarkerCache example_marker 60 true) example_access_server.
Proof.
  split; [done| |by constructor|done]. exists (mkRole "role-1" "operator"). split_and!; try done.
  intros u r Hu. unfold example_access_server in Hu. simpl in Hu. by apply lookup_singleton_Some in Hu as [<- _].
Qed.

Lemma reconcileBindings_enforces_access_witness :
  mwp fake_env (reconcileBindings (H := list_KubeLib) example_app) example_access_state example_access_server
    (fun s' r c' =>
       match r with
       | Ok _ => exists u b, c'.(fk_bindings) !! u = Some b /\
           serves "target" (mkRule None (Some 5) None false) (example_access_server.(fk_bindings) !! u) b
       | Err e => status_failed e \/ unmanaged_stop e
       end).
Proof.
  eapply mwp_mono.
  - apply (reconcileBindings_enforces_access example_access_state example_access_server example_app
      (mkResolved None None None example_access_rules)).
    + reflexivity.
    + constructor; [|constructor; [|constructor]]; (eexists; split; [reflexivity|discriminate]).
    + exact example_access_store.
    + exact example_access_cache.
    + split; [vm_compute; discriminate|]. intros u b Hu _. unfold example_access_server in Hu. simpl in Hu.
      apply lookup_insert_Some in Hu as [[<- <-]|[_ Hu]]; [vm_compute; discriminate|].
      apply lookup_insert_Some in Hu as [[<- <-]|[_ Hu]]; [vm_compute; discriminate|by rewrite lookup_empty in Hu].
    + vm_compute. discriminate.
  - intros s' [[]|e] c' Hr; [|exact Hr]. destruct Hr as [(kept & _ & HF & _) _].
    inversion HF as [|? u1 ? kept1 _ HF1]; subst. inversion HF1 as [|? u2 ? kept2 (b & Hb & Hg) _]; subst. exists u2, b. done.
Defined.
