(* ===== verification/Adoption.v ===== *)
(** * Taking over an Application

    [observeApplication] and [adoptApplication] ([internal/controller/application.go] and [adoption.go]) against the
    in-memory authentik: when the operator manages an Application that exists, and when it leaves it alone. *)
From S2P Require Import Prelude Errors Effects Api Crd Patch Interface Fake Marker MarkerCache MarkerSpec Reference Desired Convergence State FieldDiffs KubeExample Provider Application Access.

(** The Application with a slug exists under its pk. *)
Lemma application_exists c slug o :
  c.(fk_applications) !! slug = Some o -> objectExists c ModelApplication o.(Application_Pk) = true.
Proof.
  intros Ho. change (existsb (fun '(_, app) => bool_decide (app.(Application_Pk) = o.(Application_Pk)))
    (map_to_list c.(fk_applications)) = true).
  apply existsb_elem_of. exists (slug, o). split; [by apply elem_of_map_to_list|by apply bool_decide_true].
Qed.

Section adoption.
Context `{KubeLib} `{ModelJSON}.

(** ** The attached Provider *)

(** The differences of a Provider of the type of the spec, or the type of the spec when the Provider has the other
    one. A Provider that does not exist has no differences. [None]: a reference of the spec was not resolved. *)
Definition provider_found (s : reconcileState) (c : Client) (pk : Z) : option (string + list FieldDiff) :=
  provider ← s.(rs_app).(App_Spec).(Spec_Provider);
  resolved ← s.(rs_resolved);
  flows ← resolved.(Resolved_Flows);
  match provider.(Provider_Proxy) with
  | Some proxy =>
      refs ← resolved.(Resolved_Proxy);
      Some (match c.(fk_proxyProviders) !! pk, c.(fk_oauth2Providers) !! pk with
            | Some p, _ => inr (proxy_diffs proxy (desiredProxyProvider provider proxy flows refs) (copyProxyProvider c p))
            | None, Some _ => inl "Proxy"
            | None, None => inr []
            end)
  | None =>
      oauth2 ← provider.(Provider_OAuth2);
      refs ← resolved.(Resolved_OAuth2);
      Some (match c.(fk_oauth2Providers) !! pk, c.(fk_proxyProviders) !! pk with
            | Some p, _ => inr (oauth2_diffs (desiredOAuth2Provider provider oauth2 flows refs) (copyOAuth2Provider c p))
            | None, Some _ => inl "OAuth2"
            | None, None => inr []
            end)
  end.

(** A handler reads the Provider with a pk, and otherwise one of the other type. *)
Lemma get_attached_spec {T T'} handler pk (q : call (ak T)) (observe : T -> observedProvider) (q' : call (ak T'))
    operation operation' model model' (found : option T) (other : option T') o s c
    (Q : reconcileState -> result (option observedProvider) -> Client -> Prop) :
  handler.(handler_get) pk = (let* p := akcall q in mret (observe p)) ->
  handler.(handler_existsAsOtherType) pk = exists_object (akcall q') ->
  fake_handle _ q c = Some (c, get_or_404 found operation model) ->
  fake_handle _ q' c = Some (c, get_or_404 other operation' model') ->
  match found, other with
  | Some p, _ => Q s (Ok (Some (observe p))) c
  | None, Some _ => Q s (Err (providerTypeMismatch o.(Application_Slug) pk handler.(handler_kind))) c
  | None, None => Q s (Ok None) c
  end ->
  mwp fake_env (get_attached handler o pk) s c Q.
Proof.
  intros Hg He Hq Hq' HQ. unfold get_attached, get_if_found. rewrite Hg, He. unfold exists_object.
  do 5 go_step. match goal with H : env_step _ _ _ _ _ _ |- _ => cbn [fake_env env_step] in H; rewrite Hq in H; destruct H as [-> ->] end.
  destruct found as [p|]; cbn [get_or_404 snd fst]; repeat go_step; [done|].
  change (is_not_found (ClientError (notFound operation model))) with true. cbv iota. repeat go_step.
  match goal with H : env_step _ _ _ _ _ _ |- _ => cbn [fake_env env_step] in H; rewrite Hq' in H; destruct H as [-> ->] end.
  destruct other; cbn [get_or_404 snd fst]; repeat go_step; [done|].
  change (is_not_found (ClientError (notFound operation' model'))) with true. cbv iota. by repeat go_step.
Qed.

(** The same for the Provider of an Application; without one there is nothing to compare. *)
Definition attached_found (s : reconcileState) (c : Client) (o : Application) : option (string + list FieldDiff) :=
  match s.(rs_app).(App_Spec).(Spec_Provider), Nullable_Get o.(Application_Provider) with
  | Some _, Some pk => provider_found s c pk
  | _, _ => Some (inr [])
  end.

Lemma attachedProvider_spec s c o found (Q : reconcileState -> result (option observedProvider) -> Client -> Prop) :
  attached_found s c o = Some found ->
  match found with
  | inr diffs => forall provider, from_option observed_diffs [] provider = diffs -> Q s (Ok provider) c
  | inl kind => forall pk, Q s (Err (providerTypeMismatch o.(Application_Slug) pk kind)) c
  end ->
  mwp fake_env (attachedProvider o) s c Q.
Proof.
  unfold attached_found, attachedProvider, get_app. intros Hf HQ. repeat go_step.
  destruct (Spec_Provider _) as [provider|] eqn:Ep; [|go_step; simplify_eq; by apply HQ].
  destruct (Nullable_Get _) as [pk|]; [|go_step; simplify_eq; by apply HQ].
  unfold provider_found in Hf. rewrite Ep in Hf. simpl in Hf.
  destruct (rs_resolved s) as [resolved|] eqn:Er; [simpl in Hf|done].
  destruct (Resolved_Flows resolved) as [flows|] eqn:Ef; [simpl in Hf|done].
  unfold get_providerHandler, get_resolved, get_app. repeat go_step. apply mwp_deref. exists provider.
  split; [done|]. repeat go_step. apply mwp_deref. exists resolved. split; [done|].
  destruct (Provider_Proxy provider) as [proxy|].
  - destruct (Resolved_Proxy resolved) as [refs|]; [simpl in Hf; injection Hf as Hf|done].
    go_step. apply mwp_deref. exists flows. split; [done|]. go_step. apply mwp_deref. exists refs. split; [done|]. go_step.
    eapply get_attached_spec; [reflexivity..|]. destruct (_ !! pk) as [p|]; [subst; by apply HQ|].
    simpl. destruct (_ !! pk) as [p|]; subst; by apply HQ.
  - destruct (Provider_OAuth2 provider) as [oauth2|]; [simpl in Hf|done].
    destruct (Resolved_OAuth2 resolved) as [refs|]; [simpl in Hf; injection Hf as Hf|done].
    go_step. apply mwp_deref. exists oauth2. split; [done|].
    go_step. apply mwp_deref. exists flows. split; [done|]. go_step. apply mwp_deref. exists refs. split; [done|]. go_step.
    eapply get_attached_spec; [reflexivity..|]. destruct (_ !! pk) as [p|]; [subst; by apply HQ|].
    simpl. destruct (_ !! pk) as [p|]; subst; by apply HQ.
Qed.

(** ** Adoption *)

Definition adoption_policy (s : reconcileState) : string := default AdoptionPolicyNever s.(rs_app).(App_Spec).(Spec_Adopt).

(** The differences of an Application from the spec, and those of its attached Provider. *)
Definition differences (s : reconcileState) (o : Application) (diffs : list FieldDiff) : list FieldDiff :=
  application_diffs (desiredApplication s.(rs_app).(App_Spec) None) o ++ diffs.

(** The policy of the spec allows to manage an Application that nobody manages. *)
Definition adoptable (s : reconcileState) (c : Client) (o : Application) : Prop :=
  adoption_policy s <> AdoptionPolicyNever /\
  exists diffs, attached_found s c o = Some (inr diffs) /\
    (adoption_policy s = AdoptionPolicyIfMatch -> differences s o diffs = []).

Definition is_recorded (s : reconcileState) (o : Application) : Prop :=
  s.(rs_app).(App_Status).(Status_ApplicationPK) = o.(Application_Pk).

Definition is_marked (s : reconcileState) (c : Client) (o : Application) : Prop :=
  applicationObject o ∈ my_marks s.(rs_markers).(mc_marker) c.

(** Why an Application is not adopted. *)
Definition refused (s s' : reconcileState) (c : Client) (o : Application) (e : error) : Prop :=
  exists reason message, e = StopError reason message /\
    (reason = ReasonUnmanaged /\ adoption_policy s = AdoptionPolicyNever \/
     reason = ReasonProviderTypeMismatch /\ (exists kind, attached_found s c o = Some (inl kind)) \/
     reason = ReasonAdoptionDiff /\ adoption_policy s = AdoptionPolicyIfMatch /\
       exists diffs, attached_found s c o = Some (inr diffs) /\ differences s o diffs <> [] /\
         s'.(rs_app).(App_Status).(Status_AdoptionDiff) = differences s o diffs).

Lemma refused_not_adoptable s s' c o e : refused s s' c o e -> ~ adoptable s c o.
Proof.
  intros (reason & message & _ & [[_ Hp]|[[_ [kind Hk]]|(_ & Hp & diffs & Hd & Hne & _)]]) (Hp' & diffs' & Hd' & Hm);
    [done|congruence|]. apply Hne. rewrite Hd in Hd'. simplify_eq. by apply Hm.
Qed.

Lemma adoptApplication_spec s c o found (Q : reconcileState -> result () -> Client -> Prop) :
  attached_found s c o = Some found ->
  (adoptable s c o -> Q s (Ok ()) c) ->
  (forall s' e, refused s s' c o e -> Q s' (Err e) c) ->
  mwp fake_env (adoptApplication o) s c Q.
Proof.
  intros Hf HQ Herr. unfold adoptApplication, get_app. repeat go_step. fold (adoption_policy s). case_decide as Hp.
  { go_step. apply Herr. repeat eexists. by left. }
  go_step. eapply attachedProvider_spec; [done|]. destruct found as [kind|diffs].
  { intros pk. apply Herr. repeat eexists. right; left. eauto. }
  intros provider Hd. repeat go_step.
  replace (adoption_diffs _ _ _) with (differences s o diffs) by (unfold adoption_diffs, differences; by destruct provider; subst).
  case_decide as Hm; [destruct (differences s o diffs) as [|d ds] eqn:Ed|].
  - unfold record_event. repeat fake_step. destruct r. apply HQ. split; [done|]. by exists diffs.
  - unfold update_status. repeat go_step. apply Herr. repeat eexists. right; right. split; [done|]. split; [done|].
    exists diffs. rewrite Ed. by split_and!.
  - unfold record_event. repeat fake_step. destruct r. apply HQ. split; [done|]. by exists diffs.
Qed.

(** The marker of an Application that exists. *)
Lemma ensure_application_spec s c o (Q : reconcileState -> result () -> Client -> Prop) :
  cache_ok s.(rs_markers) c -> objectExists c ModelApplication o.(Application_Pk) = true ->
  (forall s' c', only_markers s s' -> cache_ok s'.(rs_markers) c' -> same_objects c c' -> assigned_at_most c c' ->
     my_marks s'.(rs_markers).(mc_marker) c' = {[applicationObject o]} ∪ my_marks s.(rs_markers).(mc_marker) c ->
     Q s' (Ok ()) c') ->
  mwp fake_env (ensure_application_marker o) s c Q.
Proof.
  intros Hok Ho HQ. unfold ensure_application_marker, markers.
  apply mwp_zoom, cache_ensure_spec; [done| |done|].
  - apply marked_models_well_formed. simpl. unfold ModelApplication. set_solver.
  - intros mc' c' Hok' _ Hs Ha Hm. by apply HQ.
Qed.

(** An Application may be taken over. *)
Definition may_take_over (s : reconcileState) (c : Client) (o : Application) : Prop :=
  is_recorded s o \/ is_marked s c o \/ adoptable s c o.

(** What [observeApplication] answers and does. *)
Definition observed_outcome (s : reconcileState) (c : Client) (s' : reconcileState) (r : result (option Application))
    (c' : Client) : Prop :=
  let mine s c := my_marks s.(rs_markers).(mc_marker) c in
  match c.(fk_applications) !! s.(rs_app).(App_Spec).(Spec_Slug) with
  | None => r = Ok None /\ c' = c /\ s'.(rs_app).(App_Status).(Status_ApplicationPK) = ""
  | Some o =>
      match r with
      | Ok found =>
          found = Some o /\ may_take_over s c o /\ same_objects c c' /\
          mine s' c' = {[applicationObject o]} ∪ mine s c
      | Err e => c' = c /\ (may_take_over s c o /\ status_failed e \/ ~ may_take_over s c o /\ refused s s' c o e)
      end
  end.

(** What it leaves alone when it succeeds. *)
Definition observed_frame (s : reconcileState) (c : Client) (s' : reconcileState) (r : result (option Application))
    (c' : Client) : Prop :=
  forall found, r = Ok found ->
    s'.(rs_resolved) = s.(rs_resolved) /\ cache_ok s'.(rs_markers) c' /\ assigned_at_most c c'.

Lemma observeApplication_spec s c :
  cache_ok s.(rs_markers) c ->
  (forall o, c.(fk_applications) !! s.(rs_app).(App_Spec).(Spec_Slug) = Some o -> is_Some (attached_found s c o)) ->
  mwp fake_env observeApplication s c (fun s' r c' => observed_outcome s c s' r c' /\ observed_frame s c s' r c').
Proof.
  intros Hok Hfound. unfold observed_outcome, observed_frame, observeApplication, get_app. repeat fake_step.
  unfold fake_GetApplication. destruct (c.(fk_applications) !! _) as [o|] eqn:Ho; cbn [get_or_404]; repeat go_step.
  2: { change (is_not_found (ClientError (notFound "GetApplication" "Application"))) with true. cbv iota. go_step.
    case_decide as Hpk.
    - unfold record_event, update_status. repeat fake_step. split; [done|]. intros ? _. auto with go.
    - repeat go_step. split; [|intros ? _; auto with go].
      split_and!; [done|done|by destruct (decide (Status_ApplicationPK (App_Status (rs_app s)) = ""))]. }
  apply application_exists in Ho as Hex. destruct (Hfound o eq_refl) as [found Hf]. cbv zeta.
  case_decide as Hrec.
  { go_step. apply ensure_application_spec; [done|done|]. intros s' c' (_ & _ & Hr) Hc' Hs Ha Hm. go_step.
    split; [split_and!; [done|by left|done|done]|by intros ? _]. }
  go_step. unfold markers at 1. apply mwp_zoom, cache_isManaged_spec; [done|]. intros mc' Hok' Hmc. go_step.
  set (s1 := set_markers mc' s). assert (Hs1 : cache_ok s1.(rs_markers) c) by done.
  assert (Htake : may_take_over s c o -> forall s2, s2.(rs_markers) = mc' -> s2.(rs_resolved) = s.(rs_resolved) ->
    mwp fake_env (record_application o ;; ensure_application_marker o ;; mret (Some o)) s2 c (fun s' r c' =>
      match r with
      | Ok found => found = Some o /\ may_take_over s c o /\ same_objects c c' /\
          my_marks s'.(rs_markers).(mc_marker) c' = {[applicationObject o]} ∪ my_marks s.(rs_markers).(mc_marker) c
      | Err e => c' = c /\ (may_take_over s c o /\ status_failed e \/ ~ may_take_over s c o /\ refused s s' c o e)
      end /\ forall found, r = Ok found ->
        s'.(rs_resolved) = s.(rs_resolved) /\ cache_ok s'.(rs_markers) c' /\ assigned_at_most c c')).
  { intros Hmay s2 Hs2 Hr2. unfold record_application, update_status. repeat go_step. apply patchStatus_against_fake.
    - intros s3 Hs3 Hr3. simpl in Hs3, Hr3. go_step. apply ensure_application_spec; [by rewrite Hs3, Hs2|done|].
      intros s' c' (_ & _ & Hr) Hc' Hs Ha Hm. go_step. split; [split_and!; [done|done|done|]|intros ? _].
      + by rewrite Hm, Hs3, Hs2, Hmc.
      + split_and!; [congruence|done|done].
    - intros e He. split; [auto|done]. }
  case_bool_decide as Hin; [go_step; apply Htake; [by right; left|done|done]|].
  eapply adoptApplication_spec with (s := s1); [exact Hf|intros Ha; apply Htake; [by right; right|done|done]|].
  intros s' e Hr. split; [|done]. split; [done|]. right. split; [|done].
  intros [Hr'|[Hm|Ha]]; [done|done|by apply (refused_not_adoptable _ _ _ _ _ Hr)].
Qed.

(** C3: The operator only takes over an Application that it may manage, and leaves any other alone. When the slug
    of the spec is free, [observeApplication] answers that the Application is to be created, and forgets a recorded
    pk. Otherwise it succeeds only with the Application of the slug, if that is recorded in the status, or marked for
    the operator, or adoptable: the policy is not Never, an attached Provider is of the type of the spec, and under
    IfMatch no managed field differs. Then exactly the marker of this Application was added. If it is none of these,
    the call fails with the reason, which for differing fields lists all of them in the status, and nothing in
    authentik has changed. Objects other than the markers are never changed. *)
Theorem observeApplication_takes_over s c :
  cache_ok s.(rs_markers) c ->
  (forall o, c.(fk_applications) !! s.(rs_app).(App_Spec).(Spec_Slug) = Some o -> is_Some (attached_found s c o)) ->
  mwp fake_env observeApplication s c (observed_outcome s c).
Proof. intros Hok Hf. eapply mwp_mono; [by apply observeApplication_spec|]. by intros s' r c' [Ho _]. Qed.
End adoption.

(** ** An instance

    An Application that nobody manages and whose name differs from the spec, which may be adopted if it matches. *)
Definition example_unmanaged_server : Client :=
  set_roles {["role-1" := mkRole "role-1" "operator"]} (set_applications {["wiki" := example_app]} (New (fun _ _ => []))).

Definition example_matching_spec : AuthentikApplicationSpec :=
  mkSpec "wiki" "Wiki" None None None None None None None None (Some AdoptionPolicyIfMatch) None example_access.

Definition example_adopting : reconcileState :=
  let app := mkResource "default" "wiki" "uid" 1 0 None [] example_matching_spec empty_status in
  mkReconcileState app app None (newMarkerCache example_marker 60 true).

Lemma example_adopting_cache : cache_ok example_adopting.(rs_markers) example_unmanaged_server.
Proof.
  split; [done| |by constructor|done]. exists (mkRole "role-1" "operator"). split_and!; try done.
  intros u r Hu. unfold example_unmanaged_server in Hu. simpl in Hu. by apply lookup_singleton_Some in Hu as [<- _].
Qed.

Lemma observeApplication_takes_over_witness :
  mwp fake_env (observeApplication (H0 := example_ModelJSON)) example_adopting example_unmanaged_server
    (fun s' r c' => c' = example_unmanaged_server /\ (exists message, r = Err (StopError ReasonAdoptionDiff message)) /\
       FieldDiff_Field <$> s'.(rs_app).(App_Status).(Status_AdoptionDiff) = ["name"]).
Proof.
  assert (Hmay : ~ (is_recorded example_adopting example_app \/ is_marked example_adopting example_unmanaged_server example_app \/
    adoptable (H0 := example_ModelJSON) example_adopting example_unmanaged_server example_app)).
  { intros [Hr|[Hm|(_ & diffs & [= <-] & Hd)]].
    - vm_compute in Hr. discriminate.
    - apply elem_of_marked in Hm as (p & Hp & _). by apply not_elem_of_nil in Hp.
    - specialize (Hd eq_refl). vm_compute in Hd. discriminate. }
  eapply mwp_mono.
  - apply (observeApplication_takes_over (H0 := example_ModelJSON) example_adopting
      example_unmanaged_server example_adopting_cache).
    intros o Ho. vm_compute in Ho. injection Ho as <-. by eexists.
  - intros s' r c' Hr.
    unfold observed_outcome in Hr.
    change (example_unmanaged_server.(fk_applications) !! _) with (Some example_app) in Hr. cbv iota zeta in Hr.
    destruct r as [found|e]; [by destruct Hr as (_ & Hmay' & _)|].
    destruct Hr as [-> [[Hmay' _]|[_ (reason & message & -> & Hr)]]]; [done|].
    destruct Hr as [[_ Hp]|[[_ [kind Hk]]|(-> & _ & diffs & Hd & _ & ->)]]; [by vm_compute in Hp|by vm_compute in Hk|].
    injection Hd as <-. split_and!; [done|by exists message|vm_compute; reflexivity].
Defined.
