(* ===== verification/Panics.v ===== *)
(** * Run-time panics

    A logic for the absence of panics: [safe I m P] says that [m], started in a memory that satisfies [I], never
    panics whatever the services answer, keeps [I], and returns a value that satisfies [P]. The answers of the
    services may be restricted, as the theorem on [reconcile] does for the answer of a status patch. *)
From S2P Require Import Prelude Errors Effects Api Crd Interface Marker MarkerCache.

Section safe.
Context (answers : forall R, call R -> R -> Prop).

Definition safe {S A} (I : S -> Prop) (m : M call S A) (P : A -> Prop) : Prop :=
  forall s w, I s -> mwp (log_env answers False) m s w (fun s' r _ => I s' /\ forall a, r = Ok a -> P a).

Section rules.
Context {S : Type} (I : S -> Prop).

Lemma safe_ret {A} (a : A) (P : A -> Prop) : P a -> safe I (mret a) P.
Proof. intros HP s w HI. split; [done|]. by intros ? [= <-]. Qed.

Lemma safe_fail {A} e (P : A -> Prop) : safe I (mfail e) P.
Proof. done. Qed.

Lemma safe_done {A} (r : result A) (P : A -> Prop) : (forall a, r = Ok a -> P a) -> safe I (mdone r) P.
Proof. done. Qed.

Lemma safe_get (P : S -> Prop) : (forall s, I s -> P s) -> safe I mget P.
Proof. intros HP s w HI. split; [done|]. intros ? [= <-]. auto. Qed.

Lemma safe_modify f (P : () -> Prop) : (forall s, I s -> I (f s)) -> P () -> safe I (mmodify f) P.
Proof. intros Hf HP s w HI. split; [by apply Hf|]. by intros [] _. Qed.

Lemma safe_deref {A} (p : option A) (P : A -> Prop) : (exists a, p = Some a /\ P a) -> safe I (mderef p) P.
Proof. intros (a & -> & HP). by apply safe_ret. Qed.

Lemma safe_call {A} (c : call A) (P : A -> Prop) : (forall r, answers _ c r -> P r) -> safe I (mcall c) P.
Proof. intros HP s w HI. split; [done|]. intros r w' [Hr _]. split; [done|]. intros ? [= <-]. auto. Qed.

Lemma safe_invoke {A E} (inject : E -> error) (c : call (A + E)) (P : A -> Prop) :
  (forall a, answers _ c (inl a) -> P a) -> safe I (minvoke inject c) P.
Proof.
  intros HP s w HI. split; [done|]. intros r w' [Hr _]. split; [done|]. destruct r; [|done]. intros ? [= <-]. auto.
Qed.

Lemma safe_bind {A B} (P : A -> Prop) (m : M call S A) (f : A -> M call S B) (Q : B -> Prop) :
  safe I m P -> (forall a, P a -> safe I (f a) Q) -> safe I (mbind m f) Q.
Proof.
  intros Hm Hf s w HI. apply mwp_bind. eapply mwp_mono; [by apply Hm|]. intros s' [a|e] w' [HI' HP]; [|by split].
  apply Hf; [by apply HP|done].
Qed.

Lemma safe_try {A} (m : M call S A) (P : A -> Prop) :
  safe I m P -> safe I (mtry m) (fun r => forall a, r = Ok a -> P a).
Proof.
  intros Hm s w HI. apply mwp_try. eapply mwp_mono; [by apply Hm|]. intros s' r w' [HI' HP]. split; [done|].
  by intros ? [= <-].
Qed.

Lemma safe_wrap {A} prefix (m : M call S A) (P : A -> Prop) : safe I m P -> safe I (mwrap prefix m) P.
Proof.
  intros Hm. eapply safe_bind; [by apply safe_try|]. intros [a|e] HP; [|apply safe_fail]. apply safe_ret. by apply HP.
Qed.

Lemma safe_for {A} (xs : list A) (body : A -> M call S ()) (P : () -> Prop) :
  (forall x, x ∈ xs -> safe I (body x) (fun _ => True)) -> P () -> safe I (mfor xs body) P.
Proof.
  intros Hb HP. induction xs as [|x xs IH]; simpl; [by apply safe_ret|].
  eapply safe_bind; [apply Hb; by left|]. intros [] _. apply IH. intros. apply Hb. by right.
Qed.

Lemma safe_fold {A B} (P : B -> Prop) (xs : list A) (acc : B) (body : B -> A -> M call S B) :
  P acc -> (forall acc x, x ∈ xs -> P acc -> safe I (body acc x) P) -> safe I (mfold xs acc body) P.
Proof.
  revert acc. induction xs as [|x xs IH]; intros acc HP Hb; simpl; [by apply safe_ret|].
  eapply safe_bind; [apply Hb; [by left|done]|]. intros acc' HP'. apply IH; [done|]. intros. apply Hb; [by right|done].
Qed.

Lemma safe_mono {A} (m : M call S A) (P Q : A -> Prop) : safe I m P -> (forall a, P a -> Q a) -> safe I m Q.
Proof. intros Hm HPQ s w HI. eapply mwp_mono; [by apply Hm|]. intros s' r w' [? HP]. split; [done|]. auto. Qed.

Lemma safe_top {A} (m : M call S A) (P : A -> Prop) : safe I m P -> safe I m (fun _ => True).
Proof. intros Hm. by eapply safe_mono. Qed.

Lemma safe_try_any {A} (m : M call S A) : safe I m (fun _ => True) -> safe I (mtry m) (fun _ => True).
Proof. intros Hm. by eapply safe_top, safe_try. Qed.
End rules.

Lemma safe_zoom {S T A} (I : S -> Prop) (J : T -> Prop) (get : S -> T) (put : T -> S -> S) (m : M call T A) P :
  safe J m P -> (forall s, I s -> J (get s)) -> (forall s t, I s -> J t -> I (put t s)) -> safe I (mzoom get put m) P.
Proof.
  intros Hm Hget Hput s w HI. apply mwp_zoom. eapply mwp_mono; [apply Hm; auto|]. intros t r w' [HJ HP]. auto.
Qed.
End safe.

Create HintDb safe discriminated.

(** One structural step; a method of the program is closed by its lemma in [safe]. *)
Ltac safe_step :=
  lazymatch goal with
  | |- safe _ _ (mret _) _ => apply safe_ret
  | |- safe _ _ (mfail _) _ => apply safe_fail
  | |- safe _ _ (mdone _) _ => apply safe_done
  | |- safe _ _ mget _ => apply safe_get
  | |- safe _ _ (mmodify _) _ => apply safe_modify
  | |- safe _ _ (mcall _) _ => apply safe_call
  | |- safe _ _ (minvoke _ _) _ => apply safe_invoke
  | |- safe _ _ (akcall _) _ => unfold akcall; apply safe_invoke
  | |- safe _ _ (kubecall _) _ => unfold kubecall; apply safe_invoke
  | |- safe _ _ (mbind _ _) _ =>
      first [eapply safe_bind; [solve [eauto with safe nocore]|intros ? ?]
            |apply (safe_bind _ _ (fun _ => True)); [|intros ? _]]
  | |- safe _ _ (mwrap _ _) _ => apply safe_wrap
  | |- safe _ _ (mtry _) (fun _ => True) => apply safe_try_any
  | |- safe _ _ (mfor _ _) _ => apply safe_for; [intros ? ?|]
  | |- safe _ _ (mfold _ _ _) (fun _ => True) => apply safe_fold; [exact Logic.I|intros ? ? ? _]
  | |- safe _ _ (match ?x with _ => _ end) _ => destruct x eqn:?
  | |- safe _ _ _ (fun _ => True) => eapply safe_top; solve [eauto with safe nocore]
  | |- safe _ _ _ _ => solve [eauto with safe nocore]
  end.

Ltac safe_auto := repeat safe_step; try done; try (intros; exact Logic.I).

(** ** The marker cache *)

(** The methods of the marker never dereference anything. *)
Section markers.
Context (answers : forall R, call R -> R -> Prop).
Abbreviation safe := (safe answers).
Abbreviation any := (fun _ => True).

Lemma safe_role : safe any role any.
Proof. unfold role, EnsureRole, findOrCreateRole, findRole. safe_auto. Qed.

#[local] Hint Resolve safe_role : safe.

Lemma safe_EnsureRole : safe any EnsureRole any.
Proof. unfold EnsureRole, findOrCreateRole, findRole. safe_auto. Qed.

Lemma safe_ListManaged : safe any ListManaged any.
Proof. unfold ListManaged. safe_auto. Qed.

Lemma safe_Mark o : safe any (Mark o) any.
Proof. unfold Mark. safe_auto. Qed.

Lemma safe_MarkIfExists o : safe any (MarkIfExists o) any.
Proof. unfold MarkIfExists. safe_auto. Qed.

Lemma safe_Unmark o : safe any (Unmark o) any.
Proof. unfold Unmark. safe_auto. Qed.

Lemma safe_IsManaged o : safe any (IsManaged o) any.
Proof. unfold IsManaged. safe_auto. Qed.

(** A method of the marker leaves the list of the cache alone. *)
Definition objects_are (objects : option (gset Object)) (mc : markerCache) : Prop := mc.(mc_objects) = objects.

Lemma safe_with_marker {A} objects (m : M call Marker A) P : safe any m P -> safe (objects_are objects) (with_marker m) P.
Proof. intros Hm. by apply (safe_zoom _ _ any). Qed.

Lemma safe_requeueAll objects : safe (objects_are objects) requeueAll any.
Proof. unfold requeueAll. safe_auto. Qed.

(** A successful refresh leaves a list in the cache. *)
Lemma refreshLocked_known mc w :
  mwp (log_env answers False) refreshLocked mc w (fun mc' r _ => r = Ok () -> exists objects, mc'.(mc_objects) = Some objects).
Proof.
  unfold refreshLocked. go_step. eapply mwp_mono.
  { instantiate (1 := fun mc' r w' => exists b, r = Ok b /\ mc' = mc /\ (b = true -> is_Some mc.(mc_objects))).
    unfold fresh. repeat go_step. destruct mc.(mc_objects); repeat go_step; eexists; by split_and!. }
  intros mc' r w' (b & -> & -> & Hb). destruct b; [go_step; intros _; by apply Hb|]. go_step.
  eapply mwp_mono; [by apply (safe_with_marker mc.(mc_objects) _ _ safe_EnsureRole)|].
  intros mc1 [[current previous]|e] w1 [H1 _]; [|done]. go_step.
  eapply mwp_mono; [by case_decide; [apply (safe_requeueAll mc.(mc_objects))|apply (safe_ret _ (objects_are mc.(mc_objects)) _ any)]|].
  intros mc2 [[]|e] w2 [H2 _]; [|done]. go_step.
  eapply mwp_mono; [by apply (safe_with_marker mc.(mc_objects) _ _ safe_ListManaged)|].
  intros mc3 [set|e] w3 [H3 _]; [|done]. repeat go_step. intros _. by eexists.
Qed.

(** A method that starts with a refresh may count on the list. *)
Lemma safe_refreshed {A} (f : () -> M call markerCache A) (P : A -> Prop) :
  (forall objects, exists I, (forall mc, objects_are (Some objects) mc -> I mc) /\ safe I (f ()) P) ->
  safe any (refreshLocked ;; f ()) P.
Proof.
  intros Hf mc w _. go_step. eapply mwp_mono; [apply refreshLocked_known|]. intros mc' [[]|e] w' Hk; [|done].
  destruct (Hk eq_refl) as [objects Ho]. destruct (Hf objects) as (I & HI & Hs).
  eapply mwp_mono; [by apply Hs, HI|]. by intros ? ? ? [_ ?].
Qed.

Definition known (mc : markerCache) : Prop := is_Some mc.(mc_objects).

Lemma safe_with_marker_known {A} (m : M call Marker A) P : safe any m P -> safe known (with_marker m) P.
Proof. intros Hm. by apply (safe_zoom _ _ any). Qed.

Lemma safe_put_object o : safe known (put_object o) any.
Proof. intros mc w [objects Ho]. unfold put_object. repeat go_step. rewrite Ho. repeat go_step. split; [by eexists|done]. Qed.

#[local] Hint Resolve safe_with_marker_known safe_put_object safe_IsManaged safe_Mark safe_Unmark safe_MarkIfExists : safe.

Lemma safe_known {A} (f : () -> M call markerCache A) (P : A -> Prop) :
  safe known (f ()) P -> safe any (refreshLocked ;; f ()) P.
Proof. intros Hf. apply safe_refreshed. intros objects. exists known. split; [|done]. intros mc Ho. by eexists. Qed.

Lemma safe_contains o : safe any (contains o) any.
Proof. apply (safe_known (fun _ => _)). safe_auto. Qed.

Lemma safe_isManaged o : safe any (isManaged o) any.
Proof. apply (safe_known (fun _ => _)). safe_auto. Qed.

Lemma safe_ensure o : safe any (ensure o) any.
Proof. apply (safe_known (fun _ => _)). safe_auto. Qed.

Lemma safe_remove o : safe any (remove o) any.
Proof.
  unfold remove, delete_object. apply (safe_bind _ _ any); [by apply (safe_zoom _ _ any); [apply safe_Unmark|..]|].
  intros [] _. by apply safe_modify.
Qed.
End markers.

#[export] Hint Resolve safe_contains safe_isManaged safe_ensure safe_remove : safe.
