(* ===== verification/Calls.v ===== *)
(** * Which calls a method makes

    A small program logic for the log of the calls of a method against services that may answer anything
    ([any_env]): [only_calls] bounds the calls, [phased] orders them, [obeys] says what a call may be after the calls
    before it, and [avoids] and [excuses] relate the returned error to the calls made before. The tactics traverse a
    method by its structure. *)
From S2P Require Import Prelude Errors Effects Api Crd Interface.

(** ** Bounds on the calls *)

Section only_calls.
Context {S : Type} (allowed : logged call -> Prop).

Lemma only_calls_ret {A} (a : A) : only_calls (S := S) allowed (mret a).
Proof. intros s w. apply mwp_ret. exists []. by rewrite app_nil_r. Qed.

Lemma only_calls_fail {A} e : only_calls (S := S) (A := A) allowed (mfail e).
Proof. intros s w. apply mwp_fail. exists []. by rewrite app_nil_r. Qed.

Lemma only_calls_done {A} r : only_calls (S := S) (A := A) allowed (mdone r).
Proof. intros s w. apply mwp_done. exists []. by rewrite app_nil_r. Qed.

Lemma only_calls_get : only_calls (S := S) allowed mget.
Proof. intros s w. apply mwp_get. exists []. by rewrite app_nil_r. Qed.

Lemma only_calls_modify f : only_calls (S := S) allowed (mmodify f).
Proof. intros s w. apply mwp_modify. exists []. by rewrite app_nil_r. Qed.

Lemma only_calls_crash {A} : only_calls (S := S) (A := A) allowed mcrash.
Proof. by intros s w. Qed.

Lemma only_calls_deref {A} (p : option A) : only_calls (S := S) allowed (mderef p).
Proof. destruct p; [apply only_calls_ret|apply only_calls_crash]. Qed.

Lemma only_calls_call {A} (c : call A) :
  (forall r, allowed (mkLogged c r)) -> only_calls (S := S) allowed (mcall c).
Proof. intros H s w. apply mwp_call; [done|]. intros r w' [_ ->]. exists [mkLogged c r]. split; [done|]. by constructor. Qed.

Lemma only_calls_invoke {A E} (inject : E -> error) (c : call (A + E)) :
  (forall r, allowed (mkLogged c r)) -> only_calls (S := S) allowed (minvoke inject c).
Proof. intros H s w. apply mwp_invoke; [done|]. intros r w' [_ ->]. exists [mkLogged c r]. split; [done|]. by constructor. Qed.

Lemma only_calls_bind {A B} (m : M call S A) (f : A -> M call S B) :
  only_calls allowed m -> (forall a, only_calls allowed (f a)) -> only_calls allowed (mbind m f).
Proof.
  intros Hm Hf s w. apply mwp_bind. eapply mwp_mono; [apply Hm|]. intros s' [a|e] w' (l & -> & Hl); [|eauto].
  eapply mwp_mono; [apply Hf|]. intros s'' r w'' (l' & -> & Hl').
  exists (l ++ l'). rewrite app_assoc. split; [done|]. by apply Forall_app.
Qed.

Lemma only_calls_try {A} (m : M call S A) : only_calls allowed m -> only_calls allowed (mtry m).
Proof. intros Hm s w. apply mwp_try, Hm. Qed.

Lemma only_calls_for {A} (xs : list A) (body : A -> M call S ()) :
  (forall x, x ∈ xs -> only_calls allowed (body x)) -> only_calls allowed (mfor xs body).
Proof.
  induction xs as [|x xs IH]; intros Hb; simpl; [apply only_calls_ret|].
  apply only_calls_bind; [apply Hb; by left|]. intros _. apply IH. intros y Hy. apply Hb. by right.
Qed.

Lemma only_calls_fold {A B} (xs : list A) (acc : B) (body : B -> A -> M call S B) :
  (forall acc x, x ∈ xs -> only_calls allowed (body acc x)) -> only_calls allowed (mfold xs acc body).
Proof.
  revert acc. induction xs as [|x xs IH]; intros acc Hb; simpl; [apply only_calls_ret|].
  apply only_calls_bind; [apply Hb; by left|]. intros acc'. apply IH. intros acc2 y Hy. apply Hb. by right.
Qed.

Lemma only_calls_zoom {T A} (get : S -> T) (put : T -> S -> S) (m : M call T A) :
  only_calls allowed m -> only_calls allowed (mzoom get put m).
Proof. intros Hm s w. apply mwp_zoom, Hm. Qed.

Lemma only_calls_wrap {A} prefix (m : M call S A) : only_calls allowed m -> only_calls allowed (mwrap prefix m).
Proof.
  intros Hm. apply only_calls_bind; [by apply only_calls_try|].
  intros []; [apply only_calls_ret|apply only_calls_fail].
Qed.
End only_calls.

Lemma only_calls_weaken {S A} (P Q : logged call -> Prop) (m : M call S A) :
  (forall e, P e -> Q e) -> only_calls P m -> only_calls Q m.
Proof.
  intros HPQ Hm s w. eapply mwp_mono; [apply Hm|]. intros s' r w' (l & -> & Hl).
  exists l. split; [done|]. by eapply Forall_impl.
Qed.

(** The class of the call is one of the list. *)
Definition in_classes (cs : list call_class) (e : logged call) : Prop := log_class e ∈ cs.

Lemma in_classes_weaken cs cs' e : cs ⊆ cs' -> in_classes cs e -> in_classes cs' e.
Proof. unfold in_classes. set_solver. Qed.

(** Classes that are included by computation. *)
Lemma only_calls_classes {S A} cs cs' (m : M call S A) :
  bool_decide (Forall (.∈ cs') cs) = true -> only_calls (in_classes cs) m -> only_calls (in_classes cs') m.
Proof.
  intros Hc%bool_decide_eq_true. rewrite Forall_forall in Hc. apply only_calls_weaken.
  intros e. unfold in_classes. apply Hc.
Qed.

(** Lemmas of the form [only_calls (in_classes cs) method]. *)
Create HintDb calls discriminated.

Ltac calls_leaf :=
  intros ?; unfold in_classes, log_class; cbn [log_call class_of log_type]; repeat first [by left|right].

(** One structural step; a method of the program is closed by its lemma in [calls]. *)
Ltac calls_step :=
  lazymatch goal with
  | |- only_calls _ (mret _) => apply only_calls_ret
  | |- only_calls _ (mfail _) => apply only_calls_fail
  | |- only_calls _ (mdone _) => apply only_calls_done
  | |- only_calls _ mget => apply only_calls_get
  | |- only_calls _ (mmodify _) => apply only_calls_modify
  | |- only_calls _ mcrash => apply only_calls_crash
  | |- only_calls _ (mderef _) => apply only_calls_deref
  | |- only_calls _ (mcall _) => apply only_calls_call
  | |- only_calls _ (minvoke _ _) => apply only_calls_invoke
  | |- only_calls _ (akcall _) => unfold akcall; apply only_calls_invoke
  | |- only_calls _ (kubecall _) => unfold kubecall; apply only_calls_invoke
  | |- only_calls _ (mbind _ _) => apply only_calls_bind; [|intros ?]
  | |- only_calls _ (mtry _) => apply only_calls_try
  | |- only_calls _ (mwrap _ _) => apply only_calls_wrap
  | |- only_calls _ (mfor _ _) => apply only_calls_for; intros ? ?
  | |- only_calls _ (mfold _ _ _) => apply only_calls_fold; intros ? ? ?
  | |- only_calls _ (mzoom _ _ _) => apply only_calls_zoom
  | |- only_calls _ (match ?x with _ => _ end) => destruct x
  | |- only_calls _ (let '_ := ?x in _) => destruct x
  | |- only_calls (in_classes _) _ => eapply only_calls_classes; [|solve [eauto with calls nocore]]; [vm_compute; reflexivity]
  end.

Ltac calls_auto := repeat calls_step; try calls_leaf.

(** ** Results and calls together *)

Lemma only_calls_any {S A} (m : M call S A) : only_calls (fun _ => True) m.
Proof.
  intros s w. unfold mwp. generalize (m s) as p. intros p. revert w.
  induction p as [[s' r]|R c k IH|]; intros w; simpl; [|split; [done|]|done].
  - exists []. rewrite app_nil_r. done.
  - intros r w' [_ ->]. eapply wp_mono; [|apply IH]. intros [s' a] w' (l & -> & _).
    exists (mkLogged c r :: l). rewrite <- app_assoc. split; [done|]. by apply Forall_forall.
Qed.

(** The value returned by [m] satisfies [P]. *)
Definition returns {S A} (m : M call S A) (P : A -> Prop) : Prop :=
  forall s w, mwp any_env m s w (fun _ r _ => match r with Ok a => P a | Err _ => True end).

Lemma only_calls_bind_returns {S A B} allowed (P : A -> Prop) (m : M call S A) (f : A -> M call S B) :
  only_calls allowed m -> returns m P -> (forall a, P a -> only_calls allowed (f a)) -> only_calls allowed (mbind m f).
Proof.
  intros Hm HP Hf s w. apply mwp_bind. eapply mwp_mono; [apply mwp_and; [apply Hm|apply HP]|].
  intros s' [a|e] w' [(l & -> & Hl) Ha]; [|eauto]. eapply mwp_mono; [by apply Hf|].
  intros s'' r w'' (l' & -> & Hl'). exists (l ++ l'). rewrite app_assoc. split; [done|]. by apply Forall_app.
Qed.

(** ** Errors that report that nothing was written *)

(** The errors other than those of the services and the unmanaged Bindings of a public Application. *)
Definition quiet_error (e : error) : bool :=
  match errors_as as_stop_error e with
  | Some (reason, _) => negb (bool_decide (reason = ReasonUnmanagedBindings))
  | None => match errors_as as_reference_error e with Some _ => true | None => false end
  end.

(** Calls that do not change the Applications, Providers, Bindings and Outposts of authentik. *)
Definition harmless : list call_class := [Reads; Roles; Marks; KubeWrites].

(** The errors by which a reconcile refuses to manage the Application. *)
Definition refusals : list string := [ReasonConflict; ReasonUnmanaged; ReasonAdoptionDiff].

Definition refusal (e : error) : bool :=
  match errors_as as_stop_error e with Some (reason, _) => bool_decide (reason ∈ refusals) | None => false end.

(** The calls made before such an error: reads, the ownership role, events and the work queue. No marker is attached
    and no status is written. *)
Definition deciding (e : logged call) : Prop :=
  in_classes [Reads; Roles] e \/ match e.(log_call) with Eventf _ | SendRoleEvents _ => True | _ => False end.

(** A kind of errors that the services do not return, whatever message is put around them. *)
Class ErrorKind (P : error -> bool) : Prop := {
  kind_client e : P (ClientError e) = false;
  kind_kube e : P (KubeAPIError e) = false;
  kind_wrapped prefix e : P (Wrapped prefix e) = P e;
}.

#[export] Instance quiet_error_kind : ErrorKind quiet_error.
Proof. by split. Qed.

#[export] Instance refusal_kind : ErrorKind refusal.
Proof. by split. Qed.

Lemma refusal_quiet e : refusal e = true -> quiet_error e = true.
Proof.
  unfold refusal, quiet_error. destruct (errors_as as_stop_error e) as [[reason message]|]; [|done].
  intros Hr%bool_decide_eq_true. rewrite bool_decide_false; [done|]. intros ->. revert Hr. unfold refusals. set_solver.
Qed.

(** No error of [m] is of the kind. *)
Definition avoids (P : error -> bool) {S A} (m : M call S A) : Prop :=
  forall s w, mwp any_env m s w (fun _ r _ => match r with Ok _ => True | Err e => P e = false end).

(** An error of the kind means that only the allowed calls were made. *)
Definition excuses (P : error -> bool) (allowed : logged call -> Prop) {S A} (m : M call S A) : Prop :=
  forall s w, mwp any_env m s w (fun _ r w' => exists l, w' = w ++ l /\
    forall e, r = Err e -> P e = true -> Forall allowed l).

Abbreviation ordinary m := (avoids quiet_error m) (only parsing).
Abbreviation quiet m := (excuses quiet_error (in_classes harmless) m) (only parsing).

Section avoids.
Context (P : error -> bool) {S : Type}.

Lemma avoids_weaken (Q : error -> bool) {A} (m : M call S A) :
  (forall e, P e = true -> Q e = true) -> avoids Q m -> avoids P m.
Proof.
  intros HPQ Hm s w. eapply mwp_mono; [apply Hm|]. intros s' [a|e] w' He; [done|].
  destruct (P e) eqn:E; [|done]. apply HPQ in E. congruence.
Qed.

Lemma avoids_ret {A} (a : A) : avoids (S := S) P (mret a).
Proof. done. Qed.
Lemma avoids_get : avoids (S := S) P mget.
Proof. done. Qed.
Lemma avoids_modify f : avoids (S := S) P (mmodify f).
Proof. done. Qed.
Lemma avoids_fail {A} e : P e = false -> avoids (S := S) (A := A) P (mfail e).
Proof. by intros ? ? ?. Qed.
Lemma avoids_deref {A} (p : option A) : avoids (S := S) P (mderef p).
Proof. by destruct p. Qed.
Lemma avoids_call {A} (c : call A) : avoids (S := S) P (mcall c).
Proof. by intros ? ?. Qed.

Lemma avoids_bind {A B} (m : M call S A) (f : A -> M call S B) :
  avoids P m -> (forall a, avoids P (f a)) -> avoids P (mbind m f).
Proof.
  intros Hm Hf s w. apply mwp_bind. eapply mwp_mono; [apply Hm|]. intros s' [a|e] w' He; [apply Hf|done].
Qed.

Lemma avoids_bind_returns {A B} (R : A -> Prop) (m : M call S A) (f : A -> M call S B) :
  avoids P m -> returns m R -> (forall a, R a -> avoids P (f a)) -> avoids P (mbind m f).
Proof.
  intros Hm HR Hf s w. apply mwp_bind. eapply mwp_mono; [apply mwp_and; [apply Hm|apply HR]|].
  intros s' [a|e] w' [He Ha]; [by apply Hf|done].
Qed.

(** An error that is inspected is one of the errors of [m]. *)
Lemma avoids_bind_try {A B} (m : M call S A) (f : result A -> M call S B) :
  avoids P m -> (forall a, avoids P (f (Ok a))) -> (forall e, P e = false -> avoids P (f (Err e))) ->
  avoids P (mbind (mtry m) f).
Proof.
  intros Hm Ha He s w. apply mwp_bind, mwp_try. eapply mwp_mono; [apply Hm|].
  intros s' [a|e] w' Hq; [apply Ha|by apply He].
Qed.

Lemma avoids_for {A} (xs : list A) (body : A -> M call S ()) :
  (forall x, avoids P (body x)) -> avoids P (mfor xs body).
Proof. intros Hb. induction xs as [|x xs IH]; simpl; [done|]. by apply avoids_bind. Qed.

Lemma avoids_fold {A B} (xs : list A) (acc : B) (body : B -> A -> M call S B) :
  (forall acc x, avoids P (body acc x)) -> avoids P (mfold xs acc body).
Proof. intros Hb. revert acc. induction xs as [|x xs IH]; intros acc; simpl; [done|]. by apply avoids_bind. Qed.

Lemma avoids_zoom {T A} (get : S -> T) (put : T -> S -> S) (m : M call T A) : avoids P m -> avoids P (mzoom get put m).
Proof. intros Hm s w. apply mwp_zoom, Hm. Qed.

Context `{!ErrorKind P}.

Lemma avoids_akcall {A} (c : call (ak A)) : avoids (S := S) P (akcall c).
Proof. intros s w. apply mwp_invoke; [done|]. intros [a|e] w' _; [done|]. apply kind_client. Qed.
Lemma avoids_kubecall {A} (c : call (kube A)) : avoids (S := S) P (kubecall c).
Proof. intros s w. apply mwp_invoke; [done|]. intros [a|e] w' _; [done|]. apply kind_kube. Qed.
Lemma avoids_wrap {A} prefix (m : M call S A) : avoids P m -> avoids P (mwrap prefix m).
Proof.
  intros Hm. apply avoids_bind_try; [done|intros; apply avoids_ret|intros; apply avoids_fail]. by rewrite kind_wrapped.
Qed.
End avoids.

Section excuses.
Context (P : error -> bool) (allowed : logged call -> Prop) {S : Type}.

Lemma excuses_of_avoids {A} (m : M call S A) : avoids P m -> excuses P allowed m.
Proof.
  intros Hm s w. eapply mwp_mono; [apply mwp_and; [apply Hm|apply only_calls_any]|].
  intros s' r w' [Hr (l & -> & _)]. exists l. split; [done|]. intros e -> He. congruence.
Qed.

Lemma excuses_of_calls {A} (m : M call S A) : only_calls allowed m -> excuses P allowed m.
Proof. intros Hm s w. eapply mwp_mono; [apply Hm|]. intros s' r w' (l & -> & Hl). by exists l. Qed.

(** Allowed calls before a method that excuses its errors. *)
Lemma excuses_bind_returns {A B} (R : A -> Prop) (m : M call S A) (f : A -> M call S B) :
  only_calls allowed m -> returns m R -> (forall a, R a -> excuses P allowed (f a)) -> excuses P allowed (mbind m f).
Proof.
  intros Hm HR Hf s w. apply mwp_bind. eapply mwp_mono; [apply mwp_and; [apply Hm|apply HR]|].
  intros s' [a|e] w' [(l & -> & Hl) Ha]; [|by exists l].
  eapply mwp_mono; [by apply Hf|]. intros s'' r w'' (l' & -> & Hl'). exists (l ++ l'). rewrite app_assoc.
  split; [done|]. intros e He Hq. apply Forall_app. eauto.
Qed.

Lemma excuses_bind {A B} (m : M call S A) (f : A -> M call S B) :
  only_calls allowed m -> (forall a, excuses P allowed (f a)) -> excuses P allowed (mbind m f).
Proof.
  intros Hm Hf. apply (excuses_bind_returns (fun _ => True)); [done| |auto].
  intros s w. eapply mwp_mono; [apply Hm|]. by intros s' [a|e] w'.
Qed.

(** A method that excuses its errors before one that has none of the kind. *)
Lemma excuses_bind_avoids {A B} (m : M call S A) (f : A -> M call S B) :
  excuses P allowed m -> (forall a, avoids P (f a)) -> excuses P allowed (mbind m f).
Proof.
  intros Hm Hf s w. apply mwp_bind. eapply mwp_mono; [apply Hm|]. intros s' [a|e] w' (l & -> & Hl).
  - eapply mwp_mono; [apply mwp_and; [apply Hf|apply only_calls_any]|].
    intros s'' r w'' [Hr (l' & -> & _)]. exists (l ++ l'). rewrite app_assoc. split; [done|].
    intros e -> He. congruence.
  - exists l. split; [done|]. intros e' [= <-]. by apply Hl.
Qed.
End excuses.

(** Lemmas of the form [ordinary method]. *)
Create HintDb ordinary discriminated.

Ltac avoids_step :=
  lazymatch goal with
  | |- avoids _ (mret _) => apply avoids_ret
  | |- avoids _ mget => apply avoids_get
  | |- avoids _ (mmodify _) => apply avoids_modify
  | |- avoids _ (mfail _) => apply avoids_fail
  | |- avoids _ mcrash => done
  | |- avoids _ (mderef _) => apply avoids_deref
  | |- avoids _ (mcall _) => apply avoids_call
  | |- avoids _ (akcall _) => apply avoids_akcall; apply _
  | |- avoids _ (kubecall _) => apply avoids_kubecall; apply _
  | |- avoids _ (mbind (mtry _) _) => apply avoids_bind_try; [|intros ?|intros ? ?]
  | |- avoids _ (mbind _ _) => apply avoids_bind; [|intros ?]
  | |- avoids _ (mwrap _ _) => apply avoids_wrap; [apply _|]
  | |- avoids _ (mfor _ _) => apply avoids_for; intros ?
  | |- avoids _ (mfold _ _ _) => apply avoids_fold; intros ? ?
  | |- avoids _ (mzoom _ _ _) => apply avoids_zoom
  | |- avoids _ (match ?x with _ => _ end) => destruct x
  | |- avoids _ (let '_ := ?x in _) => destruct x
  | |- avoids quiet_error _ => solve [eauto with ordinary nocore]
  | |- avoids refusal _ => eapply avoids_weaken; [exact refusal_quiet|]; solve [eauto with ordinary nocore]
  end.

Ltac avoids_auto := repeat avoids_step; try assumption; try reflexivity.

(** ** Calls in two phases *)

(** Every call of the first phase is in [P], every call of the second in [Q]. *)
Definition phased {S A} (P Q : logged call -> Prop) (m : M call S A) : Prop :=
  forall s w, mwp any_env m s w (fun _ _ w' => exists l1 l2, w' = w ++ l1 ++ l2 /\ Forall P l1 /\ Forall Q l2).

Lemma phased_first {S A} P Q (m : M call S A) : only_calls P m -> phased P Q m.
Proof. intros Hm s w. eapply mwp_mono; [apply Hm|]. intros _ _ w' (l & -> & Hl). exists l, []. by rewrite app_nil_r. Qed.

Lemma phased_second {S A} P Q (m : M call S A) : only_calls Q m -> phased P Q m.
Proof. intros Hm s w. eapply mwp_mono; [apply Hm|]. intros _ _ w' (l & -> & Hl). by exists [], l. Qed.

Lemma phased_bind {S A B} P Q (m : M call S A) (f : A -> M call S B) :
  only_calls P m -> (forall a, phased P Q (f a)) -> phased P Q (mbind m f).
Proof.
  intros Hm Hf s w. apply mwp_bind. eapply mwp_mono; [apply Hm|]. intros s' [a|e] w' (l & -> & Hl).
  - eapply mwp_mono; [apply Hf|]. intros _ _ w'' (l1 & l2 & -> & H1 & H2). exists (l ++ l1), l2.
    rewrite <- !app_assoc. split_and!; [done|by apply Forall_app|done].
  - exists l, []. by rewrite app_nil_r.
Qed.

(** ** Returned values *)

Section returns.
Context {S : Type}.

Lemma returns_ret {A} (a : A) (P : A -> Prop) : P a -> returns (S := S) (mret a) P.
Proof. by intros ? ? ?. Qed.

Lemma returns_fail {A} e (P : A -> Prop) : returns (S := S) (mfail e) P.
Proof. done. Qed.

Lemma returns_deref {A} (p : option A) (P : A -> Prop) : (forall a, p = Some a -> P a) -> returns (S := S) (mderef p) P.
Proof. intros HP s w. by apply mwp_deref_crash. Qed.

Lemma returns_bind {A B} (m : M call S A) (f : A -> M call S B) P Q :
  returns m P -> (forall a, P a -> returns (f a) Q) -> returns (mbind m f) Q.
Proof.
  intros Hm Hf s w. apply mwp_bind. eapply mwp_mono; [apply Hm|]. intros s' [a|e] w' Ha; [by apply Hf|done].
Qed.

Lemma returns_top {A} (m : M call S A) : returns m (fun _ => True).
Proof. intros s w. eapply mwp_mono; [apply only_calls_any|]. by intros s' [a|e] w'. Qed.

Lemma returns_skip {A B} (m : M call S A) (f : A -> M call S B) Q :
  (forall a, returns (f a) Q) -> returns (mbind m f) Q.
Proof. intros Hf. eapply returns_bind; [apply returns_top|auto]. Qed.

Lemma returns_fold {A B} (P : B -> Prop) (xs : list A) (acc : B) (body : B -> A -> M call S B) :
  P acc -> (forall acc x, x ∈ xs -> P acc -> returns (body acc x) P) -> returns (mfold xs acc body) P.
Proof.
  revert acc. induction xs as [|x xs IH]; intros acc Ha Hb; simpl; [by apply returns_ret|].
  eapply returns_bind; [apply Hb; [by left|done]|]. intros acc' Ha'. apply IH; [done|]. intros. apply Hb; [by right|done].
Qed.

Lemma returns_try {A} (m : M call S A) P :
  returns m P -> returns (mtry m) (fun r => match r with Ok a => P a | Err _ => True end).
Proof. intros Hm s w. apply mwp_try. eapply mwp_mono; [apply Hm|]. done. Qed.
End returns.

Ltac returns_step :=
  lazymatch goal with
  | |- returns (mret _) _ => apply returns_ret
  | |- returns (mfail _) _ => apply returns_fail
  | |- returns mcrash _ => done
  | |- returns (mbind _ _) _ => apply returns_skip; intros ?
  | |- returns (match ?x with _ => _ end) _ => destruct x
  | |- returns (let '_ := ?x in _) _ => destruct x
  end.

(** ** Calls that depend on the answers before them *)

(** Every call is allowed after the calls before it. *)
Definition obeyed (allowed : list (logged call) -> logged call -> Prop) (l : list (logged call)) : Prop :=
  forall h e t, l = h ++ e :: t -> allowed h e.

(** What is allowed after some calls is allowed after more. *)
Class Prefixable (allowed : list (logged call) -> logged call -> Prop) : Prop :=
  allowed_prefix h0 h e : allowed h e -> allowed (h0 ++ h) e.

Lemma obeyed_nil allowed : obeyed allowed [].
Proof. by intros [] ? ?. Qed.

Lemma obeyed_snoc allowed l e : obeyed allowed l -> allowed l e -> obeyed allowed (l ++ [e]).
Proof.
  intros Hl He h e' t Heq. destruct (decide (t = [])) as [->|Ht].
  - apply app_inj_2 in Heq as [-> [= <-]]; done.
  - destruct (exists_last Ht) as (t' & x & ->). rewrite app_comm_cons, app_assoc in Heq.
    apply app_inj_2 in Heq as [-> _]; [|done]. by eapply Hl.
Qed.

Lemma obeyed_one allowed e : allowed [] e -> obeyed allowed [e].
Proof. intros He. by apply (obeyed_snoc _ []); [apply obeyed_nil|]. Qed.

Lemma obeyed_app allowed `{!Prefixable allowed} l1 l2 : obeyed allowed l1 -> obeyed allowed l2 -> obeyed allowed (l1 ++ l2).
Proof.
  intros H1 H2. induction l2 as [|e l2 IH] using rev_ind; [by rewrite app_nil_r|]. rewrite app_assoc. apply obeyed_snoc.
  - apply IH. intros h e' t ->. eapply H2. by rewrite <- app_assoc.
  - apply allowed_prefix. by apply (H2 l2 e []).
Qed.

(** From a memory that satisfies [I], the calls of [m] follow one another as allowed, and [I] is kept. *)
Definition obeys {S A} (I : S -> Prop) (allowed : list (logged call) -> logged call -> Prop) (m : M call S A) : Prop :=
  forall s w, I s -> mwp any_env m s w (fun s' _ w' => I s' /\ exists l, w' = w ++ l /\ obeyed allowed l).

Section obeys.
Context {S : Type} (I : S -> Prop) (allowed : list (logged call) -> logged call -> Prop) `{!Prefixable allowed}.

Lemma obeys_none {A} (m : M call S A) s w (r : result A) :
  m s = Ret (s, r) -> I s -> mwp any_env m s w (fun s' _ w' => I s' /\ exists l, w' = w ++ l /\ obeyed allowed l).
Proof. intros Hm Hs. unfold mwp. rewrite Hm. split; [done|]. exists []. rewrite app_nil_r. split; [done|apply obeyed_nil]. Qed.

Lemma obeys_ret {A} (a : A) : obeys I allowed (mret a).
Proof. intros s w. by eapply obeys_none. Qed.
Lemma obeys_fail {A} e : obeys I allowed (mfail (A := A) e).
Proof. intros s w. by eapply obeys_none. Qed.
Lemma obeys_get : obeys I allowed mget.
Proof. intros s w. by eapply obeys_none. Qed.
Lemma obeys_deref {A} (p : option A) : obeys I allowed (mderef p).
Proof. destruct p; [apply obeys_ret|by intros s w _]. Qed.

Lemma obeys_call {A} (c : call A) : (forall r, allowed [] (mkLogged c r)) -> obeys I allowed (mcall c).
Proof.
  intros Hc s w Hs. apply mwp_call; [done|]. intros r w' [_ ->]. split; [done|]. eexists. split; [done|]. by apply obeyed_one.
Qed.
Lemma obeys_invoke {A E} (inject : E -> error) (c : call (A + E)) :
  (forall r, allowed [] (mkLogged c r)) -> obeys I allowed (minvoke inject c).
Proof.
  intros Hc s w Hs. apply mwp_invoke; [done|]. intros r w' [_ ->]. split; [done|]. eexists. split; [done|]. by apply obeyed_one.
Qed.

Lemma obeys_bind_returns {A B} (R : A -> Prop) (m : M call S A) (f : A -> M call S B) :
  obeys I allowed m -> returns m R -> (forall a, R a -> obeys I allowed (f a)) ->
  obeys I allowed (mbind m f).
Proof.
  intros Hm HR Hf s w Hs. apply mwp_bind. eapply mwp_mono; [apply mwp_and; [by apply Hm|apply HR]|].
  intros s' [a|e] w' [[Hs' (l & -> & Hl)] Ha]; [|eauto]. eapply mwp_mono; [by apply Hf|].
  intros s'' r w'' (Hs'' & l' & -> & Hl'). split; [done|]. exists (l ++ l'). rewrite app_assoc. split; [done|]. by apply obeyed_app.
Qed.

Lemma obeys_bind {A B} (m : M call S A) (f : A -> M call S B) :
  obeys I allowed m -> (forall a, obeys I allowed (f a)) -> obeys I allowed (mbind m f).
Proof.
  intros Hm Hf s w Hs. apply mwp_bind. eapply mwp_mono; [by apply Hm|].
  intros s' [a|e] w' [Hs' (l & -> & Hl)]; [|eauto]. eapply mwp_mono; [by apply Hf|].
  intros s'' r w'' (Hs'' & l' & -> & Hl'). split; [done|]. exists (l ++ l'). rewrite app_assoc. split; [done|]. by apply obeyed_app.
Qed.

Lemma obeys_try {A} (m : M call S A) : obeys I allowed m -> obeys I allowed (mtry m).
Proof. intros Hm s w Hs. by apply mwp_try, Hm. Qed.

Lemma obeys_for {A} (xs : list A) (body : A -> M call S ()) :
  (forall x, x ∈ xs -> obeys I allowed (body x)) -> obeys I allowed (mfor xs body).
Proof.
  induction xs as [|x xs IH]; intros Hb; simpl; [apply obeys_ret|].
  apply obeys_bind; [apply Hb; by left|]. intros _. apply IH. intros y Hy. apply Hb. by right.
Qed.

Lemma obeys_fold {A B} (xs : list A) (acc : B) (body : B -> A -> M call S B) :
  (forall acc x, x ∈ xs -> obeys I allowed (body acc x)) -> obeys I allowed (mfold xs acc body).
Proof.
  revert acc. induction xs as [|x xs IH]; intros acc Hb; simpl; [apply obeys_ret|].
  apply obeys_bind; [apply Hb; by left|]. intros acc'. apply IH. intros acc2 y Hy. apply Hb. by right.
Qed.

Lemma obeys_zoom {T A} (get : S -> T) (put : T -> S -> S) (J : T -> Prop) (m : M call T A) :
  (forall s, I s -> J (get s)) -> (forall t s, J t -> I s -> I (put t s)) ->
  obeys J allowed m -> obeys I allowed (mzoom get put m).
Proof.
  intros Hg Hp Hm s w Hs. apply mwp_zoom. eapply mwp_mono; [by apply Hm, Hg|]. intros t r w' [Ht Hl]. eauto.
Qed.

Lemma obeys_wrap {A} prefix (m : M call S A) : obeys I allowed m -> obeys I allowed (mwrap prefix m).
Proof.
  intros Hm. apply obeys_bind; [by apply obeys_try|]. intros []; [apply obeys_ret|apply obeys_fail].
Qed.
End obeys.

(** One structural step; the calls and the loops over methods of the program are left. *)
Ltac obeys_step :=
  lazymatch goal with
  | |- obeys _ _ (mret _) => apply obeys_ret
  | |- obeys _ _ (mfail _) => apply obeys_fail
  | |- obeys _ _ mget => apply obeys_get
  | |- obeys _ _ (mderef _) => apply obeys_deref
  | |- obeys _ _ (mcall _) => apply obeys_call
  | |- obeys _ _ (minvoke _ _) => apply obeys_invoke
  | |- obeys _ _ (akcall _) => unfold akcall; apply obeys_invoke
  | |- obeys _ _ (mbind _ _) => apply obeys_bind; [apply _| |intros ?]
  | |- obeys _ _ (mtry _) => apply obeys_try
  | |- obeys _ _ (mwrap _ _) => apply obeys_wrap; [apply _|]
  | |- obeys _ _ (match ?x with _ => _ end) => destruct x
  end.
