(* ===== verification/CallBounds.v ===== *)
(** * The calls of every method

    For each method of the operator, the classes of the calls that it makes whatever the services answer. *)
From S2P Require Import Prelude Errors Effects Api Crd Patch Interface Marker MarkerCache Reference Desired.
From S2P Require Import State FieldDiffs Provider Conflict Bindings Application Reconcile Calls.

Abbreviation calls_in cs m := (only_calls (in_classes cs) m) (only parsing).

(** ** Markers *)

Lemma calls_findRole : calls_in [Reads] findRole.
Proof. unfold findRole. calls_auto. Qed.
#[export] Hint Resolve calls_findRole : calls.

Lemma calls_findOrCreateRole : calls_in [Reads; Roles] findOrCreateRole.
Proof. unfold findOrCreateRole. calls_auto. Qed.
#[export] Hint Resolve calls_findOrCreateRole : calls.

Lemma calls_EnsureRole : calls_in [Reads; Roles] EnsureRole.
Proof. unfold EnsureRole. calls_auto. Qed.
#[export] Hint Resolve calls_EnsureRole : calls.

Lemma calls_role : calls_in [Reads; Roles] role.
Proof. unfold role. calls_auto. Qed.
#[export] Hint Resolve calls_role : calls.

Lemma calls_Mark o : calls_in [Reads; Roles; Marks] (Mark o).
Proof. unfold Mark. calls_auto. Qed.
Lemma calls_MarkIfExists o : calls_in [Reads; Roles; Marks] (MarkIfExists o).
Proof. unfold MarkIfExists. calls_auto. Qed.
Lemma calls_Unmark o : calls_in [Reads; Roles; Marks] (Unmark o).
Proof. unfold Unmark. calls_auto. Qed.
Lemma calls_IsManaged o : calls_in [Reads; Roles] (IsManaged o).
Proof. unfold IsManaged. calls_auto. Qed.
Lemma calls_ListManaged : calls_in [Reads; Roles] ListManaged.
Proof. unfold ListManaged. calls_auto. Qed.
#[export] Hint Resolve calls_Mark calls_MarkIfExists calls_Unmark calls_IsManaged calls_ListManaged : calls.

(** ** The marker cache *)

Lemma calls_refreshLocked : calls_in [Reads; Roles; KubeWrites] refreshLocked.
Proof. unfold refreshLocked, fresh, requeueAll, with_marker. calls_auto. Qed.
#[export] Hint Resolve calls_refreshLocked : calls.

Lemma calls_contains o : calls_in [Reads; Roles; KubeWrites] (contains o).
Proof. unfold contains. calls_auto. Qed.
Lemma calls_isManaged o : calls_in [Reads; Roles; KubeWrites] (isManaged o).
Proof. unfold isManaged, with_marker, put_object. calls_auto. Qed.
Lemma calls_ensure o : calls_in [Reads; Roles; Marks; KubeWrites] (ensure o).
Proof. unfold ensure, with_marker, put_object. calls_auto. Qed.
Lemma calls_remove o : calls_in [Reads; Roles; Marks] (remove o).
Proof. unfold remove, with_marker, delete_object. calls_auto. Qed.
Lemma calls_removeIfOrphaned o : calls_in [Reads; Roles; Marks] (removeIfOrphaned o).
Proof. unfold removeIfOrphaned, with_marker, delete_object. calls_auto. Qed.
#[export] Hint Resolve calls_contains calls_isManaged calls_ensure calls_remove calls_removeIfOrphaned : calls.

Lemma calls_collect : calls_in [Reads; Roles; Marks; KubeWrites] collect.
Proof. unfold collect. calls_auto. Qed.

Lemma calls_markers {A} cs (m : M call markerCache A) : calls_in cs m -> calls_in cs (markers m).
Proof. apply only_calls_zoom. Qed.
#[export] Hint Resolve calls_markers : calls.

(** ** References *)

Lemma calls_getOne {T} path target (get : M call collector T) cs : calls_in cs get -> calls_in cs (getOne path target get).
Proof. intros H. unfold getOne, collector_add. repeat calls_step; done. Qed.

Lemma calls_findOne {T} path target (find : M call collector (list T)) cs :
  calls_in cs find -> calls_in cs (findOne path target find).
Proof. intros H. unfold findOne, collector_add. repeat calls_step; done. Qed.
#[export] Hint Resolve calls_getOne calls_findOne : calls.

(** The lookups of a kind of object are reads. *)
Class ReadLookup {T} (lookup : stringLookup T) : Prop := {
  lookup_get_reads s : class_of (lookup.(lookup_get) s) = Reads;
  lookup_find_reads s : class_of (lookup.(lookup_find) s) = Reads;
}.

#[export] Instance flowLookup_reads : ReadLookup flowLookup. Proof. done. Qed.
#[export] Instance keyPairLookup_reads : ReadLookup keyPairLookup. Proof. done. Qed.
#[export] Instance outpostLookup_reads : ReadLookup outpostLookup. Proof. done. Qed.
#[export] Instance scopeMappingLookup_reads : ReadLookup scopeMappingLookup. Proof. done. Qed.
#[export] Instance groupLookup_reads : ReadLookup groupLookup. Proof. done. Qed.
#[export] Instance policyLookup_reads : ReadLookup policyLookup. Proof. done. Qed.

Lemma calls_akcall {S A} (c : call (ak A)) : class_of c = Reads -> calls_in [Reads] (akcall (S := S) c).
Proof. intros H. apply only_calls_invoke. intros r. unfold in_classes, log_class. simpl. rewrite H. by left. Qed.

#[export] Hint Extern 1 (only_calls _ (akcall _)) => apply calls_akcall; reflexivity : calls.

Lemma calls_resolveByString {T} path (lookup : stringLookup T) `{!ReadLookup lookup} uuid key :
  calls_in [Reads] (resolveByString path lookup uuid key).
Proof.
  unfold resolveByString. apply only_calls_bind; [|intros []; calls_auto]. destruct uuid.
  - apply calls_getOne, calls_akcall, lookup_get_reads.
  - apply only_calls_bind; [calls_auto|]. intros k. apply calls_findOne, calls_akcall, lookup_find_reads.
Qed.
#[export] Hint Resolve calls_resolveByString : calls.
#[export] Hint Extern 1 (ReadLookup _) => typeclasses eauto : calls.

Lemma calls_resolveNamed {T} path (lookup : stringLookup T) `{!ReadLookup lookup} ref :
  calls_in [Reads] (resolveNamed path lookup ref).
Proof. unfold resolveNamed. calls_auto. Qed.
#[export] Hint Resolve calls_resolveNamed : calls.

Lemma calls_resolve_each {X Y} i (xs : list X) (resolve : nat -> X -> M call collector Y) cs :
  (forall i x, calls_in cs (resolve i x)) -> calls_in cs (resolve_each i xs resolve).
Proof.
  intros H. revert i. induction xs as [|x xs IH]; intros i; simpl; [calls_auto|].
  apply only_calls_bind; [done|]. intros y. apply only_calls_bind; [done|]. intros ys. calls_auto.
Qed.

Lemma calls_resolveFlows flows : calls_in [Reads] (resolveFlows flows).
Proof. unfold resolveFlows. calls_auto. Qed.
Lemma calls_resolveProxy proxy : calls_in [Reads] (resolveProxy proxy).
Proof. unfold resolveProxy. calls_auto. Qed.
Lemma calls_resolveCredentials namespace spec : calls_in [Reads] (resolveCredentials namespace spec).
Proof. unfold resolveCredentials, readKey, collector_add. calls_auto. Qed.
#[export] Hint Resolve calls_resolveFlows calls_resolveProxy calls_resolveCredentials : calls.

Lemma calls_resolveOAuth2 namespace oauth2 : calls_in [Reads] (resolveOAuth2 namespace oauth2).
Proof.
  unfold resolveOAuth2. apply only_calls_bind; [|intros ?; calls_auto].
  destruct oauth2.(OAuth2_Scopes); [|calls_auto]. apply only_calls_bind; [|intros ?; calls_auto].
  apply calls_resolve_each. intros i x. calls_auto.
Qed.
Lemma calls_resolveUser path ref : calls_in [Reads] (resolveUser path ref).
Proof.
  unfold resolveUser, collector_add. apply only_calls_bind; [|intros ?; calls_auto].
  destruct ref.(UserReference_PK).
  - case_decide; calls_auto.
  - calls_auto.
Qed.
#[export] Hint Resolve calls_resolveOAuth2 calls_resolveUser : calls.
Lemma calls_resolveRule path rule : calls_in [Reads] (resolveRule path rule).
Proof. unfold resolveRule. calls_auto. Qed.
Lemma calls_resolveDefaultScopeMapping name : calls_in [Reads] (resolveDefaultScopeMapping name).
Proof. unfold resolveDefaultScopeMapping, collector_add. calls_auto. Qed.
#[export] Hint Resolve calls_resolveRule calls_resolveDefaultScopeMapping : calls.

Lemma calls_Resolve {S} app : calls_in [Reads] (Resolve (S := S) app).
Proof.
  apply only_calls_zoom. unfold resolve_spec, finish_resolution, resolve_parts, resolve_provider.
  apply only_calls_bind; [|intros ?; calls_auto]. apply only_calls_bind; [calls_auto|]. intros [[? ?] ?].
  apply only_calls_bind; [|intros ?; calls_auto]. apply calls_resolve_each. intros i x. calls_auto.
Qed.

Lemma calls_ResolveCreationDefaults {S} app : calls_in [Reads] (ResolveCreationDefaults (S := S) app).
Proof.
  apply only_calls_zoom. unfold resolve_defaults, finish_resolution.
  match goal with |- only_calls _ (match ?x with _ => _ end) => destruct x end; [|calls_auto].
  apply only_calls_bind; [|intros ?; apply only_calls_bind; [calls_auto|intros ?; calls_auto]].
  destruct (OAuth2_Scopes _); [calls_auto|]. apply only_calls_bind; [|intros ?; calls_auto].
  apply calls_resolve_each. intros. calls_auto.
Qed.
#[export] Hint Resolve calls_Resolve calls_ResolveCreationDefaults : calls.

(** ** The status and the conditions *)

Lemma calls_get_app : calls_in [] get_app.
Proof. unfold get_app. calls_auto. Qed.
Lemma calls_get_resolved : calls_in [] get_resolved.
Proof. unfold get_resolved. calls_auto. Qed.
Lemma calls_update_status f : calls_in [] (update_status f).
Proof. unfold update_status. calls_auto. Qed.
Lemma calls_record_event w r m : calls_in [KubeWrites] (record_event w r m).
Proof. unfold record_event. calls_auto. Qed.
Lemma calls_patchStatus : calls_in [KubeWrites] patchStatus.
Proof. unfold patchStatus. calls_auto. Qed.
#[export] Hint Resolve calls_get_app calls_get_resolved calls_update_status calls_record_event calls_patchStatus : calls.

Lemma calls_setCondition `{KubeLib} t s r m : calls_in [KubeWrites] (setCondition t s r m).
Proof. unfold setCondition. calls_auto. Qed.
#[export] Hint Resolve calls_setCondition : calls.

Lemma calls_ignoreNotFound {S} (m : M call S ()) cs : calls_in cs m -> calls_in cs (ignoreNotFound m).
Proof. intros Hm. unfold ignoreNotFound. repeat calls_step; done. Qed.

Lemma calls_checkConflict : calls_in [Reads] checkConflict.
Proof. unfold checkConflict. calls_auto. Qed.
#[export] Hint Resolve calls_checkConflict : calls.

(** ** Providers *)

Lemma calls_exists_object {T} (get : M call reconcileState T) cs : calls_in cs get -> calls_in cs (exists_object get).
Proof. intros Hg. unfold exists_object. repeat calls_step; done. Qed.

(** What the two handlers promise to [reconcileProvider]: the reads and the creation of a Provider. *)
Class HandlerCalls (h : providerHandler) : Prop := {
  get_reads pk : calls_in [Reads] (h.(handler_get) pk);
  findByName_reads name : calls_in [Reads] (h.(handler_findByName) name);
  exists_reads pk : calls_in [Reads] (h.(handler_existsAsOtherType) pk);
  create_writes name : calls_in [Reads; Writes] (h.(handler_create) name);
  create_quiet name : quiet (h.(handler_create) name);
}.

(** The Providers that a handler observes repair themselves by a method with the property [P]. *)
Class HandlerSync (P : M call reconcileState () -> Prop) (h : providerHandler) : Prop := {
  get_syncs pk : returns (h.(handler_get) pk) (fun p => P p.(observed_sync));
  findByName_syncs name : returns (h.(handler_findByName) name) (Forall (fun p => P p.(observed_sync)));
}.

#[export] Instance proxy_handler_calls `{ModelJSON} spec desired : HandlerCalls (proxyProviderHandler spec desired).
Proof.
  split; [intros pk|intros name|intros pk|intros name|intros name]; simpl.
  - calls_auto.
  - calls_auto.
  - apply calls_exists_object; calls_auto.
  - calls_auto.
  - apply excuses_of_avoids. avoids_auto.
Qed.

#[export] Instance oauth2_handler_calls `{ModelJSON} desired : HandlerCalls (oauth2ProviderHandler desired).
Proof.
  split; [intros pk|intros name|intros pk|intros name|intros name]; simpl.
  - calls_auto.
  - calls_auto.
  - apply calls_exists_object; calls_auto.
  - calls_auto.
  - apply excuses_bind; [calls_auto|]. intros app. apply excuses_bind; [calls_auto|]. intros defaults.
    apply excuses_of_avoids. avoids_auto.
Qed.

(** The repair of a Provider: one PATCH, whose error is that of the service. *)
Definition sync_ok (m : M call reconcileState ()) : Prop := calls_in [Writes] m /\ ordinary m.

Lemma proxy_sync_ok `{ModelJSON} spec desired p : sync_ok (observed_sync (proxy_observe spec desired p)).
Proof. split; cbn [observed_sync proxy_observe oauth2_observe]; [calls_auto|avoids_auto]. Qed.

Lemma oauth2_sync_ok `{ModelJSON} desired p : sync_ok (observed_sync (oauth2_observe desired p)).
Proof. split; cbn [observed_sync proxy_observe oauth2_observe]; [calls_auto|avoids_auto]. Qed.

#[export] Instance proxy_handler_sync `{ModelJSON} spec desired : HandlerSync sync_ok (proxyProviderHandler spec desired).
Proof.
  split; [intros pk s w|intros name s w]; simpl.
  - repeat go_step. destruct r; repeat go_step; [apply proxy_sync_ok|done].
  - repeat go_step. destruct r as [ps|]; repeat go_step; [|done].
    apply Forall_forall. intros p (x & -> & _)%list_elem_of_fmap. apply proxy_sync_ok.
Qed.

#[export] Instance oauth2_handler_sync `{ModelJSON} desired : HandlerSync sync_ok (oauth2ProviderHandler desired).
Proof.
  split; [intros pk s w|intros name s w]; simpl.
  - repeat go_step. destruct r; repeat go_step; [apply oauth2_sync_ok|done].
  - repeat go_step. destruct r as [ps|]; repeat go_step; [|done].
    apply Forall_forall. intros p (x & -> & _)%list_elem_of_fmap. apply oauth2_sync_ok.
Qed.

Definition handler_ok (h : providerHandler) : Prop := HandlerCalls h /\ HandlerSync sync_ok h.

Lemma returns_get_providerHandler `{ModelJSON} : returns get_providerHandler handler_ok.
Proof. unfold get_providerHandler. repeat returns_step; split; apply _. Qed.

Lemma calls_get_providerHandler `{ModelJSON} : calls_in [] get_providerHandler.
Proof. unfold get_providerHandler. calls_auto. Qed.
#[export] Hint Resolve calls_get_providerHandler : calls.

(** The optional Provider repairs itself by a method with the property. *)
Definition syncs (P : M call reconcileState () -> Prop) (provider : option observedProvider) : Prop :=
  forall p, provider = Some p -> P p.(observed_sync).

Section handlers.
Context (h : providerHandler) `{!HandlerCalls h}.

Lemma calls_get_if_found pk : calls_in [Reads] (get_if_found h pk).
Proof. pose proof (get_reads pk). unfold get_if_found. repeat calls_step; done. Qed.

Lemma calls_get_attached a pk : calls_in [Reads] (get_attached h a pk).
Proof. pose proof (calls_get_if_found pk). pose proof (exists_reads pk). unfold get_attached. repeat calls_step; done. Qed.

Lemma calls_find_by_name : calls_in [Reads] (find_by_name h).
Proof. pose proof findByName_reads. unfold find_by_name. calls_auto. Qed.

Lemma calls_find_attached_or_named a : calls_in [Reads] (find_attached_or_named h a).
Proof.
  pose proof calls_find_by_name. pose proof calls_get_attached. unfold find_attached_or_named. calls_auto.
Qed.

Lemma calls_findProvider a : calls_in [Reads; KubeWrites] (findProvider h a).
Proof.
  pose proof calls_get_if_found. pose proof calls_find_attached_or_named. unfold findProvider. calls_auto.
Qed.

Context (P : M call reconcileState () -> Prop) `{!HandlerSync P h}.

Lemma returns_get_if_found pk : returns (get_if_found h pk) (syncs P).
Proof.
  unfold get_if_found. eapply returns_bind; [apply returns_try, get_syncs|].
  intros [p|e] Hp; repeat returns_step; [by intros ? [= <-]|done].
Qed.

Lemma returns_find_by_name : returns (find_by_name h) (syncs P).
Proof.
  unfold find_by_name. apply returns_skip. intros app. apply returns_skip. intros name.
  eapply returns_bind; [apply findByName_syncs|]. intros ps Hps. repeat returns_step.
  intros p Hp. apply find_some in Hp as [Hin _]. apply list_elem_of_In in Hin.
  rewrite Forall_forall in Hps. by apply Hps.
Qed.

Lemma returns_find_attached_or_named a : returns (find_attached_or_named h a) (syncs P).
Proof.
  unfold find_attached_or_named. destruct (_ ≫= _) as [[app pk]|]; [|apply returns_find_by_name].
  eapply (returns_bind _ _ (syncs P)).
  - unfold get_attached. eapply returns_bind; [apply returns_get_if_found|]. intros [p|] Hp; repeat returns_step; done.
  - intros [p|] Hp; [by apply returns_ret|apply returns_find_by_name].
Qed.

Lemma returns_findProvider a : returns (findProvider h a) (syncs P).
Proof.
  unfold findProvider. apply returns_skip. intros app. destruct (Status_ProviderPK _); [|apply returns_find_attached_or_named].
  eapply returns_bind; [apply returns_get_if_found|]. intros [p|] Hp; repeat returns_step; [done|].
  apply returns_find_attached_or_named.
Qed.
End handlers.

Lemma calls_reconcileProvider `{ModelJSON} a : calls_in [Reads; Roles; Marks; Writes; KubeWrites] (reconcileProvider a).
Proof.
  unfold reconcileProvider.
  eapply only_calls_bind_returns; [calls_auto|apply returns_get_providerHandler|]. intros h [Hh Hs].
  eapply only_calls_bind_returns; [|by eapply returns_findProvider|].
  { eapply only_calls_classes; [|by apply calls_findProvider]. done. }
  intros p Hp. pose proof (create_writes (h := h)) as Hc.
  apply only_calls_bind; [destruct p; calls_auto|]. intros pk. apply only_calls_bind; [calls_auto|].
  intros app. apply only_calls_bind; [case_decide; calls_auto|]. intros [].
  apply only_calls_bind; [calls_auto|]. intros []. destruct p as [p|]; [|calls_auto].
  destruct (Hp p eq_refl). calls_auto.
Qed.
#[export] Hint Resolve calls_reconcileProvider : calls.

(** ** Outposts, credentials and Applications *)

Lemma calls_removeProviderFromOutpost {S} o pk : calls_in [Writes] (removeProviderFromOutpost (S := S) o pk).
Proof. unfold removeProviderFromOutpost. case_decide; [apply calls_ignoreNotFound|]; calls_auto. Qed.
#[export] Hint Resolve calls_removeProviderFromOutpost : calls.

Lemma calls_leaveOutpostByUUID {S} uuid pk : calls_in [Reads; Writes] (leaveOutpostByUUID (S := S) uuid pk).
Proof. unfold leaveOutpostByUUID. calls_auto. Qed.
#[export] Hint Resolve calls_leaveOutpostByUUID : calls.

Lemma calls_leaveOutpost {S} ref pk : calls_in [Reads; Writes] (leaveOutpost (S := S) ref pk).
Proof. unfold leaveOutpost. cbv zeta. calls_auto. Qed.
#[export] Hint Resolve calls_leaveOutpost : calls.

Lemma calls_reconcileOutpost pk : calls_in [Reads; Writes] (reconcileOutpost pk).
Proof. unfold reconcileOutpost. cbv zeta. calls_auto. Qed.
#[export] Hint Resolve calls_reconcileOutpost : calls.

Lemma calls_exportCredentials `{KubeLib} pk : calls_in [Reads; KubeWrites] (exportCredentials pk).
Proof. unfold exportCredentials. cbv zeta. calls_auto. Qed.
#[export] Hint Resolve calls_exportCredentials : calls.

Lemma calls_reconcile_provider `{KubeLib} `{ModelJSON} a :
  calls_in [Reads; Roles; Marks; Writes; KubeWrites] (reconcile_provider a).
Proof. unfold reconcile_provider. cbv zeta. calls_auto. Qed.
#[export] Hint Resolve calls_reconcile_provider : calls.

Lemma calls_attachedProvider `{ModelJSON} a : calls_in [Reads] (attachedProvider a).
Proof.
  unfold attachedProvider. apply only_calls_bind; [calls_auto|]. intros app.
  destruct (Spec_Provider _), (Nullable_Get a.(Application_Provider)) as [pk|]; try solve [calls_auto].
  eapply only_calls_bind_returns; [calls_auto|apply returns_get_providerHandler|].
  intros h [Hh _]. apply calls_get_attached, Hh.
Qed.
#[export] Hint Resolve calls_attachedProvider : calls.

Lemma calls_adoptApplication `{ModelJSON} a : calls_in [Reads; KubeWrites] (adoptApplication a).
Proof. unfold adoptApplication. cbv zeta. calls_auto. Qed.
#[export] Hint Resolve calls_adoptApplication : calls.

Lemma calls_observeApplication `{ModelJSON} : calls_in harmless observeApplication.
Proof. unfold observeApplication, ensure_application_marker, record_application. cbv zeta. calls_auto. Qed.
#[export] Hint Resolve calls_observeApplication : calls.

Lemma calls_reconcileApplication o pk : calls_in [Reads; Roles; Marks; Writes; KubeWrites] (reconcileApplication o pk).
Proof. unfold reconcileApplication, ensure_application_marker, record_application. cbv zeta. calls_auto. Qed.
#[export] Hint Resolve calls_reconcileApplication : calls.

(** ** Bindings *)

Lemma calls_managedBindings l : calls_in [Reads; Roles; Marks; KubeWrites] (managedBindings l).
Proof. unfold managedBindings. apply only_calls_fold. intros [[? ?] ?] b _. cbv zeta. calls_auto. Qed.
Lemma calls_adopt_bindings l k : calls_in [Reads; Roles; Marks; KubeWrites] (adopt_bindings l k).
Proof.
  revert k. induction l as [|[b|] l IH]; intros [|[b'|] k]; simpl; try solve [calls_auto].
Qed.
Lemma calls_sync_rule t acc i : calls_in [Reads; Roles; Marks; Writes; KubeWrites] (sync_rule t acc i).
Proof. unfold sync_rule, syncBinding. destruct acc, i as [r [b|]]; cbv zeta; calls_auto. Qed.
#[export] Hint Resolve calls_managedBindings calls_adopt_bindings calls_sync_rule : calls.

Lemma calls_deleteBinding u : calls_in [Reads; Roles; Marks; Unbinds] (deleteBinding u).
Proof.
  unfold deleteBinding. apply only_calls_bind; [apply calls_ignoreNotFound; calls_auto|]. intros []. calls_auto.
Qed.
#[export] Hint Resolve calls_deleteBinding : calls.
Lemma calls_delete_obsolete kept l : calls_in [Reads; Roles; Marks; Unbinds] (delete_obsolete kept l).
Proof. unfold delete_obsolete. calls_auto. Qed.
Lemma calls_describeSubject b : calls_in [Reads] (describeSubject b).
Proof. unfold describeSubject, describe_as. cbv zeta. calls_auto. Qed.
#[export] Hint Resolve calls_delete_obsolete calls_describeSubject : calls.
Lemma calls_handleUnmanagedBindings `{KubeLib} l : calls_in [Reads; Unbinds; KubeWrites] (handleUnmanagedBindings l).
Proof.
  unfold handleUnmanagedBindings. cbv zeta. repeat (apply only_calls_bind; [|intros ?]); try solve [calls_auto].
  destruct (default false _); [|calls_auto]. apply only_calls_for. intros b _. apply calls_ignoreNotFound. calls_auto.
Qed.
#[export] Hint Resolve calls_handleUnmanagedBindings : calls.
