(* ===== verification/StartupSpec.v ===== *)
(** * What the start of the operator does

    The calls of [main] against services that answer anything: the settings are checked before anything is contacted,
    authentik is only asked for its version and for the ownership role, a failure of authentik does not keep the
    manager from starting, and the manager is started after every registration succeeded. *)
From S2P Require Import Prelude Errors Effects Api Crd Interface Config RateLimiter Version Marker MarkerCache State Conflict FieldDiffs KubeExample Application Startup Panics Calls CallBounds.

(** ** The log of a start *)

(** The services may answer anything; a panic is excluded. *)
Definition any_setup : environment setup_call (list (logged setup_call)) := log_env (fun _ _ _ => True) False.

Abbreviation managed := (setup_call (() + string)) (only parsing).

Definition succeeded (r : () + string) : bool := match r with inl _ => true | inr _ => false end.

(** The steps of the manager, and whether they succeeded. *)
Definition manager_step (e : logged setup_call) : option (managed * bool) :=
  match e.(log_call) in setup_call R return R -> option (managed * bool) with
  | Operator _ | Log _ _ => fun _ => None
  | GetConfig => fun r => Some (GetConfig, succeeded r)
  | NewManager options => fun r => Some (NewManager options, succeeded r)
  | IndexField field extract => fun r => Some (IndexField field extract, succeeded r)
  | AddRunnable runnable => fun r => Some (AddRunnable runnable, succeeded r)
  | CompleteController options => fun r => Some (CompleteController options, succeeded r)
  | AddHealthzCheck name => fun r => Some (AddHealthzCheck name, succeeded r)
  | AddReadyzCheck name => fun r => Some (AddReadyzCheck name, succeeded r)
  | StartManager => fun r => Some (StartManager, succeeded r)
  end e.(log_answer).

(** The process only reads from authentik, or creates the ownership role. *)
Definition contact_ok (e : logged setup_call) : Prop :=
  match e.(log_call) with
  | Operator c => class_of c ∈ [Reads; Roles]
  | _ => True
  end.

Definition is_log (e : logged setup_call) : Prop :=
  match e.(log_call) with Log _ _ => True | _ => False end.

Section spec.
Context `{KubeLib} `{ModelJSON} `{ClientGo}.

(** The steps of a start that succeeds. *)
Definition start_plan (f : flags) : list managed :=
  [GetConfig; NewManager (managerOptions f); IndexField slugIndexField index_slug;
   IndexField credentialsSecretIndexField index_credentials_secret] ++
  (if f.(marker_gc) then [AddRunnable markerCollector] else []) ++
  [AddRunnable managerLifetime; CompleteController (controllerOptions f.(resync_interval)); AddHealthzCheck "healthz";
   AddReadyzCheck "readyz"; StartManager].

(** The flags and the environment variables allow a start. *)
Definition startable (f : flags) (env : environ) : Prop :=
  0 < f.(resync_interval) /\
  (f.(owner_role) <> "" \/ f.(cluster_name) <> "") /\
  is_ok (NewClient (mkConfig env.(AUTHENTIK_URL) env.(AUTHENTIK_TOKEN) f.(authentik_ca_file) f.(authentik_insecure))) = true.

(** The steps [done] succeeded and nothing else happened with the manager. *)
Definition after_steps (steps : list (managed * bool)) (l : list (logged setup_call)) : Prop :=
  omap manager_step l = steps /\ Forall contact_ok l.

Definition all_succeeded (steps : list managed) : list (managed * bool) := (fun c => (c, true)) <$> steps.

(** The outcome of a start that passed the checks: all steps succeeded, or the first one that failed ended it. *)
Definition start_outcome (f : flags) (p : process) (r : result ()) (l : list (logged setup_call)) : Prop :=
  match r with
  | Ok _ =>
      after_steps (all_succeeded (start_plan f)) l /\ p.(p_roleEvents) = true /\ p.(p_managerStopped) = true
  | Err _ => exists steps c rest, start_plan f = steps ++ c :: rest /\ after_steps (all_succeeded steps ++ [(c, false)]) l
  end.
End spec.

(** ** Programs of the operator within the start *)

Definition from_operator (e : logged call) : logged setup_call := mkLogged (Operator e.(log_call)) e.(log_answer).

(** A run that makes certain calls and a run that does not panic are the same run. *)
Lemma wp_strict {A} (p : prog call A) w Q Q' :
  wp any_env p w Q -> wp (log_env (fun _ _ _ => True) False) p w Q' -> wp (log_env (fun _ _ _ => True) False) p w Q.
Proof.
  revert w. induction p as [a|R c k IH|]; simpl; intros w H1 H2; [done| |done].
  destruct H1 as [_ H1], H2 as [_ H2]. split; [done|]. intros r w' Hs. by apply IH; [apply H1|apply H2].
Qed.

Lemma wp_operator {A} (p : prog call A) w v Q :
  wp (log_env (fun _ _ _ => True) False) p w Q ->
  wp any_setup (operator p) v (fun a v' => exists l, Q a (w ++ l) /\ v' = v ++ (from_operator <$> l)).
Proof.
  revert w v. induction p as [a|R c k IH|]; simpl; intros w v Hp.
  - exists []. by rewrite !app_nil_r.
  - destruct Hp as [_ Hp]. split; [done|]. intros r v' [_ ->]. eapply wp_mono; [|by apply IH, Hp].
    intros a v' (l & HQ & ->). exists (mkLogged c r :: l). by rewrite <- app_assoc in HQ |- *.
  - done.
Qed.

Lemma manager_step_operator l : omap manager_step (from_operator <$> l) = [].
Proof. induction l; simpl; [done|exact IHl]. Qed.

Lemma mwp_log (error : bool) message p steps l (Q : process -> result () -> _ -> Prop) :
  after_steps steps l -> (forall l', after_steps steps l' -> Q p (Ok ()) l') ->
  mwp any_setup (mcall (Log error message)) p l Q.
Proof.
  intros [Hl Hok] HQ. apply mwp_call; [done|]. intros r l' [_ ->]. destruct r. apply HQ. split.
  - rewrite omap_app. simpl. by rewrite app_nil_r.
  - apply Forall_app. split; [done|]. by constructor.
Qed.

(** ** Methods that follow a plan

    [follows I plan m J]: the method [m], started in a memory that satisfies [I], takes the steps of the plan; when
    it succeeds all of them succeeded and the memory satisfies [J], and when it fails it failed at a step. *)
Definition plan_result {A} (plan : list managed) (before : list (managed * bool)) (r : result A)
    (l : list (logged setup_call)) : Prop :=
  match r with
  | Ok _ => after_steps (before ++ all_succeeded plan) l
  | Err _ => exists steps c rest, plan = steps ++ c :: rest /\
               after_steps (before ++ all_succeeded steps ++ [(c, false)]) l
  end.

Definition follows {A} (I : process -> Prop) (plan : list managed) (m : M setup_call process A) (J : process -> Prop)
    : Prop :=
  forall p before l, I p -> after_steps before l ->
    mwp any_setup m p l (fun p' r l' => plan_result plan before r l' /\ (is_ok r = true -> J p')).

Section follows.
Implicit Types (I J K : process -> Prop).

(** A step of the manager. *)
Lemma follows_managed I (c : managed) :
  (forall r, manager_step (mkLogged c r) = Some (c, succeeded r) /\ contact_ok (mkLogged c r)) ->
  follows I [c] (managed_call c) I.
Proof.
  intros Hc p before l HI [Hl Hok]. apply mwp_invoke; [done|]. intros r l' [_ ->].
  assert (after_steps (before ++ [(c, succeeded r)]) (l ++ [mkLogged c r])) as Ha.
  { split.
    - rewrite omap_app. simpl. by rewrite (proj1 (Hc r)), Hl.
    - apply Forall_app. split; [done|]. constructor; [|done]. apply Hc. }
  destruct r as [[]|]; split; try done. exists [], c, []. done.
Qed.

Lemma follows_ret I {A} (a : A) : follows I [] (mret a) I.
Proof. intros p before l HI Hl. apply mwp_ret. split; [|done]. unfold plan_result. simpl. by rewrite app_nil_r. Qed.

Lemma follows_modify I J f : (forall p, I p -> J (f p)) -> follows I [] (mmodify f) J.
Proof.
  intros Hf p before l HI Hl. apply mwp_modify. split; [|by intros _; apply Hf].
  unfold plan_result. simpl. by rewrite app_nil_r.
Qed.

Lemma follows_log I (error : bool) message : follows I [] (mcall (Log error message)) I.
Proof.
  intros p before l HI Hl. eapply mwp_log; [done|]. intros l' Hl'. split; [|done]. unfold plan_result. simpl.
  by rewrite app_nil_r.
Qed.

Lemma follows_bind {A B} I J K plan plan' (m : M setup_call process A) (k : A -> M setup_call process B) :
  follows I plan m J -> (forall a, follows J plan' (k a) K) -> follows I (plan ++ plan') (mbind m k) K.
Proof.
  intros Hm Hk p before l HI Hl. apply mwp_bind. eapply mwp_mono; [by apply Hm|].
  intros p' [a|e] l' [Hr HJ]; simpl in Hr.
  - eapply mwp_mono; [apply (Hk a p' (before ++ all_succeeded plan) l'); [by apply HJ|done]|].
    intros p'' [b|e] l'' [Hr' HK]; (split; [|done]); simpl in *.
    + unfold all_succeeded in *. by rewrite fmap_app, app_assoc.
    + destruct Hr' as (steps & c & rest & -> & Ha). exists (plan ++ steps), c, rest. split; [by rewrite <- app_assoc|].
      unfold all_succeeded in *. by rewrite fmap_app, <- app_assoc, app_assoc.
  - split; [|done]. destruct Hr as (steps & c & rest & -> & Ha). exists steps, c, (rest ++ plan').
    split; [by rewrite <- app_assoc|done].
Qed.

Lemma follows_wrap {A} I J plan prefix (m : M setup_call process A) : follows I plan m J -> follows I plan (mwrap prefix m) J.
Proof.
  intros Hm p before l HI Hl. apply mwp_bind, mwp_try. eapply mwp_mono; [by apply Hm|]. by intros p' [a|e] l' [Hr HJ].
Qed.

Lemma follows_exit_if_error I J plan message (m : M setup_call process ()) :
  follows I plan m J -> follows I plan (exit_if_error message m) J.
Proof.
  intros Hm p before l HI Hl. apply mwp_bind, mwp_try. eapply mwp_mono; [by apply Hm|]. intros p' [a|e] l' [Hr HJ]; [done|].
  simpl in Hr. destruct Hr as (steps & c & rest & Hp & Ha). apply mwp_bind. eapply mwp_log; [done|]. intros l'' Hl''.
  split; [|done]. by exists steps, c, rest.
Qed.

(** A contact with authentik adds no step of the manager, whatever its result. *)
Lemma mwp_of_operator {S A} get put (m : M call S A) p steps l Q :
  only_calls (in_classes [Reads; Roles]) m -> safe (fun _ _ _ => True) (fun _ => True) m (fun _ => True) ->
  after_steps steps l -> (forall s r l', after_steps steps l' -> Q (put s p) r l') ->
  mwp any_setup (of_operator get put m) p l Q.
Proof.
  intros Hcalls Hsafe [Hl Hok] HQ. unfold of_operator, mwp. apply wp_bind.
  eapply wp_mono; [|apply (wp_operator _ []); eapply wp_strict; [apply (Hcalls _ [])|by apply (Hsafe _ [])]].
  intros [s r] v' (l0 & (l1 & Heq & Hl1) & ->). simpl in Heq. subst l1. apply HQ. split.
  - by rewrite omap_app, manager_step_operator, app_nil_r.
  - apply Forall_app. split; [done|]. apply Forall_fmap. by eapply Forall_impl.
Qed.

Lemma follows_of_operator {S A B} I J get put (m : M call S A) (k : result A -> M setup_call process B) :
  only_calls (in_classes [Reads; Roles]) m -> safe (fun _ _ _ => True) (fun _ => True) m (fun _ => True) ->
  (forall p s, I p -> J (put s p)) -> (forall r, follows J [] (k r) J) ->
  follows I [] (let* r := mtry (of_operator get put m) in k r) J.
Proof.
  intros Hc Hs HJ Hk p before l HI Hl. apply mwp_bind, mwp_try. eapply mwp_of_operator; [done..|].
  intros s r l' Hl'. apply Hk; [by apply HJ|done].
Qed.
End follows.

(** One structural step; the plan of a sequence is the concatenation of the plans. *)
Ltac follows_step :=
  lazymatch goal with
  | |- follows _ _ (mbind (mtry (of_operator _ _ _)) _) _ => eapply follows_of_operator; [| | |intros ?]
  | |- follows _ _ (mbind _ _) _ => eapply follows_bind; [|intros ?]
  | |- follows _ _ (mret _) _ => apply follows_ret
  | |- follows _ _ (mmodify _) _ => eapply follows_modify
  | |- follows _ _ (mcall (Log _ _)) _ => apply follows_log
  | |- follows _ _ (mwrap _ _) _ => apply follows_wrap
  | |- follows _ _ (exit_if_error _ _) _ => apply follows_exit_if_error
  | |- follows _ _ (managed_call _) _ => apply follows_managed; intros ?; split; [reflexivity|exact Logic.I]
  end.

Section main.
Context `{KubeLib} `{ModelJSON} `{ClientGo}.

Lemma calls_CheckVersion supported : calls_in [Reads] (CheckVersion supported).
Proof. unfold CheckVersion. calls_auto. Qed.

Lemma safe_CheckVersion supported : safe (fun _ _ _ => True) (fun _ => True) (CheckVersion supported) (fun _ => True).
Proof. unfold CheckVersion. safe_auto. Qed.

Lemma follows_checkAuthentikVersion info : follows (fun _ => True) [] (checkAuthentikVersion info) (fun _ => True).
Proof.
  unfold checkAuthentikVersion, log_error. destruct (SupportedVersion info) as [supported|e]; [|apply follows_log].
  follows_step; [eapply only_calls_classes, calls_CheckVersion; reflexivity|apply safe_CheckVersion|done|].
  destruct r; follows_step.
Qed.

Lemma follows_ensureOwnershipRole : follows (fun _ => True) [] ensureOwnershipRole (fun _ => True).
Proof.
  unfold ensureOwnershipRole, log_error, log_info.
  follows_step; [apply calls_EnsureRole|eapply safe_EnsureRole|done|]. destruct r; follows_step.
Qed.

(** The reconciler has its channels. *)
Definition has_channels (p : process) : Prop := p.(p_roleEvents) = true /\ p.(p_managerStopped) = true.

Definition setup_plan (resyncInterval : Z) (markerGC : bool) : list managed :=
  [IndexField slugIndexField index_slug; IndexField credentialsSecretIndexField index_credentials_secret] ++
  (if markerGC then [AddRunnable markerCollector] else []) ++
  [AddRunnable managerLifetime; CompleteController (controllerOptions resyncInterval)].

Lemma follows_SetupWithManager resyncInterval markerGC :
  follows (fun _ => True) (setup_plan resyncInterval markerGC) (SetupWithManager resyncInterval markerGC) has_channels.
Proof.
  change (setup_plan resyncInterval markerGC) with
    ([IndexField slugIndexField index_slug] ++ [IndexField credentialsSecretIndexField index_credentials_secret] ++
     (if markerGC then [AddRunnable markerCollector] else []) ++ [] ++ [] ++ [AddRunnable managerLifetime] ++
     [CompleteController (controllerOptions resyncInterval)]).
  unfold SetupWithManager. do 2 (follows_step; [do 2 follows_step|]).
  eapply follows_bind with (J := fun _ => True); [destruct markerGC; repeat follows_step|intros ?].
  follows_step; [apply follows_modify with (J := fun p => p.(p_roleEvents) = true); done|].
  follows_step; [apply follows_modify with (J := has_channels); by intros []|].
  repeat follows_step.
Qed.

Lemma RoleName_ok clusterName ownerRole :
  (ownerRole <> "" \/ clusterName <> "") <-> exists name, RoleName clusterName ownerRole = Ok name.
Proof. unfold RoleName. repeat case_decide; naive_solver. Qed.

Lemma start_plan_app f :
  start_plan f = [] ++ [] ++ [] ++ [] ++ [] ++ [GetConfig] ++ [NewManager (managerOptions f)] ++
    setup_plan f.(resync_interval) f.(marker_gc) ++ [AddHealthzCheck "healthz"] ++ [AddReadyzCheck "readyz"] ++ [] ++
    [StartManager].
Proof. unfold start_plan, setup_plan. by destruct (marker_gc f). Qed.

(** A start that follows the plan has the outcome of the specification. *)
Lemma mwp_start_plan f env (m : M setup_call process ()) p :
  startable f env -> follows (fun _ => True) (start_plan f) m has_channels ->
  mwp any_setup m p [] (fun p' r l =>
    (startable f env -> start_outcome f p' r l) /\ (~ startable f env -> Forall is_log l /\ is_ok r = false)).
Proof.
  intros Hs Hm. eapply mwp_mono; [by apply (Hm p [] [])|]. intros p' r l [Hr HJ]. split; [|by intros []]. intros _.
  destruct r as [u|e]; [|exact Hr]. by split; [|apply HJ].
Qed.

(** A check that fails. *)
Lemma mwp_refused {A} message p (Q : process -> result A -> _ -> Prop) :
  (forall l e, Forall is_log l -> Q p (Err e) l) ->
  mwp any_setup (log_error message ;; mfail (ErrorString message)) p [] Q.
Proof.
  intros HQ. unfold log_error. apply mwp_bind, mwp_call; [done|]. intros r l [_ ->]. apply mwp_fail, HQ. by constructor.
Qed.

Lemma not_startable f env :
  f.(resync_interval) <= 0 \/ is_ok (RoleName f.(cluster_name) f.(owner_role)) = false \/
  is_ok (NewClient (mkConfig env.(AUTHENTIK_URL) env.(AUTHENTIK_TOKEN) f.(authentik_ca_file) f.(authentik_insecure))) = false ->
  ~ startable f env.
Proof.
  intros Hn (Hi & (name & Hr)%RoleName_ok & Hc). rewrite Hr, Hc in Hn. simpl in Hn. destruct Hn as [|[|]]; [lia|done..].
Qed.

(** C35: The operator starts when it can. When the interval is not positive, the role has no name, or the settings of
    authentik are wrong, [main] ends at once, having only logged. Otherwise it never panics, whatever the services
    answer, and asks authentik at most for reads and for the creation of the ownership role. No failure of authentik
    ends it: it takes the steps of the plan, that is, the manager with its options, the indexes, the marker collector
    if it is enabled, the signal of the manager's lifetime, one controller that runs one reconcile at a time and
    retries within the resync interval, and the probes, and it starts the manager last. It ends early exactly at the
    first step that fails. *)
Theorem main_starts f env info p :
  mwp any_setup (main f env info) p [] (fun p' r l =>
    (startable f env -> start_outcome f p' r l) /\
    (~ startable f env -> Forall is_log l /\ is_ok r = false)).
Proof.
  assert (forall l e, ~ startable f env -> Forall is_log l ->
    (startable f env -> start_outcome f p (Err e) l) /\ (~ startable f env -> Forall is_log l /\ is_ok (Err (A := ()) e) = false))
    as Href by done.
  unfold main, exit_if. go_step. case_decide as Hi; 
    [apply mwp_refused; intros; apply Href; [|done]; apply not_startable; by left|].
  apply mwp_ret. go_step. destruct (RoleName _ _) as [roleName|e] eqn:Hr.
  2: { apply mwp_refused. intros. apply Href; [|done]. apply not_startable. rewrite Hr. auto. }
  apply mwp_ret. go_step. destruct (NewClient _) as [client|e] eqn:Hc.
  2: { apply mwp_refused. intros. apply Href; [|done]. apply not_startable. rewrite Hc. auto. }
  apply mwp_ret, mwp_start_plan.
  { split_and!; [lia|apply RoleName_ok; eauto|by rewrite Hc]. }
  rewrite start_plan_app. unfold log_info.
  eapply follows_bind; [apply follows_checkAuthentikVersion|intros _].
  eapply follows_bind with (J := fun _ => True); [by apply follows_modify|intros _].
  eapply follows_bind; [apply follows_ensureOwnershipRole|intros _].
  do 2 (eapply follows_bind with (J := fun _ => True); [case_decide; follows_step|intros _]).
  do 2 (follows_step; [repeat follows_step|]).
  follows_step; [apply follows_exit_if_error, follows_SetupWithManager|].
  repeat follows_step.
Qed.
End main.

(** The default flags with a cluster name, and a URL and a token in the environment. *)
Definition example_flags : flags := {|
  metrics_bind_address := "0";
  health_probe_bind_address := ":8081";
  leader_elect := true;
  metrics_secure := true;
  webhook_cert_path := "";
  webhook_cert_name := "tls.crt";
  webhook_cert_key := "tls.key";
  metrics_cert_path := "";
  metrics_cert_name := "tls.crt";
  metrics_cert_key := "tls.key";
  enable_http2 := false;
  authentik_ca_file := "/ca.pem";
  authentik_insecure := false;
  marker_gc := true;
  resync_interval := 10 * Minute;
  cluster_name := "home";
  owner_role := "";
|}.

Definition example_environ : environ := mkEnviron "https://auth.example.com" "secret".

(** The operator starts with them, whatever authentik answers. *)
Lemma main_starts_witness :
  startable (H1 := record_ClientGo example_files) example_flags example_environ /\
  forall p, mwp any_setup (main (H1 := record_ClientGo example_files) example_flags example_environ None) p [] (fun p' r l =>
    start_outcome example_flags p' r l).
Proof.
  assert (startable (H1 := record_ClientGo example_files) example_flags example_environ) as Hs.
  { split; [reflexivity|]. split; [right; discriminate|]. vm_compute. reflexivity. }
  split; [exact Hs|]. intros p. eapply mwp_mono; [apply main_starts|]. intros p' r l [Ho _]. exact (Ho Hs).
Defined.
