(* ===== verification/Orders.v ===== *)
(** * The orders of new Bindings

    The orders that [reconcileBindings] of [internal/controller/bindings.go] gives to the Bindings it creates: int32
    numbers, each [orderStep] above the last one, which wrap around at the end of the range. *)
From S2P Require Import Prelude Errors Effects Api Crd Patch Interface Marker MarkerCache Reference Desired.
From S2P Require Import State Convergence KubeExample Bindings Access Calls CallBounds.

(** The order of a logged creation. *)
Definition created_order (e : logged call) : option Z :=
  match e.(log_call) in call R return option Z with
  | CreatePolicyBinding request => Some request.(PolicyBindingRequest_Order)
  | _ => None
  end.

(** The orders of the Bindings that a run asked the server to create, in the order of the calls. *)
Definition created_orders (l : list (logged call)) : list Z := omap created_order l.

Lemma created_orders_app l k : created_orders (l ++ k) = created_orders l ++ created_orders k.
Proof. apply omap_app. Qed.

(** [n] additions of [orderStep] in int32. *)
Fixpoint order_after (max0 : Z) (n : nat) : Z :=
  match n with
  | O => max0
  | S n => int32_wrap (order_after max0 n + orderStep)
  end.

Definition expected_orders (max0 : Z) (n : nat) : list Z := (fun i => order_after max0 (S i)) <$> seq 0 n.

Lemma expected_orders_S max0 n : expected_orders max0 (S n) = expected_orders max0 n ++ [order_after max0 (S n)].
Proof. unfold expected_orders. rewrite seq_S, fmap_app. done. Qed.

(** The additions wrap once, at the end. *)
Lemma order_after_wrap max0 n : is_int32 max0 -> order_after max0 n = int32_wrap (max0 + orderStep * Z.of_nat n).
Proof.
  intros Hm. induction n as [|n IH]; cbn [order_after].
  - rewrite Z.mul_0_r, Z.add_0_r. by rewrite int32_wrap_id.
  - rewrite IH. unfold int32_wrap. set (x := max0 + orderStep * Z.of_nat n).
    replace (max0 + orderStep * Z.of_nat (S n)) with (x + orderStep) by (unfold x, orderStep; lia).
    f_equal. replace ((x + 2 ^ 31) mod 2 ^ 32 - 2 ^ 31 + orderStep + 2 ^ 31) with ((x + 2 ^ 31) mod 2 ^ 32 + orderStep) by lia.
    rewrite Z.add_mod_idemp_l by done. f_equal. lia.
Qed.

Lemma order_after_below max0 n :
  0 <= max0 -> max0 + orderStep * Z.of_nat n <= max_int32 -> order_after max0 n = max0 + orderStep * Z.of_nat n.
Proof.
  intros H0 Hn. rewrite order_after_wrap; [|unfold is_int32, max_int32, orderStep in *; lia].
  apply int32_wrap_id. unfold is_int32, max_int32, orderStep in *. lia.
Qed.

Section orders.
Context `{KubeLib}.

(** The run since [w] asked for Bindings with the given orders. *)
Definition orders_since (w w' : list (logged call)) (orders : list Z) : Prop :=
  exists l, w' = w ++ l /\ created_orders l = orders.

Lemma orders_since_refl w : orders_since w w [].
Proof. exists []. by rewrite app_nil_r. Qed.

Lemma orders_since_trans w1 w2 w3 os os' :
  orders_since w1 w2 os -> orders_since w2 w3 os' -> orders_since w1 w3 (os ++ os').
Proof. intros (l & -> & <-) (k & -> & <-). exists (l ++ k). by rewrite app_assoc, created_orders_app. Qed.

(** A method that creates no Binding. *)
Definition creates_none (e : logged call) : Prop := created_order e = None.

Lemma creates_none_mwp {A} (m : M call reconcileState A) s w (Q : reconcileState -> result A -> list (logged call) -> Prop) :
  only_calls creates_none m -> (forall s' r w', orders_since w w' [] -> Q s' r w') -> mwp any_env m s w Q.
Proof.
  intros Hm HQ. eapply mwp_mono; [apply Hm|]. intros s' r w' (l & -> & Hl). apply HQ. exists l. split; [done|].
  induction Hl as [|e l He Hl IH]; [done|]. unfold created_orders in *. simpl. by rewrite He.
Qed.

Lemma creates_none_classes cs e : Writes ∉ cs -> in_classes cs e -> creates_none e.
Proof.
  intros Hw He. unfold creates_none, created_order. destruct e as [R c r]. unfold in_classes, log_class in He. simpl in *.
  by destruct c.
Qed.

(** The classes of the calls that create no Binding. *)
Definition other_classes : list call_class := [Reads; Roles; Marks; Unbinds; KubeWrites].

Lemma none_orders {A} (m : M call reconcileState A) s w (Q : reconcileState -> result A -> list (logged call) -> Prop) :
  only_calls (in_classes other_classes) m -> (forall s' r w', orders_since w w' [] -> Q s' r w') -> mwp any_env m s w Q.
Proof.
  intros Hm. apply creates_none_mwp. eapply only_calls_weaken; [|exact Hm]. intros e. apply creates_none_classes.
  unfold other_classes. set_solver.
Qed.

(** One round of the loop: no new Binding, or one whose order follows the last one. *)
Lemma sync_rule_orders target kept max item s w :
  mwp any_env (sync_rule target (kept, max) item) s w (fun s' r w' =>
    match item.2 with
    | Some _ => orders_since w w' [] /\ forall acc, r = Ok acc -> acc.2 = max
    | None => orders_since w w' [int32_wrap (max + orderStep)] /\ forall acc, r = Ok acc -> acc.2 = int32_wrap (max + orderStep)
    end).
Proof.
  destruct item as [rule [b|]]; simpl.
  - unfold sync_rule. go_step. apply creates_none_mwp.
    + unfold syncBinding. calls_auto; done.
    + intros s' [[]|e] w' Hw; [|done]. go_step. split; [done|]. by intros acc [= <-].
  - unfold sync_rule. go_step. apply mwp_deref_crash; [|done]. intros request Hr.
    assert (Ho : request.(PolicyBindingRequest_Order) = int32_wrap (max + orderStep)).
    { unfold createBindingRequest in Hr. destruct (PatchedBinding_Target _); [|done]. by injection Hr as <-. }
    do 2 go_step. match goal with H : env_step _ _ _ _ _ _ |- _ => destruct H as [_ ->] end.
    assert (Hsince : orders_since w (w ++ [mkLogged (CreatePolicyBinding request) r]) [int32_wrap (max + orderStep)]).
    { eexists. split; [done|]. unfold created_orders, created_order. simpl. by rewrite Ho. }
    destruct r as [created|e]; [|done].
    unfold update_status. repeat go_step. apply none_orders; [calls_auto|].
    intros s1 [[]|e] w1 Hw1; [|split; [|done]; exact (orders_since_trans _ _ _ _ _ Hsince Hw1)]. go_step.
    apply none_orders; [calls_auto|]. intros s2 [[]|e] w2 Hw2;
      (pose proof (orders_since_trans _ _ _ _ _ (orders_since_trans _ _ _ _ _ Hsince Hw1) Hw2) as Hall);
      [go_step|]; split; try done. by intros acc [= <-].
Qed.

(** [maxOrder] after the loop of [managedBindings]. *)
Definition last_order (existing : list PolicyBinding) : Z :=
  fold_left (fun m b => Z.max m b.(PolicyBinding_Order)) existing 0.

Lemma last_order_snoc existing b : last_order (existing ++ [b]) = Z.max (last_order existing) b.(PolicyBinding_Order).
Proof. unfold last_order. by rewrite fold_left_app. Qed.

Lemma last_order_spec existing :
  0 <= last_order existing /\ (forall b, b ∈ existing -> b.(PolicyBinding_Order) <= last_order existing) /\
  (Forall (fun b => is_int32 b.(PolicyBinding_Order)) existing -> is_int32 (last_order existing)).
Proof.
  induction existing as [|b existing (H1 & H2 & H3)] using rev_ind.
  - split_and!; [done|by intros b ?%not_elem_of_nil|done].
  - rewrite last_order_snoc. split_and!; [lia| |].
    + intros b' [Hb| ->%list_elem_of_singleton]%elem_of_app; [apply H2 in Hb|]; lia.
    + intros [He [Hb _]%Forall_cons_1]%Forall_app. specialize (H3 He). unfold is_int32 in *. lia.
Qed.

(** The marker methods keep the rest of the state. *)
Lemma none_orders_markers {A} (m : M call markerCache A) s w (Q : reconcileState -> result A -> list (logged call) -> Prop) :
  only_calls (in_classes other_classes) (markers m) ->
  (forall s' r w', s'.(rs_resolved) = s.(rs_resolved) -> orders_since w w' [] -> Q s' r w') -> mwp any_env (markers m) s w Q.
Proof.
  intros Hm HQ. eapply mwp_mono with (Q := fun s' r w' => orders_since w w' [] /\ s'.(rs_resolved) = s.(rs_resolved)).
  - apply mwp_and; [by apply none_orders|]. unfold markers. apply mwp_zoom. eapply mwp_mono; [apply only_calls_any|done].
  - intros s' r w' [? ?]. by apply HQ.
Qed.

Lemma managedBindings_orders existing s w (Q : reconcileState -> result _ -> list (logged call) -> Prop) :
  (forall s' managed unmanaged w', s'.(rs_resolved) = s.(rs_resolved) -> orders_since w w' [] ->
     Q s' (Ok (managed, unmanaged, last_order existing)) w') ->
  (forall s' e w', orders_since w w' [] -> Q s' (Err e) w') ->
  mwp any_env (managedBindings existing) s w Q.
Proof.
  intros HQ Herr. eapply mwp_mono.
  - apply (mwp_fold any_env existing ([], [], 0) _ (fun seen acc s' w' => s'.(rs_resolved) = s.(rs_resolved) /\ orders_since w w' [] /\ acc.2 = last_order seen)
      (fun _ _ w' => orders_since w w' [])); [split_and!; [done|apply orders_since_refl|done]|].
    intros seen b rest [[managed unmanaged] m] s1 w1 _ (Hs1 & Hw1 & Hm). cbv zeta iota. simpl in Hm. subst m.
    unfold get_app. repeat go_step. rewrite last_order_snoc. case_decide.
    + go_step. apply none_orders_markers; [calls_auto|]. intros s2 [[]|e] w2 Hs2 Hw2; [go_step|];
        pose proof (orders_since_trans _ _ _ _ _ Hw1 Hw2); [split_and!; [congruence|done|done]|done].
    + go_step. apply none_orders_markers; [calls_auto|]. intros s2 [[|]|e] w2 Hs2 Hw2; [go_step|go_step|];
        pose proof (orders_since_trans _ _ _ _ _ Hw1 Hw2); [split_and!; [congruence|done|done]..|done].
  - intros s' [[[managed unmanaged] m]|e] w'; [|apply Herr]. intros (Hs & Hw & Hm). simpl in Hm. subst. by apply HQ.
Qed.

Lemma sync_rules_orders target items max0 s w (Q : reconcileState -> result _ -> list (logged call) -> Prop) :
  (forall s' r w' k, (k <= length items)%nat -> orders_since w w' (expected_orders max0 k) -> Q s' r w') ->
  mwp any_env (mfold items ([], max0) (sync_rule target)) s w Q.
Proof.
  intros HQ. eapply mwp_mono.
  - apply (mwp_fold any_env items ([], max0) (sync_rule target)
      (fun seen acc _ w' => exists k, (k <= length seen)%nat /\ orders_since w w' (expected_orders max0 k) /\ acc.2 = order_after max0 k)
      (fun _ _ w' => exists k, (k <= length items)%nat /\ orders_since w w' (expected_orders max0 k))).
    + exists O. split_and!; [done|apply orders_since_refl|done].
    + intros seen item rest [kept max] s1 w1 Heq (k & Hk & Hw1 & Hm). simpl in Hm. subst max.
      eapply mwp_mono; [apply sync_rule_orders|]. intros s2 r w2 Hr.
      assert (Hlen : (S (length seen) <= length items)%nat) by (rewrite Heq, length_app; simpl; lia).
      destruct item as [rule [b|]]; simpl in Hr; destruct Hr as [Hw2 Hacc].
      * pose proof (orders_since_trans _ _ _ _ _ Hw1 Hw2) as Hall. rewrite app_nil_r in Hall.
        destruct r as [acc|e]; exists k; [|by split; [lia|]]. rewrite length_app. split_and!; [simpl; lia|done|by apply Hacc].
      * pose proof (orders_since_trans _ _ _ _ _ Hw1 Hw2) as Hall.
        change (expected_orders max0 k ++ [order_after max0 (S k)]) in Hall || rewrite <- expected_orders_S in Hall.
        destruct r as [acc|e]; exists (S k); [|by split; [lia|]]. rewrite length_app. split_and!; [simpl; lia|done|by apply Hacc].
  - intros s' [acc|e] w'; [intros (k & Hk & Hw & _)|intros (k & Hk & Hw)]; by apply (HQ _ _ _ k).
Qed.

(** ** The property *)

Lemma expected_orders_bounds existing k :
  last_order existing + orderStep * Z.of_nat k <= max_int32 ->
  (forall o b, o ∈ expected_orders (last_order existing) k -> b ∈ existing -> b.(PolicyBinding_Order) < o <= max_int32) /\
  (forall i j oi oj, (i < j)%nat -> expected_orders (last_order existing) k !! i = Some oi ->
     expected_orders (last_order existing) k !! j = Some oj -> oi < oj).
Proof.
  intros Hmax. destruct (last_order_spec existing) as (H0 & Hall & _).
  assert (Hlook : forall i o, expected_orders (last_order existing) k !! i = Some o ->
    (i < k)%nat /\ o = last_order existing + orderStep * Z.of_nat (S i)).
  { intros i o Ho. unfold expected_orders in Ho. apply list_lookup_fmap_Some in Ho as (n & -> & [Hn Hi]%lookup_seq).
    simpl in Hn. subst n. split; [done|]. apply order_after_below; [done|]. unfold orderStep in *. lia. }
  split.
  - intros o b [i Hi]%list_elem_of_lookup Hb. apply Hlook in Hi as [Hi ->]. apply Hall in Hb. unfold orderStep in *. lia.
  - intros i j oi oj Hij [_ ->]%Hlook [_ ->]%Hlook. unfold orderStep. lia.
Qed.

(** The orders [created] for at most [n] rules on a server that listed the Bindings [existing]. *)
Definition orders_ok (existing : list PolicyBinding) (n : nat) (created : list Z) : Prop :=
  let max := last_order existing in
  exists k, (k <= n)%nat /\ created = expected_orders max k /\
    (max + orderStep * Z.of_nat k <= max_int32 ->
      (forall o b, o ∈ created -> b ∈ existing -> b.(PolicyBinding_Order) < o <= max_int32) /\
      forall i j oi oj, (i < j)%nat -> created !! i = Some oi -> created !! j = Some oj -> oi < oj) /\
    (max_int32 < max + orderStep -> max <= max_int32 -> forall o, created !! 0%nat = Some o -> o < 0).

Lemma expected_orders_ok existing n k : (k <= n)%nat -> orders_ok existing n (expected_orders (last_order existing) k).
Proof.
  intros Hk. exists k. split_and!; [done|done|apply expected_orders_bounds|]. intros Hover Hin o Ho.
  unfold expected_orders in Ho. apply list_lookup_fmap_Some in Ho as (i & -> & [Hi _]%lookup_seq). simpl in Hi. subst i.
  simpl. unfold int32_wrap, max_int32, orderStep in *.
  replace (last_order existing + 10 + 2 ^ 31) with ((last_order existing + 10 - 2 ^ 31) + 1 * 2 ^ 32) by lia.
  rewrite Z_mod_plus_full, Z.mod_small by lia. lia.
Qed.

(** C31: The orders of new Bindings are int32 numbers that follow the largest one. Whatever the services answer, the
    Bindings that [reconcileBindings] asks for after the server listed the existing ones, at most one per rule, have
    the orders [max + 10], [max + 20] and so on in int32 arithmetic, where [max] is the largest order of the listed
    Bindings, managed or not, and at least 0. While these numbers are in the range of int32, every one is larger than
    every listed order and than the ones before it; when already the first one is not, it wraps to a negative order.
    No Binding is created when the list cannot be read. *)
Theorem created_orders_bounds application resolved s w :
  s.(rs_resolved) = Some resolved ->
  mwp any_env (reconcileBindings application) s w (fun _ _ w' =>
    exists answer rest, w' = w ++ mkLogged (ListPolicyBindings application.(Application_PbmUuid)) answer :: rest /\
    match answer with
    | inr _ => created_orders rest = []
    | inl existing => orders_ok existing (length resolved.(Resolved_Rules)) (created_orders rest)
    end).
Proof.
  intros Hres. unfold reconcileBindings. cbv zeta. do 2 go_step.
  match goal with H : env_step _ _ _ _ _ _ |- _ => destruct H as [_ ->] end.
  set (target := application.(Application_PbmUuid)).
  destruct r as [existing|e]; [|exists (inr e), []; done].
  eapply mwp_mono with (Q := fun _ _ w' => exists k, (k <= length resolved.(Resolved_Rules))%nat /\
    orders_since (w ++ [mkLogged (ListPolicyBindings target) (inl existing)]) w' (expected_orders (last_order existing) k)).
  2: { intros _ _ w1 (k & Hk & l & -> & Hl). exists (inl existing), l. rewrite <- app_assoc, Hl. split; [done|].
       by apply expected_orders_ok. }
  go_step. apply managedBindings_orders; [|intros s1 e w1 Hw1; by exists O; split; [lia|]].
  intros s1 managed unmanaged w1 Hs1 Hw1. cbv iota. unfold get_resolved. repeat go_step. rewrite Hs1, Hres. apply mwp_deref.
  exists resolved. split; [done|]. go_step.
  apply mwp_deref_crash; [|done]. intros matched Hmatched. go_step. apply mwp_deref_crash; [|done]. intros adopted Hadopted.
  go_step. apply none_orders; [calls_auto|]. intros s2 [merged|e] w2 Hw2;
    (pose proof (orders_since_trans _ _ _ _ _ Hw1 Hw2) as Hw12; simpl in Hw12); [|by exists O; split; [lia|]].
  go_step. apply sync_rules_orders. intros s3 r w3 k Hk Hw3. pose proof (orders_since_trans _ _ _ _ _ Hw12 Hw3) as Hw13.
  simpl in Hw13. rewrite length_zip in Hk.
  assert (Hlen : (k <= length resolved.(Resolved_Rules))%nat) by lia. destruct r as [[kept maxOrder]|e]; [|by exists k].
  cbv iota. apply none_orders; [calls_auto|]. intros s4 r w4 Hw4. exists k. split; [done|].
  rewrite <- (app_nil_r (expected_orders _ _)). by eapply orders_since_trans.
Qed.

End orders.

(** Two rules; a listed Binding with an order at the end of the range makes the next order negative. *)
Lemma created_orders_bounds_witness :
  order_after 2147483640 1 = -2147483646 /\
  mwp any_env (reconcileBindings (H := list_KubeLib) example_app) example_access_state [] (fun _ _ w' =>
    exists answer rest, w' = mkLogged (ListPolicyBindings "target") answer :: rest /\
    match answer with inr _ => created_orders rest = [] | inl existing => orders_ok existing 2 (created_orders rest) end).
Proof.
  split; [vm_compute; reflexivity|].
  exact (created_orders_bounds example_app (mkResolved None None None example_access_rules) example_access_state [] eq_refl).
Defined.
