(* ===== verification/ResolveSpec.v ===== *)
(** * The result of a resolution

    A successful [Resolve] of a valid spec answers every reference of the spec: what the rest of a reconcile
    dereferences is there. The logic [resolves] follows the collector: as long as nothing is collected the value has
    the property. *)
From S2P Require Import Prelude Errors Effects Api Crd Interface Reference Calls CallBounds.

Abbreviation no_panic_env := (log_env (fun _ _ _ => True) False).

(** [m] never panics, only adds to the collector, and its value satisfies [P] if nothing was added. *)
Definition resolves {A} (m : M call collector A) (P : A -> Prop) : Prop :=
  forall c w, mwp no_panic_env m c w (fun c' r _ => exists l, c' = c ++ l /\ forall a, r = Ok a -> l = [] -> P a).

Section rules.
Context {A : Type}.

Lemma resolves_ret (a : A) (P : A -> Prop) : P a -> resolves (mret a) P.
Proof. intros HP c w. exists []. rewrite app_nil_r. split; [done|]. by intros ? [= <-]. Qed.

Lemma resolves_fail e (P : A -> Prop) : resolves (mfail e) P.
Proof. intros c w. exists []. by rewrite app_nil_r. Qed.

Lemma resolves_deref (p : option A) (P : A -> Prop) : has p = true -> (forall a, p = Some a -> P a) -> resolves (mderef p) P.
Proof. destruct p as [a|]; [|done]. intros _ HP. apply resolves_ret. auto. Qed.

Lemma resolves_invoke {E} (inject : E -> error) (c : call (A + E)) : resolves (minvoke inject c) (fun _ => True).
Proof. intros l w. split; [done|]. intros r w' _. exists []. by rewrite app_nil_r. Qed.

Lemma resolves_bind {B} (P : A -> Prop) (m : M call collector A) (f : A -> M call collector B) (Q : B -> Prop) :
  resolves m P -> (forall a, resolves (f a) (fun b => P a -> Q b)) -> resolves (mbind m f) Q.
Proof.
  intros Hm Hf c w. apply mwp_bind. eapply mwp_mono; [apply Hm|]. intros c' [a|e] w' (l & -> & HP); [|by exists l].
  eapply mwp_mono; [apply Hf|]. intros c'' r w'' (l' & -> & HQ). exists (l ++ l'). rewrite app_assoc. split; [done|].
  intros b -> [-> ->]%app_nil. by apply HQ, HP.
Qed.

Lemma resolves_try (m : M call collector A) (P : A -> Prop) :
  resolves m P -> resolves (mtry m) (fun r => forall a, r = Ok a -> P a).
Proof.
  intros Hm c w. apply mwp_try. eapply mwp_mono; [apply Hm|]. intros c' r w' (l & -> & HP). exists l. split; [done|].
  intros ? [= <-] Hl a Ha. by apply HP.
Qed.

Lemma resolves_mono (m : M call collector A) (P Q : A -> Prop) : resolves m P -> (forall a, P a -> Q a) -> resolves m Q.
Proof. intros Hm HPQ c w. eapply mwp_mono; [apply Hm|]. intros c' r w' (l & -> & HP). eauto. Qed.

(** After an addition nothing is claimed. *)
Lemma resolves_add path target matches (a : A) (P : A -> Prop) :
  resolves (collector_add path target matches ;; mret a) P.
Proof. intros c w. unfold collector_add. repeat go_step. by eexists. Qed.
End rules.

(** The calls of a method that does not panic. *)
Lemma wp_no_panic {A} (p : prog call A) w (Q1 Q2 : A -> list (logged call) -> Prop) :
  wp any_env p w Q1 -> wp no_panic_env p w Q2 -> wp no_panic_env p w (fun a w' => Q1 a w' /\ Q2 a w').
Proof.
  revert w. induction p as [a|R c k IH|]; simpl; intros w H1 H2; [done| |done].
  split; [done|]. intros r w' Hs. by apply IH; [apply H1|apply H2].
Qed.

Lemma only_calls_no_panic {S A} allowed (m : M call S A) s w (Q : S -> result A -> list (logged call) -> Prop) :
  only_calls allowed m -> mwp no_panic_env m s w Q ->
  mwp no_panic_env m s w (fun s' r w' => (exists l, w' = w ++ l /\ Forall allowed l) /\ Q s' r w').
Proof.
  intros Hm HQ. eapply wp_mono; [|apply wp_no_panic; [apply Hm|apply HQ]]. by intros [s' r] w'.
Qed.

(** ** The lookups *)

Lemma getOne_resolves {T} path target (q : call (ak T)) :
  resolves (getOne path target (akcall q)) (fun object => has object = true).
Proof.
  unfold getOne. eapply resolves_bind; [apply resolves_try, resolves_invoke|]. intros [object|e].
  - by apply resolves_ret.
  - destruct (is_not_found e); [apply resolves_add|apply resolves_fail].
Qed.

Lemma findOne_resolves {T} path target (q : call (ak (list T))) :
  resolves (findOne path target (akcall q)) (fun object => has object = true).
Proof.
  unfold findOne. eapply resolves_bind; [apply resolves_try, resolves_invoke|].
  intros [[|object [|]]|e]; try apply resolves_add; [by apply resolves_ret|apply resolves_fail].
Qed.

Lemma resolveByString_resolves {T} path (lookup : stringLookup T) uuid key :
  xorb (has key) (has uuid) = true -> resolves (resolveByString path lookup uuid key) (fun _ => True).
Proof.
  intros Hx. unfold resolveByString. apply (resolves_bind (fun _ => True)).
  - destruct uuid; [eapply resolves_mono; [apply getOne_resolves|done]|].
    apply (resolves_bind (fun _ => True)); [by apply resolves_deref; [by destruct key|]|]. intros k.
    eapply resolves_mono; [apply findOne_resolves|done].
  - intros [object|]; by apply resolves_ret.
Qed.

Lemma resolveNamed_resolves {T} path (lookup : stringLookup T) ref :
  optional valid_named ref = true -> resolves (resolveNamed path lookup ref) (fun pk => has pk = has ref).
Proof.
  intros Hv. unfold resolveNamed. destruct ref as [ref|]; [|by apply resolves_ret].
  simpl in Hv. apply andb_true_iff in Hv as [Hx _]. intros c w. go_step. go_step. go_step.
  eapply mwp_mono; [by apply resolveByString_resolves|]. intros c' [pk|e] w' (l & -> & _); [|by exists l].
  repeat go_step. case_decide as Hl; go_step; exists l; (split; [done|]); intros ? [= <-]; [|done].
  intros ->. rewrite app_nil_r in Hl. lia.
Qed.

Lemma resolve_each_resolves {X Y} (R : X -> Y -> Prop) i (xs : list X) (resolve : nat -> X -> M call collector Y) :
  (forall i x, x ∈ xs -> resolves (resolve i x) (R x)) ->
  resolves (resolve_each i xs resolve) (fun ys => Forall2 R xs ys).
Proof.
  revert i. induction xs as [|x xs IH]; intros i Hr; simpl; [by apply resolves_ret|].
  eapply resolves_bind; [apply Hr; by left|]. intros y.
  eapply resolves_bind; [apply IH; intros; apply Hr; by right|]. intros ys. apply resolves_ret. auto.
Qed.

(** ** What a resolution answers *)

(** The resolved rule has the subject of the rule of the spec, and its negation. *)
Definition rule_resolves (rule : AccessRule) (resolved : Rule) : Prop :=
  has resolved.(Rule_Group) = has rule.(AccessRule_Group) /\ has resolved.(Rule_User) = has rule.(AccessRule_User) /\
  has resolved.(Rule_Policy) = has rule.(AccessRule_Policy) /\
  resolved.(Rule_Negate) = default false rule.(AccessRule_Negate).

Definition oauth2_resolves (oauth2 : OAuth2ProviderSpec) (refs : OAuth2References) : Prop :=
  option_map length refs.(OAuth2References_Scopes) = option_map length oauth2.(OAuth2_Scopes) /\
  has refs.(OAuth2References_SigningKey) = has oauth2.(OAuth2_SigningKey) /\
  has refs.(OAuth2References_EncryptionKey) = has oauth2.(OAuth2_EncryptionKey) /\
  has refs.(OAuth2References_Credentials) = has oauth2.(OAuth2_Credentials).

Definition proxy_resolves (proxy : ProxyProviderSpec) (refs : ProxyReferences) : Prop :=
  has refs.(ProxyReferences_Certificate) = has proxy.(Proxy_Certificate).

Definition flows_resolve (flows : ProviderFlows) (resolved : Flows) : Prop :=
  has resolved.(Resolved_Authentication) = has flows.(Flows_Authentication).

Definition provider_resolves (provider : ProviderSpec) (flows : option Flows) (proxy : option ProxyReferences)
    (oauth2 : option OAuth2References) : Prop :=
  option_Forall2 flows_resolve (Some provider.(Provider_Flows)) flows /\
  option_Forall2 proxy_resolves provider.(Provider_Proxy) proxy /\
  option_Forall2 oauth2_resolves provider.(Provider_OAuth2) oauth2.

Definition resolves_to (spec : AuthentikApplicationSpec) (r : Resolved) : Prop :=
  match spec.(Spec_Provider) with
  | Some provider => provider_resolves provider r.(Resolved_Flows) r.(Resolved_Proxy) r.(Resolved_OAuth2)
  | None => r.(Resolved_Flows) = None /\ r.(Resolved_Proxy) = None /\ r.(Resolved_OAuth2) = None
  end /\
  Forall2 rule_resolves spec.(Spec_Access).(Access_Rules) r.(Resolved_Rules).

(** ** The parts of the spec *)

(** Split a conjunction of boolean validation rules. *)
Ltac valid_split :=
  repeat match goal with
  | H : _ && _ = true |- _ => apply andb_true_iff in H as [? ?]
  | H : bool_decide _ = true |- _ => apply bool_decide_eq_true in H
  end.

Abbreviation trivial_post := (fun _ => True).

Lemma valid_named_key (ref : NamedReference) :
  valid_named ref = true -> xorb (has ref.(NamedReference_Name)) (has ref.(NamedReference_UUID)) = true.
Proof. unfold valid_named. intros. by valid_split. Qed.

Lemma resolveFlows_resolves flows :
  valid_flow flows.(Flows_Authorization) = true -> valid_flow flows.(Flows_Invalidation) = true ->
  optional valid_flow flows.(Flows_Authentication) = true ->
  resolves (resolveFlows flows) (flows_resolve flows).
Proof.
  unfold valid_flow, resolveFlows. intros H1 H2 H3. destruct flows as [f1 f2 f3]. simpl in *. valid_split.
  eapply resolves_bind; [by apply resolveByString_resolves|]. intros a.
  eapply resolves_bind; [by apply resolveByString_resolves|]. intros b.
  destruct f3 as [f3|]; simpl in H3; valid_split; [|by apply resolves_ret].
  eapply resolves_bind; [by apply resolveByString_resolves|]. intros ?. by apply resolves_ret.
Qed.

Lemma resolveProxy_resolves proxy :
  valid_proxy proxy = true -> resolves (resolveProxy proxy) (proxy_resolves proxy).
Proof.
  unfold valid_proxy. intros Hv. valid_split. unfold resolveProxy. cbv zeta.
  eapply resolves_bind; [by apply resolveNamed_resolves|]. intros certificate.
  eapply resolves_bind; [|by intros ?; apply resolves_ret]. apply resolveByString_resolves.
  destruct proxy.(Proxy_Outpost) as [ref|]; [by apply valid_named_key|done].
Qed.

Lemma readKey_resolves secret refName path key defaultKey :
  resolves (readKey secret refName path key defaultKey) trivial_post.
Proof.
  unfold readKey. destruct (_ !! _); [by apply resolves_ret|]. apply resolves_add.
Qed.

Lemma resolveCredentials_resolves namespace spec : resolves (resolveCredentials namespace spec) trivial_post.
Proof.
  unfold resolveCredentials. eapply resolves_bind; [apply resolves_try, resolves_invoke|]. intros [secret|e].
  - apply (resolves_bind trivial_post); [destruct spec.(CredentialsSpec_ClientID); [by apply resolves_ret|apply readKey_resolves]|].
    intros ?. apply (resolves_bind trivial_post); [apply readKey_resolves|]. intros ?. by apply resolves_ret.
  - destruct (kube_is_not_found e); [by apply resolves_ret|apply resolves_fail].
Qed.

Lemma resolveOAuth2_resolves namespace oauth2 :
  valid_oauth2 oauth2 = true -> resolves (resolveOAuth2 namespace oauth2) (oauth2_resolves oauth2).
Proof.
  unfold valid_oauth2. intros Hv. valid_split. unfold resolveOAuth2.
  apply (resolves_bind (fun scopes => option_map length scopes = option_map length oauth2.(OAuth2_Scopes))).
  { destruct oauth2.(OAuth2_Scopes) as [refs|] eqn:E; [|by apply resolves_ret].
    eapply resolves_bind; [apply (resolve_each_resolves (fun _ _ => True))|].
    - intros i ref Href. apply resolveByString_resolves. simpl in *.
      match goal with Hf : forallb valid_scope _ = true |- _ =>
        rewrite forallb_elem_of in Hf; specialize (Hf _ Href); unfold valid_scope in Hf; by valid_split end.
    - intros pks. apply resolves_ret. intros Hf. simpl. f_equal. symmetry. by eapply Forall2_length. }
  intros scopes. eapply resolves_bind; [by apply resolveNamed_resolves|]. intros signing.
  eapply resolves_bind; [by apply resolveNamed_resolves|]. intros encryption.
  apply (resolves_bind (fun c => has c = has oauth2.(OAuth2_Credentials))).
  { destruct oauth2.(OAuth2_Credentials); [|by apply resolves_ret].
    eapply resolves_bind; [apply resolveCredentials_resolves|]. intros ?. by apply resolves_ret. }
  intros credentials. apply resolves_ret. by intros.
Qed.

Lemma resolveUser_resolves path ref :
  valid_user ref = true -> resolves (resolveUser path ref) (fun user => has user = true).
Proof.
  unfold valid_user. intros Hv. valid_split. unfold resolveUser.
  apply (resolves_bind (fun user => has user = true)).
  - destruct ref.(UserReference_PK) as [pk|]; cbv zeta.
    + case_decide; [apply resolves_add|apply getOne_resolves].
    + apply (resolves_bind trivial_post); [by apply resolves_deref; [by destruct ref.(UserReference_Username)|]|].
      intros username. eapply resolves_mono; [apply findOne_resolves|done].
  - intros [user|]; by apply resolves_ret.
Qed.

Lemma resolveRule_resolves path rule : valid_rule rule = true -> resolves (resolveRule path rule) (rule_resolves rule).
Proof.
  unfold valid_rule. intros Hv. valid_split. unfold resolveRule, rule_resolves. cbv zeta.
  destruct rule as [[group|] [user|] [policy|] negate]; simpl in *; try done.
  - eapply resolves_bind; [by apply (resolveNamed_resolves _ _ (Some group))|]. intros g. by apply resolves_ret.
  - eapply resolves_bind; [by apply resolveUser_resolves|]. intros u. by apply resolves_ret.
  - eapply resolves_bind; [by apply (resolveNamed_resolves _ _ (Some policy))|]. intros p. by apply resolves_ret.
Qed.

Lemma resolve_provider_resolves namespace spec :
  optional valid_provider spec.(Spec_Provider) = true ->
  resolves (resolve_provider namespace spec) (fun '(flows, proxy, oauth2) =>
    match spec.(Spec_Provider) with
    | Some provider => provider_resolves provider flows proxy oauth2
    | None => flows = None /\ proxy = None /\ oauth2 = None
    end).
Proof.
  intros Hv. unfold resolve_provider. destruct spec.(Spec_Provider) as [provider|]; [|by apply resolves_ret].
  simpl in Hv. unfold valid_provider in Hv. valid_split.
  eapply resolves_bind; [by apply resolveFlows_resolves|]. intros flows.
  apply (resolves_bind (option_Forall2 proxy_resolves provider.(Provider_Proxy))).
  { destruct provider.(Provider_Proxy) as [proxy|]; [|by apply resolves_ret; constructor].
    eapply resolves_bind; [by apply resolveProxy_resolves|]. intros refs. apply resolves_ret. by constructor. }
  intros proxy. apply (resolves_bind (option_Forall2 oauth2_resolves provider.(Provider_OAuth2))).
  { destruct provider.(Provider_OAuth2) as [oauth2|]; [|by apply resolves_ret; constructor].
    eapply resolves_bind; [by apply resolveOAuth2_resolves|]. intros refs. apply resolves_ret. by constructor. }
  intros oauth2. apply resolves_ret. intros. split_and!; try done. by constructor.
Qed.

Lemma resolve_parts_resolves namespace spec :
  valid_spec spec = true -> resolves (resolve_parts namespace spec) (resolves_to spec).
Proof.
  unfold valid_spec, valid_access. cbv zeta. intros Hv. valid_split.
  unfold resolve_parts. eapply resolves_bind; [by apply resolve_provider_resolves|]. intros [[flows proxy] oauth2].
  eapply resolves_bind; [apply (resolve_each_resolves rule_resolves)|].
  - intros i rule Hr. apply resolveRule_resolves.
    match goal with Hf : forallb valid_rule _ = true |- _ => rewrite forallb_elem_of in Hf; by apply Hf end.
  - intros rules. apply resolves_ret. intros. by split.
Qed.

Lemma Resolve_complete {S} app (s : S) w :
  valid_spec app.(App_Spec) = true ->
  mwp no_panic_env (Resolve app) s w (fun s' r _ => s' = s /\ forall resolved, r = Ok resolved -> resolves_to app.(App_Spec) resolved).
Proof.
  intros Hv. unfold Resolve, resolve_spec, finish_resolution. go_step. go_step.
  eapply mwp_mono; [by apply resolve_parts_resolves|]. intros c [resolved|e] w' (l & -> & Hl); [|done].
  repeat go_step. destruct l as [|f l]; repeat go_step; [|done]. split; [done|]. intros ? [= <-]. auto.
Qed.

(** C20: A resolution of a valid spec is complete or fails. Whatever the services answer, [Resolve] on a spec that
    passed the validation of the CRD does not panic and changes nothing; when it succeeds, the result has the flows, the Proxy
    and the OAuth2 references exactly for the parts of the Provider in the spec, every optional reference is there
    exactly when the spec has it, the scopes are as many, and the rules are those of the spec in the same order, each
    with the one subject and the negation of its rule. *)
Theorem resolution_is_complete {S} app (s : S) w :
  valid_spec app.(App_Spec) = true ->
  mwp no_panic_env (Resolve app) s w (fun s' r w' => s' = s /\
    (exists l, w' = w ++ l /\ Forall (in_classes [Reads]) l) /\
    (forall resolved, r = Ok resolved -> resolves_to app.(App_Spec) resolved)).
Proof.
  intros Hv. eapply mwp_mono; [apply only_calls_no_panic; [apply calls_Resolve|by apply Resolve_complete]|].
  by intros s' r w' (Hl & -> & Hr).
Qed.

(** A valid resource with a Proxy Provider and two rules. *)
Definition example_rules : list AccessRule :=
  [mkAccessRule (Some (mkNamedReference (Some "staff") None)) None None None;
   mkAccessRule None (Some (mkUserReference (Some "alice") None)) None (Some true)].

Definition example_proxy_app : AuthentikApplication :=
  mkResource "default" "wiki" "uid" 1 10 None []
    (mkSpec "wiki" "Wiki" None None None None None None None None None
       (Some (mkProviderSpec None
          (mkProviderFlows (mkFlowReference (Some "authz") None) (mkFlowReference None (Some "u-1")) None)
          (Some (mkProxyProviderSpec None (Some (mkForwardAuthSingleSpec "https://wiki.example")) None None None None
                   None None None None)) None))
       (mkAccessSpec None example_rules None None))
    (mkStatus 0 "" "" None "" [] "" [] [] []).

Lemma resolution_is_complete_witness :
  mwp no_panic_env (Resolve example_proxy_app) () [] (fun s' r w' =>
    (exists l, w' = [] ++ l /\ Forall (in_classes [Reads]) l) /\
    forall resolved, r = Ok resolved -> length resolved.(Resolved_Rules) = 2%nat).
Proof.
  eapply mwp_mono; [apply (resolution_is_complete example_proxy_app () []); vm_compute; reflexivity|].
  intros s' r w' (_ & Hl & Hr). split; [exact Hl|]. intros resolved Hok. destruct (Hr _ Hok) as [_ Hrules].
  symmetry. exact (Forall2_length _ _ _ Hrules).
Defined.
