(* ===== verification/NoPanic.v ===== *)
(** * A reconcile does not panic

    The spec of a resource that passed the validation of the CRD makes every dereference of a reconcile safe, as long
    as the API server answers a status patch with the spec that the reconcile started from. Without that condition a
    reconcile can panic ([SpecRace]): the answer replaces the resource, but not the references resolved from its former
    spec. *)
From S2P Require Import Prelude Errors Effects Api Crd Patch Interface Marker MarkerCache Reference Desired.
From S2P Require Import State KubeExample FieldDiffs Provider Conflict Bindings MatchSpec Application.
From S2P Require Import Reconcile Panics Calls CallBounds ResolveSpec.

(** ** The answers of the API server *)

(** The answer of a patch has the spec that was sent, which a status patch does not change. *)
Definition spec_kept (R : Type) (q : call R) : R -> Prop :=
  match q in call R return R -> Prop with
  | KubePatchStatus app _ => fun r => forall app', r = inl app' -> app'.(App_Spec) = app.(App_Spec)
  | KubePatch app _ => fun r => forall app', r = inl app' -> app'.(App_Spec) = app.(App_Spec)
  | _ => fun _ => True
  end.

Lemma wp_restrict {A} (p : prog call A) w (Q : A -> list (logged call) -> Prop) :
  wp no_panic_env p w Q -> wp (log_env spec_kept False) p w Q.
Proof.
  revert w. induction p as [a|R c k IH|]; simpl; intros w H; [done| |done].
  destruct H as [_ H]. split; [done|]. intros r w' [_ ->]. by apply IH, H.
Qed.

(** ** The state of a reconcile *)

Section invariant.
Context `{KubeLib} `{ModelJSON} (spec : AuthentikApplicationSpec) (Hspec : valid_spec spec = true).
Abbreviation safe := (safe spec_kept).
Abbreviation any := (fun _ => True).

Definition has_spec (app : AuthentikApplication) : Prop := app.(App_Spec) = spec.

(** Before and after the references have been resolved. *)
Definition started (s : reconcileState) : Prop := has_spec s.(rs_app).
Definition resolved_state (s : reconcileState) : Prop :=
  has_spec s.(rs_app) /\ exists r, s.(rs_resolved) = Some r /\ resolves_to spec r.

(** What the methods below need of the state: it survives a new resource with the spec and a new marker cache. *)
Class Stable (I : reconcileState -> Prop) : Prop := {
  stable_spec s : I s -> has_spec s.(rs_app);
  stable_app s app : I s -> has_spec app -> I (set_app app s);
  stable_base s base : I s -> I (set_base base s);
  stable_markers s m : I s -> I (set_markers m s);
}.

#[local] Instance started_stable : Stable started.
Proof. by split. Qed.

#[local] Instance resolved_stable : Stable resolved_state.
Proof. split; unfold resolved_state, set_app, set_base, set_markers; simpl; naive_solver. Qed.

Section stable.
Context (I : reconcileState -> Prop) `{!Stable I}.

Lemma safe_get_app : safe I get_app has_spec.
Proof. unfold get_app. eapply safe_bind; [apply safe_get, stable_spec|]. intros s Hs. by apply safe_ret. Qed.

Lemma safe_update_status f : safe I (update_status f) any.
Proof. apply safe_modify; [|done]. intros s Hs. apply stable_app; [done|]. by apply stable_spec in Hs. Qed.

Lemma safe_record_event warning reason message : safe I (record_event warning reason message) any.
Proof. by apply safe_call. Qed.

Lemma safe_markers {A} (m : M call markerCache A) P :
  Panics.safe spec_kept any m P -> safe I (markers m) P.
Proof. intros Hm. apply (safe_zoom _ _ any); [done|done|]. intros s t Hs _. by apply stable_markers. Qed.

Lemma safe_set_base f : safe I (mmodify (fun s => set_base (f s) s)) any.
Proof. apply safe_modify; [|done]. intros s Hs. by apply stable_base. Qed.

Lemma safe_patchStatus : safe I patchStatus any.
Proof.
  unfold patchStatus. eapply safe_bind; [apply (safe_get _ _ (fun s => has_spec s.(rs_app))), stable_spec|].
  intros s Hs. case_decide; [by apply safe_ret|].
  eapply safe_bind; [apply safe_wrap; unfold kubecall; apply (safe_invoke _ _ _ _ has_spec); intros a Ha|].
  - unfold has_spec. rewrite <- Hs. by apply Ha.
  - intros app Happ. apply safe_modify; [|done]. intros s' Hs'. by apply stable_base, stable_app.
Qed.
End stable.

#[local] Hint Resolve safe_get_app safe_update_status safe_record_event safe_markers safe_patchStatus : safe.
#[local] Hint Resolve started_stable resolved_stable : safe.
Hint Extern 1 (Stable _) => assumption : safe.

Section stable_methods.
Context (I : reconcileState -> Prop) `{!Stable I}.

Lemma safe_setCondition t status reason message : safe I (setCondition t status reason message) any.
Proof. unfold setCondition. safe_auto. Qed.

Lemma safe_checkConflict : safe I checkConflict any.
Proof.
  unfold checkConflict. eapply safe_bind; [by apply safe_get_app|]. intros app Happ. cbv zeta.
  eapply (safe_bind _ _ any); [by apply safe_wrap, safe_invoke|]. intros items _.
  destruct (conflictWinner_is_Some app (filter (fun other => other.(App_UID) <> app.(App_UID) /\
    other.(App_DeletionTimestamp) = None) items)) as [winner Hw].
  unfold conflict_candidates. rewrite Hw. eapply safe_bind; [by apply (safe_deref _ _ _ any); eexists|]. intros v _.
  case_decide; [by apply safe_ret|apply safe_fail].
Qed.

Lemma safe_Resolve app : has_spec app -> safe I (Resolve app) (resolves_to spec).
Proof.
  intros Happ s w Hs. eapply wp_restrict, wp_mono; [|apply (Resolve_complete app s w); by rewrite Happ].
  intros [s' r] w' [-> Hr]. split; [done|]. by rewrite <- Happ.
Qed.

(** [ResolveCreationDefaults] only looks names up. *)
Lemma safe_ResolveCreationDefaults app : safe I (ResolveCreationDefaults app) any.
Proof.
  apply (safe_zoom _ _ any); [|done|done]. unfold resolve_defaults, finish_resolution.
  destruct (_ ≫= _) as [oauth2|]; [|by apply safe_ret].
  assert (Heach : forall i, Panics.safe spec_kept any (resolve_each i defaultScopeNames (fun _ name => resolveDefaultScopeMapping name)) any).
  { generalize defaultScopeNames. intros names. induction names as [|n names IH]; intros i; simpl; [by apply safe_ret|].
    unfold resolveDefaultScopeMapping, collector_add. safe_auto. }
  unfold resolveByString, findOne, collector_add. safe_auto.
Qed.
End stable_methods.

#[local] Hint Resolve safe_setCondition safe_checkConflict safe_ResolveCreationDefaults : safe.

(** ** Providers *)

Lemma safe_get_resolved : safe resolved_state get_resolved (resolves_to spec).
Proof.
  unfold get_resolved. eapply safe_bind; [apply (safe_get _ _ (fun s => exists r, s.(rs_resolved) = Some r /\ resolves_to spec r)); by intros s [_ ?]|].
  intros s (r & Hr & Hres). rewrite Hr. by apply safe_ret.
Qed.
#[local] Hint Resolve safe_get_resolved : safe.

Definition sync_safe (p : observedProvider) : Prop := safe resolved_state p.(observed_sync) any.

Record handler_safe (h : providerHandler) : Prop := {
  safe_handler_get pk : safe resolved_state (h.(handler_get) pk) sync_safe;
  safe_handler_find name : safe resolved_state (h.(handler_findByName) name) (Forall sync_safe);
  safe_handler_create name : safe resolved_state (h.(handler_create) name) any;
  safe_handler_other pk : safe resolved_state (h.(handler_existsAsOtherType) pk) any;
}.

Lemma safe_proxy_observe proxy desired p : sync_safe (proxy_observe proxy desired p).
Proof. unfold sync_safe. cbn [observed_sync proxy_observe oauth2_observe]. destruct (DiffProxyProvider _ _); safe_auto. Qed.

Lemma safe_oauth2_observe desired p : sync_safe (oauth2_observe desired p).
Proof. unfold sync_safe. cbn [observed_sync proxy_observe oauth2_observe]. destruct (DiffOAuth2Provider _ _); safe_auto. Qed.

Lemma proxy_handler_safe provider proxy flows refs :
  handler_safe (proxyProviderHandler proxy (desiredProxyProvider provider proxy flows refs)).
Proof.
  split; simpl; intros.
  - eapply (safe_bind _ _ any); [safe_auto|]. intros p _. apply safe_ret, safe_proxy_observe.
  - eapply (safe_bind _ _ any); [safe_auto|]. intros ps _. apply safe_ret, Forall_fmap, Forall_true. intros.
    apply safe_proxy_observe.
  - safe_auto.
  - unfold exists_object. safe_auto.
Qed.

Lemma oauth2_handler_safe provider oauth2 flows refs :
  handler_safe (oauth2ProviderHandler (desiredOAuth2Provider provider oauth2 flows refs)).
Proof.
  split; simpl; intros.
  - eapply (safe_bind _ _ any); [safe_auto|]. intros p _. apply safe_ret, safe_oauth2_observe.
  - eapply (safe_bind _ _ any); [safe_auto|]. intros ps _. apply safe_ret, Forall_fmap, Forall_true. intros.
    apply safe_oauth2_observe.
  - eapply safe_bind; [apply safe_get_app; apply _|]. intros app _. eapply safe_bind; [apply safe_ResolveCreationDefaults; apply _|].
    intros defaults _. safe_auto.
  - unfold exists_object. safe_auto.
Qed.

(** The resolved references of a spec with a Provider. *)
Lemma resolves_provider r provider :
  spec.(Spec_Provider) = Some provider -> resolves_to spec r ->
  provider_resolves provider r.(Resolved_Flows) r.(Resolved_Proxy) r.(Resolved_OAuth2).
Proof. intros Hp [Hr _]. by rewrite Hp in Hr. Qed.

Lemma valid_provider_type provider :
  spec.(Spec_Provider) = Some provider -> provider.(Provider_Proxy) = None -> is_Some provider.(Provider_OAuth2).
Proof.
  intros Hp Hn. pose proof Hspec as Hv. unfold valid_spec in Hv. valid_split. rewrite Hp in *. simpl in *.
  unfold valid_provider in *. valid_split. rewrite Hn in *. by destruct provider.(Provider_OAuth2).
Qed.

Lemma safe_get_providerHandler provider :
  spec.(Spec_Provider) = Some provider -> safe resolved_state get_providerHandler handler_safe.
Proof.
  intros Hp. unfold get_providerHandler. eapply safe_bind; [apply safe_get_app; apply _|]. intros app Happ. rewrite Happ.
  eapply safe_bind; [apply (safe_deref _ _ _ (eq provider)); by eexists|]. intros ? <-.
  eapply safe_bind; [apply safe_get_resolved|]. intros r Hr. apply (resolves_provider _ _ Hp) in Hr as (Hf & Hproxy & Hoauth2).
  inversion Hf as [flows flows' _ E1 E2|]. destruct provider.(Provider_Proxy) as [proxy|] eqn:Ep.
  - inversion Hproxy as [? refs _ E3 E4|]. simpl. eapply (safe_bind _ _ any); [by apply safe_ret|]. intros f _.
    eapply (safe_bind _ _ any); [by apply safe_ret|]. intros rf _. apply safe_ret, proxy_handler_safe.
  - destruct (valid_provider_type _ Hp Ep) as [oauth2 Eo]. rewrite Eo in *. inversion Hoauth2 as [? refs _ E3 E4|]. simpl.
    eapply (safe_bind _ _ any); [by apply safe_ret|]. intros o _. eapply (safe_bind _ _ any); [by apply safe_ret|]. intros f _.
    eapply (safe_bind _ _ any); [by apply safe_ret|]. intros rf _. apply safe_ret, oauth2_handler_safe.
Qed.

(** A Provider that was found can be repaired. *)
Definition found_safe (p : option observedProvider) : Prop := forall provider, p = Some provider -> sync_safe provider.

Lemma safe_get_if_found h pk : handler_safe h -> safe resolved_state (get_if_found h pk) found_safe.
Proof.
  intros Hh. unfold get_if_found. eapply safe_bind; [by apply safe_try, safe_handler_get|]. intros [p|e] Hp.
  - apply safe_ret. intros ? [= <-]. by apply Hp.
  - destruct (is_not_found e); [by apply safe_ret|apply safe_fail].
Qed.

Lemma safe_get_attached h a pk : handler_safe h -> safe resolved_state (get_attached h a pk) found_safe.
Proof.
  intros Hh. unfold get_attached. eapply safe_bind; [by apply safe_get_if_found|]. intros [p|] Hp; [by apply safe_ret|].
  eapply safe_bind; [by apply safe_handler_other|]. intros b _. destruct b; [apply safe_fail|by apply safe_ret].
Qed.

Section provider.
Context (provider : ProviderSpec) (Hp : spec.(Spec_Provider) = Some provider).

Lemma safe_providerName app :
  has_spec app -> safe resolved_state (mderef (providerName app.(App_Spec))) any.
Proof. intros Ha. apply safe_deref. rewrite Ha. unfold providerName. rewrite Hp. simpl. destruct (Provider_Name _); eauto. Qed.

Lemma safe_find_by_name h : handler_safe h -> safe resolved_state (find_by_name h) found_safe.
Proof.
  intros Hh. unfold find_by_name. eapply safe_bind; [apply safe_get_app, _|]. intros app Ha.
  eapply safe_bind; [by apply safe_providerName|]. intros name _. eapply safe_bind; [by apply safe_handler_find|].
  intros candidates Hc. eapply safe_bind; [apply safe_get_app, _|]. intros app' _. apply safe_ret.
  intros p Hfind. rewrite Forall_forall in Hc. apply Hc. apply list_elem_of_In. by apply find_some in Hfind as [? _].
Qed.

Lemma safe_find_attached_or_named h a : handler_safe h -> safe resolved_state (find_attached_or_named h a) found_safe.
Proof.
  intros Hh. unfold find_attached_or_named. destruct (_ ≫= _) as [[b pk]|]; [|by apply safe_find_by_name].
  eapply safe_bind; [by apply safe_get_attached|]. intros [p|] Hfound; [by apply safe_ret|by apply safe_find_by_name].
Qed.

Lemma safe_findProvider h a : handler_safe h -> safe resolved_state (findProvider h a) found_safe.
Proof.
  intros Hh. unfold findProvider. eapply safe_bind; [apply safe_get_app, _|]. intros app _.
  destruct (Status_ProviderPK _); [|by apply safe_find_attached_or_named]. cbv zeta.
  eapply safe_bind; [by apply safe_get_if_found|]. intros [p|] Hfound; [by apply safe_ret|].
  eapply safe_bind; [apply safe_record_event|]. intros _ _. eapply safe_bind; [apply safe_update_status, _|]. intros _ _.
  by apply safe_find_attached_or_named.
Qed.

Lemma safe_reconcileProvider a : safe resolved_state (reconcileProvider a) any.
Proof.
  unfold reconcileProvider. eapply safe_bind; [by eapply safe_get_providerHandler|]. intros h Hh.
  eapply safe_bind; [by apply safe_findProvider|]. intros found Hfound.
  apply (safe_bind _ _ any).
  { destruct found; [by apply safe_ret|]. eapply safe_bind; [apply safe_get_app, _|]. intros app Ha.
    eapply safe_bind; [by apply safe_providerName|]. intros name _. eapply safe_bind; [by apply safe_handler_create|].
    intros pk _. safe_auto. }
  intros pk _. eapply safe_bind; [apply safe_get_app, _|]. intros app Ha. apply (safe_bind _ _ any); [case_decide; safe_auto|].
  intros _ _. apply (safe_bind _ _ any); [safe_auto|]. intros _ _. destruct found as [p|]; [|by apply safe_ret].
  eapply safe_bind; [by apply Hfound|]. intros _ _. by apply safe_ret.
Qed.

Lemma safe_leaveOutpostByUUID uuid pk : safe resolved_state (leaveOutpostByUUID uuid pk) any.
Proof. unfold leaveOutpostByUUID, removeProviderFromOutpost, ignoreNotFound. safe_auto. Qed.
#[local] Hint Resolve safe_leaveOutpostByUUID : safe.

Lemma safe_reconcileOutpost pk : has provider.(Provider_Proxy) = true -> safe resolved_state (reconcileOutpost pk) any.
Proof.
  intros Hproxy. unfold reconcileOutpost. eapply safe_bind; [apply safe_get_resolved|]. intros r Hr.
  apply (resolves_provider _ _ Hp) in Hr as (_ & Hpr & _). destruct provider.(Provider_Proxy) as [proxy|]; [|done].
  inversion Hpr as [? refs _ E1 E2|]. eapply (safe_bind _ _ any); [by apply safe_ret|]. intros rf _. cbv zeta. safe_auto.
Qed.

Lemma safe_exportCredentials pk r :
  resolves_to spec r -> secret_missing r = true -> safe resolved_state (exportCredentials pk) any.
Proof.
  intros Hr Hm. apply (resolves_provider _ _ Hp) in Hr as (_ & _ & Ho). unfold secret_missing in Hm.
  inversion Ho as [oauth2 refs Hrefs E1 E2|E1 E2]; rewrite <- E2 in Hm; [|done]. simpl in Hm.
  destruct refs.(OAuth2References_Credentials) eqn:Ec; [|done]. destruct Hrefs as (_ & _ & _ & Hc). rewrite Ec in Hc.
  destruct oauth2.(OAuth2_Credentials) as [credentials|] eqn:Es; [|done].
  unfold exportCredentials. eapply safe_bind; [apply safe_get_app, _|]. intros app Ha. rewrite Ha, Hp.
  eapply (safe_bind _ _ (eq provider)); [by apply safe_ret|]. intros ? <-. rewrite <- E1.
  eapply (safe_bind _ _ (eq oauth2)); [by apply safe_ret|]. intros ? <-. rewrite Es. cbv zeta. safe_auto.
Qed.
End provider.

Lemma safe_reconcile_provider a : safe resolved_state (reconcile_provider a) any.
Proof.
  unfold reconcile_provider. eapply safe_bind; [apply safe_get_app, _|]. intros app Ha. rewrite Ha.
  destruct spec.(Spec_Provider) as [provider|] eqn:Hp; [|by apply safe_ret].
  eapply safe_bind; [by eapply safe_reconcileProvider|]. intros pk _.
  eapply safe_bind; [apply safe_get_app, _|]. intros app' Ha'. rewrite Ha', Hp.
  eapply (safe_bind _ _ (eq provider)); [by apply safe_ret|]. intros ? <-.
  apply (safe_bind _ _ any).
  { destruct provider.(Provider_Proxy) eqn:Ep; [|by apply safe_ret]. eapply safe_reconcileOutpost; [done|by rewrite Ep]. }
  intros _ _. eapply safe_bind; [apply safe_get_resolved|]. intros r Hr. apply (safe_bind _ _ any).
  { destruct (secret_missing r) eqn:Em; [by eapply safe_exportCredentials|by apply safe_ret]. }
  intros _ _. by apply safe_ret.
Qed.

(** ** The Application *)

Lemma safe_attachedProvider a : safe resolved_state (attachedProvider a) any.
Proof.
  unfold attachedProvider. eapply safe_bind; [apply safe_get_app, _|]. intros app Ha. rewrite Ha.
  destruct spec.(Spec_Provider) as [provider|] eqn:Hp; [|by apply safe_ret].
  destruct (Nullable_Get _); [|by apply safe_ret]. eapply safe_bind; [by eapply safe_get_providerHandler|]. intros h Hh.
  by eapply safe_top, safe_get_attached.
Qed.
#[local] Hint Resolve safe_attachedProvider : safe.

Lemma safe_adoptApplication a : safe resolved_state (adoptApplication a) any.
Proof.
  unfold adoptApplication. cbv zeta. eapply safe_bind; [apply safe_get_app, _|]. intros app _.
  case_decide; [apply safe_fail|]. safe_auto.
Qed.
#[local] Hint Resolve safe_adoptApplication : safe.

Lemma safe_observeApplication : safe resolved_state observeApplication any.
Proof. unfold observeApplication, ensure_application_marker, record_application. safe_auto. Qed.

Lemma safe_reconcileApplication a pk : safe resolved_state (reconcileApplication a pk) any.
Proof.
  unfold reconcileApplication, ensure_application_marker, record_application. eapply safe_bind; [apply safe_get_app, _|].
  intros app Ha. cbv zeta. destruct a; [destruct (DiffApplication _ _); safe_auto|].
  eapply (safe_bind _ _ any); [apply safe_deref; by eexists|]. intros request _. safe_auto.
Qed.

(** ** The Bindings *)

Lemma rules_subjects rules resolved :
  forallb valid_rule rules = true -> Forall2 rule_resolves rules resolved ->
  Forall (fun rule => is_Some (ruleSubject rule)) resolved.
Proof.
  intros Hv Hr. induction Hr as [|rule res rules rs (Hg & Hu & Hp & _) Hr IH]; [done|].
  cbn [forallb] in Hv. apply andb_true_iff in Hv as [Hv Hvs]. constructor; [|by apply IH].
  clear IH Hr Hvs. unfold valid_rule, ruleSubject in *. valid_split.
  destruct rule as [[?|] [?|] [?|] ?], res as [[?|] [?|] [?|] ?]; simpl in *; by eauto.
Qed.

Lemma resolved_rules_subjects r :
  resolves_to spec r -> Forall (fun rule => is_Some (ruleSubject rule)) r.(Resolved_Rules).
Proof.
  intros [_ Hr]. pose proof Hspec as Hv. unfold valid_spec, valid_access in Hv. cbv zeta in Hv. valid_split.
  by eapply rules_subjects.
Qed.

Lemma safe_matchBindings r bindings exactOnly :
  resolves_to spec r -> safe resolved_state (mderef (matchBindings r.(Resolved_Rules) bindings exactOnly)) any.
Proof.
  intros Hr. apply safe_deref.
  destruct (matchBindings_defined r.(Resolved_Rules) bindings exactOnly (resolved_rules_subjects r Hr)) as (m & Hm & _). eauto.
Qed.

Lemma safe_managedBindings existing : safe resolved_state (managedBindings existing) any.
Proof.
  unfold managedBindings. apply safe_fold; [done|]. intros [[managed unmanaged] order] b Hb _. cbv zeta. safe_auto.
Qed.

Lemma safe_adopt_bindings matched adopted : safe resolved_state (adopt_bindings matched adopted) any.
Proof.
  revert adopted. induction matched as [|m matched IH]; intros adopted; simpl; [by apply safe_ret|].
  assert (Hrest : forall m' adopted, safe resolved_state (let* rest := adopt_bindings matched adopted in mret (m' :: rest)) any).
  { intros m' adopted'. eapply (safe_bind _ _ any); [apply IH|]. intros rest _. by apply safe_ret. }
  destruct m as [m|], adopted as [|[b|] adopted]; try apply Hrest; try by apply safe_ret.
  eapply (safe_bind _ _ any); [safe_auto|]. intros _ _. apply Hrest.
Qed.

Lemma safe_sync_rule target acc item : safe resolved_state (sync_rule target acc item) any.
Proof.
  unfold sync_rule, syncBinding. destruct acc as [kept order], item as [rule [b|]].
  - destruct (DiffPolicyBinding _ _); safe_auto.
  - cbv zeta. eapply (safe_bind _ _ any); [apply safe_deref|intros request _; safe_auto].
    unfold desiredBinding. destruct (Rule_Group rule), (Rule_User rule); by eexists.
Qed.

Lemma safe_delete_obsolete kept managed : safe resolved_state (delete_obsolete kept managed) any.
Proof. unfold delete_obsolete, deleteBinding, ignoreNotFound. safe_auto. Qed.

Lemma safe_describeSubject b : safe resolved_state (describeSubject b) any.
Proof. unfold describeSubject, describe_as. cbv zeta. safe_auto. Qed.
#[local] Hint Resolve safe_describeSubject : safe.

Lemma safe_handleUnmanagedBindings unmanaged : safe resolved_state (handleUnmanagedBindings unmanaged) any.
Proof.
  unfold handleUnmanagedBindings, ignoreNotFound. eapply safe_bind; [apply safe_get_app, _|]. intros app _. cbv zeta.
  apply (safe_bind _ _ any); [destruct (default false (Access_Prune _)); safe_auto|]. intros _ _.
  apply (safe_bind _ _ any); [apply safe_fold; [done|]; intros reported b Hb _; safe_auto|]. intros reported _.
  apply (safe_bind _ _ any); [apply safe_update_status, _|]. intros _ _. safe_auto.
Qed.

Lemma safe_reconcileBindings a : safe resolved_state (reconcileBindings a) any.
Proof.
  unfold reconcileBindings. cbv zeta. eapply (safe_bind _ _ any); [safe_auto|]. intros existing _.
  eapply safe_bind; [apply safe_managedBindings|]. intros [[managed unmanaged] order] _.
  eapply safe_bind; [apply safe_get_resolved|]. intros r Hr.
  eapply safe_bind; [by apply safe_matchBindings|]. intros matched _.
  eapply safe_bind; [by apply safe_matchBindings|]. intros adopted _.
  eapply safe_bind; [apply safe_adopt_bindings|]. intros matched' _.
  eapply (safe_bind _ _ any); [apply safe_fold; [done|]; intros; apply safe_sync_rule|]. intros [kept ?] _.
  eapply safe_bind; [apply safe_delete_obsolete|]. intros _ _. eapply safe_bind; [apply safe_update_status, _|]. intros _ _.
  eapply safe_bind; [apply safe_patchStatus, _|]. intros _ _. apply safe_handleUnmanagedBindings.
Qed.

(** ** The whole reconcile *)

Lemma safe_reconcile : safe started reconcile any.
Proof.
  intros s w Hs. unfold reconcile. go_step. eapply mwp_mono; [exact (safe_checkConflict started s w Hs)|].
  intros s1 [[]|e] w1 [H1 _]; [|done]. go_step. eapply mwp_mono; [exact (safe_get_app started s1 w1 H1)|].
  intros s2 [app|e] w2 [H2 Happ]; [|done]. go_step. eapply mwp_mono; [exact (safe_Resolve started app (Happ _ eq_refl) s2 w2 H2)|].
  intros s3 [r|e] w3 [H3 Hr]; [|done]. go_step. go_step.
  assert (Hres : resolved_state (set_resolved (Some r) s3)) by (split; [done|]; eexists; split; [done|]; by apply Hr).
  eapply mwp_mono.
  - revert Hres. generalize (set_resolved (Some r) s3) as s4. intros s4 Hres.
    apply (safe_bind _ resolved_state any _ _ any); [apply safe_observeApplication| |done].
    intros observed _. eapply safe_bind; [apply safe_reconcile_provider|]. intros pk _.
    eapply safe_bind; [apply safe_reconcileApplication|]. intros a _. apply safe_reconcileBindings.
  - intros s' o w' [[Hs' _] _]. by split.
Qed.
End invariant.

(** C10: A reconcile does not panic. For a resource that passed the validation of the CRD, whatever authentik and
    Kubernetes answer, except that the answer of a status patch has the spec that was sent: no nil pointer is
    dereferenced and no nil map is written, and the resource still has the spec afterwards. *)
Theorem reconcile_does_not_panic `{KubeLib} `{ModelJSON} s w :
  valid_spec s.(rs_app).(App_Spec) = true ->
  mwp (log_env spec_kept False) reconcile s w (fun s' _ _ => s'.(rs_app).(App_Spec) = s.(rs_app).(App_Spec)).
Proof. intros Hv. eapply mwp_mono; [by apply (safe_reconcile _ Hv)|]. by intros s' o w' [Hs' _]. Qed.

(** ** An instance *)

Definition example_application : Application :=
  mkApplication "app-pk" "pbm" "Wiki" "wiki" Unset None None None None None None None None.

Definition without_provider (app : AuthentikApplication) : AuthentikApplication :=
  let spec := app.(App_Spec) in
  mkResource app.(App_Namespace) app.(App_Name) app.(App_UID) app.(App_Generation) app.(App_CreationTimestamp)
    app.(App_DeletionTimestamp) app.(App_Finalizers)
    (mkSpec spec.(Spec_Slug) spec.(Spec_Name) spec.(Spec_LaunchURL) spec.(Spec_Icon) spec.(Spec_Description)
       spec.(Spec_Publisher) spec.(Spec_Group) spec.(Spec_OpenInNewTab) spec.(Spec_HideFromApplicationDashboard)
       spec.(Spec_DeletionPolicy) spec.(Spec_Adopt) None
       (mkAccessSpec None [] (Some true) None)) app.(App_Status).

(** The Application is marked, and the resource has not recorded it. *)
Definition racing_state : reconcileState :=
  let app := without_provider example_proxy_app in
  mkReconcileState app app None
    (set_objects (Some {[applicationObject example_application]}) (newMarkerCache (mkMarker "operator" "role-1") 60 false)).

Lemma reconcile_does_not_panic_witness :
  mwp (log_env spec_kept False) (@reconcile list_KubeLib example_ModelJSON) racing_state [] (fun s' _ _ =>
    s'.(rs_app).(App_Spec).(Spec_Slug) = "wiki").
Proof.
  eapply mwp_mono; [apply (@reconcile_does_not_panic list_KubeLib example_ModelJSON racing_state []); vm_compute; reflexivity|].
  intros s' o w' ->. reflexivity.
Defined.
