(* ===== verification/FakeLogic.v ===== *)
(** * What a successful method achieves against the in-memory authentik

    A logic of partial correctness: [achieves m s c Q] says that [m], started in the memory [s] and the state [c] of the
    server, ends in [Q] if it succeeds. Errors and panics are accepted here: [kept_achieves] combines the logic with the
    absence of panics that is proved against any services whose answers keep the spec. The calls that a method makes
    bound what it changes on the server. *)
From S2P Require Import Prelude Errors Effects Api Crd Interface Fake Marker MarkerCache MarkerSpec ServerInvariant State Access Panics Calls NoPanic.

(** ** Environments *)

(** The in-memory authentik beside a Kubernetes whose answers keep the spec. *)
Definition kept_env : environment call Client :=
  mkEnv (fun _ _ _ => True) (fun R q c r c' => env_step fake_env R q c r c' /\ spec_kept R q r) False.

(** The same, where a panic is accepted. *)
Definition loose_env : environment call Client := mkEnv (fun _ _ _ => True) (env_step kept_env) True.

Definition achieves {S A} (m : M call S A) (s : S) (c : Client) (Q : S -> A -> Client -> Prop) : Prop :=
  mwp loose_env m s c (fun s' r c' => forall a, r = Ok a -> Q s' a c').

(** A method that keeps [I] and does not panic as long as Kubernetes keeps the spec. *)
Lemma kept_achieves {S A} (I : S -> Prop) (m : M call S A) (P : A -> Prop) s c Q :
  safe spec_kept I m P -> I s -> achieves m s c Q ->
  mwp kept_env m s c (fun s' r c' => I s' /\ forall a, r = Ok a -> Q s' a c' /\ P a).
Proof.
  intros Hm HI. specialize (Hm s [] HI). unfold achieves, mwp in *. revert c Hm. generalize (@nil (logged call)) as w.
  induction (m s) as [[s' r]|R q k IH|]; simpl; intros w c Hm HQ; [naive_solver| |done].
  destruct Hm as [_ Hm], HQ as [_ HQ]. split; [done|]. intros r c' Hs.
  eapply IH; [apply Hm; split; [apply Hs|done]|by apply HQ].
Qed.

(** What holds in an environment with the same answers, or more, holds in one that asks for less. *)
Lemma mwp_env {S A} (E E' : environment call Client) (m : M call S A) s c Q :
  (forall R (q : call R) c r c', env_step E' R q c r c' -> env_step E R q c r c') ->
  (forall R (q : call R) c, env_ok E' R q c) -> (env_crash E -> env_crash E') -> mwp E m s c Q -> mwp E' m s c Q.
Proof.
  intros Hstep Hok Hcrash. unfold mwp. revert c. induction (m s) as [[s' r]|R q k IH|]; simpl; intros c H; [done| |auto].
  destruct H as [_ H]. split; [done|]. intros r c' Hs. apply IH, H. by apply Hstep.
Qed.

Lemma mwp_loose {S A} (m : M call S A) s c Q : mwp fake_env m s c Q -> mwp loose_env m s c Q.
Proof. apply mwp_env; [|done|done]. by intros R q c' r c'' [? _]. Qed.

Lemma achieves_fake {S A} (m : M call S A) s c Q (Q' : S -> A -> Client -> Prop) :
  mwp fake_env m s c Q -> (forall s' a c', Q s' (Ok a) c' -> Q' s' a c') -> achieves m s c Q'.
Proof. intros Hm HQ. eapply mwp_mono; [by apply mwp_loose|]. intros s' r c' H a ->. auto. Qed.

(** A method that does not panic, against services that answer anything. *)
Lemma achieves_log {S A} (m : M call S A) s w c (Q : S -> result A -> list (logged call) -> Prop)
    (Q' : S -> A -> Client -> Prop) :
  mwp (log_env (fun _ _ _ => True) False) m s w Q -> (forall s' a w' c', Q s' (Ok a) w' -> Q' s' a c') -> achieves m s c Q'.
Proof.
  intros Hm HQ. unfold achieves, mwp in *. revert w c Hm.
  induction (m s) as [[s' r]|R q k IH|]; simpl; intros w c Hm; [intros a ->; by eapply HQ| |done].
  destruct Hm as [_ Hm]. split; [done|]. intros r c' _. eapply IH. by apply Hm.
Qed.

(** ** Rules *)

Section rules.
Context {S : Type}.
Implicit Types (s : S) (c : Client).

Lemma achieves_mono {A} (m : M call S A) s c (Q Q' : S -> A -> Client -> Prop) :
  achieves m s c Q -> (forall s' a c', Q s' a c' -> Q' s' a c') -> achieves m s c Q'.
Proof. intros Hm HQ. eapply mwp_mono; [exact Hm|]. auto. Qed.

Lemma achieves_ret {A} (a : A) s c (Q : S -> A -> Client -> Prop) : Q s a c -> achieves (mret a) s c Q.
Proof. by intros HQ ? [= <-]. Qed.

Lemma achieves_fail {A} e s c (Q : S -> A -> Client -> Prop) : achieves (mfail e) s c Q.
Proof. by intros ? [=]. Qed.

Lemma achieves_get s c (Q : S -> S -> Client -> Prop) : Q s s c -> achieves mget s c Q.
Proof. by intros HQ ? [= <-]. Qed.

Lemma achieves_modify f s c (Q : S -> () -> Client -> Prop) : Q (f s) () c -> achieves (mmodify f) s c Q.
Proof. by intros HQ ? [= <-]. Qed.

Lemma achieves_deref {A} (p : option A) s c (Q : S -> A -> Client -> Prop) :
  (forall a, p = Some a -> Q s a c) -> achieves (mderef p) s c Q.
Proof. destruct p as [a|]; [|done]. intros HQ. apply achieves_ret. auto. Qed.

Lemma achieves_call {A} (q : call A) s c (Q : S -> A -> Client -> Prop) :
  (forall a c', env_step fake_env _ q c a c' -> Q s a c') -> achieves (mcall q) s c Q.
Proof. intros HQ. apply mwp_call; [done|]. intros r c' [Hs _] a [= <-]. auto. Qed.

Lemma achieves_invoke {A E} (inject : E -> error) (q : call (A + E)) s c (Q : S -> A -> Client -> Prop) :
  (forall a c', env_step fake_env _ q c (inl a) c' -> Q s a c') -> achieves (minvoke inject q) s c Q.
Proof. intros HQ. apply mwp_invoke; [done|]. intros [r|e] c' [Hs _] a [=]. subst. auto. Qed.

(** A call to authentik that succeeds. *)
Lemma achieves_akcall {A} (q : call (ak A)) s c p (Q : S -> A -> Client -> Prop) :
  fake_handle _ q c = Some p -> (forall a c', p = (c', inl a) -> Q s a c') -> achieves (akcall q) s c Q.
Proof.
  intros Hq HQ. apply achieves_invoke. intros a c' Hs. cbn [fake_env env_step] in Hs. rewrite Hq in Hs.
  apply HQ. destruct p, Hs as [-> ->]. done.
Qed.

Lemma achieves_bind {A B} (m : M call S A) (f : A -> M call S B) s c Q :
  achieves m s c (fun s' a c' => achieves (f a) s' c' Q) -> achieves (mbind m f) s c Q.
Proof. intros Hm. apply mwp_bind. eapply mwp_mono; [exact Hm|]. intros s' [a|e] c' H; [by apply H|done]. Qed.

Lemma achieves_try {A} (m : M call S A) s c (Q : S -> result A -> Client -> Prop) :
  mwp loose_env m s c Q -> achieves (mtry m) s c Q.
Proof. intros Hm. apply mwp_try. eapply mwp_mono; [exact Hm|]. by intros s' r c' HQ ? [= <-]. Qed.

Lemma achieves_wrap {A} prefix (m : M call S A) s c Q : achieves m s c Q -> achieves (mwrap prefix m) s c Q.
Proof.
  intros Hm. apply mwp_bind, mwp_try. eapply mwp_mono; [exact Hm|]. intros s' [a|e] c' H; [|done].
  apply achieves_ret. by apply H.
Qed.

Lemma achieves_zoom {T A} (get : S -> T) (put : T -> S -> S) (m : M call T A) s c (Q : S -> A -> Client -> Prop) :
  achieves m (get s) c (fun t a c' => Q (put t s) a c') -> achieves (mzoom get put m) s c Q.
Proof. intros Hm. apply mwp_zoom. exact Hm. Qed.

Lemma mwp_any {A} (m : M call S A) s c : mwp loose_env m s c (fun _ _ _ => True).
Proof.
  unfold mwp. generalize (m s) as p. intros p. revert c. induction p as [[]|R q k IH|]; simpl; intros c; [done| |done].
  split; [done|]. intros r c' _. apply IH.
Qed.

(** The invariants of the absence of panics. *)
Lemma achieves_safe {A} (I : S -> Prop) (m : M call S A) (P : A -> Prop) s c Q :
  safe spec_kept I m P -> I s -> achieves m s c Q -> achieves m s c (fun s' a c' => Q s' a c' /\ I s' /\ P a).
Proof.
  intros Hm HI HQ. eapply mwp_mono.
  - apply (mwp_env kept_env); [done|done|done|]. by apply (kept_achieves I m P).
  - intros s' r c' [HI' H] a Ha. destruct (H a Ha). auto.
Qed.

Lemma achieves_any {A} (m : M call S A) s c : achieves m s c (fun _ _ _ => True).
Proof. eapply mwp_mono; [apply mwp_any|done]. Qed.
End rules.

(** One step of symbolic execution. *)
Ltac achieve_step :=
  lazymatch goal with
  | |- achieves (mret _) _ _ _ => apply achieves_ret
  | |- achieves (mfail _) _ _ _ => apply achieves_fail
  | |- achieves mget _ _ _ => apply achieves_get
  | |- achieves (mmodify _) _ _ _ => apply achieves_modify
  | |- achieves (mderef _) _ _ _ => apply achieves_deref; intros ? ?
  | |- achieves (mcall _) _ _ _ => apply achieves_call; intros ? ? ?
  | |- achieves (akcall _) _ _ _ => unfold akcall; apply achieves_invoke; intros ? ? ?
  | |- achieves (kubecall _) _ _ _ => unfold kubecall; apply achieves_invoke; intros ? ? ?
  | |- achieves (minvoke _ _) _ _ _ => apply achieves_invoke; intros ? ? ?
  | |- achieves (mbind _ _) _ _ _ => apply achieves_bind
  | |- achieves (mwrap _ _) _ _ _ => apply achieves_wrap
  | |- achieves (mzoom _ _ _) _ _ _ => apply achieves_zoom
  end.

(** A call to authentik whose answer is [a], with the effect on the server as an equation. *)
Ltac achieve_akcall a c' H := eapply achieves_akcall; [reflexivity|]; intros a c' H.

(** The answer of the server in a hypothesis. *)
Ltac answer H :=
  cbn [env_step fake_env fake_handle] in H;
  lazymatch type of H with
  | _ /\ _ => let Hc := fresh "Hc" in let Hr := fresh "Hr" in destruct H as [Hc Hr]; cbn [fst snd] in Hc, Hr
  | _ = _ => subst
  end.

(** ** Frames *)

(** The calls of a run, from one state of the server to another. *)
Inductive trace : Client -> list (logged call) -> Client -> Prop :=
  | trace_nil c : trace c [] c
  | trace_cons c R (q : call R) r c1 l c2 :
      env_step kept_env R q c r c1 -> trace c1 l c2 -> trace c (mkLogged q r :: l) c2.

Lemma wp_trace {A} (p : prog call A) w c (Qlog : A -> list (logged call) -> Prop) (Q : A -> Client -> Prop) :
  wp any_env p w Qlog -> wp loose_env p c Q ->
  wp loose_env p c (fun a c' => Q a c' /\ exists l, trace c l c' /\ Qlog a (w ++ l)).
Proof.
  revert w c. induction p as [a|R q k IH|]; simpl; intros w c Hlog HQ; [|destruct Hlog as [_ Hlog], HQ as [_ HQ]|done].
  - split; [done|]. exists []. rewrite app_nil_r. split; [constructor|done].
  - split; [done|]. intros r c' Hs. eapply wp_mono; [|eapply IH; [by apply Hlog|by apply HQ]].
    intros a c2 [HQ' (l & Hl & Hlog')]. split; [done|]. exists (mkLogged q r :: l).
    rewrite <- app_assoc in Hlog'. split; [eapply trace_cons; [exact Hs|exact Hl]|done].
Qed.

(** The calls of a program only change the server in ways that are composed of those of each call. *)
Lemma mwp_frame {S A} allowed (rel : Client -> Client -> Prop) `{!PreOrder rel} (m : M call S A) s c Q :
  only_calls allowed m ->
  (forall R (q : call R) r c c', allowed (mkLogged q r) -> env_step fake_env R q c r c' -> rel c c') ->
  mwp loose_env m s c Q -> mwp loose_env m s c (fun s' r c' => Q s' r c' /\ rel c c').
Proof.
  intros Hm Hrel HQ. eapply wp_mono; [|exact (wp_trace _ _ _ _ _ (Hm s []) HQ)].
  intros [s' r] c' [HQ' (l & Hl & l' & Hall & Hfor)]. split; [done|]. simpl in Hall. subst l'.
  clear HQ HQ'. induction Hl as [c|c R q r' c1 l c2 Hs Hl IH]; [reflexivity|].
  apply Forall_cons in Hfor as [He Hfor]. etransitivity; [exact (Hrel _ _ _ _ _ He (proj1 Hs))|by apply IH].
Qed.

(** Calls that only read. *)
Definition unchanged_class (cl : call_class) : bool :=
  match cl with Reads | KubeWrites => true | _ => false end.

Lemma fake_read R (q : call R) r c c' :
  unchanged_class (class_of q) = true -> env_step fake_env R q c r c' -> c' = c.
Proof. destruct q; simpl; try discriminate; intros _ H; first [exact H|exact (proj1 H)]. Qed.

Lemma mwp_reads {S A} cs (m : M call S A) s c Q :
  only_calls (in_classes cs) m -> forallb unchanged_class cs = true -> mwp loose_env m s c Q ->
  mwp loose_env m s c (fun s' r c' => Q s' r c' /\ c' = c).
Proof.
  intros Hm Hcs HQ. eapply mwp_mono; [apply (mwp_frame (in_classes cs) eq m s c Q Hm); [|exact HQ]|by intros s' r c' [? <-]].
  intros R q r c1 c2 Hin Hs. symmetry. revert Hs. apply fake_read. rewrite forallb_elem_of in Hcs. by apply Hcs.
Qed.

Lemma achieves_reads {S A} cs (m : M call S A) s c Q :
  only_calls (in_classes cs) m -> forallb unchanged_class cs = true -> achieves m s c Q ->
  achieves m s c (fun s' a c' => Q s' a c' /\ c' = c).
Proof. intros Hm Hcs HQ. eapply mwp_mono; [by apply (mwp_reads cs)|]. intros s' r c' [H ->] a Ha. auto. Qed.

(** One call that only reads, whose error the method may handle. *)
Lemma mwp_read {S A} (q : call (ak A)) (s : S) c (Q : S -> result A -> Client -> Prop) :
  (forall r, env_step fake_env _ q c r c -> Q s (match r with inl a => Ok a | inr e => Err (ClientError e) end) c) ->
  unchanged_class (class_of q) = true -> mwp loose_env (akcall q) s c Q.
Proof.
  intros HQ Hq. unfold akcall. apply mwp_invoke; [done|]. intros r c' [Hs _].
  pose proof (fake_read _ _ _ _ _ Hq Hs) as ->. by apply HQ.
Qed.

(** What creations and updates leave alone. *)
Record same_rbac (c c' : Client) : Prop := {
  same_roles : c'.(fk_roles) = c.(fk_roles);
  same_permissions : c'.(fk_objectPermissions) = c.(fk_objectPermissions);
}.

(** Only Providers changed. *)
Record only_providers (c c' : Client) : Prop := {
  providers_rbac : same_rbac c c';
  providers_applications : c'.(fk_applications) = c.(fk_applications);
  providers_outposts : c'.(fk_outposts) = c.(fk_outposts);
  providers_bindings : c'.(fk_bindings) = c.(fk_bindings);
}.

(** Only Applications changed. *)
Record only_applications (c c' : Client) : Prop := {
  applications_rbac : same_rbac c c';
  applications_proxies : c'.(fk_proxyProviders) = c.(fk_proxyProviders);
  applications_oauth2s : c'.(fk_oauth2Providers) = c.(fk_oauth2Providers);
  applications_outposts : c'.(fk_outposts) = c.(fk_outposts);
  applications_bindings : c'.(fk_bindings) = c.(fk_bindings);
}.

(** Unfold an operation of the server and split its branches. *)
Ltac fake_cases :=
  repeat lazymatch goal with
  | |- context [match ?x with _ => _ end] => destruct x
  | |- context [let '(_, _) := ?x in _] => destruct x
  end; by repeat split.

Lemma nextPK_frame c c1 pk : nextPK c = (c1, pk) -> exists n, c1 = set_sequence n c.
Proof. intros [= <- _]. by eexists. Qed.

Lemma nextUUID_frame c c1 uuid : nextUUID c = (c1, uuid) -> exists n, c1 = set_sequence n c.
Proof. unfold nextUUID. destruct (nextPK c) as [c' pk] eqn:E. intros [= <- _]. by eapply nextPK_frame. Qed.

Lemma create_proxy_frame c r : only_providers c (fake_CreateProxyProvider c r).1.
Proof.
  unfold fake_CreateProxyProvider. destruct (checkProxyMode _ _ _); [by repeat split|].
  destruct (providerNameTaken _ _ _); [by repeat split|]. destruct (nextPK c) as [c1 pk] eqn:E.
  apply nextPK_frame in E as [n ->]. by repeat split.
Qed.

Lemma create_oauth2_frame c r : only_providers c (fake_CreateOAuth2Provider c r).1.
Proof.
  unfold fake_CreateOAuth2Provider. destruct (providerNameTaken _ _ _); [by repeat split|].
  destruct (clientIDTaken _ _ _); [by repeat split|]. destruct (nextPK c) as [c1 pk] eqn:E.
  apply nextPK_frame in E as [n ->]. by repeat split.
Qed.

Lemma patch_proxy_frame c pk r : only_providers c (fake_PatchProxyProvider c pk r).1.
Proof. unfold fake_PatchProxyProvider. fake_cases. Qed.

Lemma patch_oauth2_frame c pk r : only_providers c (fake_PatchOAuth2Provider c pk r).1.
Proof. unfold fake_PatchOAuth2Provider. fake_cases. Qed.

Lemma create_application_frame c r : only_applications c (fake_CreateApplication c r).1.
Proof.
  unfold fake_CreateApplication. destruct (_ !! _); [by repeat split|]. destruct (checkApplicationProvider _ _ _ _); [by repeat split|].
  destruct (nextUUID c) as [c1 pk] eqn:E. apply nextUUID_frame in E as [n ->]. by repeat split.
Qed.

Lemma patch_application_frame c slug r : only_applications c (fake_PatchApplication c slug r).1.
Proof. unfold fake_PatchApplication. fake_cases. Qed.

(** ** The world of a reconcile

    The server satisfies its invariant, the cache of the markers is sound, and [n] more calls may hand out keys. *)
Lemma assigned_step_ok c c' :
  server_ok c -> no_empty_slug c -> c.(fk_sequence) < max_int32 -> assigned_at_most c c' -> step_ok c c'.
Proof.
  intros H1 H2 H3 [->|(role & model & pk & permission & ->)]; [by apply step_ok_refl|]. by apply assign_step.
Qed.

Record world (s : reconcileState) (c : Client) (n : Z) : Prop := {
  world_server : server_ok c;
  world_slug : no_empty_slug c;
  world_cache : cache_ok s.(rs_markers) c;
  world_room : c.(fk_sequence) + n <= max_int32;
}.

Lemma world_weaken s c m n : n <= m -> world s c m -> world s c n.
Proof. intros Hn [H1 H2 H3 H4]. split; [done|done|done|lia]. Qed.

Lemma world_state s s' c n : s'.(rs_markers) = s.(rs_markers) -> world s c n -> world s' c n.
Proof. intros Hm [H1 H2 H3 H4]. split; [done|done|by rewrite Hm|done]. Qed.

Lemma world_step s c c' n : step_ok c c' -> same_rbac c c' -> world s c (n + 1) -> world s c' n.
Proof.
  intros (H1 & H2 & H3) [Hr Hp] [_ _ Hc Hroom]. split; [done|done|by eapply cache_ok_frame|lia].
Qed.

(** A creation or an update of an object. *)
Lemma world_call {R} (q : call R) s c c' r n :
  0 <= n -> world s c (n + 1) -> names_slug q -> fake_handle R q c = Some (c', r) -> same_rbac c c' -> world s c' n.
Proof.
  intros Hn Hw Hq Hh Hsame. apply (world_step s c); [|done|done]. pose proof Hw as [H1 H2 _ H4].
  eapply call_step; [done|done|lia|done|exact Hh].
Qed.

(** The marker of an object that exists. *)
Lemma ensure_world s c o n (Q : reconcileState -> result () -> Client -> Prop) :
  0 <= n -> world s c (n + 1) -> well_formed_model o.(Object_Model) -> objectExists c o.(Object_Model) o.(Object_PK) = true ->
  (forall s' c', only_markers s s' -> world s' c' n -> same_objects c c' -> Q s' (Ok ()) c') ->
  mwp fake_env (markers (ensure o)) s c Q.
Proof.
  intros Hn [H1 H2 H3 H4] Hm Ho HQ. unfold markers. apply mwp_zoom, cache_ensure_spec; [done|done|done|].
  intros mc' c' Hok' _ Hs Ha _. apply HQ; [done| |done]. pose proof (assigned_step_ok c c' H1 H2) as Hstep.
  destruct Hstep as (H1' & H2' & H4'); [lia|done|]. split; [done|done|done|lia].
Qed.
