(* ===== verification/Lookup.v ===== *)
(** * What the references of a spec name

    [Resolve] of [internal/reference/resolver.go] against the in-memory authentik: a reference names the object with its
    primary key, or the only object with its name, and a successful resolution answers exactly these. The logic
    [finds] follows the collector: as long as nothing is collected, the value has the property. *)
From S2P Require Import Prelude Errors Effects Api Crd Interface Fake MarkerSpec Reference FakeLogic Calls CallBounds.

(** ** The objects that references name *)

Definition find_one {A} (objects : list A) : option A := match objects with [object] => Some object | _ => None end.

(** The object with the primary key, or the only one with the name. *)
Definition find_object {A} (name : A -> string) (objects : gmap string A) (uuid key : option string) : option A :=
  match uuid with
  | Some uuid => objects !! uuid
  | None => key ← key; find_one (findAll objects (fun object => bool_decide (name object = key)))
  end.

Section references.
Context (c : Client).

Definition flow_of (ref : FlowReference) : option string :=
  Flow_Pk <$> find_object Flow_Slug c.(fk_flows) ref.(FlowReference_UUID) ref.(FlowReference_Slug).

Definition scope_of (ref : ScopeMappingReference) : option string :=
  ScopeMapping_Pk <$> find_object ScopeMapping_ScopeName c.(fk_scopeMappings)
    ref.(ScopeMappingReference_UUID) ref.(ScopeMappingReference_ScopeName).

Definition named_of {A} (pk name : A -> string) (objects : gmap string A) (ref : NamedReference) : option string :=
  pk <$> find_object name objects ref.(NamedReference_UUID) ref.(NamedReference_Name).

Definition group_of : NamedReference -> option string := named_of Group_Pk Group_Name c.(fk_groups).
Definition policy_of : NamedReference -> option string := named_of Policy_Pk Policy_Name c.(fk_policies).
Definition key_pair_of : NamedReference -> option string := named_of KeyPair_Pk KeyPair_Name c.(fk_keyPairs).
Definition outpost_of : NamedReference -> option string := named_of Outpost_Pk Outpost_Name c.(fk_outposts).

(** The primary key of a user is an int32 above zero. *)
Definition find_user (ref : UserReference) : option User :=
  match ref.(UserReference_PK) with
  | Some pk => if decide (pk < 1 \/ pk > max_int32) then None else c.(fk_users) !! pk
  | None =>
      name ← ref.(UserReference_Username);
      find_one (findAll c.(fk_users) (fun user => bool_decide (user.(User_Username) = name)))
  end.

Definition user_of (ref : UserReference) : option Z :=
  User_Pk <$> find_user ref.

Definition rule_of (rule : AccessRule) : option Rule :=
  let negate := default false rule.(AccessRule_Negate) in
  match rule.(AccessRule_Group), rule.(AccessRule_User), rule.(AccessRule_Policy) with
  | Some group, _, _ => pk ← group_of group; Some (mkRule (Some pk) None None negate)
  | None, Some user, _ => pk ← user_of user; Some (mkRule None (Some pk) None negate)
  | None, None, Some policy => pk ← policy_of policy; Some (mkRule None None (Some pk) negate)
  | None, None, None => Some (mkRule None None None negate)
  end.

(** An optional reference: not found, absent, or the primary key. *)
Definition optional_of {A B} (f : A -> option B) (ref : option A) : option (option B) :=
  match ref with None => Some None | Some ref => Some <$> f ref end.

Definition flows_of (flows : ProviderFlows) : option Flows :=
  authorization ← flow_of flows.(Flows_Authorization);
  invalidation ← flow_of flows.(Flows_Invalidation);
  authentication ← optional_of flow_of flows.(Flows_Authentication);
  Some (mkFlows authorization invalidation authentication).

Definition proxy_of (proxy : ProxyProviderSpec) : option ProxyReferences :=
  certificate ← optional_of key_pair_of proxy.(Proxy_Certificate);
  outpost ← outpost_of (default (mkNamedReference (Some EmbeddedOutpostName) None) proxy.(Proxy_Outpost));
  Some (mkProxyReferences certificate outpost).

(** The credentials are kept in Kubernetes. *)
Definition oauth2_of (oauth2 : OAuth2ProviderSpec) (credentials : option Credentials) : option OAuth2References :=
  scopes ← optional_of (mapM scope_of) oauth2.(OAuth2_Scopes);
  signingKey ← optional_of key_pair_of oauth2.(OAuth2_SigningKey);
  encryptionKey ← optional_of key_pair_of oauth2.(OAuth2_EncryptionKey);
  Some (mkOAuth2References scopes signingKey encryptionKey credentials).

(** Every reference of the spec names an object, and these are the objects. *)
Record resolution (spec : AuthentikApplicationSpec) (r : Resolved) : Prop := {
  resolution_rules : mapM rule_of spec.(Spec_Access).(Access_Rules) = Some r.(Resolved_Rules);
  resolution_flows provider : spec.(Spec_Provider) = Some provider ->
    exists flows, r.(Resolved_Flows) = Some flows /\ flows_of provider.(Provider_Flows) = Some flows;
  resolution_proxy provider proxy : spec.(Spec_Provider) = Some provider -> provider.(Provider_Proxy) = Some proxy ->
    exists refs, r.(Resolved_Proxy) = Some refs /\ proxy_of proxy = Some refs;
  resolution_oauth2 provider oauth2 : spec.(Spec_Provider) = Some provider -> provider.(Provider_OAuth2) = Some oauth2 ->
    exists refs credentials, r.(Resolved_OAuth2) = Some refs /\ oauth2_of oauth2 credentials = Some refs;
}.
End references.

(** ** The logic *)

Definition finds {A} (m : M call collector A) (c : Client) (P : A -> Prop) : Prop :=
  forall l, achieves m l c (fun l' a c' => c' = c /\ exists k, l' = l ++ k /\ (k = [] -> P a)).

Section rules.
Context (c : Client).
Abbreviation finds m P := (finds m c P).

Lemma finds_ret {A} (a : A) (P : A -> Prop) : P a -> finds (mret a) P.
Proof. intros HP l. apply achieves_ret. split; [done|]. exists []. by rewrite app_nil_r. Qed.

Lemma finds_bind {A B} (P : A -> Prop) (m : M call collector A) (f : A -> M call collector B) (Q : B -> Prop) :
  finds m P -> (forall a, finds (f a) (fun b => P a -> Q b)) -> finds (mbind m f) Q.
Proof.
  intros Hm Hf l. achieve_step. eapply achieves_mono; [apply Hm|]. intros l1 a c1 (-> & k1 & -> & HP).
  eapply achieves_mono; [apply Hf|]. intros l2 b c2 (-> & k2 & -> & HQ). split; [done|].
  exists (k1 ++ k2). rewrite app_assoc. split; [done|]. intros [-> ->]%app_nil. by apply HQ, HP.
Qed.

Lemma finds_mono {A} (m : M call collector A) (P Q : A -> Prop) : finds m P -> (forall a, P a -> Q a) -> finds m Q.
Proof. intros Hm HPQ l. eapply achieves_mono; [apply Hm|]. intros l' a c' (-> & k & -> & HP). split; [done|]. exists k. auto. Qed.

Lemma finds_deref {A} (p : option A) : finds (mderef p) (fun a => p = Some a).
Proof. intros l. achieve_step. split; [done|]. exists []. by rewrite app_nil_r. Qed.

Lemma finds_add {A} path target matches (a : A) (P : A -> Prop) : finds (collector_add path target matches ;; mret a) P.
Proof. intros l. unfold collector_add. repeat achieve_step. split; [done|]. by eexists. Qed.

Lemma getOne_finds {T} path target (q : call (ak T)) operation model found :
  fake_handle _ q c = Some (c, get_or_404 found operation model) ->
  finds (getOne path target (akcall q)) (fun object => object = found /\ is_Some found).
Proof.
  intros Hq l. unfold getOne. achieve_step. apply achieves_try. go_step. rename H into Hs. cbn [loose_env kept_env env_step fake_env] in Hs.
  rewrite Hq in Hs. destruct Hs as [[-> ->] _]. destruct found as [object|]; simpl.
  - achieve_step. split; [done|]. exists []. rewrite app_nil_r. by repeat split.
  - unfold collector_add. repeat achieve_step. split; [done|]. by eexists.
Qed.

Lemma findOne_finds {T} path target (q : call (ak (list T))) objects :
  fake_handle _ q c = Some (c, inl objects) ->
  finds (findOne path target (akcall q)) (fun object => object = find_one objects /\ is_Some (find_one objects)).
Proof.
  intros Hq l. unfold findOne. achieve_step. apply achieves_try. go_step. rename H into Hs. cbn [loose_env kept_env env_step fake_env] in Hs.
  rewrite Hq in Hs. destruct Hs as [[-> ->] _]. cbn [snd].
  destruct objects as [|object [|object' objects]]; [apply finds_add| |apply finds_add].
  achieve_step. split; [done|]. exists []. rewrite app_nil_r. by repeat split.
Qed.
End rules.

(** ** The lookups of the resolver *)

(** A lookup finds the objects of a map of the server. *)
Class LookupOn {T} (lookup : stringLookup T) (objects : Client -> gmap string T) (name : T -> string) : Prop := {
  lookup_on_get c uuid : exists operation model,
    fake_handle _ (lookup.(lookup_get) uuid) c = Some (c, get_or_404 (objects c !! uuid) operation model);
  lookup_on_find c key :
    fake_handle _ (lookup.(lookup_find) key) c =
      Some (c, inl (findAll (objects c) (fun object => bool_decide (name object = key))));
}.

Ltac lookup_on := split; [intros; do 2 eexists; reflexivity|reflexivity].

#[export] Instance flowLookup_on : LookupOn flowLookup fk_flows Flow_Slug.
Proof. lookup_on. Qed.
#[export] Instance keyPairLookup_on : LookupOn keyPairLookup fk_keyPairs KeyPair_Name.
Proof. lookup_on. Qed.
#[export] Instance outpostLookup_on : LookupOn outpostLookup fk_outposts Outpost_Name.
Proof. lookup_on. Qed.
#[export] Instance scopeMappingLookup_on : LookupOn scopeMappingLookup fk_scopeMappings ScopeMapping_ScopeName.
Proof. lookup_on. Qed.
#[export] Instance groupLookup_on : LookupOn groupLookup fk_groups Group_Name.
Proof. lookup_on. Qed.
#[export] Instance policyLookup_on : LookupOn policyLookup fk_policies Policy_Name.
Proof. lookup_on. Qed.

Section lookups.
Context (c : Client).
Abbreviation finds m P := (finds m c P).

Section lookup.
Context {T} (lookup : stringLookup T) objects name `{!LookupOn lookup objects name}.

Lemma resolveByString_finds path uuid key :
  finds (resolveByString path lookup uuid key)
    (fun pk => lookup.(lookup_pk) <$> find_object name (objects c) uuid key = Some pk).
Proof.
  unfold resolveByString.
  apply (finds_bind _ (fun object => object = find_object name (objects c) uuid key /\ is_Some object)).
  - unfold find_object. destruct uuid as [uuid|].
    + destruct (lookup_on_get (lookup := lookup) c uuid) as (operation & model & Hq).
      eapply finds_mono; [by eapply getOne_finds|]. by intros ? [-> ?].
    + eapply finds_bind; [apply finds_deref|]. intros k. eapply finds_mono; [by apply findOne_finds, lookup_on_find|].
      by intros object [-> ?] ->.
  - intros [object|]; apply finds_ret; [by intros [<- _]|by intros [_ []]].
Qed.

Lemma resolveNamed_finds path ref :
  finds (resolveNamed path lookup ref)
    (fun pk => optional_of (named_of lookup.(lookup_pk) name (objects c)) ref = Some pk).
Proof.
  unfold resolveNamed. destruct ref as [ref|]; [|by apply finds_ret]. intros l. do 3 achieve_step.
  eapply achieves_mono; [apply resolveByString_finds|]. intros l1 pk c1 (-> & k & -> & Hpk). do 2 achieve_step.
  rewrite length_app. case_decide; achieve_step; (split; [done|]); exists k; (split; [done|]); intros ->; simpl in *; [lia|].
  unfold named_of. by rewrite Hpk.
Qed.
End lookup.

Lemma resolve_each_finds {X Y} (f : X -> option Y) i (xs : list X) (resolve : nat -> X -> M call collector Y) :
  (forall i x, finds (resolve i x) (fun y => f x = Some y)) ->
  finds (resolve_each i xs resolve) (fun ys => mapM f xs = Some ys).
Proof.
  intros Hr. revert i. induction xs as [|x xs IH]; intros i; simpl; [by apply finds_ret|].
  eapply finds_bind; [apply Hr|]. intros y. eapply finds_bind; [apply IH|]. intros ys. apply finds_ret.
  intros Hys Hy. by rewrite Hy, Hys.
Qed.

(** ** The parts of the spec *)

Lemma resolveFlows_finds flows : finds (resolveFlows flows) (fun r => flows_of c flows = Some r).
Proof.
  unfold resolveFlows, flows_of, flow_of, optional_of. cbv zeta.
  eapply finds_bind; [apply resolveByString_finds, _|]. intros a.
  eapply finds_bind; [apply resolveByString_finds, _|]. intros b.
  destruct flows.(Flows_Authentication) as [ref|].
  - eapply finds_bind; [apply resolveByString_finds, _|]. intros d. apply finds_ret. cbn [lookup_pk flowLookup].
    by intros -> -> ->.
  - apply finds_ret. cbn [lookup_pk flowLookup]. by intros -> ->.
Qed.

Lemma resolveProxy_finds proxy : finds (resolveProxy proxy) (fun r => proxy_of c proxy = Some r).
Proof.
  unfold resolveProxy, proxy_of, outpost_of, key_pair_of, named_of. cbv zeta.
  eapply finds_bind; [apply resolveNamed_finds, _|]. intros certificate.
  eapply finds_bind; [apply resolveByString_finds, _|]. intros outpost. apply finds_ret.
  unfold named_of. cbn [lookup_pk keyPairLookup outpostLookup]. by intros -> ->.
Qed.

Lemma readKey_finds secret refName path key defaultKey : finds (readKey secret refName path key defaultKey) (fun _ => True).
Proof. unfold readKey. destruct (_ !! _); [by apply finds_ret|apply finds_add]. Qed.

Lemma resolveCredentials_finds namespace spec : finds (resolveCredentials namespace spec) (fun _ => True).
Proof.
  intros l. unfold resolveCredentials. achieve_step. apply achieves_try. go_step. rename H into Hs.
  cbn [loose_env kept_env env_step fake_env fake_handle] in Hs. destruct Hs as [-> _]. destruct r as [secret|e].
  - revert l. apply (finds_bind _ (fun _ => True)).
    { destruct spec.(CredentialsSpec_ClientID); [by apply finds_ret|apply readKey_finds]. }
    intros ?. eapply finds_bind; [apply readKey_finds|]. intros ?. by apply finds_ret.
  - destruct (kube_is_not_found _); [|apply achieves_fail]. by apply finds_ret.
Qed.

Lemma resolveOAuth2_finds namespace oauth2 :
  finds (resolveOAuth2 namespace oauth2) (fun r => exists credentials, oauth2_of c oauth2 credentials = Some r).
Proof.
  unfold resolveOAuth2, oauth2_of.
  apply (finds_bind _ (fun scopes => optional_of (mapM (scope_of c)) oauth2.(OAuth2_Scopes) = Some scopes)).
  { destruct oauth2.(OAuth2_Scopes) as [refs|]; [|by apply finds_ret].
    eapply finds_bind; [apply (resolve_each_finds (scope_of c)); intros i ref; apply resolveByString_finds, _|].
    intros pks. apply finds_ret. simpl. by intros ->. }
  intros scopes. eapply finds_bind; [apply resolveNamed_finds, _|]. intros signing.
  eapply finds_bind; [apply resolveNamed_finds, _|]. intros encryption.
  apply (finds_bind _ (fun _ => True)).
  { destruct oauth2.(OAuth2_Credentials); [|by apply finds_ret].
    eapply finds_bind; [apply resolveCredentials_finds|]. intros ?. by apply finds_ret. }
  intros credentials. apply finds_ret. unfold key_pair_of. cbn [lookup_pk keyPairLookup]. intros _ -> -> ->. by exists credentials.
Qed.

Lemma resolveUser_finds path ref : finds (resolveUser path ref) (fun user => exists pk, user = Some pk /\ user_of c ref = Some pk).
Proof.
  unfold resolveUser, user_of. apply (finds_bind _ (fun user => user = find_user c ref /\ is_Some (find_user c ref))).
  - unfold find_user. destruct ref.(UserReference_PK) as [pk|]; cbv zeta.
    + case_decide; [apply finds_add|]. rewrite int32_wrap_id by (unfold is_int32, max_int32 in *; lia).
      by eapply getOne_finds.
    + eapply finds_bind; [apply finds_deref|]. intros username. eapply finds_mono; [by eapply findOne_finds|].
      by intros ? H ->.
  - intros user. apply finds_ret. intros [-> [u Hu]]. rewrite Hu. by eexists.
Qed.

Lemma resolveRule_finds path rule : finds (resolveRule path rule) (fun r => rule_of c rule = Some r).
Proof.
  unfold resolveRule, rule_of. cbv zeta.
  destruct rule.(AccessRule_Group) as [group|]; [|destruct rule.(AccessRule_User) as [user|]; [|destruct rule.(AccessRule_Policy) as [policy|]]].
  - eapply finds_bind; [apply resolveNamed_finds, _|]. intros pk. apply finds_ret. unfold group_of. cbn [lookup_pk groupLookup optional_of].
    destruct (named_of _ _ _ _) as [p|]; by intros [= <-].
  - eapply finds_bind; [apply resolveUser_finds|]. intros pk. apply finds_ret. by intros (p & -> & ->).
  - eapply finds_bind; [apply resolveNamed_finds, _|]. intros pk. apply finds_ret. unfold policy_of. cbn [lookup_pk policyLookup optional_of].
    destruct (named_of _ _ _ _) as [p|]; by intros [= <-].
  - by apply finds_ret.
Qed.

Lemma resolve_parts_finds namespace spec : finds (resolve_parts namespace spec) (resolution c spec).
Proof.
  unfold resolve_parts. apply (finds_bind _ (fun '(flows, proxy, oauth2) => forall rules,
    mapM (rule_of c) spec.(Spec_Access).(Access_Rules) = Some rules -> resolution c spec (mkResolved flows proxy oauth2 rules))).
  - unfold resolve_provider. destruct spec.(Spec_Provider) as [provider|] eqn:Hp.
    2: { apply finds_ret. intros rules Hr. split; simpl; congruence. }
    eapply finds_bind; [apply resolveFlows_finds|]. intros flows.
    apply (finds_bind _ (fun r => forall proxy, provider.(Provider_Proxy) = Some proxy ->
      exists refs, r = Some refs /\ proxy_of c proxy = Some refs)).
    { destruct provider.(Provider_Proxy) as [proxy|]; [|by apply finds_ret].
      eapply finds_bind; [apply resolveProxy_finds|]. intros refs. apply finds_ret. intros ? ? [= <-]. eauto. }
    intros proxy. apply (finds_bind _ (fun r => forall oauth2, provider.(Provider_OAuth2) = Some oauth2 ->
      exists refs credentials, r = Some refs /\ oauth2_of c oauth2 credentials = Some refs)).
    { destruct provider.(Provider_OAuth2) as [oauth2|]; [|by apply finds_ret].
      eapply finds_bind; [apply resolveOAuth2_finds|]. intros refs. apply finds_ret. intros (credentials & ?) ? [= <-]. eauto. }
    intros oauth2. apply finds_ret. intros Ho Hx Hf rules Hr. split; simpl; [done|..].
    + intros ? E. rewrite Hp in E. injection E as <-. by exists flows.
    + intros ? ? E. rewrite Hp in E. injection E as <-. by apply Hx.
    + intros ? ? E. rewrite Hp in E. injection E as <-. by apply Ho.
  - intros [[flows proxy] oauth2]. eapply finds_bind; [apply (resolve_each_finds (rule_of c)); intros; apply resolveRule_finds|].
    intros rules. apply finds_ret. auto.
Qed.
End lookups.

Lemma Resolve_finds {S} app (s : S) c :
  achieves (Resolve app) s c (fun s' r c' => s' = s /\ c' = c /\ resolution c app.(App_Spec) r).
Proof.
  unfold Resolve, resolve_spec, finish_resolution. do 2 achieve_step.
  eapply achieves_mono; [apply resolve_parts_finds|]. intros l r c' (-> & k & -> & Hr). do 2 achieve_step. simpl.
  destruct k; simpl; [|achieve_step]. achieve_step. auto.
Qed.
