(* ===== verification/ProviderOnServer.v ===== *)
(** * The Provider after a reconcile

    [reconcileProvider], [reconcileOutpost] and [exportCredentials] ([internal/controller/provider.go], [outpost.go] and
    [credentials.go]) against the in-memory authentik. What the two handlers do on the server is an interface,
    [HandlerOn]; [reconcileProvider] is verified against it: whichever way the Provider was found or created, it matches
    the desired state when the method succeeds. *)
From S2P Require Import Prelude Errors Effects Api Crd Patch Interface Fake Marker MarkerCache MarkerSpec Reference Desired Convergence ServerInvariant Creation State FieldDiffs Provider Application Calls CallBounds Access Membership FakeLogic.

(** ** The Providers of the server *)

Definition proxy_matching (desired : PatchedProxyProviderRequest) (pk : Z) (c : Client) : Prop :=
  exists p, c.(fk_proxyProviders) !! pk = Some p /\ DiffProxyProvider desired p = None.

Definition oauth2_matching (desired : PatchedOAuth2ProviderRequest) (pk : Z) (c : Client) : Prop :=
  exists p, c.(fk_oauth2Providers) !! pk = Some p /\ DiffOAuth2Provider desired p = None.

(** The repair of a stored Provider. *)
Lemma patch_proxy_matching desired c pk p patch c' o :
  desired.(PatchedProxy_PropertyMappings) = None -> c.(fk_proxyProviders) !! pk = Some p ->
  DiffProxyProvider desired p = Some patch -> fake_PatchProxyProvider c pk patch = (c', inl o) ->
  proxy_matching desired pk c'.
Proof.
  intros Hm Hp Hd. unfold fake_PatchProxyProvider. rewrite Hp. destruct (checkProxyMode _ _ _); [done|].
  destruct (match patch.(PatchedProxy_Name) with Some _ => _ | None => _ end); [done|]. intros [= <- _].
  exists (apply_proxy_patch patch p). split; [simpl; by rewrite lookup_insert_eq|].
  apply DiffProxyProvider_None. rewrite (apply_DiffProxyProvider _ _ _ Hd). by apply matches_apply_proxy.
Qed.

Lemma patch_oauth2_matching desired c pk p patch c' o :
  c.(fk_oauth2Providers) !! pk = Some p -> DiffOAuth2Provider desired p = Some patch ->
  fake_PatchOAuth2Provider c pk patch = (c', inl o) -> oauth2_matching desired pk c'.
Proof.
  intros Hp Hd. unfold fake_PatchOAuth2Provider. rewrite Hp.
  destruct (match patch.(PatchedOAuth2_Name) with Some _ => _ | None => _ end); [done|].
  destruct (match patch.(PatchedOAuth2_ClientId) with Some _ => _ | None => _ end); [done|]. intros [= <- _].
  exists (apply_oauth2_patch patch p). split; [simpl; by rewrite lookup_insert_eq|].
  apply DiffOAuth2Provider_None. rewrite (apply_DiffOAuth2Provider _ _ _ Hd). apply matches_apply_oauth2.
Qed.

(** ** The interface of the handlers *)

Section interface.
Context `{KubeLib} `{ModelJSON}.

(** [matching pk c]: the Provider [pk] on the server [c] is as desired. [observed p c]: [p] was made from a Provider that is
    on the server. [names n]: a new Provider may have the name. *)
Class HandlerOn (h : providerHandler) (names : string -> Prop) (matching : Z -> Client -> Prop)
    (observed : observedProvider -> Client -> Prop) : Prop := {
  on_calls :: HandlerCalls h;
  on_model : well_formed_model h.(handler_model);
  on_get pk s c : server_ok c ->
    mwp loose_env (h.(handler_get) pk) s c (fun s' r _ => s' = s /\ forall p, r = Ok p -> observed p c);
  on_find name s c : server_ok c ->
    mwp loose_env (h.(handler_findByName) name) s c (fun s' r _ => s' = s /\ forall ps, r = Ok ps -> Forall (fun p => observed p c) ps);
  on_other pk s c : mwp loose_env (h.(handler_existsAsOtherType) pk) s c (fun s' _ _ => s' = s);
  on_create name s c n : 0 <= n -> names name -> world s c (n + 1) ->
    achieves (h.(handler_create) name) s c (fun s' pk c' =>
      s' = s /\ world s c' n /\ only_providers c c' /\ matching pk c');
  on_sync p s c n : 0 <= n -> observed p c -> world s c (n + 1) ->
    achieves p.(observed_sync) s c (fun s' _ c' =>
      s' = s /\ world s c' n /\ only_providers c c' /\ matching p.(observed_pk) c');
  on_observed p c : observed p c -> objectExists c h.(handler_model) (fmt_d p.(observed_pk)) = true;
  on_matching pk c : matching pk c -> objectExists c h.(handler_model) (fmt_d pk) = true /\ providerExists c pk = true;
  on_observed_frame p c c' : same_objects c c' -> observed p c -> observed p c';
  on_matching_frame pk c c' :
    c'.(fk_proxyProviders) = c.(fk_proxyProviders) -> c'.(fk_oauth2Providers) = c.(fk_oauth2Providers) ->
    matching pk c -> matching pk c';
}.
End interface.

Lemma stored_exists {A} (m : gmap Z A) pk a :
  m !! pk = Some a -> existsb (fun '(k, _) => bool_decide (fmt_d k = fmt_d pk)) (map_to_list m) = true.
Proof.
  intros Hm. apply existsb_elem_of. exists (pk, a). by rewrite elem_of_map_to_list, bool_decide_true.
Qed.

Lemma exists_object_same {T} (q : call (ak T)) (s : reconcileState) c :
  mwp loose_env (exists_object (akcall q)) s c (fun s' _ _ => s' = s).
Proof.
  unfold exists_object. repeat go_step. destruct r as [a|e]; repeat go_step; [done|].
  destruct (is_not_found _); by go_step.
Qed.

Ltac read_answer := apply mwp_read; [|done]; let r := fresh "r" in let Hs := fresh "Hs" in
  intros r Hs; cbn [env_step fake_env fake_handle fst snd] in Hs; destruct Hs as [_ Hs].

Section instances.
Context `{KubeLib} `{ModelJSON}.

(** ** Proxy Providers *)

#[export] Instance proxy_handler_on spec provider flows refs :
  let desired := desiredProxyProvider provider spec flows refs in
  is_Some desired.(PatchedProxy_ExternalHost) ->
  HandlerOn (proxyProviderHandler spec desired) (fun name => forall n, provider.(Provider_Name) = Some n -> name = n)
    (proxy_matching desired)
    (fun p c => exists q c0, c.(fk_proxyProviders) !! q.(ProxyProvider_Pk) = Some q /\
       p = proxy_observe spec desired (copyProxyProvider c0 q)).
Proof.
  intros desired Hext. split; cbn [handler_get handler_findByName handler_existsAsOtherType handler_create handler_model proxyProviderHandler].
  - apply _.
  - apply marked_models_well_formed. simpl. unfold ModelProxyProvider. set_solver.
  - intros pk s c Hok. go_step. read_answer. subst r. unfold fake_GetProxyProvider.
    destruct (_ !! pk) as [q|] eqn:Hq; simpl; repeat go_step; [|done]. split; [done|]. intros p [= <-]. exists q, c.
    split; [|done]. by destruct (proxy_pk _ _ _ (server_providers _ Hok) _ _ Hq) as [-> _].
  - intros name s c Hok. go_step. read_answer. subst r. simpl. go_step. split; [done|]. intros ps [= <-].
    apply Forall_forall. intros p (x & -> & Hx)%list_elem_of_fmap. unfold fake_FindProxyProvidersByName in Hx.
    apply list_elem_of_fmap in Hx as (q & -> & Hq). exists q, c. split; [|done].
    unfold findAll in Hq. apply list_elem_of_filter in Hq as [_ ([pk q'] & -> & Hq)%list_elem_of_fmap].
    apply elem_of_map_to_list in Hq. simpl. by destruct (proxy_pk _ _ _ (server_providers _ Hok) _ _ Hq) as [-> _].
  - intros pk s c. apply exists_object_same.
  - intros name s c n Hn Hname Hw. do 2 achieve_step. rename a into request, H1 into Hr. achieve_step.
    achieve_akcall new c1 Hc1. achieve_step.
    destruct (proxy_roundtrip _ _ _ _ _ _ _ _ _ Hname Hext Hr Hc1) as [Hg Hd].
    pose proof (create_proxy_frame c request) as Hf. rewrite Hc1 in Hf. simpl in Hf.
    split_and!; [done| |done|].
    + eapply (world_call (CreateProxyProvider request)); [done|done|done| |apply Hf]. by rewrite <- Hc1.
    + unfold fake_GetProxyProvider in Hg. destruct (c1.(fk_proxyProviders) !! _) as [q|] eqn:Hq; [|done].
      simpl in Hg. injection Hg as Hg. exists q. split; [done|]. rewrite <- Hg in Hd. exact Hd.
  - intros p s c n Hn (q & c0 & Hq & ->) Hw. cbn [observed_sync observed_pk proxy_observe].
    change (DiffProxyProvider desired (copyProxyProvider c0 q)) with (DiffProxyProvider desired q).
    change (copyProxyProvider c0 q).(ProxyProvider_Pk) with q.(ProxyProvider_Pk).
    destruct (DiffProxyProvider desired q) as [patch|] eqn:Hd.
    + achieve_step. achieve_akcall q' c1 Hc1. achieve_step.
      pose proof (patch_proxy_frame c q.(ProxyProvider_Pk) patch) as Hf. rewrite Hc1 in Hf. simpl in Hf.
      split_and!; [done| |done|by eapply patch_proxy_matching].
      eapply (world_call (PatchProxyProvider q.(ProxyProvider_Pk) patch)); [done|done|done| |apply Hf]. by rewrite <- Hc1.
    + achieve_step. split_and!; [done|eapply world_weaken; [|done]; lia|by repeat split|by exists q].
  - intros p c (q & c0 & Hq & ->). by eapply stored_exists.
  - intros pk c (q & Hq & _). split; [by eapply stored_exists|]. unfold providerExists. by rewrite Hq.
  - intros p c c' (_ & _ & Hp & _) (q & c0 & Hq & ->). exists q, c0. by rewrite Hp.
  - intros pk c c' Hp _ (q & Hq & Hd). exists q. by rewrite Hp.
Qed.

(** ** OAuth2 Providers *)

#[export] Instance oauth2_handler_on oauth2 provider flows refs :
  let desired := desiredOAuth2Provider provider oauth2 flows refs in
  HandlerOn (oauth2ProviderHandler desired) (fun name => forall n, provider.(Provider_Name) = Some n -> name = n)
    (oauth2_matching desired)
    (fun p c => exists q c0, c.(fk_oauth2Providers) !! q.(OAuth2Provider_Pk) = Some q /\
       p = oauth2_observe desired (copyOAuth2Provider c0 q)).
Proof.
  intros desired. split; cbn [handler_get handler_findByName handler_existsAsOtherType handler_create handler_model oauth2ProviderHandler].
  - apply _.
  - apply marked_models_well_formed. simpl. unfold ModelOAuth2Provider. set_solver.
  - intros pk s c Hok. go_step. read_answer. subst r. unfold fake_GetOAuth2Provider.
    destruct (_ !! pk) as [q|] eqn:Hq; simpl; repeat go_step; [|done]. split; [done|]. intros p [= <-]. exists q, c.
    split; [|done]. by destruct (oauth2_pk _ _ _ (server_providers _ Hok) _ _ Hq) as [-> _].
  - intros name s c Hok. go_step. read_answer. subst r. simpl. go_step. split; [done|]. intros ps [= <-].
    apply Forall_forall. intros p (x & -> & Hx)%list_elem_of_fmap. unfold fake_FindOAuth2ProvidersByName in Hx.
    apply list_elem_of_fmap in Hx as (q & -> & Hq). exists q, c. split; [|done].
    unfold findAll in Hq. apply list_elem_of_filter in Hq as [_ ([pk q'] & -> & Hq)%list_elem_of_fmap].
    apply elem_of_map_to_list in Hq. simpl. by destruct (oauth2_pk _ _ _ (server_providers _ Hok) _ _ Hq) as [-> _].
  - intros pk s c. apply exists_object_same.
  - intros name s c n Hn Hname Hw. unfold get_app. do 3 achieve_step. do 2 achieve_step.
    eapply achieves_mono; [apply (achieves_reads [Reads]); [apply calls_ResolveCreationDefaults|done|]|].
    { instantiate (1 := fun s' _ _ => s' = s). unfold ResolveCreationDefaults. achieve_step.
      eapply achieves_mono; [apply achieves_any|done]. }
    intros s1 defaults c1 [-> ->]. do 2 achieve_step. rename a into request, H1 into Hr. achieve_step.
    achieve_akcall new c1 Hc1. achieve_step.
    destruct (oauth2_roundtrip _ _ _ _ _ _ _ _ _ _ Hname Hr Hc1) as [Hg Hd].
    pose proof (create_oauth2_frame c request) as Hf. rewrite Hc1 in Hf. simpl in Hf.
    split_and!; [done| |done|].
    + eapply (world_call (CreateOAuth2Provider request)); [done|done|done| |apply Hf]. by rewrite <- Hc1.
    + unfold fake_GetOAuth2Provider in Hg. destruct (c1.(fk_oauth2Providers) !! _) as [q|] eqn:Hq; [|done].
      simpl in Hg. injection Hg as Hg. exists q. split; [done|]. rewrite <- Hg in Hd. exact Hd.
  - intros p s c n Hn (q & c0 & Hq & ->) Hw. cbn [observed_sync observed_pk oauth2_observe].
    change (DiffOAuth2Provider desired (copyOAuth2Provider c0 q)) with (DiffOAuth2Provider desired q).
    change (copyOAuth2Provider c0 q).(OAuth2Provider_Pk) with q.(OAuth2Provider_Pk).
    destruct (DiffOAuth2Provider desired q) as [patch|] eqn:Hd.
    + achieve_step. achieve_akcall q' c1 Hc1. achieve_step.
      pose proof (patch_oauth2_frame c q.(OAuth2Provider_Pk) patch) as Hf. rewrite Hc1 in Hf. simpl in Hf.
      split_and!; [done| |done|by eapply patch_oauth2_matching].
      eapply (world_call (PatchOAuth2Provider q.(OAuth2Provider_Pk) patch)); [done|done|done| |apply Hf]. by rewrite <- Hc1.
    + achieve_step. split_and!; [done|eapply world_weaken; [|done]; lia|by repeat split|by exists q].
  - intros p c (q & c0 & Hq & ->). by eapply stored_exists.
  - intros pk c (q & Hq & _). split; [by eapply stored_exists|]. unfold providerExists. by rewrite Hq, orb_true_r.
  - intros p c c' (_ & _ & _ & Ho & _) (q & c0 & Hq & ->). exists q, c0. by rewrite Ho.
  - intros pk c c' _ Ho (q & Hq & Hd). exists q. by rewrite Ho.
Qed.
End instances.

(** ** Finding a Provider *)

(** A method that may have changed the status. *)
Definition same_memory (s s' : reconcileState) : Prop :=
  s'.(rs_markers) = s.(rs_markers) /\ s'.(rs_resolved) = s.(rs_resolved) /\ s'.(rs_app).(App_Spec) = s.(rs_app).(App_Spec).

Lemma same_memory_refl s : same_memory s s.
Proof. done. Qed.

Section provider.
Context `{KubeLib} `{ModelJSON}.
Context (h : providerHandler) (names : string -> Prop) (matching : Z -> Client -> Prop)
  (observed : observedProvider -> Client -> Prop) `{!HandlerOn h names matching observed}.

#[local] Instance handler_calls : HandlerCalls h := on_calls.

Abbreviation found_on c := (from_option (fun p => observed p c) True).

Lemma get_if_found_on pk s c :
  server_ok c -> achieves (get_if_found h pk) s c (fun s' found c' => (s' = s /\ found_on c found) /\ c' = c).
Proof.
  intros Hok. apply (achieves_reads [Reads]); [apply calls_get_if_found, _|done|]. unfold get_if_found. achieve_step.
  apply achieves_try. eapply mwp_mono; [by apply on_get|]. intros s' [p|e] c' [-> Hp].
  - achieve_step. split; [done|]. by apply Hp.
  - destruct (is_not_found e); by achieve_step.
Qed.

Lemma get_attached_on application pk s c :
  server_ok c -> achieves (get_attached h application pk) s c (fun s' found c' => (s' = s /\ found_on c found) /\ c' = c).
Proof.
  intros Hok. unfold get_attached. achieve_step. eapply achieves_mono; [by apply get_if_found_on|].
  intros s' [p|] c' [[-> Hp] ->]; [by achieve_step|]. achieve_step.
  eapply achieves_mono; [apply (achieves_reads [Reads]); [by apply exists_reads|done|]|].
  { eapply mwp_mono; [apply on_other|]. intros s' r c' Hs a _. exact Hs. }
  intros s' [|] c' [-> ->]; by achieve_step.
Qed.

Lemma find_by_name_on s c :
  server_ok c -> achieves (find_by_name h) s c (fun s' found c' => (s' = s /\ found_on c found) /\ c' = c).
Proof.
  intros Hok. apply (achieves_reads [Reads]); [apply calls_find_by_name, _|done|]. unfold find_by_name, get_app.
  do 6 achieve_step. apply achieves_bind. eapply mwp_mono; [by apply on_find|]. intros s' r c' [-> Hps] ps Hr. repeat achieve_step.
  split; [done|]. destruct (find _ ps) as [p|] eqn:Hf; [|done]. apply find_some in Hf as [Hin%list_elem_of_In _].
  specialize (Hps _ Hr). rewrite Forall_forall in Hps. by apply Hps.
Qed.

Lemma find_attached_or_named_on application s c :
  server_ok c -> achieves (find_attached_or_named h application) s c (fun s' found c' => (s' = s /\ found_on c found) /\ c' = c).
Proof.
  intros Hok. unfold find_attached_or_named. destruct (_ ≫= _) as [[a pk]|]; [|by apply find_by_name_on].
  achieve_step. eapply achieves_mono; [by apply get_attached_on|]. intros s' [p|] c' [[-> Hp] ->]; [by achieve_step|].
  by apply find_by_name_on.
Qed.

Lemma findProvider_on application s c :
  server_ok c -> achieves (findProvider h application) s c (fun s' found c' => (same_memory s s' /\ found_on c found) /\ c' = c).
Proof.
  intros Hok. unfold findProvider, get_app. do 4 achieve_step. destruct (Status_ProviderPK _) as [recorded|].
  2: { eapply achieves_mono; [by apply find_attached_or_named_on|]. by intros s' found c' [[-> ?] ->]. }
  cbv zeta. achieve_step. eapply achieves_mono; [by apply get_if_found_on|].
  intros s' [p|] c' [[-> Hp] ->]; [by achieve_step|]. unfold record_event, update_status. do 2 achieve_step.
  answer H1. do 2 achieve_step. eapply achieves_mono; [by apply find_attached_or_named_on|].
  by intros s' found c' [[-> ?] ->].
Qed.

(** ** Finding, creating and repairing the Provider *)

(** Only Providers and markers changed. *)
Record keeps_others (c c' : Client) : Prop := {
  others_applications : c'.(fk_applications) = c.(fk_applications);
  others_outposts : c'.(fk_outposts) = c.(fk_outposts);
  others_bindings : c'.(fk_bindings) = c.(fk_bindings);
}.

Lemma keeps_others_trans c1 c2 c3 : keeps_others c1 c2 -> keeps_others c2 c3 -> keeps_others c1 c3.
Proof. intros [] []. split; congruence. Qed.

Lemma only_providers_keep c c' : only_providers c c' -> keeps_others c c'.
Proof. intros []. by split. Qed.

Lemma same_objects_keep c c' : same_objects c c' -> keeps_others c c'.
Proof. intros (? & ? & ? & ? & ? & ?). by split. Qed.

Lemma patchStatus_memory s c :
  achieves patchStatus s c (fun s' _ c' => c' = c /\ s'.(rs_markers) = s.(rs_markers) /\ s'.(rs_resolved) = s.(rs_resolved)).
Proof.
  eapply achieves_fake.
  - apply (patchStatus_against_fake s c (fun s' r c' => c' = c /\
      (r = Ok () -> s'.(rs_markers) = s.(rs_markers) /\ s'.(rs_resolved) = s.(rs_resolved)))).
    + done.
    + by intros e _.
  - intros s' [] c' [-> Hm]. auto.
Qed.

(** What the steps up to the marker leave: the Provider was found, or was created and matches. *)
Definition prepared (resolved : option Resolved) (found : option observedProvider) (n : Z) (c : Client)
    (s' : reconcileState) (pk : Z) (c' : Client) : Prop :=
  s'.(rs_resolved) = resolved /\
  match found with
  | Some p => pk = p.(observed_pk) /\ c' = c /\ observed p c /\ world s' c (n + 1 + 1)
  | None => matching pk c' /\ keeps_others c c' /\ world s' c' (n + 1)
  end.

Lemma prepared_exists resolved found n c s' pk c' :
  prepared resolved found n c s' pk c' -> objectExists c' h.(handler_model) (fmt_d pk) = true.
Proof.
  intros [_ Hp]. revert Hp. destruct found as [p|]; simpl; [intros (-> & -> & Hp & _); by apply on_observed|intros (Hm & _)].
  by apply on_matching in Hm as [? _].
Qed.

Lemma prepared_memory resolved found n c s s' pk c' :
  s'.(rs_markers) = s.(rs_markers) -> s'.(rs_resolved) = s.(rs_resolved) -> prepared resolved found n c s pk c' ->
  prepared resolved found n c s' pk c'.
Proof.
  intros Hm Hr [Hr' Hp]. split; [congruence|]. revert Hp. destruct found; simpl.
  - intros (? & ? & ? & ?). split_and!; try done. by eapply world_state.
  - intros (? & ? & ?). split_and!; try done. by eapply world_state.
Qed.

Lemma reconcileProvider_on application s c n :
  0 <= n -> world s c (n + 2) ->
  (forall name, providerName s.(rs_app).(App_Spec) = Some name -> names name) ->
  achieves get_providerHandler s c (fun s' h' c' => s' = s /\ h' = h /\ c' = c) ->
  achieves (reconcileProvider application) s c (fun s' pk c' =>
    matching pk c' /\ keeps_others c c' /\ world s' c' n /\ s'.(rs_resolved) = s.(rs_resolved)).
Proof.
  intros Hn Hw Hnames Hh. replace (n + 2) with (n + 1 + 1) in Hw by lia. unfold reconcileProvider. achieve_step.
  eapply achieves_mono; [exact Hh|]. intros s0 h0 c0 (-> & -> & ->). achieve_step.
  eapply achieves_mono; [by apply findProvider_on, Hw|]. intros s1 found c1 [[(Hm1 & Hr1 & Hs1) Hf] ->]. achieve_step.
  apply (achieves_mono _ _ _ (prepared s.(rs_resolved) found n c)).
  { destruct found as [p|]; [achieve_step; split_and!; try done; by eapply world_state|]. unfold get_app, record_event.
    do 7 achieve_step. eapply achieves_mono; [apply (on_create a s1 c (n + 1)); [lia| |by eapply world_state]|].
    { apply Hnames. by rewrite <- Hs1. }
    intros s2 pk c2 (-> & Hw2 & Hc2 & Hpk). do 2 achieve_step. answer H2. achieve_step. split_and!; [done|done|by apply only_providers_keep|done]. }
  intros s2 pk c2 Hp. unfold get_app. do 5 achieve_step.
  apply (achieves_mono _ _ _ (fun s3 _ c3 => c3 = c2 /\ prepared s.(rs_resolved) found n c s3 pk c2)).
  { case_decide; [by achieve_step|]. unfold update_status. do 2 achieve_step.
    eapply achieves_mono; [apply patchStatus_memory|]. intros s3 [] c3 (-> & Hm & Hr). split; [done|].
    eapply prepared_memory; [| |exact Hp]; [exact Hm|exact Hr]. }
  intros s3 [] c3 [-> Hp3]. achieve_step.
  assert (Hensure : forall m Q, 0 <= m -> world s3 c2 (m + 1) ->
    (forall s4 c4, only_markers s3 s4 -> world s4 c4 m -> same_objects c2 c4 -> Q s4 () c4) ->
    achieves (markers (ensure (mkObject h.(handler_model) (fmt_d pk)))) s3 c2 Q).
  { intros m Q Hm0 Hw3 HQ. eapply achieves_fake.
    - apply (ensure_world s3 c2 (mkObject h.(handler_model) (fmt_d pk)) m (fun s4 r c4 => Q s4 () c4)); [done|done|apply on_model| |].
      + by eapply prepared_exists.
      + exact HQ.
    - by intros s4 [] c4. }
  destruct Hp3 as [Hr3 Hp3]. destruct found as [p|]; simpl in Hp3.
  - destruct Hp3 as (-> & -> & Hp3 & Hw3). apply (Hensure (n + 1)); [lia|done|]. intros s4 c4 (_ & _ & Hs4) Hw4 Hc4. achieve_step.
    eapply achieves_mono; [apply (on_sync p s4 c4 n); [done|by eapply on_observed_frame|done]|].
    intros s5 [] c5 (-> & Hw5 & Hc5 & Hm5). achieve_step. split_and!; [done| |done|congruence].
    eapply keeps_others_trans; [by apply same_objects_keep|by apply only_providers_keep].
  - destruct Hp3 as (Hm3 & Hk3 & Hw3). apply (Hensure n); [lia|done|]. intros s4 c4 (_ & _ & Hs4) Hw4 Hc4. achieve_step.
    split_and!; [|eapply keeps_others_trans; [done|by apply same_objects_keep]|done|congruence].
    destruct Hc4 as (_ & _ & Hp4 & Ho4 & _). by eapply on_matching_frame.
Qed.
End provider.
