(* ===== verification/EndToEnd.v ===== *)
(** * A whole reconcile against the in-memory authentik

    What a successful [reconcile] ([internal/controller/authentikapplication_controller.go]) leaves on the server: the
    Application, its Provider and its Outpost are as the spec says, and so is access. The steps are verified one by
    one with [achieves] and composed. *)
From stdpp Require Import sorting.
From S2P Require Import Prelude Errors Effects Api Crd Patch Interface Fake Marker MarkerCache MarkerSpec Reference Desired Convergence BindingStore ServerInvariant Creation State FieldDiffs KubeExample Provider Conflict Bindings Application Reconcile Calls CallBounds ResolveSpec Panics NoPanic Access Adoption Membership FakeLogic Lookup ProviderOnServer.

(** ** The Outpost *)

Lemma join_outposts_ok outposts live seq pk uuid :
  live pk -> outposts_ok outposts live seq -> outposts_ok (alter (join_outpost pk) uuid outposts) live seq.
Proof.
  intros Hpk [Hk Hl]. split.
  - intros u o Ho. apply lookup_alter_Some in Ho as [(<- & o' & Ho & ->)|[_ Ho]]; [|by apply Hk].
    destruct (Hk _ _ Ho). unfold join_outpost. by case_decide.
  - intros u o pk' Ho Hin. apply lookup_alter_Some in Ho as [(<- & o' & Ho & ->)|[_ Ho]]; [|by eapply Hl].
    unfold join_outpost in Hin. case_decide; [by eapply Hl|].
    apply elem_of_app in Hin as [Hin| ->%list_elem_of_singleton]; [by eapply Hl|done].
Qed.

Lemma leave_outposts_ok outposts live seq pk uuid :
  outposts_ok outposts live seq -> outposts_ok (alter (detach_outpost pk) uuid outposts) live seq.
Proof.
  intros [Hk Hl]. split.
  - intros u o Ho. apply lookup_alter_Some in Ho as [(<- & o' & Ho & ->)|[_ Ho]]; [|by apply Hk]. exact (Hk _ _ Ho).
  - intros u o pk' Ho Hin. apply lookup_alter_Some in Ho as [(<- & o' & Ho & ->)|[_ Ho]]; [|by eapply Hl].
    simpl in Hin. apply list_elem_of_filter in Hin as [_ Hin]. by eapply Hl.
Qed.

Lemma moved_ok c pk uuid previous :
  server_ok c -> providerExists c pk = true -> server_ok (set_outposts (moved pk uuid previous c.(fk_outposts)) c).
Proof.
  intros [] Hpk%providerExists_live. split; simpl; try done. unfold moved.
  case_decide; [apply leave_outposts_ok|]; by apply join_outposts_ok.
Qed.

Section outpost.
Context `{KubeLib} `{ModelJSON}.

Lemma reconcileOutpost_on pk s c n resolved refs :
  world s c n -> providerExists c pk = true -> s.(rs_resolved) = Some resolved -> resolved.(Resolved_Proxy) = Some refs ->
  achieves (reconcileOutpost pk) s c (fun s' _ c' =>
    world s' c' n /\ s'.(rs_resolved) = s.(rs_resolved) /\ (exists outposts, c' = set_outposts outposts c) /\
    exists o, c'.(fk_outposts) !! refs.(ProxyReferences_Outpost) = Some o /\ pk ∈ o.(Outpost_Providers)).
Proof.
  intros [Hok Hslug Hcache Hroom] Hpk Hr Hp. eapply mwp_mono.
  - apply (mwp_env (join_first_env pk)); [by intros R q c1 r c2 [? _]|done|done|].
    by eapply reconcileOutpost_spec; [apply server_members_live| | |].
  - intros s' r c' Hs a ->. destruct (c.(fk_outposts) !! _) eqn:Ho.
    + destruct Hs as (_ & -> & -> & Hin). split_and!; [|done|by eexists|done]. split; [by apply moved_ok|done|by apply (cache_ok_frame _ c)|done].
    + by destruct Hs as [[e He] _].
Qed.

(** The export of the credentials only reads from authentik. *)
Lemma exportCredentials_on pk s c : achieves (exportCredentials pk) s c (fun s' _ c' => s' = s /\ c' = c).
Proof.
  apply (achieves_reads [Reads; KubeWrites]); [apply calls_exportCredentials|done|]. unfold exportCredentials, get_app, record_event.
  repeat achieve_step. destruct (SetControllerReference _ _); repeat achieve_step. done.
Qed.
End outpost.

(** ** The Provider *)

Section provider.
Context `{KubeLib} `{ModelJSON}.

(** The Provider [pk] is of the type of the spec, and as desired for the resolved references. *)
Definition provider_reached (provider : ProviderSpec) (r : Resolved) (pk : Z) (c : Client) : Prop :=
  match provider.(Provider_Proxy) with
  | Some proxy => exists flows refs, r.(Resolved_Flows) = Some flows /\ r.(Resolved_Proxy) = Some refs /\
      proxy_matching (desiredProxyProvider provider proxy flows refs) pk c
  | None => exists oauth2 flows refs, provider.(Provider_OAuth2) = Some oauth2 /\
      r.(Resolved_Flows) = Some flows /\ r.(Resolved_OAuth2) = Some refs /\
      oauth2_matching (desiredOAuth2Provider provider oauth2 flows refs) pk c
  end.

Lemma provider_reached_exists provider r pk c : provider_reached provider r pk c -> providerExists c pk = true.
Proof.
  unfold provider_reached, providerExists. destruct provider.(Provider_Proxy) as [proxy|].
  - intros (flows & refs & _ & _ & q & -> & _). done.
  - intros (oauth2 & flows & refs & _ & _ & _ & q & -> & _). by rewrite orb_true_r.
Qed.

Lemma provider_reached_frame provider r pk c c' :
  c'.(fk_proxyProviders) = c.(fk_proxyProviders) -> c'.(fk_oauth2Providers) = c.(fk_oauth2Providers) ->
  provider_reached provider r pk c -> provider_reached provider r pk c'.
Proof.
  intros Hp Ho. unfold provider_reached, proxy_matching, oauth2_matching. by rewrite Hp, Ho.
Qed.

(** The name of a new Provider is the one of the spec, if that has one. *)
Lemma providerName_spec spec provider name :
  spec.(Spec_Provider) = Some provider -> providerName spec = Some name ->
  forall n, provider.(Provider_Name) = Some n -> name = n.
Proof. unfold providerName. intros -> Hn n Hp. simpl in Hn. rewrite Hp in Hn. by injection Hn. Qed.

Lemma get_providerHandler_on s c provider r (Q : reconcileState -> providerHandler -> Client -> Prop) :
  s.(rs_app).(App_Spec).(Spec_Provider) = Some provider -> s.(rs_resolved) = Some r ->
  match provider.(Provider_Proxy) with
  | Some proxy => forall flows refs, r.(Resolved_Flows) = Some flows -> r.(Resolved_Proxy) = Some refs ->
      Q s (proxyProviderHandler proxy (desiredProxyProvider provider proxy flows refs)) c
  | None => forall oauth2 flows refs, provider.(Provider_OAuth2) = Some oauth2 -> r.(Resolved_Flows) = Some flows ->
      r.(Resolved_OAuth2) = Some refs -> Q s (oauth2ProviderHandler (desiredOAuth2Provider provider oauth2 flows refs)) c
  end ->
  achieves get_providerHandler s c Q.
Proof.
  intros Hp Hr HQ. unfold get_providerHandler, get_app, get_resolved. repeat achieve_step. simplify_eq.
  destruct provider.(Provider_Proxy) as [proxy|]; repeat achieve_step; by apply HQ.
Qed.

Lemma reconcileProvider_reached application s c n provider r :
  0 <= n -> world s c (n + 2) -> s.(rs_app).(App_Spec).(Spec_Provider) = Some provider ->
  valid_provider provider = true -> s.(rs_resolved) = Some r ->
  achieves (reconcileProvider application) s c (fun s' pk c' =>
    provider_reached provider r pk c' /\ keeps_others c c' /\ world s' c' n /\ s'.(rs_resolved) = Some r).
Proof.
  intros Hn Hw Hp Hv Hr. unfold provider_reached. rewrite <- Hr.
  pose proof (providerName_spec s.(rs_app).(App_Spec) provider) as Hname.
  unfold valid_provider in Hv. valid_split. destruct provider.(Provider_Proxy) as [proxy|] eqn:Hx.
  - destruct r.(Resolved_Flows) as [flows|] eqn:Hf, r.(Resolved_Proxy) as [refs|] eqn:Hpx.
    2-4: unfold reconcileProvider; achieve_step; (eapply get_providerHandler_on; [done|done|]); rewrite Hx; congruence.
    eapply achieves_mono.
    + eapply (reconcileProvider_on (proxyProviderHandler proxy (desiredProxyProvider provider proxy flows refs)));
        [apply proxy_handler_on|done|done|..].
      * destruct (typed_external_host _ (desired_proxy_typed provider proxy flows refs ltac:(done))) as (host & Hh & _).
        by exists host.
      * intros name Hn' k. by apply Hname.
      * eapply get_providerHandler_on; [done|done|]. rewrite Hx. intros. by simplify_eq.
    + intros s' pk c' (Hm & Hk & Hw' & Hr'). split_and!; [|done|done|done]. by exists flows, refs.
  - destruct provider.(Provider_OAuth2) as [oauth2|] eqn:Ho; [|done].
    destruct r.(Resolved_Flows) as [flows|] eqn:Hf, r.(Resolved_OAuth2) as [refs|] eqn:Hpx.
    2-4: unfold reconcileProvider; achieve_step; (eapply get_providerHandler_on; [done|done|]); rewrite Hx; congruence.
    eapply achieves_mono.
    + eapply (reconcileProvider_on (oauth2ProviderHandler (desiredOAuth2Provider provider oauth2 flows refs)));
        [apply oauth2_handler_on|done|done|..].
      * intros name Hn' k. by apply Hname.
      * eapply get_providerHandler_on; [done|done|]. rewrite Hx. intros. by simplify_eq.
    + intros s' pk c' (Hm & Hk & Hw' & Hr'). split_and!; [|done|done|done]. by exists oauth2, flows, refs.
Qed.
(** What the block of the Provider leaves: [pk] is the Provider of the spec, and a Proxy Provider is in its Outpost. *)
Definition provider_done (spec : AuthentikApplicationSpec) (r : Resolved) (pk : option Z) (c : Client) : Prop :=
  match spec.(Spec_Provider) with
  | None => pk = None
  | Some provider => exists k, pk = Some k /\ provider_reached provider r k c /\
      (is_Some provider.(Provider_Proxy) -> exists refs o, r.(Resolved_Proxy) = Some refs /\
         c.(fk_outposts) !! refs.(ProxyReferences_Outpost) = Some o /\ k ∈ o.(Outpost_Providers))
  end.

Lemma provider_done_frame spec r pk c c' :
  c'.(fk_proxyProviders) = c.(fk_proxyProviders) -> c'.(fk_oauth2Providers) = c.(fk_oauth2Providers) ->
  c'.(fk_outposts) = c.(fk_outposts) -> provider_done spec r pk c -> provider_done spec r pk c'.
Proof.
  intros Hp Ho Hx. unfold provider_done. rewrite Hx. destruct spec.(Spec_Provider); [|done].
  intros (k & -> & Hk & Hin). exists k. split_and!; [done|by eapply provider_reached_frame|done].
Qed.

Section spec.
Context (spec : AuthentikApplicationSpec) (Hspec : valid_spec spec = true).

Lemma reconcile_provider_on observed s c n r :
  0 <= n -> world s c (n + 2) -> resolved_state spec s -> s.(rs_resolved) = Some r ->
  achieves (reconcile_provider observed) s c (fun s' pk c' =>
    provider_done spec r pk c' /\ world s' c' n /\ s'.(rs_resolved) = Some r /\
    c'.(fk_applications) = c.(fk_applications) /\ c'.(fk_bindings) = c.(fk_bindings)).
Proof.
  intros Hn Hw Hs Hr. pose proof (proj1 Hs) as Ha. unfold has_spec in Ha. unfold provider_done.
  pose proof Hspec as Hv. unfold valid_spec in Hv. valid_split.
  unfold reconcile_provider, get_app, get_resolved. do 4 achieve_step. rewrite Ha.
  destruct spec.(Spec_Provider) as [provider|] eqn:Hp.
  2: { achieve_step. split_and!; try done. eapply world_weaken; [|done]. lia. }
  achieve_step. eapply achieves_mono.
  { apply (achieves_safe (resolved_state spec)); [by apply (safe_reconcileProvider spec Hspec provider Hp)|done|].
    eapply (reconcileProvider_reached observed s c n provider r); [done|done|by rewrite Ha|done|done]. }
  intros s1 pk c1 ((Hpk & [Hk1 Hk2 Hk3] & Hw1 & Hr1) & Hs1 & _). do 6 achieve_step.
  pose proof (proj1 Hs1) as Ha1. unfold has_spec in Ha1.
  match goal with H : Spec_Provider _ = Some ?a |- _ => rewrite Ha1, Hp in H; injection H as <- end. achieve_step.
  apply (achieves_mono _ _ _ (fun s2 _ c2 => world s2 c2 n /\ s2.(rs_resolved) = Some r /\ (exists outposts, c2 = set_outposts outposts c1) /\
    (is_Some provider.(Provider_Proxy) -> exists refs o, r.(Resolved_Proxy) = Some refs /\
       c2.(fk_outposts) !! refs.(ProxyReferences_Outpost) = Some o /\ pk ∈ o.(Outpost_Providers)))).
  - pose proof Hpk as Hex. apply provider_reached_exists in Hex. unfold provider_reached in Hpk.
    destruct provider.(Provider_Proxy) as [proxy|].
    + destruct Hpk as (flows & refs & _ & Hrefs & _). eapply achieves_mono; [exact (reconcileOutpost_on pk s1 c1 n r refs Hw1 Hex Hr1 Hrefs)|].
      intros s2 [] c2 (Hw2 & Hr2 & Hc2 & Hin). split_and!; [done|congruence|done|]. intros _. destruct Hin as (o & Ho). by exists refs, o.
    + achieve_step. split_and!; [done|done|exists c1.(fk_outposts); by rewrite set_outposts_same|]. by intros [].
  - intros s2 [] c2 (Hw2 & Hr2 & (outposts & ->) & Hin). do 5 achieve_step.
    apply (achieves_mono _ _ _ (fun s3 _ c3 => s3 = s2 /\ c3 = set_outposts outposts c1)).
    + destruct (secret_missing _); [apply exportCredentials_on|by achieve_step].
    + intros s3 [] c3 [-> ->]. achieve_step. split_and!; [|done|done|done|done]. by exists pk.
Qed.
End spec.
End provider.

(** ** The Application *)

Section application.
Context `{KubeLib} `{ModelJSON}.

(** Only Applications and markers changed. *)
Record keeps_providers (c c' : Client) : Prop := {
  kept_proxies : c'.(fk_proxyProviders) = c.(fk_proxyProviders);
  kept_oauth2s : c'.(fk_oauth2Providers) = c.(fk_oauth2Providers);
  kept_outposts : c'.(fk_outposts) = c.(fk_outposts);
  kept_bindings : c'.(fk_bindings) = c.(fk_bindings);
}.

Lemma only_applications_keep c c' : only_applications c c' -> keeps_providers c c'.
Proof. intros []. by split. Qed.

(** The Application of the slug is as desired, is the observed one if there was one, and the others are as they were. *)
Definition application_reached (spec : AuthentikApplicationSpec) (pk : option Z) (observed : option Application)
    (c : Client) (application : Application) (c' : Client) : Prop :=
  c'.(fk_applications) = <[spec.(Spec_Slug) := application]> c.(fk_applications) /\
  DiffApplication (desiredApplication spec pk) application = None /\
  forall o, observed = Some o -> application.(Application_Pk) = o.(Application_Pk).

(** The server accepted the new Application. *)
Lemma create_application_reached spec pk request c c1 o :
  createApplicationRequest spec.(Spec_Slug) (desiredApplication spec pk) = Some request ->
  fake_CreateApplication c request = (c1, inl o) -> application_reached spec pk None c o c1.
Proof.
  intros Hr Hc. destruct (application_roundtrip _ _ _ _ _ _ _ Hr Hc) as [_ Hd]. split_and!; [|done|done].
  injection Hr as <-. revert Hc. unfold fake_CreateApplication. destruct (_ !! _); [done|].
  destruct (checkApplicationProvider _ _ _ _); [done|]. destruct (nextUUID c) as [c2 u] eqn:E.
  apply nextUUID_frame in E as [n ->]. intros [= <- <-]. done.
Qed.

(** The server accepted the repair. *)
Lemma patch_application_reached spec pk patch c c1 observed o :
  c.(fk_applications) !! spec.(Spec_Slug) = Some observed -> DiffApplication (desiredApplication spec pk) observed = Some patch ->
  fake_PatchApplication c spec.(Spec_Slug) patch = (c1, inl o) -> application_reached spec pk (Some observed) c o c1.
Proof.
  intros Ho Hd. pose proof (DiffApplication_Slug _ _ _ Hd eq_refl) as Hslug. unfold fake_PatchApplication.
  rewrite Ho, Hslug. simpl. destruct (if Nullable_IsSet _ then _ else _); [done|]. intros [= <- <-].
  split_and!; [done| |by intros ? [= <-]].
  apply DiffApplication_None. rewrite (apply_DiffApplication _ _ _ Hd). apply matches_apply_application.
Qed.

Lemma reconcileApplication_on observed pk s c n :
  0 <= n -> world s c (n + 2) -> s.(rs_app).(App_Spec).(Spec_Slug) <> "" ->
  (forall o, observed = Some o -> c.(fk_applications) !! s.(rs_app).(App_Spec).(Spec_Slug) = Some o) ->
  achieves (reconcileApplication observed pk) s c (fun s' o c' =>
    application_reached s.(rs_app).(App_Spec) pk observed c o c' /\ world s' c' n /\
    keeps_providers c c' /\ s'.(rs_resolved) = s.(rs_resolved)).
Proof.
  intros Hn Hw Hslug Hobs. set (spec := s.(rs_app).(App_Spec)) in *. unfold reconcileApplication, get_app. do 4 achieve_step.
  fold spec. cbv zeta. destruct observed as [o|].
  - specialize (Hobs o eq_refl). pose proof (app_slug _ _ _ (server_applications _ (world_server _ _ _ Hw)) _ _ Hobs) as Ho.
    destruct (DiffApplication _ o) as [patch|] eqn:Hd.
    + rewrite Ho. achieve_akcall o' c1 Hc1. pose proof (patch_application_frame c spec.(Spec_Slug) patch) as Hf.
      rewrite Hc1 in Hf. simpl in Hf.
      split_and!; [by eapply patch_application_reached| |by apply only_applications_keep|done].
      eapply (world_call (PatchApplication spec.(Spec_Slug) patch)); [done|eapply world_weaken; [|exact Hw]; lia| | |apply Hf].
      * simpl. by rewrite (DiffApplication_Slug _ _ _ Hd eq_refl).
      * simpl. by rewrite Hc1.
    + achieve_step. split_and!; [| |done|done].
      * split_and!; [by rewrite insert_id|done|by intros ? [= <-]].
      * eapply world_weaken; [|exact Hw]. lia.
  - unfold record_application, update_status, record_event, ensure_application_marker. do 3 achieve_step.
    rename a into request, H1 into Hr. achieve_akcall created c1 Hc1.
    pose proof (create_application_frame c request) as Hf. rewrite Hc1 in Hf. simpl in Hf.
    pose proof (create_application_reached _ _ _ _ _ _ Hr Hc1) as Hreach.
    assert (Hw1 : world s c1 (n + 1)).
    { eapply (world_call (CreateApplication request)); [lia|replace (n + 1 + 1) with (n + 2) by lia; exact Hw| | |apply Hf].
      - by injection Hr as <-.
      - simpl. by rewrite Hc1. }
    do 3 achieve_step. eapply achieves_mono; [apply patchStatus_memory|]. intros s2 [] c2 (-> & Hm2 & Hr2). achieve_step.
    eapply achieves_fake.
    { apply (ensure_world s2 c1 (applicationObject created) n (fun s3 r c3 =>
        only_markers s2 s3 /\ world s3 c3 n /\ same_objects c1 c3)); [done|exact (world_state s s2 c1 (n + 1) Hm2 Hw1)| | |done].
      - apply marked_models_well_formed. simpl. unfold ModelApplication. set_solver.
      - apply (application_exists c1 spec.(Spec_Slug)). rewrite (proj1 Hreach). apply lookup_insert_eq. }
    intros s3 [] c3 ((_ & _ & Hr3) & Hw3 & (_ & Ha3 & Hp3 & Ho3 & Hb3 & Hx3)). achieve_step. achieve_step.
    answer H1. achieve_step. destruct Hreach as (Hreach1 & Hreach2 & _). split_and!; [split_and!; [congruence|done|done]|done| |].
    + destruct Hf as [_ Hf1 Hf2 Hf3 Hf4]. split; congruence.
    + rewrite Hr3. exact Hr2.
Qed.
End application.

(** ** The Bindings *)

(** Everything but Bindings and markers is as it was. *)
Record keeps_objects (c c' : Client) : Prop := {
  objects_applications : c'.(fk_applications) = c.(fk_applications);
  objects_proxies : c'.(fk_proxyProviders) = c.(fk_proxyProviders);
  objects_oauth2s : c'.(fk_oauth2Providers) = c.(fk_oauth2Providers);
  objects_outposts : c'.(fk_outposts) = c.(fk_outposts);
}.

#[export] Instance keeps_objects_preorder : PreOrder keeps_objects.
Proof. split; [by split|]. intros c1 c2 c3 [] []. split; congruence. Qed.

(** The calls that do not touch Applications, Providers and Outposts. *)
Definition binds (e : logged call) : Prop :=
  match e.(log_call) with
  | CreateApplication _ | PatchApplication _ _ | DeleteApplication _ | CreateProxyProvider _ | PatchProxyProvider _ _
  | DeleteProxyProvider _ | CreateOAuth2Provider _ | PatchOAuth2Provider _ _ | DeleteOAuth2Provider _
  | SetOutpostProviders _ _ => False
  | _ => True
  end.

Lemma binds_classes cs {S A} (m : M call S A) :
  bool_decide (Forall (.∈ [Reads; Roles; Marks; Unbinds; KubeWrites]) cs) = true ->
  only_calls (in_classes cs) m -> only_calls binds m.
Proof.
  intros Hc%bool_decide_eq_true. rewrite Forall_forall in Hc. apply only_calls_weaken. intros [R q r] Hin%Hc. revert Hin.
  unfold binds, log_class. cbn [log_call log_type]. destruct q; simpl; try done; intros Hin; set_solver.
Qed.

Lemma binds_frame R (q : call R) r c c' : binds (mkLogged q r) -> env_step fake_env R q c r c' -> keeps_objects c c'.
Proof.
  unfold binds. cbn [log_call log_type]. destruct q; try done; intros _ Hs; cbn [fake_env env_step fake_handle] in Hs;
    lazymatch type of Hs with _ /\ _ => destruct Hs as [-> _] | _ => subst c' end; try done; cbn [fst].
  - unfold fake_CreatePolicyBinding. destruct (checkBindingSubject _ _ _ _); [done|]. destruct (bindingOrderTaken _ _ _ _ _); [done|].
    destruct (nextUUID c) as [c1 u] eqn:E. by apply nextUUID_frame in E as [n ->].
  - unfold fake_PatchPolicyBinding. fake_cases.
  - unfold fake_DeletePolicyBinding. fake_cases.
  - unfold fake_CreateRole. destruct (existsb _ _); [done|]. destruct (nextUUID c) as [c1 u] eqn:E.
    by apply nextUUID_frame in E as [n ->].
  - unfold fake_AssignObjectPermission. destruct (_ !! _); [|done]. destruct (negb _); [done|]. destruct (existsb _ _); [done|].
    destruct (nextPK c) as [c1 u] eqn:E. by apply nextPK_frame in E as [n ->].
  - unfold fake_UnassignObjectPermission. fake_cases.
Qed.

Section bindings.
Context `{KubeLib} `{ModelJSON}.

Lemma sync_rule_binds target acc item : only_calls binds (sync_rule target acc item).
Proof.
  unfold sync_rule, syncBinding. destruct acc as [kept order], item as [rule [b|]]; cbv zeta.
  - destruct (DiffPolicyBinding _ _); repeat calls_step; done.
  - apply only_calls_bind; [apply only_calls_deref|intros request]. repeat calls_step; try done.
    all: apply (binds_classes [Reads; Roles; Marks; KubeWrites]); [done|]; calls_auto.
Qed.

Lemma reconcileBindings_binds application : only_calls binds (reconcileBindings application).
Proof.
  assert (Hread : forall S A cs (m : M call S A), only_calls (in_classes cs) m ->
    bool_decide (Forall (.∈ [Reads; Roles; Marks; Unbinds; KubeWrites]) cs) = true -> only_calls binds m).
  { intros. by eapply binds_classes. }
  unfold reconcileBindings. cbv zeta. apply only_calls_bind; [by apply only_calls_invoke|]. intros existing.
  apply only_calls_bind; [by eapply Hread; [apply calls_managedBindings|]|]. intros [[managed unmanaged] order].
  apply only_calls_bind; [by eapply Hread; [apply calls_get_resolved|]|]. intros r.
  apply only_calls_bind; [apply only_calls_deref|]. intros matched. apply only_calls_bind; [apply only_calls_deref|]. intros adopted.
  apply only_calls_bind; [by eapply Hread; [apply calls_adopt_bindings|]|]. intros items.
  apply only_calls_bind; [apply only_calls_fold; intros; apply sync_rule_binds|]. intros [kept max].
  apply only_calls_bind; [by eapply Hread; [apply calls_delete_obsolete|]|]. intros [].
  apply only_calls_bind; [apply only_calls_modify|]. intros [].
  apply only_calls_bind; [by eapply Hread; [apply calls_patchStatus|]|]. intros [].
  by eapply Hread; [apply calls_handleUnmanagedBindings|].
Qed.

Lemma listed_length c target : (length (fake_ListPolicyBindings c target) <= size c.(fk_bindings))%nat.
Proof.
  unfold fake_ListPolicyBindings, findAll. rewrite (merge_sort_Permutation binding_order_le), <- length_map_to_list.
  rewrite <- (length_fmap snd (map_to_list c.(fk_bindings))). apply length_filter.
Qed.

Lemma reconcileBindings_on application s c r :
  s.(rs_resolved) = Some r -> Forall rule_ok r.(Resolved_Rules) -> bindings_ok c.(fk_bindings) ->
  order_room application.(Application_PbmUuid) c (length r.(Resolved_Rules)) ->
  world s c (Z.of_nat (size c.(fk_bindings) + 3 * length r.(Resolved_Rules))) ->
  achieves (reconcileBindings application) s c (fun s' _ c' =>
    access_enforced application.(Application_PbmUuid) r.(Resolved_Rules) s c s' c' /\ keeps_objects c c').
Proof.
  intros Hr Hrules Hb Hroom [Hok _ Hcache Hseq]. eapply mwp_mono.
  - apply (mwp_frame binds keeps_objects); [apply reconcileBindings_binds|apply binds_frame|]. apply mwp_loose.
    apply (reconcileBindings_spec s c application r); [done|done| |done|done|].
    + split; [done|apply Hok|apply Hok].
    + unfold room. pose proof (listed_length c application.(Application_PbmUuid)). lia.
  - intros s' o c' [Ho Hk] a ->. by split.
Qed.
End bindings.

(** ** The first steps *)

(** The objects that rules name have primary keys. *)
Record subjects_ok (c : Client) : Prop := {
  group_pk u g : c.(fk_groups) !! u = Some g -> g.(Group_Pk) <> "";
  policy_pk u p : c.(fk_policies) !! u = Some p -> p.(Policy_Pk) <> "";
  user_pk u x : c.(fk_users) !! u = Some x -> x.(User_Pk) <> 0;
}.

Lemma find_one_elem {K A} `{Countable K} (m : gmap K A) (keep : A -> bool) a :
  find_one (findAll m keep) = Some a -> exists k, m !! k = Some a.
Proof.
  unfold find_one. destruct (findAll m keep) as [|x [|]] eqn:E; [done| |done]. intros [= ->].
  assert (Hin : a ∈ findAll m keep) by (rewrite E; by left). unfold findAll in Hin.
  apply list_elem_of_filter in Hin as [_ ([k b] & -> & Hb)%list_elem_of_fmap]. exists k. by apply elem_of_map_to_list in Hb.
Qed.

Lemma named_of_elem {A} (pk name : A -> string) (m : gmap string A) ref k :
  named_of pk name m ref = Some k -> exists u a, m !! u = Some a /\ k = pk a.
Proof.
  unfold named_of, find_object. intros (a & Ha & ->)%fmap_Some. destruct ref as [[key|] [u|]]; simpl in Ha; [by exists u, a| |by exists u, a|done].
  apply find_one_elem in Ha as [u Hu]. by exists u, a.
Qed.

Lemma rule_of_ok c rule r : subjects_ok c -> valid_rule rule = true -> rule_of c rule = Some r -> rule_ok r.
Proof.
  intros [Hg Hp Hu] Hv. unfold valid_rule in Hv. valid_split. unfold rule_of, rule_ok, ruleSubject, no_subject. cbv zeta.
  destruct rule as [[group|] [user|] [policy|] negate]; simpl in *; try done.
  - intros (k & (u & g & Hgk & ->)%named_of_elem & [= <-])%bind_Some. eexists. split; [done|]. intros [= E]. by apply (Hg u g).
  - intros (k & Hk & [= <-])%bind_Some. eexists. split; [done|]. intros [= E]. subst k.
    unfold user_of, find_user in Hk. apply fmap_Some in Hk as (x & Hf & Hx). destruct user as [[name|] [z|]]; simpl in Hf; [| | |done].
    + case_decide; [done|]. by apply (Hu z x).
    + apply find_one_elem in Hf as [z Hz]. by apply (Hu z x).
    + case_decide; [done|]. by apply (Hu z x).
  - intros (k & (u & p & Hpk & ->)%named_of_elem & [= <-])%bind_Some. eexists. split; [done|]. intros [= E]. by apply (Hp u p).
Qed.

Lemma rules_of_ok c rules rs :
  subjects_ok c -> forallb valid_rule rules = true -> mapM (rule_of c) rules = Some rs -> Forall rule_ok rs.
Proof.
  intros Hs Hv Hm. apply mapM_Some_1 in Hm. induction Hm as [|rule r rules rs Hr _ IH]; [done|].
  cbn [forallb] in Hv. apply andb_true_iff in Hv as [Hv Hvs]. constructor; [by eapply rule_of_ok|by apply IH].
Qed.

Section steps.
Context `{KubeLib} `{ModelJSON}.

Lemma checkConflict_on s c : achieves checkConflict s c (fun s' _ c' => s' = s /\ c' = c).
Proof.
  apply (achieves_reads [Reads]); [apply calls_checkConflict|done|]. unfold checkConflict, get_app. cbv zeta.
  repeat achieve_step. case_decide; by achieve_step.
Qed.

(** With the references resolved, the attached Provider can be compared. *)
Lemma attached_found_defined s c o spec r :
  valid_spec spec = true -> s.(rs_app).(App_Spec) = spec -> s.(rs_resolved) = Some r -> resolution c spec r ->
  is_Some (attached_found s c o).
Proof.
  intros Hv Ha Hr [_ Hf Hx Ho]. unfold valid_spec in Hv. valid_split. unfold attached_found, provider_found. rewrite Ha, Hr.
  destruct spec.(Spec_Provider) as [provider|]; [|by eexists]. destruct (Nullable_Get _) as [pk|]; [|by eexists].
  destruct (Hf provider eq_refl) as (flows & Hf' & _). simpl. rewrite Hf'. simpl.
  destruct provider.(Provider_Proxy) as [proxy|] eqn:Hp.
  - destruct (Hx provider proxy eq_refl Hp) as (refs & -> & _). by eexists.
  - match goal with H : optional valid_provider _ = true |- _ => simpl in H; unfold valid_provider in H; valid_split end.
    destruct provider.(Provider_OAuth2) as [oauth2|] eqn:Ho'; [|by rewrite Hp in *].
    destruct (Ho provider oauth2 eq_refl Ho') as (refs & credentials & Hrefs & _). simpl. rewrite Hrefs. by eexists.
Qed.

Lemma observeApplication_on s c n spec r :
  0 <= n -> world s c (n + 1) -> valid_spec spec = true -> s.(rs_app).(App_Spec) = spec -> s.(rs_resolved) = Some r ->
  resolution c spec r ->
  achieves observeApplication s c (fun s' observed c' =>
    observed = c.(fk_applications) !! spec.(Spec_Slug) /\ (forall o, observed = Some o -> may_take_over s c o) /\
    same_objects c c' /\ world s' c' n /\ s'.(rs_resolved) = Some r).
Proof.
  intros Hn [Hok Hslug Hcache Hseq] Hv Ha Hr Hres. eapply achieves_fake.
  - apply observeApplication_spec; [done|]. intros o _. by eapply attached_found_defined.
  - intros s' observed c' [Ho Hf]. destruct (Hf observed eq_refl) as (Hr' & Hc' & Hassign).
    destruct (assigned_step_ok c c') as (Hok' & Hslug' & Hseq'); [done|done|lia|done|].
    assert (Hw' : world s' c' n) by (split; [done|done|done|lia]).
    unfold observed_outcome in Ho. rewrite Ha in Ho. destruct (c.(fk_applications) !! spec.(Spec_Slug)) as [o|].
    + destruct Ho as (-> & Hmay & Hs & _). split_and!; [done|by intros ? [= <-]|done|done|congruence].
    + destruct Ho as ([= ->] & -> & _). split_and!; [done|done|done|done|congruence].
Qed.
End steps.

(** ** The whole reconcile *)

Section reconcile.
Context `{KubeLib} `{ModelJSON}.

(** Access to the target is what the rules say: every rule has its own Binding, which keeps what the rule does not manage,
    and a further Binding was there before, is
    reported, and is left only if the spec neither prunes nor is public. The Bindings of other targets are the same. *)
Definition access_reached (spec : AuthentikApplicationSpec) (target : string) (rules : list Rule) (c : Client)
    (s' : reconcileState) (c' : Client) : Prop :=
  (exists kept, NoDup kept /\
     Forall2 (fun rule u => exists b, c'.(fk_bindings) !! u = Some b /\ serves target rule (c.(fk_bindings) !! u) b)
       rules kept /\
     forall u b, c'.(fk_bindings) !! u = Some b -> b.(PolicyBinding_Target) = target -> u ∉ kept ->
       default false spec.(Spec_Access).(Access_Prune) = false /\ default false spec.(Spec_Access).(Access_Public) = false /\
       c.(fk_bindings) !! u = Some b /\ u ∈ reported_unmanaged s') /\
  forall u b, b.(PolicyBinding_Target) <> target -> c'.(fk_bindings) !! u = Some b <-> c.(fk_bindings) !! u = Some b.

(** What a successful reconcile that started at [s] and [c] leaves at [s'] and [c']. *)
Definition reconciled (s : reconcileState) (c : Client) (s' : reconcileState) (c' : Client) : Prop :=
  let spec := s.(rs_app).(App_Spec) in
  exists r pk application,
    resolution c spec r /\
    (forall o, c.(fk_applications) !! spec.(Spec_Slug) = Some o ->
       may_take_over (set_resolved (Some r) s) c o /\ application.(Application_Pk) = o.(Application_Pk)) /\
    c'.(fk_applications) = <[spec.(Spec_Slug) := application]> c.(fk_applications) /\
    DiffApplication (desiredApplication spec pk) application = None /\
    provider_done spec r pk c' /\ (forall k, pk = Some k -> Nullable_Get application.(Application_Provider) = Some k) /\
    access_reached spec application.(Application_PbmUuid) r.(Resolved_Rules) c s' c'.

(** A server and a resource that a reconcile may start from. *)
Record reconcilable (s : reconcileState) (c : Client) : Prop := {
  start_valid : valid_spec s.(rs_app).(App_Spec) = true;
  start_subjects : subjects_ok c;
  start_bindings : bindings_ok c.(fk_bindings);
  start_orders target : order_room target c (length s.(rs_app).(App_Spec).(Spec_Access).(Access_Rules));
  start_world : world s c (Z.of_nat (size c.(fk_bindings) + 3 * length s.(rs_app).(App_Spec).(Spec_Access).(Access_Rules)) + 5);
}.

Lemma order_room_frame target c c' n : c'.(fk_bindings) = c.(fk_bindings) -> order_room target c n -> order_room target c' n.
Proof. intros Hb. unfold order_room. by rewrite Hb. Qed.

(** From the Bindings of an intermediate state to those of the start. *)
Lemma access_reached_intro spec target rules s c0 c s' c' :
  s'.(rs_app).(App_Spec) = spec -> c.(fk_bindings) = c0.(fk_bindings) ->
  access_enforced target rules s c s' c' -> access_reached spec target rules c0 s' c'.
Proof.
  intros Hs Hb [(kept & H1 & H2 & H3) H4]. split.
  - exists kept. split_and!; [done|by rewrite <- Hb|]. intros u b Hu Ht Hn. destruct (H3 u b Hu Ht Hn) as (Hp & Hpub & Hc & _ & Hr).
    unfold prunes, is_public in Hp, Hpub. rewrite Hs in Hp, Hpub. rewrite <- Hb. done.
  - intros u b Ht. rewrite <- Hb. by apply H4.
Qed.

(** The Application uses the Provider. *)
Lemma desired_provider spec k application :
  DiffApplication (desiredApplication spec (Some k)) application = None -> Nullable_Get application.(Application_Provider) = Some k.
Proof. intros (_ & _ & Hp & _)%DiffApplication_None. by apply Hp. Qed.

Lemma reconcile_on s c :
  reconcilable s c -> achieves reconcile s c (fun s' _ c' => reconciled s c s' c').
Proof.
  intros [Hv Hsub Hb Horder Hw]. unfold reconciled. set (spec := s.(rs_app).(App_Spec)) in *.
  set (n := Z.of_nat (size c.(fk_bindings) + 3 * length spec.(Spec_Access).(Access_Rules))) in *.
  assert (Hslug : spec.(Spec_Slug) <> "").
  { pose proof Hv as Hv'. unfold valid_spec in Hv'. valid_split. unfold valid_slug, min_length_1 in *. by valid_split. }
  unfold reconcile, get_app. achieve_step. eapply achieves_mono; [apply checkConflict_on|]. intros ? [] ? [-> ->].
  do 5 achieve_step. eapply achieves_mono.
  { apply (achieves_safe (started spec)); [by apply (safe_Resolve spec Hv)|done|apply Resolve_finds]. }
  intros ? r ? ((-> & -> & Hres) & _ & Hto). fold spec in Hres. do 3 achieve_step.
  set (s1 := set_resolved (Some r) s).
  assert (Hs1 : resolved_state spec s1) by (split; [done|by exists r]).
  assert (Hlen : length r.(Resolved_Rules) = length spec.(Spec_Access).(Access_Rules)) by (symmetry; eapply Forall2_length, Hto).
  assert (Hrules : Forall rule_ok r.(Resolved_Rules)).
  { eapply rules_of_ok; [done| |apply Hres]. pose proof Hv as Hv'. unfold valid_spec, valid_access in Hv'. cbv zeta in Hv'. by valid_split. }
  eapply achieves_mono.
  { apply (achieves_safe (resolved_state spec)); [by apply (safe_observeApplication spec Hv)|done|].
    apply (observeApplication_on s1 c (n + 4) spec r); [lia|replace (n + 4 + 1) with (n + 5) by lia; exact (world_state s s1 c (n + 5) eq_refl Hw)|done..]. }
  intros s2 observed c2 ((Hobs & Hmay & (_ & Ha2 & _ & _ & Hb2 & _) & Hw2 & Hr2) & Hs2 & _). achieve_step.
  eapply achieves_mono.
  { apply (achieves_safe (resolved_state spec)); [by apply (safe_reconcile_provider spec Hv)|done|].
    apply (reconcile_provider_on spec Hv observed s2 c2 (n + 2) r); [lia|replace (n + 2 + 2) with (n + 4) by lia; done|done|done]. }
  intros s3 pk c3 ((Hprov & Hw3 & Hr3 & Ha3 & Hb3) & Hs3 & _). achieve_step.
  pose proof (proj1 Hs3) as Hspec3. unfold has_spec in Hspec3. eapply achieves_mono.
  { apply (achieves_safe (resolved_state spec)); [by apply (safe_reconcileApplication spec)|done|].
    apply (reconcileApplication_on observed pk s3 c3 n); [lia|done|by rewrite Hspec3|].
    intros o ->. by rewrite Hspec3, Ha3, Ha2. }
  intros s4 application c4 (((Ha4 & Hd4 & Hpk4) & Hw4 & [Hp4 Ho4 Hx4 Hb4] & Hr4) & Hs4 & _). rewrite Hspec3 in *.
  assert (Hbind : c4.(fk_bindings) = c.(fk_bindings)) by congruence. eapply achieves_mono.
  { apply (achieves_safe (resolved_state spec)); [by apply (safe_reconcileBindings spec Hv)|done|].
    apply (reconcileBindings_on application s4 c4 r); [congruence|done|by rewrite Hbind| |by rewrite Hbind, Hlen].
    rewrite Hlen. by eapply order_room_frame. }
  intros s5 [] c5 ((Hacc & [Ha5 Hp5 Ho5 Hx5]) & Hs5 & _). exists r, pk, application. split_and!.
  - done.
  - intros o Ho. rewrite Ho in Hobs. split; [by apply Hmay|by apply Hpk4].
  - rewrite Ha5, Ha4. congruence.
  - done.
  - eapply provider_done_frame; [exact Hp5|exact Ho5|exact Hx5|]. by eapply provider_done_frame.
  - intros k ->. by eapply desired_provider.
  - eapply access_reached_intro; [apply Hs5|exact Hbind|exact Hacc].
Qed.

(** C1: A successful reconcile makes the server what the spec says. For a resource that passed the validation of the CRD, on
    any well-formed server with a sound marker cache, and while Kubernetes keeps the spec, [reconcile] does not panic, and
    when it succeeds: every reference of the spec names one object of the server, and these are the objects that are
    used; the Application of the slug shows no difference from the desired state, and if there was one before, it is the
    same, which the operator was allowed to take over; no other Application changed; the Provider of the spec exists,
    is of its type, shows no difference from the desired state and belongs to the Application, and a Proxy Provider is
    a member of the Outpost; every rule has its own Binding with its subject and its negation, a further Binding of the
    Application was there before and is reported, none is left if the spec prunes or is public, and the Bindings of the
    other Applications are untouched. *)
Theorem reconcile_reaches_spec s c :
  reconcilable s c ->
  mwp kept_env reconcile s c (fun s' r c' =>
    s'.(rs_app).(App_Spec) = s.(rs_app).(App_Spec) /\ (r = Ok () -> reconciled s c s' c')).
Proof.
  intros Hs. pose proof (start_valid _ _ Hs) as Hv. eapply mwp_mono.
  - apply (kept_achieves (started s.(rs_app).(App_Spec))); [by apply safe_reconcile|done|by apply reconcile_on].
  - intros s' r c' [Hs' Hr]. split; [exact Hs'|]. intros ->. by apply (Hr ()).
Qed.
End reconcile.

(** ** An instance

    A server with the objects that the resource names and the role of the operator, and a resource with a Proxy Provider
    and two rules. The API server stores what it is sent. *)
Definition example_kube (R : Type) (q : call R) : R :=
  match q in call R return R with
  | KubeListBySlug _ | KubeListBySecret _ _ | KubeListAll => inl []
  | KubePatch app _ => inl app
  | KubePatchStatus app _ => inl app
  | KubeGet _ _ => inr (KubeError true "not found")
  | KubeGetSecret _ _ => inr (KubeError true "not found")
  | KubeCreateSecret _ => inl ()
  | Now => 0
  | Eventf _ => ()
  | SendRoleEvents _ => ()
  | _ => inr (CallFailed "call" "unavailable")
  end.

Definition example_services (R : Type) (q : call R) (c : Client) : Client * R :=
  match fake_handle R q c with Some answer => answer | None => (c, example_kube R q) end.

Lemma example_services_kept R (q : call R) c r c' :
  example_services R q c = (c', r) -> env_step kept_env R q c r c'.
Proof.
  unfold example_services. cbn [kept_env env_step fake_env]. destruct (fake_handle R q c) as [answer|] eqn:E.
  - intros ->. split; [done|]. by destruct q.
  - intros [= <- <-]. split; [done|]. destruct q; simpl; try done; by intros ? [= <-].
Qed.

Definition example_named : Client :=
  let c := (AddFlow (New (fun _ _ => [])) "authz").1 in
  let c := (AddFlow c "inval").1 in
  let c := (AddOutpost c EmbeddedOutpostName).1 in
  let c := (AddGroup c "staff").1 in
  (AddUser c "alice").1.

Definition example_referred : Client := (fake_CreateRole example_named "operator").1.

Definition example_wiki : AuthentikApplication :=
  mkResource "default" "wiki" "uid" 1 10 None []
    (mkSpec "wiki" "Wiki" None None None None None None None None None
       (Some (mkProviderSpec None
          (mkProviderFlows (mkFlowReference (Some "authz") None) (mkFlowReference (Some "inval") None) None)
          (Some example_forward) None))
       (mkAccessSpec None example_rules None None)) empty_status.

Definition example_start : reconcileState :=
  mkReconcileState example_wiki example_wiki None (newMarkerCache (mkMarker "operator" (uuid_of 6)) 60 true).

Lemma example_referred_reachable : reachable 6 example_referred.
Proof.
  refine (reachable_step 5 example_named _ _ (call_server_step _ _ (CreateRole "operator") _ I eq_refl)).
  refine (reachable_step 4 _ _ _ (step_user _ "alice")). refine (reachable_step 3 _ _ _ (step_group _ "staff")).
  refine (reachable_step 2 _ _ _ (step_outpost _ EmbeddedOutpostName)). refine (reachable_step 1 _ _ _ (step_flow _ "inval")).
  exact (reachable_step 0 _ _ (reachable_new _) (step_flow _ "authz")).
Qed.

Lemma example_reconcilable : reconcilable example_start example_referred.
Proof.
  destruct (server_reachable_ok 6 example_referred example_referred_reachable) as (Hok & Hslug & _); [by vm_compute|].
  split.
  - vm_compute. reflexivity.
  - split.
    + intros u g Hu. change (fk_groups example_referred) with ({[uuid_of 4 := mkGroup (uuid_of 4) "staff"]} : gmap string Group) in Hu.
      apply lookup_singleton_Some in Hu as [_ <-]. done.
    + intros u p Hu. change (fk_policies example_referred) with (∅ : gmap string Policy) in Hu. by rewrite lookup_empty in Hu.
    + intros u x Hu. change (fk_users example_referred) with ({[5 := mkUser 5 "alice"]} : gmap Z User) in Hu.
      apply lookup_singleton_Some in Hu as [_ <-]. done.
  - apply bindings_ok_empty.
  - intros target. split; [by vm_compute|]. intros u b Hu.
    change (fk_bindings example_referred) with (∅ : gmap string PolicyBinding) in Hu. by rewrite lookup_empty in Hu.
  - split; [done|done| |by vm_compute]. split; [done| |by constructor|done].
    exists (mkRole (uuid_of 6) "operator"). split_and!; try done.
    intros u r Hu. change (fk_roles example_referred) with ({[uuid_of 6 := mkRole (uuid_of 6) "operator"]} : gmap string Role) in Hu.
    by apply lookup_singleton_Some in Hu as [<- _].
Qed.

(** A run of it succeeds: the hypotheses hold and the conclusion is reached. *)
Lemma reconcile_reaches_spec_witness :
  exists s' c',
    mrun example_services (reconcile (H := list_KubeLib) (H0 := example_ModelJSON)) example_start example_referred =
      Some (s', Ok (), c') /\
    reconciled (H0 := example_ModelJSON) example_start example_referred s' c' /\
    (Application_Name <$> c'.(fk_applications) !! "wiki") = Some "Wiki" /\
    (Outpost_Providers <$> c'.(fk_outposts) !! uuid_of 3) = Some [7] /\ size c'.(fk_bindings) = 2%nat.
Proof.
  pose proof (reconcile_reaches_spec (H := list_KubeLib) (H0 := example_ModelJSON) example_start example_referred
    example_reconcilable) as Hr.
  apply (mwp_env kept_env (handler_env example_services)) in Hr; [|exact example_services_kept|done|done].
  apply mwp_mrun in Hr as (s' & r & c' & Hrun & _ & Hreach). exists s', c'.
  assert (Hok : (fun x => match x with
      | Some (_, Ok _, c') => bool_decide ((Application_Name <$> c'.(fk_applications) !! "wiki") = Some "Wiki") &&
          bool_decide ((Outpost_Providers <$> c'.(fk_outposts) !! uuid_of 3) = Some [7]) && bool_decide (size c'.(fk_bindings) = 2%nat)
      | _ => false
      end) (mrun example_services (reconcile (H := list_KubeLib) (H0 := example_ModelJSON)) example_start example_referred) = true)
    by (vm_compute; reflexivity).
  rewrite Hrun in Hok. destruct r as [[]|e]; [|discriminate Hok].
  apply andb_true_iff in Hok as [[H1%bool_decide_eq_true H2%bool_decide_eq_true]%andb_true_iff H3%bool_decide_eq_true].
  split_and!; [exact Hrun|by apply Hreach|exact H1|exact H2|exact H3].
Defined.
