(* ===== verification/Safety.v ===== *)
(** * What a reconcile never does

    Properties of [reconcile] and [finalize] that hold whatever authentik and Kubernetes answer: which errors mean
    that nothing was written, the order of the writes and the deletions, and what a deleted resource releases. *)
From S2P Require Import Prelude Errors Effects Api Crd Patch Interface Marker MarkerCache Reference Desired.
From S2P Require Import State FieldDiffs KubeExample Provider Conflict Bindings Application Reconcile Calls.
From S2P Require Import CallBounds.

(** ** Errors of the steps after the first write *)

Lemma ordinary_findRole : ordinary findRole.
Proof. unfold findRole. avoids_auto. Qed.
#[export] Hint Resolve ordinary_findRole : ordinary.
Lemma ordinary_findOrCreateRole : ordinary findOrCreateRole.
Proof. unfold findOrCreateRole. avoids_auto. Qed.
#[export] Hint Resolve ordinary_findOrCreateRole : ordinary.
Lemma ordinary_EnsureRole : ordinary EnsureRole.
Proof. unfold EnsureRole. avoids_auto. Qed.
#[export] Hint Resolve ordinary_EnsureRole : ordinary.
Lemma ordinary_role : ordinary role.
Proof. unfold role. avoids_auto. Qed.
#[export] Hint Resolve ordinary_role : ordinary.
Lemma ordinary_Mark o : ordinary (Mark o).
Proof. unfold Mark. avoids_auto. Qed.
Lemma ordinary_Unmark o : ordinary (Unmark o).
Proof. unfold Unmark. avoids_auto. Qed.
Lemma ordinary_ListManaged : ordinary ListManaged.
Proof. unfold ListManaged. avoids_auto. Qed.
#[export] Hint Resolve ordinary_Mark ordinary_Unmark ordinary_ListManaged : ordinary.
Lemma ordinary_refreshLocked : ordinary refreshLocked.
Proof. unfold refreshLocked, fresh, requeueAll, with_marker. avoids_auto. Qed.
#[export] Hint Resolve ordinary_refreshLocked : ordinary.
Lemma ordinary_contains o : ordinary (contains o).
Proof. unfold contains. avoids_auto. Qed.
Lemma ordinary_ensure o : ordinary (ensure o).
Proof. unfold ensure, put_object, with_marker. avoids_auto. Qed.
Lemma ordinary_remove o : ordinary (remove o).
Proof. unfold remove, delete_object, with_marker. avoids_auto. Qed.
Lemma ordinary_markers {A} (m : M call markerCache A) : ordinary m -> ordinary (markers m).
Proof. apply avoids_zoom. Qed.
#[export] Hint Resolve ordinary_contains ordinary_ensure ordinary_remove ordinary_markers : ordinary.

Lemma ordinary_get_app : ordinary get_app.
Proof. unfold get_app. avoids_auto. Qed.
Lemma ordinary_get_resolved : ordinary get_resolved.
Proof. unfold get_resolved. avoids_auto. Qed.
Lemma ordinary_update_status f : ordinary (update_status f).
Proof. unfold update_status. avoids_auto. Qed.
Lemma ordinary_record_event w r m : ordinary (record_event w r m).
Proof. unfold record_event. avoids_auto. Qed.
Lemma ordinary_patchStatus : ordinary patchStatus.
Proof. unfold patchStatus. avoids_auto. Qed.
Lemma ordinary_ignoreNotFound {S} (m : M call S ()) : ordinary m -> ordinary (ignoreNotFound m).
Proof. intros Hm. unfold ignoreNotFound. avoids_auto. Qed.
#[export] Hint Resolve ordinary_get_app ordinary_get_resolved ordinary_update_status ordinary_record_event
  ordinary_patchStatus ordinary_ignoreNotFound : ordinary.
Lemma ordinary_akcall_hint {S A} (c : call (ak A)) : ordinary (akcall (S := S) c).
Proof. apply avoids_akcall, _. Qed.
#[export] Hint Resolve ordinary_akcall_hint : ordinary.
Lemma ordinary_setCondition `{KubeLib} t s r m : ordinary (setCondition t s r m).
Proof. unfold setCondition. avoids_auto. Qed.
#[export] Hint Resolve ordinary_setCondition : ordinary.

Lemma ordinary_removeProviderFromOutpost {S} o pk : ordinary (removeProviderFromOutpost (S := S) o pk).
Proof. unfold removeProviderFromOutpost. case_decide; [apply ordinary_ignoreNotFound|]; avoids_auto. Qed.
#[export] Hint Resolve ordinary_removeProviderFromOutpost : ordinary.
Lemma ordinary_leaveOutpostByUUID {S} u pk : ordinary (leaveOutpostByUUID (S := S) u pk).
Proof. unfold leaveOutpostByUUID. avoids_auto. Qed.
#[export] Hint Resolve ordinary_leaveOutpostByUUID : ordinary.
Lemma ordinary_reconcileOutpost pk : ordinary (reconcileOutpost pk).
Proof. unfold reconcileOutpost. cbv zeta. avoids_auto. Qed.
Lemma ordinary_exportCredentials `{KubeLib} pk : ordinary (exportCredentials pk).
Proof. unfold exportCredentials. cbv zeta. avoids_auto. Qed.
Lemma ordinary_reconcileApplication o pk : ordinary (reconcileApplication o pk).
Proof. unfold reconcileApplication, ensure_application_marker, record_application. cbv zeta. avoids_auto. Qed.
#[export] Hint Resolve ordinary_reconcileOutpost ordinary_exportCredentials ordinary_reconcileApplication : ordinary.

Lemma ordinary_managedBindings l : ordinary (managedBindings l).
Proof. unfold managedBindings. apply avoids_fold. intros [[? ?] ?] b. cbv zeta. avoids_auto. Qed.
Lemma ordinary_adopt_bindings l k : ordinary (adopt_bindings l k).
Proof. revert k. induction l as [|[b|] l IH]; intros [|[b'|] k]; simpl; avoids_auto; apply IH. Qed.
Lemma ordinary_sync_rule t acc i : ordinary (sync_rule t acc i).
Proof. unfold sync_rule, syncBinding. destruct acc, i as [r [b|]]; cbv zeta; avoids_auto. Qed.
Lemma ordinary_delete_obsolete kept l : ordinary (delete_obsolete kept l).
Proof. unfold delete_obsolete, deleteBinding. avoids_auto. Qed.
Lemma ordinary_describeSubject b : ordinary (describeSubject b).
Proof. unfold describeSubject, describe_as. cbv zeta. avoids_auto. Qed.
#[export] Hint Resolve ordinary_managedBindings ordinary_adopt_bindings ordinary_sync_rule ordinary_delete_obsolete
  ordinary_describeSubject : ordinary.
Lemma ordinary_handleUnmanagedBindings `{KubeLib} l : ordinary (handleUnmanagedBindings l).
Proof. unfold handleUnmanagedBindings. cbv zeta. avoids_auto. Qed.
#[export] Hint Resolve ordinary_handleUnmanagedBindings : ordinary.
Lemma ordinary_reconcileBindings `{KubeLib} a : ordinary (reconcileBindings a).
Proof. unfold reconcileBindings. cbv zeta. avoids_auto. Qed.
#[export] Hint Resolve ordinary_reconcileBindings : ordinary.

(** ** Nothing is written before the decision *)

Lemma quiet_reconcileProvider `{ModelJSON} a : quiet (reconcileProvider a).
Proof.
  unfold reconcileProvider.
  eapply excuses_bind_returns; [calls_auto|apply returns_get_providerHandler|]. intros h [Hh Hs].
  eapply excuses_bind_returns; [|by eapply returns_findProvider|].
  { eapply only_calls_classes; [|by apply calls_findProvider]. done. }
  intros p Hp. apply excuses_bind_avoids.
  - destruct p as [p|]; [apply excuses_of_calls; calls_auto|].
    apply excuses_bind; [calls_auto|]. intros app. apply excuses_bind; [calls_auto|]. intros name.
    apply excuses_bind_avoids; [apply create_quiet|]. intros pk. avoids_auto.
  - intros pk. avoids_auto; by destruct (Hp _ eq_refl).
Qed.

Lemma quiet_reconcile_provider `{KubeLib} `{ModelJSON} a : quiet (reconcile_provider a).
Proof.
  unfold reconcile_provider. apply excuses_bind; [calls_auto|]. intros app.
  destruct (Spec_Provider _); [|apply excuses_of_calls; calls_auto].
  apply excuses_bind_avoids; [apply quiet_reconcileProvider|]. intros pk. avoids_auto.
Qed.

Lemma quiet_reconcile `{KubeLib} `{ModelJSON} : quiet reconcile.
Proof.
  unfold reconcile. apply excuses_bind; [calls_auto|]. intros []. apply excuses_bind; [calls_auto|]. intros app.
  apply excuses_bind; [calls_auto|]. intros resolved. apply excuses_bind; [calls_auto|]. intros [].
  apply excuses_bind; [calls_auto|]. intros observed.
  apply excuses_bind_avoids; [apply quiet_reconcile_provider|]. intros pk. avoids_auto.
Qed.

(** ** Nothing is marked or recorded before a refusal *)

Lemma decides {S A} (m : M call S A) : only_calls (in_classes [Reads; Roles]) m -> only_calls deciding m.
Proof. apply only_calls_weaken. by left. Qed.

(** Reads and roles by their lemmas, events and the work queue by their leaves. *)
Ltac deciding_auto := repeat first [solve [apply decides; calls_auto] | calls_step]; try (intros ?; by right).

Lemma deciding_cache_isManaged o : only_calls deciding (isManaged o).
Proof. unfold isManaged, refreshLocked, fresh, requeueAll, with_marker, put_object. deciding_auto. Qed.

Lemma deciding_adoptApplication `{ModelJSON} a : only_calls deciding (adoptApplication a).
Proof. unfold adoptApplication, record_event, update_status. cbv zeta. deciding_auto. Qed.

Lemma refusal_observeApplication `{ModelJSON} : excuses refusal deciding observeApplication.
Proof.
  unfold observeApplication. apply excuses_bind; [deciding_auto|]. intros app. cbv zeta.
  apply excuses_bind; [deciding_auto|]. intros [a|e].
  - case_decide; [apply excuses_of_avoids; unfold ensure_application_marker; avoids_auto|].
    apply excuses_bind; [apply only_calls_zoom, deciding_cache_isManaged|]. intros managed.
    apply excuses_bind; [destruct managed; [deciding_auto|apply deciding_adoptApplication]|]. intros [].
    apply excuses_of_avoids. unfold record_application, ensure_application_marker. avoids_auto.
  - destruct (is_not_found e); [apply excuses_of_avoids; avoids_auto|apply excuses_of_calls; deciding_auto].
Qed.

(** The errors of the handlers: a creation may report a reference that cannot be resolved. *)
Class HandlerErrors (h : providerHandler) : Prop := {
  get_ordinary pk : ordinary (h.(handler_get) pk);
  find_ordinary name : ordinary (h.(handler_findByName) name);
  exists_ordinary pk : ordinary (h.(handler_existsAsOtherType) pk);
  create_no_refusal name : avoids refusal (h.(handler_create) name);
}.

Lemma no_refusal_findOne {T} path target (find : M call collector (list T)) :
  avoids refusal find -> avoids refusal (findOne path target find).
Proof. intros Hf. unfold findOne, collector_add. avoids_auto. Qed.

Lemma no_refusal_resolve_each {X Y} i (xs : list X) (resolve : nat -> X -> M call collector Y) :
  (forall i x, avoids refusal (resolve i x)) -> avoids refusal (resolve_each i xs resolve).
Proof. intros Hr. revert i. induction xs as [|x xs IH]; intros i; simpl; avoids_auto; auto. Qed.

Lemma no_refusal_ResolveCreationDefaults {S} app : avoids refusal (ResolveCreationDefaults (S := S) app).
Proof.
  apply avoids_zoom. unfold resolve_defaults. destruct (_ ≫= _) as [oauth2|]; [|avoids_auto].
  apply avoids_bind.
  { destruct (OAuth2_Scopes oauth2); [avoids_auto|]. apply avoids_bind; [|intros; avoids_auto].
    apply no_refusal_resolve_each. intros _ name. unfold resolveDefaultScopeMapping, collector_add. avoids_auto. }
  intros scopes. apply avoids_bind.
  { destruct (OAuth2_SigningKey oauth2); [avoids_auto|]. apply avoids_bind; [|intros; avoids_auto].
    unfold resolveByString. apply avoids_bind; [|intros; avoids_auto]. apply avoids_bind; [avoids_auto|]. intros key.
    apply no_refusal_findOne. avoids_auto. }
  intros key. unfold finish_resolution, collector_err. apply avoids_bind; [avoids_auto|]. intros failures.
  destruct failures; avoids_auto.
Qed.

#[export] Instance proxy_handler_errors `{ModelJSON} spec desired : HandlerErrors (proxyProviderHandler spec desired).
Proof. split; intros; simpl; unfold exists_object; avoids_auto. Qed.

#[export] Instance oauth2_handler_errors `{ModelJSON} desired : HandlerErrors (oauth2ProviderHandler desired).
Proof.
  split; intros; simpl; unfold exists_object; try solve [avoids_auto]. apply avoids_bind; [avoids_auto|]. intros app.
  apply avoids_bind; [apply no_refusal_ResolveCreationDefaults|]. intros defaults. avoids_auto.
Qed.

Section no_refusal.
Context (h : providerHandler) `{!HandlerErrors h}.

Lemma ordinary_get_if_found pk : ordinary (get_if_found h pk).
Proof. pose proof (get_ordinary pk). unfold get_if_found. avoids_auto. Qed.

Lemma ordinary_find_by_name : ordinary (find_by_name h).
Proof. pose proof find_ordinary as Hf. unfold find_by_name. repeat (apply avoids_bind; [first [apply Hf|avoids_auto]|intros ?]). avoids_auto. Qed.

Lemma no_refusal_get_attached a pk : avoids refusal (get_attached h a pk).
Proof.
  unfold get_attached. apply avoids_bind; [eapply avoids_weaken; [exact refusal_quiet|apply ordinary_get_if_found]|].
  intros [p|]; [avoids_auto|]. apply avoids_bind; [eapply avoids_weaken; [exact refusal_quiet|apply exists_ordinary]|].
  intros []; avoids_auto.
Qed.

Lemma no_refusal_findProvider a : avoids refusal (findProvider h a).
Proof.
  assert (Hn : avoids refusal (find_by_name h)) by (eapply avoids_weaken; [exact refusal_quiet|apply ordinary_find_by_name]).
  assert (Hl : avoids refusal (find_attached_or_named h a)).
  { unfold find_attached_or_named. destruct (_ ≫= _) as [[app pk]|]; [|done].
    apply avoids_bind; [apply no_refusal_get_attached|]. intros [p|]; [avoids_auto|done]. }
  unfold findProvider. apply avoids_bind; [avoids_auto|]. intros app. destruct (Status_ProviderPK _) as [pk|]; [|done].
  apply avoids_bind; [eapply avoids_weaken; [exact refusal_quiet|apply ordinary_get_if_found]|].
  intros [p|]; [avoids_auto|]. apply avoids_bind; [avoids_auto|]. intros []. apply avoids_bind; [avoids_auto|done].
Qed.
End no_refusal.

Lemma no_refusal_reconcileProvider `{ModelJSON} a : avoids refusal (reconcileProvider a).
Proof.
  unfold reconcileProvider. apply (avoids_bind_returns _ (fun h => HandlerErrors h /\ handler_ok h)).
  { unfold get_providerHandler. avoids_auto. }
  { unfold get_providerHandler. repeat returns_step; (split; [apply _|split; apply _]). }
  intros h (He & Hh & Hs).
  eapply avoids_bind_returns; [by apply no_refusal_findProvider|by eapply returns_findProvider|]. intros p Hp.
  apply avoids_bind.
  { destruct p as [p|]; [avoids_auto|]. pose proof create_no_refusal as Hc. apply avoids_bind; [avoids_auto|]. intros app.
    apply avoids_bind; [avoids_auto|]. intros name. apply avoids_bind; [apply Hc|]. intros pk. avoids_auto. }
  intros pk. apply avoids_bind; [avoids_auto|]. intros app. apply avoids_bind; [avoids_auto|]. intros [].
  apply avoids_bind; [avoids_auto|]. intros []. destruct p as [p|]; [|avoids_auto].
  apply avoids_bind; [|intros; avoids_auto]. eapply avoids_weaken; [exact refusal_quiet|]. by destruct (Hp _ eq_refl).
Qed.

Lemma no_refusal_reconcile_provider `{KubeLib} `{ModelJSON} a : avoids refusal (reconcile_provider a).
Proof.
  unfold reconcile_provider. apply avoids_bind; [avoids_auto|]. intros app. destruct (Spec_Provider _); [|avoids_auto].
  apply avoids_bind; [apply no_refusal_reconcileProvider|]. intros pk. avoids_auto.
Qed.

Lemma refusal_reconcile `{KubeLib} `{ModelJSON} : excuses refusal deciding reconcile.
Proof.
  unfold reconcile. do 4 (apply excuses_bind; [deciding_auto|intros ?]).
  apply excuses_bind_avoids; [apply refusal_observeApplication|]. intros observed.
  apply avoids_bind; [apply no_refusal_reconcile_provider|]. intros pk. avoids_auto.
Qed.

(** The reasons that a reconcile which may have written can report. *)
Definition written_reasons : list string := [ReasonReconciled; ReasonAPIError; ReasonUnmanagedBindings].

Lemma ready_reason_quiet outcome :
  (ready_condition outcome).1.2 ∉ written_reasons -> exists e, outcome = Err e /\ quiet_error e = true.
Proof.
  unfold ready_condition, quiet_error, written_reasons. destruct outcome as [?|e]; [set_solver|].
  intros Hr. exists e. split; [done|].
  destruct (errors_as as_stop_error e) as [[reason message]|]; [|destruct (errors_as as_reference_error e); [done|set_solver]].
  simpl in Hr. rewrite bool_decide_false; [done|]. set_solver.
Qed.

Lemma ready_reason_refusal outcome :
  (ready_condition outcome).1.2 ∈ refusals -> exists e, outcome = Err e /\ refusal e = true.
Proof.
  unfold ready_condition, refusal, refusals. destruct outcome as [?|e]; [intros Hr; exfalso; set_solver|].
  intros Hr. exists e. split; [done|]. destruct (errors_as as_stop_error e) as [[reason message]|].
  - simpl in Hr. by apply bool_decide_eq_true.
  - exfalso. destruct (errors_as as_reference_error e) as [failures|]; simpl in Hr; [|set_solver].
    clear -Hr. induction failures as [|f rest IH]; simpl in Hr; [set_solver|]. destruct (negb _); [set_solver|by apply IH].
Qed.

(** C5: A reconcile that reports any reason other than Reconciled, APIError and UnmanagedBindings has changed no
    Application, Provider, Binding or Outpost. Whatever authentik and Kubernetes answer, a Conflict, Unmanaged,
    AdoptionDiff, ProviderTypeMismatch, ReferenceNotFound or AmbiguousReference outcome means that none of them was
    created, changed or deleted: the calls made were reads, the ownership role and its markers, and Kubernetes. When
    the operator refuses to manage the Application, with Conflict, Unmanaged or AdoptionDiff, then no marker was
    attached or removed either, and neither the status nor a Secret was written: besides reads, the only calls are
    those that create the ownership role, report events and fill the work queue. *)
Theorem reconcile_stops_without_writing `{KubeLib} `{ModelJSON} s w :
  mwp any_env reconcile s w (fun _ outcome w' => exists l, w' = w ++ l /\
    ((ready_condition outcome).1.2 ∉ written_reasons -> Forall (in_classes harmless) l) /\
    ((ready_condition outcome).1.2 ∈ refusals -> Forall deciding l)).
Proof.
  eapply mwp_mono; [apply mwp_and; [apply quiet_reconcile|apply refusal_reconcile]|].
  intros s' outcome w' [(l & -> & Hl) (l' & ->%app_inv_head & Hl')]. exists l'. split_and!; [done| |].
  - intros (e & -> & He)%ready_reason_quiet. by eapply Hl.
  - intros (e & -> & He)%ready_reason_refusal. by eapply Hl'.
Qed.

(** ** Writes come before deletions *)

Lemma phased_reconcileBindings `{KubeLib} a :
  phased (in_classes [Reads; Roles; Marks; Writes; KubeWrites]) (in_classes [Reads; Roles; Marks; Unbinds; KubeWrites])
    (reconcileBindings a).
Proof.
  unfold reconcileBindings. cbv zeta. do 2 (apply phased_bind; [calls_auto|intros ?]). destruct a1 as [[managed unmanaged] o].
  do 5 (apply phased_bind; [calls_auto|intros ?]). destruct a5 as [kept ?]. apply phased_second. calls_auto.
Qed.

(** C6: Deletions come last. Whatever the services answer, the calls of a reconcile are a sequence that deletes no
    Application, Provider or Binding, followed by a sequence that creates and updates no Application, Provider, Binding
    or Outpost: once a Binding has been deleted, only Bindings are deleted. A reconcile never deletes an Application or
    a Provider. Markers, the role and Kubernetes are called in both sequences: the marker of a deleted Binding is removed
    and the status is patched after the deletions. *)
Theorem reconcile_deletes_last `{KubeLib} `{ModelJSON} :
  phased (in_classes [Reads; Roles; Marks; Writes; KubeWrites]) (in_classes [Reads; Roles; Marks; Unbinds; KubeWrites])
    reconcile.
Proof.
  unfold reconcile. do 7 (apply phased_bind; [calls_auto|intros ?]). apply phased_reconcileBindings.
Qed.

(** ** The finalizer comes first *)

Definition with_finalizer (app : AuthentikApplication) : Prop := finalizer ∈ app.(App_Finalizers).

(** The calls of a [Reconcile] after the resource was read as [app]: nothing outside Kubernetes changes, or the
    resource has the finalizer, or the first call puts it there and succeeds. *)
Definition finalizer_first (app : AuthentikApplication) (l : list (logged call)) : Prop :=
  Forall (in_classes [Reads; KubeWrites]) l \/ with_finalizer app \/
  exists patched answer rest, l = mkLogged (KubePatch patched app) (inl answer) :: rest /\ with_finalizer patched.

Section finalizer.
Context `{KubeLibLaws} `{ModelJSON}.

Lemma ensureFinalizer_spec s w :
  mwp any_env ensureFinalizer s w (fun _ r w' => exists l, w' = w ++ l /\
    ((l = [] /\ with_finalizer s.(rs_app)) \/
     exists patched answer, l = [mkLogged (KubePatch patched s.(rs_app)) answer] /\ with_finalizer patched /\
       ((exists app, answer = inl app) \/ (exists e, r = Err e)))).
Proof.
  unfold ensureFinalizer, get_app. repeat go_step. destruct (AddFinalizer _ _) as [fs added] eqn:E.
  pose proof (add_finalizer_changed (App_Finalizers (rs_app s)) finalizer) as Hc. rewrite E in Hc. simpl in Hc.
  destruct added; simpl; repeat go_step.
  - match goal with Hs : env_step _ _ _ _ _ _ |- _ => destruct Hs as [_ ->] end.
    pose proof (add_finalizer_spec (App_Finalizers (rs_app s)) finalizer finalizer) as Ha. rewrite E in Ha. simpl in Ha.
    destruct r as [app|e]; repeat go_step; eexists; (split; [reflexivity|]); right; eexists _, _; (split; [reflexivity|]);
      (split; [|eauto]); apply Ha; by right.
  - exists []. rewrite app_nil_r. split; [done|]. left. split; [done|].
    destruct (decide (with_finalizer (rs_app s))) as [?|Hn]; [done|]. by apply Hc in Hn.
Qed.

Lemma finalize_finalizer_first s w :
  mwp any_env finalize s w (fun _ _ w' => exists l, w' = w ++ l /\ finalizer_first s.(rs_app) l).
Proof.
  unfold finalize, get_app. repeat go_step.
  destruct (ContainsFinalizer (App_Finalizers (rs_app s)) finalizer) eqn:Ef; simpl.
  - eapply mwp_mono; [eapply (only_calls_any _ s w)|]. intros s' r w' (l & -> & _). exists l. split; [done|].
    right. left. by apply contains_spec.
  - go_step. exists []. rewrite app_nil_r. split; [done|]. by left.
Qed.

(** C18: Nothing is created or marked before the finalizer is in place. Whatever the services answer, the first call
    of [Reconcile] reads the resource; unless every other call only reads or goes to Kubernetes, the resource was read
    and either already has the finalizer, or the next call adds the finalizer to it and succeeds, so that a deletion
    of the resource always passes through [finalize]. *)
Theorem finalizer_before_writes interval namespace name cache w :
  mwp any_env (Reconcile interval namespace name) cache w (fun _ _ w' => exists answer l,
    w' = w ++ mkLogged (KubeGet namespace name) answer :: l /\
    (l = [] \/ exists app, answer = inl app /\ finalizer_first app l)).
Proof.
  unfold Reconcile. split; [done|]. intros r w' [_ ->]. destruct r as [app|e].
  2: { exists (inr e), []. split; [done|]. by left. }
  apply wp_bind. set (s0 := mkReconcileState app app None cache).
  enough (Hbody : mwp any_env (if is_deleting app then finalize else
      ensureFinalizer ;; mmodify (fun s => set_base s.(rs_app) s) ;;
      let* outcome := mtry reconcile in finish interval outcome) s0 (w ++ [mkLogged (KubeGet namespace name) (inl app)])
      (fun _ _ w' => exists l, w' = (w ++ [mkLogged (KubeGet namespace name) (inl app)]) ++ l /\ finalizer_first app l)).
  { eapply wp_mono; [|exact Hbody]. intros [s' r] w' (l & -> & Hl). rewrite <- app_assoc. simpl. eexists (inl app), l.
    split; [done|]. right. eauto. }
  destruct (is_deleting app); [apply finalize_finalizer_first|].
  go_step. eapply mwp_mono; [apply ensureFinalizer_spec|]. intros s1 [[]|e] w1 (l1 & -> & Hl1).
  - eapply mwp_mono; [apply (only_calls_any (mmodify (fun s => set_base s.(rs_app) s) ;;
      let* outcome := mtry reconcile in finish interval outcome))|].
    intros s' r w' (l & -> & _). exists (l1 ++ l). rewrite app_assoc. split; [done|].
    destruct Hl1 as [[-> Hf]|(patched & answer & -> & Hf & [[app' ->]|[e He]])]; [by right; left| |done].
    right. right. eexists _, _, l. split; [reflexivity|done].
  - exists l1. split; [done|]. destruct Hl1 as [[-> Hf]|(patched & answer & -> & _)]; [by right; left|].
    left. by repeat constructor.
Qed.
End finalizer.

Lemma finalizer_before_writes_witness :
  mwp any_env (@Reconcile list_KubeLib example_ModelJSON 3600 "default" "wiki") (newMarkerCache (mkMarker "operator" "role-1") 60 false) []
    (fun _ _ w' => exists answer l, w' = mkLogged (KubeGet "default" "wiki") answer :: l).
Proof.
  eapply mwp_mono; [exact (@finalizer_before_writes list_KubeLib list_KubeLibLaws example_ModelJSON 3600 _ _ _ [])|].
  intros s' r w' (answer & l & -> & _). exists answer, l. reflexivity.
Defined.
