(* ===== verification/SpecRace.v ===== *)
(** * A spec that changes under a reconcile

    [patchStatus] replaces the resource of a reconcile by the answer of the API server, the spec included
    ([internal/controller/authentikapplication_controller.go]), while the references stay those of the former spec. A
    reconcile that records an existing Application under a spec that gains a Provider at this moment panics. *)
From S2P Require Import Prelude Errors Effects Api Crd Patch Interface Marker MarkerCache Reference Desired.
From S2P Require Import State FieldDiffs KubeExample Provider Conflict Bindings Application Reconcile Calls CallBounds ResolveSpec NoPanic Safety.

(** ** The services

    The Application of the slug exists, the role and the markers are available, and the spec has a Provider when the
    API server answers a status patch. Everything else is answered in any way. *)
Definition gaining (observed : Application) (R : Type) (q : call R) : R -> Prop :=
  match q in call R return R -> Prop with
  | GetApplication _ => fun r => r = inl observed
  | FindRolesByName _ => fun r => exists role, r = inl [role]
  | ListRoleObjectPermissions _ => fun r => exists permissions, r = inl permissions
  | AssignObjectPermission _ _ _ _ => fun r => r = inl ()
  | KubePatchStatus _ _ => fun r => exists app, r = inl app /\ is_Some app.(App_Spec).(Spec_Provider)
  | _ => fun _ => True
  end.

Definition no_status_patch (e : logged call) : Prop :=
  match e.(log_call) with KubePatchStatus _ _ => False | _ => True end.

Lemma deciding_no_status_patch e : deciding e -> no_status_patch e.
Proof.
  unfold deciding, in_classes, log_class, no_status_patch. rewrite !elem_of_cons, elem_of_nil.
  destruct e as [R c r]. simpl. destruct c; simpl; intuition discriminate.
Qed.

(** What holds whatever the services answer holds under a restriction of the answers. *)
Lemma mwp_restrict {S A} answers (m : M call S A) s w Q :
  mwp any_env m s w Q -> mwp (log_env answers True) m s w Q.
Proof.
  unfold mwp. generalize (m s). intros p. revert w. induction p as [[s' r]|R c k IH|]; intros w; simpl; [done| |done].
  intros [_ H]. split; [done|]. intros r w' [_ Hw]. apply IH. by apply H.
Qed.

Section race.
Context `{KubeLib} `{ModelJSON} (observed : Application).
Abbreviation race_env := (log_env (gaining observed) True).

(** The part of the memory that the markers do not touch. *)
Definition same_resource (s s' : reconcileState) : Prop :=
  s'.(rs_app) = s.(rs_app) /\ s'.(rs_base) = s.(rs_base) /\ s'.(rs_resolved) = s.(rs_resolved).

(** The calls made so far, and no status patch among them. *)
Definition unrecorded (w w' : list (logged call)) : Prop := exists l, w' = w ++ l /\ Forall no_status_patch l.

Lemma unrecorded_refl w : unrecorded w w.
Proof. exists []. by rewrite app_nil_r. Qed.

Lemma unrecorded_trans w1 w2 w3 : unrecorded w1 w2 -> unrecorded w2 w3 -> unrecorded w1 w3.
Proof. intros (l1 & -> & H1) (l2 & -> & H2). exists (l1 ++ l2). rewrite app_assoc. split; [done|]. by apply Forall_app. Qed.

Lemma unrecorded_snoc w e : no_status_patch e -> unrecorded w (w ++ [e]).
Proof. intros He. exists [e]. split; [done|]. by constructor. Qed.

Lemma deciding_unrecorded {S A} (m : M call S A) s w :
  only_calls deciding m -> mwp any_env m s w (fun _ _ w' => unrecorded w w').
Proof.
  intros Hm. eapply mwp_mono; [apply Hm|]. intros s' r w' (l & -> & Hl). exists l. split; [done|].
  eapply Forall_impl; [exact Hl|]. apply deciding_no_status_patch.
Qed.

Lemma markers_unrecorded {A} (m : M call markerCache A) s w :
  only_calls deciding m -> mwp race_env (markers m) s w (fun s' _ w' => same_resource s s' /\ unrecorded w w').
Proof.
  intros Hm. apply mwp_restrict. unfold markers. apply mwp_zoom. eapply mwp_mono; [by apply deciding_unrecorded|]. by intros mc r w' Hw.
Qed.

Lemma checkConflict_unrecorded s w :
  mwp race_env checkConflict s w (fun s' _ w' => s' = s /\ unrecorded w w').
Proof.
  apply mwp_restrict. unfold checkConflict, get_app. repeat go_step.
  match goal with Hs : env_step _ _ _ _ _ _ |- _ => destruct Hs as [_ ->] end. destruct r as [items|e]; repeat go_step.
  - apply mwp_deref_crash; [|done]. intros winner _. cbv beta iota. case_decide; go_step; (split; [done|]; by apply unrecorded_snoc).
  - split; [done|]. by apply unrecorded_snoc.
Qed.

(** Without a Provider in the spec no flows are resolved. *)
Lemma Resolve_unrecorded app (s : reconcileState) w :
  app.(App_Spec).(Spec_Provider) = None ->
  mwp race_env (Resolve app) s w (fun s' r w' => s' = s /\ unrecorded w w' /\
    match r with Ok resolved => resolved.(Resolved_Flows) = None | Err _ => True end).
Proof.
  intros Hp. apply mwp_restrict.
  assert (Hr : returns (resolve_spec (App_Namespace app) (App_Spec app)) (fun resolved => resolved.(Resolved_Flows) = None)).
  { unfold resolve_spec, finish_resolution, resolve_parts, resolve_provider. rewrite Hp.
    apply (returns_bind _ _ (fun resolved => resolved.(Resolved_Flows) = None)).
    - apply (returns_bind _ _ (fun provider => provider = (None, None, None))); [by apply returns_ret|]. intros ? ->. by repeat returns_step.
    - intros resolved Hres. by repeat returns_step. }
  assert (Hs : mwp any_env (Resolve app) s w (fun s' r _ => s' = s /\
    match r with Ok resolved => resolved.(Resolved_Flows) = None | Err _ => True end)).
  { unfold Resolve. apply mwp_zoom. eapply mwp_mono; [apply Hr|]. intros c r w' Hres. split; [done|by destruct r]. }
  assert (Hc : only_calls deciding (Resolve (S := reconcileState) app)).
  { apply decides. eapply only_calls_classes; [|apply calls_Resolve]. done. }
  eapply mwp_mono; [apply mwp_and; [exact Hs|by apply deciding_unrecorded]|]. intros s' r w' [[-> Hres] Hw]. done.
Qed.

(** The role is found, and an object is marked without a failure. *)
Lemma EnsureRole_succeeds m w (Q : Marker -> result (string * string) -> list (logged call) -> Prop) :
  (forall m' uuids w', Q m' (Ok uuids) w') -> mwp race_env EnsureRole m w Q.
Proof.
  intros HQ. unfold EnsureRole, findOrCreateRole, findRole. repeat go_step.
  match goal with Hs : env_step _ _ _ _ _ _ |- _ => destruct Hs as [[role ->] ->] end. repeat go_step. apply HQ.
Qed.

Lemma role_succeeds m w (Q : Marker -> result string -> list (logged call) -> Prop) :
  (forall m' uuid w', Q m' (Ok uuid) w') -> mwp race_env Marker.role m w Q.
Proof.
  intros HQ. unfold Marker.role. repeat go_step. case_decide; repeat go_step; [apply HQ|].
  apply EnsureRole_succeeds. intros. go_step. apply HQ.
Qed.

(** Filling the work queue cannot fail. *)
Lemma requeueAll_succeeds mc w (Q : markerCache -> result () -> list (logged call) -> Prop) :
  (forall w', Q mc (Ok ()) w') -> mwp race_env requeueAll mc w Q.
Proof.
  intros HQ. unfold requeueAll. repeat go_step. destruct (negb _); repeat go_step; [apply HQ|].
  match goal with |- context [match ?r with inl _ => _ | inr _ => _ end] => destruct r end; repeat go_step;
    [match goal with u : () |- _ => destruct u end|]; apply HQ.
Qed.

Lemma refreshLocked_succeeds mc w (Q : markerCache -> result () -> list (logged call) -> Prop) :
  (forall mc' w', is_Some mc'.(mc_objects) -> Q mc' (Ok ()) w') -> mwp race_env refreshLocked mc w Q.
Proof.
  intros HQ. unfold refreshLocked. go_step. eapply mwp_mono with (Q := fun mc' r _ => mc' = mc /\
    exists fresh, r = Ok fresh /\ (fresh = true -> is_Some mc.(mc_objects))).
  { unfold fresh. repeat go_step. destruct (mc_objects mc) eqn:Ho; repeat go_step; (split; [done|]); eexists; (split; [reflexivity|]); by eauto. }
  intros ? ? w1 (-> & [] & -> & Hfresh); [go_step; by apply HQ, Hfresh|]. unfold with_marker. repeat go_step.
  apply EnsureRole_succeeds. intros m' [current previous] w2. repeat go_step.
  eapply mwp_mono with (Q := fun _ r _ => r = Ok ()); [case_decide; [by apply requeueAll_succeeds|by go_step]|].
  intros mc3 ? w3 ->. unfold ListManaged. repeat go_step. apply role_succeeds. intros. repeat go_step.
  match goal with Hs : env_step _ _ _ _ _ _ |- _ => destruct Hs as [[permissions ->] ->] end. repeat go_step. by apply HQ.
Qed.

Lemma ensure_succeeds object s w :
  mwp race_env (markers (ensure object)) s w (fun s' r _ => r = Ok () /\ same_resource s s').
Proof.
  unfold markers, ensure. repeat go_step. apply refreshLocked_succeeds. intros mc1 w1 [objects Ho]. repeat go_step.
  destruct (has_object _ _); repeat go_step; [done|]. unfold with_marker, Mark. repeat go_step. apply role_succeeds.
  intros. repeat go_step. match goal with Hs : env_step _ _ _ _ _ _ |- _ => destruct Hs as [-> ->] end. repeat go_step.
  unfold put_object. repeat go_step. simpl. rewrite Ho. by go_step.
Qed.

Lemma adoptApplication_unrecorded s w :
  s.(rs_app).(App_Spec).(Spec_Provider) = None ->
  mwp race_env (adoptApplication observed) s w (fun s' r w' => unrecorded w w' /\
    match r with Ok _ => s' = s | Err _ => True end).
Proof.
  intros Hp. apply mwp_restrict.
  eapply mwp_mono; [apply mwp_and; [apply deciding_unrecorded, deciding_adoptApplication|]|].
  2: { intros s' r w' [Hw Hr]. split; [exact Hw|exact Hr]. }
  unfold adoptApplication, attachedProvider, get_app. repeat go_step. case_decide; [by go_step|]. repeat go_step. rewrite Hp. repeat go_step.
  case_match; [|unfold update_status; by repeat go_step]. unfold record_event. by repeat go_step.
Qed.

(** The first Provider of the spec is not one that was resolved. *)
Lemma reconcile_provider_crashes a s w Q :
  is_Some s.(rs_app).(App_Spec).(Spec_Provider) ->
  (forall resolved, s.(rs_resolved) = Some resolved -> resolved.(Resolved_Flows) = None) ->
  mwp race_env (reconcile_provider a) s w Q.
Proof.
  intros [provider Hp] Hr. unfold reconcile_provider, get_app. repeat go_step. rewrite Hp. unfold reconcileProvider, get_providerHandler, get_app, get_resolved.
  repeat go_step. rewrite Hp. apply mwp_deref. eexists. split; [done|]. repeat go_step.
  apply mwp_deref_crash; [|done]. intros resolved Hres. apply Hr in Hres. repeat go_step.
  destruct (Provider_Proxy provider); [|repeat go_step; apply mwp_deref_crash; [intros oauth2 _|done]];
    repeat go_step; apply mwp_deref_crash; by rewrite ?Hres.
Qed.

(** After the resolution the reconcile stops before it records the Application, or does not return. *)
Lemma observe_and_crash resolved s w w0 :
  s.(rs_app).(App_Spec).(Spec_Provider) = None -> s.(rs_base) = s.(rs_app) -> s.(rs_resolved) = Some resolved ->
  resolved.(Resolved_Flows) = None -> s.(rs_app).(App_Status).(Status_ApplicationPK) <> observed.(Application_Pk) ->
  unrecorded w0 w ->
  mwp race_env (let* a := observeApplication in let* pk := reconcile_provider a in
    let* application := reconcileApplication a pk in reconcileBindings application) s w
    (fun _ r w' => (exists e, r = Err e) /\ unrecorded w0 w').
Proof.
  intros Hp Hbase Hres Hflows Hpk Hw. unfold observeApplication, get_app. repeat go_step.
  match goal with Hs : env_step _ _ _ _ _ _ |- _ => destruct Hs as [-> ->] end. cbv beta iota. rewrite decide_False by done.
  go_step. eapply mwp_mono; [apply markers_unrecorded, deciding_cache_isManaged|]. intros s1 managed w1 [Hs1 Hw1].
  assert (Hw01 : unrecorded w0 w1).
  { eapply unrecorded_trans; [|exact Hw1]. eapply unrecorded_trans; [exact Hw|by apply unrecorded_snoc]. }
  destruct managed as [managed|e]; [|by split; [eexists|]]. go_step.
  enough (Hrest : forall s2 w2, same_resource s s2 -> mwp race_env (record_application observed ;; ensure_application_marker observed ;; mret (Some observed)) s2 w2
    (fun s3 r3 w3 => r3 = Ok (Some observed) /\ is_Some s3.(rs_app).(App_Spec).(Spec_Provider) /\ s3.(rs_resolved) = Some resolved)).
  { eapply mwp_mono with (Q := fun s2 r2 w2 => unrecorded w1 w2 /\ match r2 with Ok _ => same_resource s s2 | Err _ => True end).
    - destruct managed; [go_step; by split; [apply unrecorded_refl|]|]. eapply mwp_mono; [apply adoptApplication_unrecorded|].
      + by destruct Hs1 as (-> & _).
      + intros s2 [[]|e] w2 [Hw2 Hs2]; split; [done|by subst|done|done].
    - intros s2 [[]|e] w2 [Hw2 Hs2]; [|split; [by eexists|by eapply unrecorded_trans]].
      eapply mwp_mono; [by apply Hrest|]. intros s3 ? w3 (-> & Hp3 & Hr3). cbv beta iota. go_step.
      apply reconcile_provider_crashes; [done|]. rewrite Hr3. by intros ? [= <-]. }
  intros s2 w2 (Ha & Hb & Hr). unfold record_application, update_status, patchStatus. repeat go_step. simpl.
  rewrite decide_False.
  2: { rewrite Hb, Hbase, Ha. intros Heq. apply (f_equal Status_ApplicationPK) in Heq. simpl in Heq. congruence. }
  repeat go_step. match goal with Hs : env_step _ _ _ _ _ _ |- _ => destruct Hs as [(app & -> & Happ) ->] end. repeat go_step.
  unfold ensure_application_marker. eapply mwp_mono; [apply ensure_succeeds|]. intros s3 r3 w3 (-> & Ha3 & _ & Hr3). go_step.
  split_and!; [done|by rewrite Ha3|rewrite Hr3; simpl; congruence].
Qed.

(** C25: A reconcile that records an Application while its spec gains a Provider panics. The resource has no Provider in
    its spec, and the Application of the slug exists and is not the recorded one. Suppose that the API server answers a
    status patch with a spec that has a Provider, which the validation of updates allows and a user may have just added,
    and that the markers are available; everything else is answered in any way. Then every reconcile that returns ends
    with an error and has made no status patch: one that records the Application dereferences the flows of the new
    Provider, which were never resolved. *)
Theorem reconcile_panics_on_new_provider s w :
  s.(rs_app).(App_Spec).(Spec_Provider) = None -> s.(rs_base) = s.(rs_app) ->
  s.(rs_app).(App_Status).(Status_ApplicationPK) <> observed.(Application_Pk) ->
  mwp race_env reconcile s w (fun _ r w' => (exists e, r = Err e) /\ unrecorded w w').
Proof.
  intros Hp Hb Hpk. unfold reconcile, get_app. go_step. eapply mwp_mono; [apply checkConflict_unrecorded|].
  intros ? [[]|e] w1 [-> Hw1]; [|by split; [eexists|]]. repeat go_step.
  eapply mwp_mono; [by apply Resolve_unrecorded|]. intros ? r w2 (-> & Hw2 & Hr).
  destruct r as [resolved|e]; [|split; [by eexists|by eapply unrecorded_trans]]. do 2 go_step.
  by apply (observe_and_crash resolved); [..|eapply unrecorded_trans].
Qed.
End race.

(** ** An instance *)

(** The services while a user adds a Provider to the spec: the Application of the slug exists, and the API server
    answers a status patch with the new spec. Everything else is unavailable. *)
Definition racing_services (items : list AuthentikApplication) (application : Application)
    (newSpec : AuthentikApplicationSpec) (R : Type) (q : call R) (w : unit) : unit * R :=
  (w, match q in call R return R with
      | KubeListBySlug _ => inl items
      | GetApplication _ => inl application
      | KubePatchStatus app _ =>
          inl (mkResource app.(App_Namespace) app.(App_Name) app.(App_UID) (app.(App_Generation) + 1)
                 app.(App_CreationTimestamp) app.(App_DeletionTimestamp) app.(App_Finalizers) newSpec app.(App_Status))
      | Now => 0
      | Eventf _ => ()
      | SendRoleEvents _ => ()
      | KubeGet _ _ | KubeListAll | KubeListBySecret _ _ | KubePatch _ _ | KubeGetSecret _ _ | KubeCreateSecret _ =>
          inr (KubeError false "unavailable")
      | _ => inr (CallFailed "call" "unavailable")
      end).

(** The resource of [racing_state] runs into the panic when it records the Application, and does not when its spec stays
    the same. *)
Lemma reconcile_panics_on_new_provider_witness :
  let old := racing_state.(rs_app).(App_Spec) in
  let new := mkSpec old.(Spec_Slug) old.(Spec_Name) None None None None None None None None None
               example_proxy_app.(App_Spec).(Spec_Provider) old.(Spec_Access) in
  valid_spec old = true /\ valid_spec new = true /\ valid_update old new = true /\
  mwp (log_env (gaining example_application) True) (@reconcile list_KubeLib example_ModelJSON) racing_state []
    (fun _ r w' => (exists e, r = Err e) /\ unrecorded [] w') /\
  mrun (racing_services [racing_state.(rs_app)] example_application new) (@reconcile list_KubeLib example_ModelJSON) racing_state () = None /\
  is_Some (mrun (racing_services [racing_state.(rs_app)] example_application old) (@reconcile list_KubeLib example_ModelJSON) racing_state ()).
Proof.
  cbv zeta. split; [vm_compute; reflexivity|]. split; [vm_compute; reflexivity|]. split; [vm_compute; reflexivity|].
  split; [|split; [vm_compute; reflexivity|vm_compute; eexists; reflexivity]].
  apply (@reconcile_panics_on_new_provider list_KubeLib example_ModelJSON example_application racing_state []);
    [reflexivity|reflexivity|discriminate].
Defined.
