(* ===== verification/Release.v ===== *)
(** * The release of a deleted resource

    [finalize] and [release] of [internal/controller/deletion.go]: only the objects recorded in the status are
    deleted or unmarked, an Application is deleted only when it is still the recorded one, and the finalizer stays
    until the release succeeds. *)
From S2P Require Import Prelude Errors Effects Api Crd Patch Interface Marker MarkerCache Reference Desired.
From S2P Require Import State KubeExample FieldDiffs Provider Conflict Bindings Application Reconcile Status.
From S2P Require Import Calls CallBounds Safety.

(** ** What a release may touch *)

(** The objects recorded in the status of a resource. *)
Definition recorded_objects (app : AuthentikApplication) : list Object :=
  map bindingObject (recorded_bindings app) ++
  (if decide (app.(App_Status).(Status_ApplicationPK) <> "")
   then [mkObject ModelApplication app.(App_Status).(Status_ApplicationPK)] else []) ++
  match app.(App_Status).(Status_ProviderPK), app.(App_Spec).(Spec_Provider) with
  | Some recorded, Some provider => [mkObject (provider_model provider) (fmt_d (int32_wrap recorded))]
  | _, _ => []
  end.

(** The pk of the recorded Provider when it has the type. *)
Definition recorded_provider (app : AuthentikApplication) (proxy : bool) (pk : Z) : Prop :=
  exists recorded provider, app.(App_Status).(Status_ProviderPK) = Some recorded /\
    app.(App_Spec).(Spec_Provider) = Some provider /\ pk = int32_wrap recorded /\ has provider.(Provider_Proxy) = proxy.

(** The Outposts that a call has read. *)
Definition answered_outposts (e : logged call) : list Outpost :=
  match e with
  | mkLogged c r =>
      match c in call R return R -> list Outpost with
      | GetOutpost _ => fun r => match r with inl o => [o] | inr _ => [] end
      | FindOutpostsByName _ => fun r => match r with inl os => os | inr _ => [] end
      | _ => fun _ => []
      end r
  end.

(** The calls of a release after the calls of [history]: reads; deletions of recorded objects under the policy
    [Delete]; an update of an Outpost that was just read, which removes the recorded Provider and keeps the other
    members; the removal of the markers of the recorded objects; and the creation of the ownership role [role] after it
    was not found. *)
Definition release_allowed (app : AuthentikApplication) (role : string) (history : list (logged call)) (e : logged call) : Prop :=
  match e.(log_call) with
  | DeletePolicyBinding uuid => deletes app = true /\ uuid ∈ recorded_bindings app
  | DeleteApplication slug =>
      deletes app = true /\ app.(App_Status).(Status_ApplicationPK) <> "" /\
      slug = or_string app.(App_Status).(Status_ApplicationSlug) app.(App_Spec).(Spec_Slug)
  | DeleteProxyProvider pk => deletes app = true /\ recorded_provider app true pk
  | DeleteOAuth2Provider pk => deletes app = true /\ recorded_provider app false pk
  | SetOutpostProviders uuid pks =>
      deletes app = true /\ exists pk read o, recorded_provider app true pk /\ last history = Some read /\
        o ∈ answered_outposts read /\ uuid = o.(Outpost_Pk) /\ pk ∈ o.(Outpost_Providers) /\
        pks = filter (fun p => p <> pk) o.(Outpost_Providers)
  | UnassignObjectPermission _ model pk permission =>
      mkObject model pk ∈ recorded_objects app /\ permission = viewPermission model
  | CreateRole name => name = role /\ last history = Some (mkLogged (FindRolesByName role) (inl []))
  | Eventf _ => True
  | c => class_of c = Reads
  end.

#[export] Instance release_allowed_prefix app role : Prefixable (release_allowed app role).
Proof.
  intros h0 h [R c r]. unfold release_allowed. simpl.
  assert (Hlast : forall e, last h = Some e -> last (h0 ++ h) = Some e).
  { intros e He. rewrite last_app, He. done. }
  destruct c; try done.
  - intros (Hd & pk & read & o & Hr & Hl & Hrest). split; [done|]. exists pk, read, o. auto.
  - intros [-> Hl]. auto.
Qed.

Section release.
Context (app : AuthentikApplication) (role : string).
Abbreviation allowed := (release_allowed app role) (only parsing).

(** The memory remembers the name of the role. *)
Definition named_marker (m : Marker) : Prop := m.(marker_roleName) = role.
Definition named_cache (c : markerCache) : Prop := named_marker c.(mc_marker).
Definition named_state (s : reconcileState) : Prop := named_cache s.(rs_markers).

(** An explicit log, call by call. *)
Ltac obeys_log :=
  rewrite <- ?app_assoc; eexists; (split; [reflexivity|]); simpl;
  repeat lazymatch goal with
  | |- obeyed _ [] => apply obeyed_nil
  | |- obeyed _ [?x] => apply obeyed_one
  | |- obeyed _ [?x; ?y] => apply (obeyed_snoc _ [x] y)
  | |- obeyed _ [?x; ?y; ?z] => apply (obeyed_snoc _ [x; y] z)
  end.

(** No call at all. *)
Ltac obeys_silent := split; [|exists []; rewrite app_nil_r; split; [|apply obeyed_nil]].

Lemma release_findOrCreateRole : obeys named_marker allowed findOrCreateRole.
Proof.
  intros m w Hm. pose proof Hm as Hname. unfold named_marker in Hname. unfold findOrCreateRole, findRole. repeat go_step.
  match goal with H : env_step _ _ _ _ _ _ |- _ => destruct H as [_ ->] end. destruct r as [[|x [|y roles]]|e]; repeat go_step.
  2-4: split; [done|]; obeys_log; done.
  match goal with H : env_step _ _ _ _ _ _ |- _ => destruct H as [_ ->] end.
  match goal with |- context [mkLogged (CreateRole _) ?r] => destruct r as [created|e] end; repeat go_step.
  { split; [done|]. obeys_log; [done|]. by rewrite Hname. }
  match goal with H : env_step _ _ _ _ _ _ |- _ => destruct H as [_ ->] end.
  match goal with |- context [mkLogged (FindRolesByName _) ?r] =>
    lazymatch r with inl [] => fail | _ => destruct r as [[|x [|y roles]]|e'] end end; repeat go_step.
  all: split; [done|]; obeys_log; try done; by rewrite Hname.
Qed.

Lemma release_role : obeys named_marker allowed Marker.role.
Proof.
  unfold Marker.role. intros m w Hm. go_step. go_step. case_decide; [go_step; by obeys_silent|].
  go_step. unfold EnsureRole. go_step. eapply mwp_mono; [by apply release_findOrCreateRole|].
  intros m' [uuid|e] w' [Hm' Hl]; repeat go_step; by split.
Qed.

Lemma release_remove object :
  object ∈ recorded_objects app -> obeys named_state allowed (markers (remove object)).
Proof.
  intros Ho. apply (obeys_zoom _ _ _ _ named_cache); [done|done|]. unfold remove, with_marker.
  apply obeys_bind; [apply _| |].
  - apply (obeys_zoom _ _ _ _ named_marker); [done|done|]. unfold Unmark.
    apply obeys_bind; [apply _|apply release_role|]. intros r. apply obeys_wrap; [apply _|].
    unfold akcall. apply obeys_invoke. intros []; split; by destruct object.
  - intros [] c w Hc. unfold delete_object. go_step. by obeys_silent.
Qed.

Lemma release_ignoreNotFound {S} (I : S -> Prop) (m : M call S ()) :
  obeys I allowed m -> obeys I allowed (ignoreNotFound m).
Proof. intros Hm. unfold ignoreNotFound. repeat obeys_step; done. Qed.

Lemma release_deleteApplication :
  deletes app = true -> app.(App_Status).(Status_ApplicationPK) <> "" ->
  obeys named_state allowed (deleteApplication app).
Proof.
  intros Hd Hpk. unfold deleteApplication. cbv zeta. repeat obeys_step; try done.
  apply release_ignoreNotFound. by repeat obeys_step.
Qed.

(** The recorded Provider leaves an Outpost that was just read. *)
Lemma release_removeProvider read o pk (s : reconcileState) w :
  deletes app = true -> recorded_provider app true pk -> o ∈ answered_outposts read -> class_of read.(log_call) = Reads ->
  mwp any_env (removeProviderFromOutpost o pk) s (w ++ [read]) (fun s' _ w' => s' = s /\
    exists l, w' = w ++ l /\ obeyed allowed l).
Proof.
  intros Hd Hr Ho Hread.
  assert (Hfirst : allowed [] read) by (destruct read as [R c r]; by destruct c).
  unfold removeProviderFromOutpost. case_decide as Hin; [|go_step; split; [done|]; by obeys_log].
  assert (Hset : forall r, allowed [read] (mkLogged (SetOutpostProviders o.(Outpost_Pk) (filter (fun p => p <> pk) o.(Outpost_Providers))) r)).
  { intros r. split; [done|]. by exists pk, read, o. }
  unfold ignoreNotFound. repeat go_step. match goal with H : env_step _ _ _ _ _ _ |- _ => destruct H as [_ ->] end.
  destruct r as [o'|e]; repeat go_step; [|destruct (is_not_found _); go_step]; (split; [done|]); obeys_log; try done; apply Hset.
Qed.

Lemma release_leaveOutpost ref pk :
  deletes app = true -> recorded_provider app true pk -> obeys named_state allowed (leaveOutpost ref pk).
Proof.
  intros Hd Hr. unfold leaveOutpost. cbv zeta. destruct (NamedReference_UUID _) as [uuid|].
  - intros s w Hs. unfold leaveOutpostByUUID. repeat go_step. match goal with H : env_step _ _ _ _ _ _ |- _ => destruct H as [_ ->] end.
    destruct r as [o|e]; cbv beta iota.
    + eapply mwp_mono; [apply release_removeProvider; [done|done|by left|done]|]. by intros s' r w' [-> Hl].
    + destruct (is_not_found _); go_step; (split; [done|]); by obeys_log.
  - apply obeys_bind; [apply _|apply obeys_deref|]. intros name s w Hs. repeat go_step.
    match goal with H : env_step _ _ _ _ _ _ |- _ => destruct H as [_ ->] end.
    destruct r as [[|o [|o' os]]|e]; cbv beta iota; try (go_step; split; [done|]; by obeys_log); [|split; [done|]; by obeys_log].
    eapply mwp_mono; [apply release_removeProvider; [done|done|by left|done]|]. by intros s' r w' [-> Hl].
Qed.

Lemma release_deleteProvider provider recorded :
  deletes app = true -> app.(App_Status).(Status_ProviderPK) = Some recorded ->
  app.(App_Spec).(Spec_Provider) = Some provider ->
  obeys named_state allowed (deleteProvider provider (int32_wrap recorded)).
Proof.
  intros Hd Hr Hp.
  assert (Hrec : recorded_provider app (has provider.(Provider_Proxy)) (int32_wrap recorded)) by by exists recorded, provider.
  unfold deleteProvider. destruct provider.(Provider_Proxy) as [proxy|].
  - apply obeys_bind; [apply _|by apply release_leaveOutpost|]. intros []. apply release_ignoreNotFound.
    unfold akcall. by apply obeys_invoke.
  - apply release_ignoreNotFound. unfold akcall. by apply obeys_invoke.
Qed.

Lemma release_binding_markers :
  returns (mfold (recorded_bindings app) [] (fun objects uuid =>
    (if deletes app then ignoreNotFound (akcall (DeletePolicyBinding uuid)) else mret ()) ;;
    mret (S := reconcileState) (objects ++ [bindingObject uuid])))
    (Forall (.∈ recorded_objects app)).
Proof.
  apply returns_fold; [constructor|]. intros acc uuid Hu Ha. apply returns_skip. intros _. apply returns_ret.
  apply Forall_app. split; [done|]. constructor; [|constructor]. unfold recorded_objects.
  rewrite !elem_of_app. left. by apply list_elem_of_fmap_2.
Qed.
End release.

(** C9: A release touches only what the status records. Whatever the services answer, [release] deletes objects only
    under the policy [Delete], and then only the recorded Bindings, the Application of the recorded slug and the recorded
    Provider of the type in the spec; right after it has read an Outpost of which this Provider is a member, it may send
    the other members, all of them, to the Outpost. It removes the markers of recorded objects only. It creates and
    updates nothing else, except that it creates the ownership role when it has to know the role and has just found
    none of that name. Under the policy [Retain] it deletes nothing at all. *)
Theorem release_only_recorded app s w :
  mwp any_env (release app) s w (fun _ _ w' =>
    exists l, w' = w ++ l /\ obeyed (release_allowed app s.(rs_markers).(mc_marker).(marker_roleName)) l).
Proof.
  set (role := marker_roleName _).
  enough (Hrelease : obeys (named_state role) (release_allowed app role) (release app)).
  { eapply mwp_mono; [by apply (Hrelease s w)|]. by intros s' r w' [_ Hl]. }
  unfold release. cbv zeta. eapply obeys_bind_returns; [apply _| |apply release_binding_markers|].
  { apply obeys_fold; [apply _|]. intros acc uuid Hu. apply obeys_bind; [apply _| |intros []; apply obeys_ret].
    destruct (deletes app) eqn:Hd; [|apply obeys_ret]. apply release_ignoreNotFound. unfold akcall. by apply obeys_invoke. }
  intros bs Hbs. apply (obeys_bind_returns _ _ (Forall (.∈ recorded_objects app))).
  { case_decide as Hpk; [|apply obeys_ret]. apply obeys_bind; [apply _| |intros []; apply obeys_ret].
    destruct (deletes app) eqn:Hd; [by apply release_deleteApplication|apply obeys_ret]. }
  { unfold recorded_objects. case_decide; repeat returns_step; constructor; [set_solver|constructor]. }
  intros as_ Has. apply (obeys_bind_returns _ _ (Forall (.∈ recorded_objects app))).
  { destruct app.(App_Status).(Status_ProviderPK) as [recorded|] eqn:Hr,
      app.(App_Spec).(Spec_Provider) as [provider|] eqn:Hp; try apply obeys_ret.
    apply obeys_bind; [apply _| |intros []; apply obeys_ret].
    destruct (deletes app) eqn:Hd; [by apply release_deleteProvider|apply obeys_ret]. }
  { unfold recorded_objects. destruct app.(App_Status).(Status_ProviderPK), app.(App_Spec).(Spec_Provider); repeat returns_step; constructor;
      [set_solver|constructor]. }
  intros ps Hps. apply obeys_bind; [apply _| |].
  - apply obeys_for; [apply _|]. intros o Ho. apply release_remove.
    assert (Hall : Forall (.∈ recorded_objects app) (bs ++ as_ ++ ps)) by (rewrite !Forall_app; tauto).
    rewrite Forall_forall in Hall. by apply Hall.
  - intros []. destruct (deletes app); [|apply obeys_ret]. unfold record_event. by apply obeys_call.
Qed.

(** C22: An Application is deleted only while it is the recorded one. [deleteApplication] calls the deletion at most
    once, right after the server answered that the Application with the slug has the recorded pk; it fails only with
    an error of the server. *)
Theorem deleteApplication_checks_pk app s w :
  mwp any_env (deleteApplication app) s w (fun s' r w' =>
    let slug := or_string app.(App_Status).(Status_ApplicationSlug) app.(App_Spec).(Spec_Slug) in
    s' = s /\
    exists answer,
      (w' = w ++ [mkLogged (GetApplication slug) answer] /\
       match answer with
       | inl a => a.(Application_Pk) <> app.(App_Status).(Status_ApplicationPK) /\ r = Ok ()
       | inr e => r = if is_not_found (ClientError e) then Ok () else Err (ClientError e)
       end) \/
      (exists a deleted, answer = inl a /\ a.(Application_Pk) = app.(App_Status).(Status_ApplicationPK) /\
        w' = w ++ [mkLogged (GetApplication slug) answer] ++ [mkLogged (DeleteApplication slug) deleted] /\
        r = match deleted with
            | inl _ => Ok ()
            | inr e => if is_not_found (ClientError e) then Ok () else Err (ClientError e)
            end)).
Proof.
  unfold deleteApplication, ignoreNotFound. cbv zeta. repeat go_step.
  match goal with H : env_step _ _ _ _ _ _ |- _ => destruct H as [_ ->] end.
  match goal with |- context [mkLogged _ ?r] => destruct r as [a|e] end.
  - case_decide as Hpk; repeat go_step.
    + split; [done|]. exists (inl a). by left.
    + match goal with H : env_step _ _ _ _ _ _ |- _ => destruct H as [_ ->] end.
      match goal with |- context [match ?x with inl _ => _ | inr _ => _ end] => destruct x as [d|e] eqn:Ed end;
        repeat go_step; [|destruct (is_not_found _) eqn:En; repeat go_step].
      all: split; [done|]; exists (inl a); right; eexists a, _; rewrite <- app_assoc; split_and!; try done; simpl; by rewrite ?En.
  - destruct (is_not_found _) eqn:En; repeat go_step.
    all: split; [done|]; exists (inr e); left; by rewrite En.
Qed.

(** ** A remembered role that no longer exists *)

(** The server answers 404 to the removal of a marker from the role [uuid], as authentik does for an unknown role. *)
Definition role_is_gone (uuid : string) (R : Type) (q : call R) : R -> Prop :=
  match q in call R return R -> Prop with
  | UnassignObjectPermission role _ _ _ => fun r =>
      role = uuid -> exists operation body, r = inr (APIError operation StatusNotFound body)
  | _ => fun _ => True
  end.

(** Neither the finalizer nor any other metadata or spec of the resource is written. *)
Definition no_kube_patch (e : logged call) : Prop :=
  match e.(log_call) with KubePatch _ _ => False | _ => True end.

Section stale.
Context (uuid : string) (Huuid : uuid <> "").
Abbreviation stale_env := (log_env (role_is_gone uuid) True).

Lemma remove_stale_role o mc w (Q : markerCache -> result () -> list (logged call) -> Prop) :
  mc.(mc_marker).(marker_roleUUID) = uuid ->
  (forall e r, is_not_found e = true ->
    Q mc (Err e) (w ++ [mkLogged (UnassignObjectPermission uuid o.(Object_Model) o.(Object_PK)
      (viewPermission o.(Object_Model))) r])) ->
  mwp stale_env (remove o) mc w Q.
Proof.
  intros Hmc HQ. unfold remove, with_marker, Unmark, role. repeat go_step. rewrite Hmc, decide_True by done.
  repeat go_step. match goal with H : env_step _ _ _ _ _ _ |- _ => destruct H as [Hr ->] end. simpl in Hr.
  destruct (Hr eq_refl) as (operation & body & ->). repeat go_step.
  assert (set_marker (mc_marker mc) mc = mc) as -> by by destruct mc. by apply HQ.
Qed.

(** Under the policy [Retain] a release only collects the recorded objects before it removes their markers. *)
Lemma release_retain app s w (Q : reconcileState -> result () -> list (logged call) -> Prop) :
  deletes app = false ->
  mwp stale_env (mfor (recorded_objects app) (fun object => markers (remove object))) s w Q ->
  mwp stale_env (release app) s w Q.
Proof.
  intros Hd Hfor. unfold release. cbv zeta. rewrite Hd. go_step.
  eapply mwp_mono; [apply (mwp_fold _ _ _ _ (fun seen acc s' w' => acc = map bindingObject seen /\ s' = s /\ w' = w)
    (fun _ _ _ => False))|]; [done| |].
  { intros seen x rest acc s' w' _ (-> & -> & ->). repeat go_step. by rewrite map_app. }
  intros s' [acc|e] w'; [|done]. intros (-> & -> & ->). go_step.
  unfold recorded_objects in Hfor. case_decide; repeat go_step.
  all: destruct app.(App_Status).(Status_ProviderPK), app.(App_Spec).(Spec_Provider); repeat go_step.
  all: (eapply mwp_mono; [exact Hfor|]); intros ? [[]|] ? ?; repeat go_step; done.
Qed.

(** C26: A release cannot pass a marker whose role is gone. While the remembered ownership role does not exist on the
    server, so that the removal of a marker from it answers 404, a finalize under the policy [Retain] of a resource
    with at least one recorded object fails, forgets nothing and leaves the finalizer in place, although the marker
    it wants to remove is gone. *)
Theorem finalize_blocked_by_stale_role `{KubeLib} s w :
  s.(rs_markers).(mc_marker).(marker_roleUUID) = uuid ->
  ContainsFinalizer s.(rs_app).(App_Finalizers) finalizer = true ->
  deletes s.(rs_app) = false -> recorded_objects s.(rs_app) <> [] ->
  mwp stale_env finalize s w (fun s' r w' =>
    (exists e, r = Err e) /\ s'.(rs_markers) = s.(rs_markers) /\ exists l, w' = w ++ l /\ Forall no_kube_patch l).
Proof.
  intros Hrole Hfin Hd Hrec. unfold finalize, get_app. repeat go_step. rewrite Hfin. simpl. repeat go_step.
  apply release_retain; [done|]. destruct (recorded_objects (rs_app s)) as [|o rest]; [done|]. simpl. unfold markers.
  repeat go_step. apply remove_stale_role; [done|]. intros e r _.
  assert (set_markers (rs_markers s) s = s) as -> by by destruct s.
  repeat go_step. apply update_status_spec. go_step. apply setReady_spec. intros l Hl. repeat go_step.
  assert (Hcalls : Forall no_kube_patch l).
  { eapply Forall_impl; [exact Hl|]. intros [R c a]. by destruct c. }
  apply patchStatus_spec; [|intros answer _ _; destruct answer]; intros; repeat go_step; (split; [by eexists|]);
    (split; [done|]); rewrite <- ?app_assoc; eexists; (split; [reflexivity|]); rewrite ?Forall_app; by repeat constructor.
Qed.
End stale.

(** A deleted resource that records an Application, while the operator remembers a role that is gone. *)
Definition example_deleted : AuthentikApplication :=
  let app := example_resource "a" "uid-a" 10 "pk" in
  mkResource app.(App_Namespace) app.(App_Name) app.(App_UID) 1 10 (Some 20) [finalizer] app.(App_Spec) app.(App_Status).

Definition example_state : reconcileState :=
  mkReconcileState example_deleted example_deleted None (newMarkerCache (mkMarker "operator" "gone") 60 false).

Lemma finalize_blocked_by_stale_role_witness :
  mwp (log_env (role_is_gone "gone") True) (@finalize list_KubeLib) example_state [] (fun s' r w' =>
    (exists e, r = Err e) /\ s'.(rs_markers) = example_state.(rs_markers) /\ exists l, w' = l /\ Forall no_kube_patch l).
Proof.
  apply (@finalize_blocked_by_stale_role "gone" ltac:(discriminate) list_KubeLib example_state []).
  - reflexivity.
  - reflexivity.
  - reflexivity.
  - discriminate.
Defined.
